(** * CrewAI Command Center: runtime orchestration and live-log core

    A shallow embedding of the backend modules
    [activity_store.py], [crew_broadcast.py], [crew_storage.py],
    [crew_runtime.py] and the request-metric estimator of [main.py],
    followed by the properties established about them.

    Conventions of the embedding.
    - A Python [str] is a [string] over the 8-bit alphabet, read as the
      code points 0..255.
    - Every read of the wall clock ([datetime.utcnow()], [_utcnow()]) is
      an explicit argument: an instant in microseconds since the epoch,
      which is the resolution of [datetime].  A [datetime] holds the
      years 1 to 9999, and arithmetic that leaves them raises.
    - The rendering of an instant as an ISO-8601 string and its parsing
      are parameters of the activity store; the properties that need it
      assume that parsing undoes rendering.  Parsing may give a
      datetime without an offset, which cannot be compared with the
      clock.
    - Dictionaries used as maps are [gmap]s; exceptions are values of an
      error type returned through a sum, and a run is followed up to
      the first call that raises.
    - JSON numbers are integers, and payloads are JSON documents.
    - A Python [float] is a binary64 float of the prover.  What is
      proved of its arithmetic for all inputs rests on the
      specification of the operations that comes with them: IEEE 754,
      rounding to nearest, ties to even.
    - A coroutine runs without interruption from one [await] to the
      next.  What the rest of the event loop does to the shared state
      during an [await] is a parameter of the call.
    - The interpreter has no limits of its own: no bound on the depth
      of recursion or on memory.
    - Python objects that can be shared and mutated (payloads, entries,
      results) live in a heap of dictionaries and lists; the store is
      modelled once over JSON values, for what it computes, and once
      over the heap, for what it shares. *)

From Stdlib Require Import ZArith QArith Qround List String Ascii Bool Lia.
From Stdlib Require Import Floats DecimalString DecimalZ DecimalPos.
From stdpp Require Import gmap strings list sorting.

Set Warnings "-register-all".

Open Scope string_scope.
Open Scope Z_scope.

(* ===================================================================== *)
(** * Part I: the model                                                   *)
(* ===================================================================== *)

(** ** Python string primitives used by the sources *)
Module PyStr.

Definition code (c : ascii) : N := N_of_ascii c.

Definition in_range (lo hi : N) (c : ascii) : bool :=
  ((lo <=? code c) && (code c <=? hi))%N.

(** [str.lower()] on one code point below 256: the ASCII capitals and
    the Latin-1 capitals (all of 0xC0..0xDE but the sign 0xD7) move
    down by 32. *)
Definition lower_char (c : ascii) : ascii :=
  if in_range 65 90 c
     || (in_range 192 222 c && negb (code c =? 215)%N)
  then ascii_of_N (code c + 32)
  else c.

Fixpoint lower (s : string) : string :=
  match s with
  | EmptyString => EmptyString
  | String c rest => String (lower_char c) (lower rest)
  end.

Fixpoint startswith (p s : string) : bool :=
  match p, s with
  | EmptyString, _ => true
  | String a p', String b s' => Ascii.eqb a b && startswith p' s'
  | String _ _, EmptyString => false
  end.

(** [term in s] for two strings: [term] occurs as a substring. *)
Fixpoint str_in (term s : string) : bool :=
  startswith term s
  || match s with
     | EmptyString => false
     | String _ rest => str_in term rest
     end.

(** [any(term in s for term in terms)] *)
Definition any_in (terms : list string) (s : string) : bool :=
  existsb (fun term => str_in term s) terms.

(** The code points below 256 that [str.strip()] removes: the ASCII
    white space 9..13 and 32, the separators 28..31, NEL (0x85) and the
    no-break space (0xA0). *)
Definition is_space (c : ascii) : bool :=
  in_range 9 13 c || in_range 28 32 c
  || (code c =? 133)%N || (code c =? 160)%N.

Fixpoint lstrip (s : string) : string :=
  match s with
  | EmptyString => EmptyString
  | String c rest => if is_space c then lstrip rest else s
  end.

Fixpoint rstrip (s : string) : string :=
  match s with
  | EmptyString => EmptyString
  | String c rest =>
      match rstrip rest with
      | EmptyString => if is_space c then EmptyString else String c EmptyString
      | kept => String c kept
      end
  end.

Definition strip (s : string) : string := rstrip (lstrip s).

(** Truth value of a string: [not s] holds for the empty string only. *)
Definition truthy (s : string) : bool :=
  match s with EmptyString => false | String _ _ => true end.

End PyStr.

(** ** crew_broadcast.py *)
Module CrewBroadcast.
Import PyStr.

Inductive log_category :=
| SEARCH | ANALYSIS | DECISION | RESULT | ERROR | ACTION | INFO.

Definition category_name (c : log_category) : string :=
  match c with
  | SEARCH => "SEARCH" | ANALYSIS => "ANALYSIS" | DECISION => "DECISION"
  | RESULT => "RESULT" | ERROR => "ERROR" | ACTION => "ACTION"
  | INFO => "INFO"
  end.

Definition search_terms := ["search"; "query"; "looking for"; "find"].
Definition analysis_terms := ["analyz"; "process"; "evaluat"; "assess"].
Definition decision_terms := ["decid"; "select"; "choose"; "determin"].
Definition result_terms := ["result"; "found"; "complet"; "finish"].
Definition error_terms := ["error"; "fail"; "exception"; "issue"].
Definition action_terms := ["execut"; "perform"; "run"; "start"].

Definition categorize_log (message : string) : log_category :=
  let message_lower := lower message in
  if any_in search_terms message_lower then SEARCH
  else if any_in analysis_terms message_lower then ANALYSIS
  else if any_in decision_terms message_lower then DECISION
  else if any_in result_terms message_lower then RESULT
  else if any_in error_terms message_lower then ERROR
  else if any_in action_terms message_lower then ACTION
  else INFO.

(** The priority list as the specification words it: the keyword
    groups from highest to lowest priority, scanned until the first
    group with a keyword occurring in the lower-cased message. *)
Definition priority_groups : list (log_category * list string) :=
  [ (SEARCH, search_terms); (ANALYSIS, analysis_terms);
    (DECISION, decision_terms); (RESULT, result_terms);
    (ERROR, error_terms); (ACTION, action_terms) ].

Fixpoint first_match (groups : list (log_category * list string))
         (s : string) : log_category :=
  match groups with
  | [] => INFO
  | (c, terms) :: rest =>
      if any_in terms s then c else first_match rest s
  end.


(** *** Clock *)

(** An instant of [datetime.utcnow()], in microseconds. *)
Definition instant := Z.

(** [delta.total_seconds() < seconds] and [... > seconds] for a
    difference [delta] of two instants and an integer number of
    seconds.  The source rounds the quotient [delta / 10^6] to a float
    before it compares; the floats around [seconds] lie less than a
    microsecond apart as long as [seconds] is at most 2^33, and the
    comparison is then that of the integers. *)
Definition total_seconds_lt (delta seconds : Z) : bool :=
  delta <? seconds * 1000000.

Definition total_seconds_gt (delta seconds : Z) : bool :=
  seconds * 1000000 <? delta.

(** A number of seconds in the range where the two comparisons above
    are exact. *)
Definition exact_seconds (seconds : Z) : Prop := Z.abs seconds <= 2 ^ 33.

(** *** Log entries *)

Record log_entry := {
  crewId : string;
  message : string;
  level : string;
  timestamp : instant;
  category : log_category;
  agent : string;
  operationId : option string;
  sequence : Z;
  isDuplicate : option bool;      (* absent until the dedup step *)
  duplicateCount : option Z
}.

(** *** LogDeduplicator *)

Record LogDeduplicator := {
  recent_logs : gmap Z (instant * Z);
  time_window : Z
}.

Definition new_LogDeduplicator (time_window : Z) : LogDeduplicator :=
  {| recent_logs := ∅; time_window := time_window |}.

Definition set_recent (d : LogDeduplicator) (key : Z) (v : instant * Z)
  : LogDeduplicator :=
  {| recent_logs := <[key := v]> (recent_logs d);
     time_window := time_window d |}.

Section Dedup.
(** Python's [hash] of the pair [(message, agent)]; it is salted per
    process, so it is a parameter. *)
Variable hash : string * string -> Z.

Definition is_duplicate (current_time : instant) (e : log_entry)
           (d : LogDeduplicator) : (bool * Z) * LogDeduplicator :=
  let log_hash := hash (message e, agent e) in
  let fresh := ((false, 1), set_recent d log_hash (current_time, 1)) in
  match recent_logs d !! log_hash with
  | Some (last_seen, count) =>
      if total_seconds_lt (current_time - last_seen) (time_window d)
      then ((true, count + 1),
            set_recent d log_hash (current_time, count + 1))
      else fresh
  | None => fresh
  end.

(** The key of [e] is unknown to [d], or was last seen a full window
    before [now]. *)
Definition first_sight (d : LogDeduplicator) (e : log_entry)
           (now : instant) : Prop :=
  match recent_logs d !! hash (message e, agent e) with
  | None => True
  | Some (last_seen, _) => time_window d * 1000000 <= now - last_seen
  end.

End Dedup.

Definition dedup_cleanup (current_time : instant) (d : LogDeduplicator)
  : LogDeduplicator :=
  {| recent_logs :=
       filter (fun kv => total_seconds_gt (current_time - fst (snd kv))
                                          (time_window d) = false)
              (recent_logs d);
     time_window := time_window d |}.

(** *** OperationTracker *)

Record operation := {
  op_type : log_category;
  op_agent : option string;
  start_time : instant;
  status : string;
  op_sequence : Z;
  end_time : option instant
}.

Record OperationTracker := {
  operations : gmap string operation;
  current_operation_id : option string
}.

Definition new_OperationTracker : OperationTracker :=
  {| operations := ∅; current_operation_id := None |}.

Section Tracker.
(** [str(t.timestamp()).replace(".", "")]: the decimal rendering of the
    instant with the point removed.  Kept as a parameter. *)
Variable operation_id_of : instant -> string.

(** [start_operation] reads the clock twice: for the id, then for
    [start_time]. *)
Definition start_operation (t_id t_start : instant)
           (operation_type : log_category) (agent : option string)
           (tr : OperationTracker) : string * OperationTracker :=
  let operation_id := operation_id_of t_id in
  (operation_id,
   {| operations :=
        <[operation_id :=
            {| op_type := operation_type; op_agent := agent;
               start_time := t_start; status := "in_progress";
               op_sequence := 0; end_time := None |}]> (operations tr);
      current_operation_id := Some operation_id |}).

End Tracker.

Definition update_operation (operation_id : string)
           (new_status : option string) (tr : OperationTracker)
  : Z * OperationTracker :=
  match operations tr !! operation_id with
  | None => (0, tr)
  | Some op =>
      let st := match new_status with
                | Some s => if truthy s then s else status op
                | None => status op
                end in
      let op' := {| op_type := op_type op; op_agent := op_agent op;
                    start_time := start_time op; status := st;
                    op_sequence := op_sequence op + 1;
                    end_time := end_time op |} in
      (op_sequence op',
       {| operations := <[operation_id := op']> (operations tr);
          current_operation_id := current_operation_id tr |})
  end.

Definition end_operation (now : instant) (operation_id : string)
           (new_status : string) (tr : OperationTracker)
  : OperationTracker :=
  match operations tr !! operation_id with
  | None => tr
  | Some op =>
      let op' := {| op_type := op_type op; op_agent := op_agent op;
                    start_time := start_time op; status := new_status;
                    op_sequence := op_sequence op;
                    end_time := Some now |} in
      {| operations := <[operation_id := op']> (operations tr);
         current_operation_id :=
           if decide (current_operation_id tr = Some operation_id)
           then None else current_operation_id tr |}
  end.

Definition op_expired (current_time : instant) (max_age_seconds : Z)
           (op : operation) : bool :=
  match end_time op with
  | Some t => total_seconds_gt (current_time - t) max_age_seconds
  | None => false
  end.

Definition cleanup_completed_operations (current_time : instant)
           (max_age_seconds : Z) (tr : OperationTracker)
  : OperationTracker :=
  {| operations :=
       filter (fun kv => op_expired current_time max_age_seconds (snd kv)
                         = false) (operations tr);
     current_operation_id := current_operation_id tr |}.

(** *** One iteration of the reader loop of [stream_process_logs] *)

(** The clock reads an iteration may perform, in program order. *)
Record line_clock := {
  t_start_id : instant;   (* start_operation: id *)
  t_start : instant;      (* start_operation: start_time *)
  t_end : instant;        (* end_operation *)
  t_entry : instant;      (* timestamp of the log entry *)
  t_dedup : instant       (* is_duplicate *)
}.

(** What the surroundings do when called for this line. *)
Record sinks := {
  has_activity_callback : bool;
  activity_callback_raises : bool
}.

Inductive call :=
| ActivityCallback (event : string) (e : log_entry)
| SioEmit (event : string) (e : log_entry).

Definition is_thinking (c : log_category) : bool :=
  match c with SEARCH | ANALYSIS | DECISION => true | _ => false end.

Definition is_result (c : log_category) : bool :=
  match c with RESULT => true | _ => false end.

Definition call_entry (c : call) : log_entry :=
  match c with ActivityCallback _ e | SioEmit _ e => e end.

(** Truth value of [current_operation_id]: neither [None] nor empty. *)
Definition id_truthy (o : option string) : bool :=
  match o with Some s => truthy s | None => false end.

Section Stream.
Variable hash : string * string -> Z.
Variable operation_id_of : instant -> string.
(** [extract_agent_name] with its default: a search for five regular
    expressions.  No property below depends on which name it finds. *)
Variable extract_agent_name : string -> string.

(** Lines 203-222: the tracker update, giving the tracker, the
    [operation_id_for_log] and the [sequence] of the entry. *)
Definition track_line (clk : line_clock) (cat : log_category)
           (agent : string) (tr : OperationTracker)
  : OperationTracker * option string * Z :=
  if is_thinking cat then
    let '(operation_id, tr1) :=
      match current_operation_id tr with
      | None => start_operation operation_id_of (t_start_id clk)
                                (t_start clk) cat (Some agent) tr
      | Some cur => (cur, tr)
      end in
    let '(seq, tr2) := update_operation operation_id None tr1 in
    (tr2, Some operation_id, seq)
  else if is_result cat && id_truthy (current_operation_id tr) then
    let operation_id := default EmptyString (current_operation_id tr) in
    let '(seq, tr1) := update_operation operation_id None tr in
    (end_operation (t_end clk) operation_id "complete" tr1, None, seq)
  else if id_truthy (current_operation_id tr) then
    let operation_id := default EmptyString (current_operation_id tr) in
    let '(seq, tr1) := update_operation operation_id None tr in
    (tr1, Some operation_id, seq)
  else (tr, None, 0).

(** Lines 224-233: the entry before the dedup fields are added. *)
Definition build_entry (clk : line_clock) (crew_id text lvl : string)
           (cat : log_category) (agent : string)
           (operation_id_for_log : option string) (seq : Z) : log_entry :=
  {| crewId := crew_id; message := text;
     level := if String.eqb lvl "error" then "error" else "info";
     timestamp := t_entry clk; category := cat; agent := agent;
     operationId := operation_id_for_log; sequence := seq;
     isDuplicate := None; duplicateCount := None |}.

Definition with_dedup (e : log_entry) (dup : bool) (count : Z) : log_entry :=
  {| crewId := crewId e; message := message e; level := level e;
     timestamp := timestamp e; category := category e; agent := agent e;
     operationId := operationId e; sequence := sequence e;
     isDuplicate := Some dup; duplicateCount := Some count |}.

(** Lines 242-247: the callback, then the emit; an exception of the
    callback skips the emit, and every exception is logged and dropped. *)
Definition publish (sk : sinks) (e : log_entry) : list call :=
  if has_activity_callback sk then
    if activity_callback_raises sk
    then [ActivityCallback "crew_log" e]
    else [ActivityCallback "crew_log" e; SioEmit "crew_log" e]
  else [SioEmit "crew_log" e].

(** Lines 197-247 for one decoded line [text]. *)
Definition process_line (clk : line_clock) (sk : sinks)
           (crew_id text lvl : string)
           (st : OperationTracker * LogDeduplicator)
  : (OperationTracker * LogDeduplicator) * list call :=
  let '(tr, dd) := st in
  if negb (truthy (strip text)) then (st, [])
  else
    let agent := extract_agent_name text in
    let cat := categorize_log text in
    let '(tr', operation_id_for_log, seq) := track_line clk cat agent tr in
    let e := build_entry clk crew_id text lvl cat agent
                         operation_id_for_log seq in
    let '((dup, count), dd') := is_duplicate hash (t_dedup clk) e dd in
    let e' := with_dedup e dup count in
    if dup && (1 <? count) then ((tr', dd'), [])
    else ((tr', dd'), publish sk e').

End Stream.

(** *** Concrete instances used to exercise the model *)

Definition sample_entry (msg who : string) : log_entry :=
  {| crewId := "crew"; message := msg; level := "info"; timestamp := 0;
     category := INFO; agent := who; operationId := None; sequence := 0;
     isDuplicate := None; duplicateCount := None |}.

Definition sample_hash (k : string * string) : Z :=
  Z.of_nat (String.length (fst k)) * 1000 + Z.of_nat (String.length (snd k)).

(** *** The broadcaster over a run *)

(** One broadcaster serves every crew and both streams of each.  The
    reader tasks share its deduplicator and tracker, and an iteration
    of a reader touches them between two [await]s only: from the line
    it has read up to the emit, nothing else runs.  A run is therefore
    a sequence of whole iterations and whole clean-ups. *)

(** One decoded line as it reaches line 197: the clock reads of its
    iteration, what the sinks do, and the crew and level of the stream
    it came from. *)
Record line := {
  l_clock : line_clock;
  l_sinks : sinks;
  l_crew : string;
  l_level : string;
  l_text : string
}.

Inductive activity :=
| Line (l : line)
| Cleanup (t_dedup t_ops : instant).

(** [CrewLogBroadcaster.cleanup]: both clean-ups, each reading the
    clock for itself; the tracker's with its default age. *)
Definition broadcaster_cleanup (t_dedup t_ops : instant)
           (st : OperationTracker * LogDeduplicator)
  : OperationTracker * LogDeduplicator :=
  (cleanup_completed_operations t_ops 3600 (fst st),
   dedup_cleanup t_dedup (snd st)).

Section Broadcaster.
Variable hash : string * string -> Z.
Variable operation_id_of : instant -> string.
Variable extract_agent_name : string -> string.

Definition handle (a : activity) (st : OperationTracker * LogDeduplicator)
  : (OperationTracker * LogDeduplicator) * list call :=
  match a with
  | Line l =>
      process_line hash operation_id_of extract_agent_name
                   (l_clock l) (l_sinks l) (l_crew l) (l_text l) (l_level l) st
  | Cleanup t_dedup t_ops => (broadcaster_cleanup t_dedup t_ops st, [])
  end.

Fixpoint handle_all (acts : list activity)
         (st : OperationTracker * LogDeduplicator)
  : (OperationTracker * LogDeduplicator) * list call :=
  match acts with
  | [] => (st, [])
  | a :: rest =>
      let '(st1, calls1) := handle a st in
      let '(st2, calls2) := handle_all rest st1 in
      (st2, (calls1 ++ calls2)%list)
  end.

End Broadcaster.

(** The read of the clock by [is_duplicate] in the iteration of a line. *)
Definition dedup_time (l : line) : instant := t_dedup (l_clock l).

(** Every count the deduplicator holds is at least 1. *)
Definition counts_positive (d : LogDeduplicator) : Prop :=
  forall k t n, recent_logs d !! k = Some (t, n) -> 1 <= n.

(** The current operation, if there is one, is registered and has not
    ended. *)
Definition tracker_ok (tr : OperationTracker) : Prop :=
  forall id, current_operation_id tr = Some id ->
    exists op, operations tr !! id = Some op /\ end_time op = None.

(** Each instant of [ts] comes less than [w] seconds after the one
    before it, the first one after [prev]. *)
Fixpoint gaps_below (w : Z) (prev : instant) (ts : list instant) : Prop :=
  match ts with
  | [] => True
  | t :: rest => t - prev < w * 1000000 /\ gaps_below w t rest
  end.

(** [d1] is [d2] without some keys last seen more than a window before
    [T]. *)
Definition dedup_sim (T : instant) (d1 d2 : LogDeduplicator) : Prop :=
  time_window d1 = time_window d2
  /\ forall k,
       recent_logs d1 !! k = recent_logs d2 !! k
       \/ (recent_logs d1 !! k = None
           /\ exists last n, recent_logs d2 !! k = Some (last, n)
                             /\ time_window d2 * 1000000 < T - last).

(** [tr1] is [tr2] without some operations that have ended. *)
Definition tracker_sim (tr1 tr2 : OperationTracker) : Prop :=
  current_operation_id tr1 = current_operation_id tr2
  /\ forall id,
       operations tr1 !! id = operations tr2 !! id
       \/ (operations tr1 !! id = None
           /\ exists op t, operations tr2 !! id = Some op
                           /\ end_time op = Some t).

Definition sample_clock (t : instant) : line_clock :=
  {| t_start_id := t; t_start := t; t_end := t; t_entry := t; t_dedup := t |}.

Definition sample_line (t : instant) (crew lvl text : string) : line :=
  {| l_clock := sample_clock t;
     l_sinks := {| has_activity_callback := true;
                   activity_callback_raises := false |};
     l_crew := crew; l_level := lvl; l_text := text |}.

End CrewBroadcast.

(** ** Exceptions *)

(** The exceptions the sources raise or catch; all of them derive from
    [Exception], which is what the [except] clauses of the sources
    catch. *)
Module PyExc.

Inductive exn :=
| ValueError (msg : string)
| Exception (msg : string)
| RuntimeError (msg : string)
| OSError (msg : string)
| IndexError (msg : string)
| OverflowError (msg : string)
| TypeError (msg : string)
| KeyError (msg : string).

(** A call that may raise: the exception on the left. *)
Definition raising (A : Type) : Type := exn + A.

(** Sequencing: an exception of the first step ends the computation. *)
Definition bind {A B : Type} (r : raising A) (f : A -> raising B)
  : raising B :=
  match r with inl e => inl e | inr a => f a end.

Notation "'let*' x ':=' e 'in' k" := (bind e (fun x => k))
  (at level 10, x name, e at level 100, k at level 200).
Notation "'let*' ' p ':=' e 'in' k" := (bind e (fun p => k))
  (at level 10, p strict pattern, e at level 100, k at level 200).

End PyExc.

(** ** crew_storage.py: identifier normalisation *)
Module CrewStorage.
Import PyStr PyExc.

Definition is_ascii_letter (c : ascii) : bool :=
  in_range 65 90 c || in_range 97 122 c.

Definition is_ascii_digit (c : ascii) : bool := in_range 48 57 c.

Definition is_underscore (c : ascii) : bool := (code c =? 95)%N.

(** The class [[A-Za-z0-9_]]. *)
Definition name_char (c : ascii) : bool :=
  is_ascii_letter c || is_ascii_digit c || is_underscore c.

(** [str.isalpha()] on one code point below 256. *)
Definition isalpha (c : ascii) : bool :=
  is_ascii_letter c
  || (code c =? 170)%N || (code c =? 181)%N || (code c =? 186)%N
  || (in_range 192 255 c && negb (code c =? 215)%N
      && negb (code c =? 247)%N).

Fixpoint all_chars (p : ascii -> bool) (s : string) : bool :=
  match s with
  | EmptyString => true
  | String c rest => p c && all_chars p rest
  end.

(** [s.replace(old, new)] for one-character [old] and [new]. *)
Fixpoint replace_char (old new : ascii) (s : string) : string :=
  match s with
  | EmptyString => EmptyString
  | String c rest =>
      String (if Ascii.eqb c old then new else c) (replace_char old new rest)
  end.

(** [MODULE_IMPORT_NAME.fullmatch]: the whole string matches
    [[A-Za-z_][A-Za-z0-9_]*]. *)
Definition MODULE_IMPORT_NAME_fullmatch (s : string) : bool :=
  match s with
  | EmptyString => false
  | String c rest =>
      (is_ascii_letter c || is_underscore c)
      && all_chars name_char rest
  end.

Definition normalize_crew_identifier (raw_id : string) : raising string :=
  let candidate := strip raw_id in
  if negb (truthy candidate) then inl (ValueError "Crew ID cannot be empty")
  else
    let normalized := replace_char "." "_" (replace_char "-" "_" candidate) in
    match normalized with
    | EmptyString => inl (ValueError "Crew ID cannot be empty")
    | String c0 _ =>
        if negb (isalpha c0 || is_underscore c0) then
          inl (ValueError
                 ("Invalid crew ID '" ++ raw_id
                  ++ "'. Crew IDs must start with a letter or underscore."))
        else if negb (MODULE_IMPORT_NAME_fullmatch normalized) then
          inl (ValueError
                 ("Invalid crew ID '" ++ raw_id
                  ++ "'. Crew IDs may only contain letters, numbers, hyphens,"
                  ++ " periods, or underscores."))
        else inr normalized
    end.

(** *** Directory discovery *)

(** An entry of [crews_folder.iterdir()], by its name. *)
Record dir_entry := {
  entry_name : string;
  entry_is_dir : bool
}.

(** What [list(self.crews_folder.iterdir())] does: it returns the
    entries, raises [FileNotFoundError] (the one exception
    [find_existing_crew_dir] catches), or raises something else. *)
Inductive listing :=
| Entries (entries : list dir_entry)
| FileNotFound
| ListingFails (e : exn).

(** The crews folder as [find_existing_crew_dir] reads it:
    [candidate.exists() and candidate.is_dir()] for the child with a
    given name, and the listing. *)
Record crews_folder := {
  child_is_dir : string -> bool;
  iterdir : listing
}.

(** The loop over the entries (lines 82-89); a path below the folder is
    given by its name. *)
Fixpoint first_entry_for (normalized_id : string) (entries : list dir_entry)
  : raising (option string) :=
  match entries with
  | [] => inr None
  | entry :: rest =>
      if negb (entry_is_dir entry) then first_entry_for normalized_id rest
      else
        match normalize_crew_identifier (entry_name entry) with
        | inr id =>
            if String.eqb id normalized_id then inr (Some (entry_name entry))
            else first_entry_for normalized_id rest
        | inl (ValueError _) => first_entry_for normalized_id rest
        | inl e => inl e
        end
  end.

Definition find_existing_crew_dir (fs : crews_folder) (normalized_id : string)
  : raising (option string) :=
  if child_is_dir fs normalized_id then inr (Some normalized_id)
  else
    match iterdir fs with
    | FileNotFound => inr None
    | ListingFails e => inl e
    | Entries entries => first_entry_for normalized_id entries
    end.

Definition resolve_crew_dir (fs : crews_folder) (crew_id : string)
  : raising (string * string) :=
  let* normalized_id := normalize_crew_identifier crew_id in
  let* crew_dir := find_existing_crew_dir fs normalized_id in
  match crew_dir with
  | None => inl (ValueError ("Crew '" ++ crew_id ++ "' does not exist"))
  | Some dir => inr (normalized_id, dir)
  end.

Definition sample_folder : crews_folder :=
  {| child_is_dir := fun _ => false;
     iterdir := Entries [ {| entry_name := "README.md"; entry_is_dir := false |};
                          {| entry_name := "2024-archive"; entry_is_dir := true |};
                          {| entry_name := "my-crew"; entry_is_dir := true |};
                          {| entry_name := "my.crew"; entry_is_dir := true |} ] |}.

End CrewStorage.

(** ** crew_runtime.py: start and stop *)
Module CrewRuntime.
Import PyStr PyExc CrewStorage.

(** A process handle as [stop_crew] sees it.  The attributes are probed
    with [getattr]/[hasattr], so each may be missing. *)
Record os_process := {
  pid : string;
  (* [None]: no such attribute; [Some None]: still running *)
  returncode : option (option Z);
  (* what [terminate()] raises, if anything *)
  terminate_raises : option exn;
  (* [None]: no [kill] method; [Some r]: what [kill()] raises *)
  kill_raises : option (option exn)
}.

Record handle := {
  process : option os_process;
  process_id : string
}.

Record lifecycle_payload := {
  payload_crew_id : string;
  payload_process_id : string;
  payload_status : string
}.

(** Calls made on the outside world, in program order. *)
Inductive effect :=
| Spawn (cmd : list string) (cwd : string) (env : gmap string string)
| RecordActivity (event : string) (p : lifecycle_payload)
| Emit (event : string) (p : lifecycle_payload)
| CreateStreamTask (crew process_id : string)
| Terminate (pid : string)
| Kill (pid : string).

Record runtime := {
  running_crews : gmap string handle;
  effects : list effect
}.

Definition perform (e : effect) (rt : runtime) : runtime :=
  {| running_crews := running_crews rt; effects := effects rt ++ [e] |}.

(** The collaborators of the runtime: storage, file system, process
    environment, subprocess creation and notifier. *)
Record host := {
  resolve_existing_config_dir : string -> raising (string * string * string);
  (* [str(dir / name)]: pathlib joins with the separator of the platform *)
  joinpath : string -> string -> string;
  path_exists : string -> bool;
  dotenv_values : string -> list (string * option string);
  os_environ : gmap string string;
  which_uv : option string;
  relpath : string -> string -> string;
  sys_executable : string;
  pathsep : string;
  str_upper : string -> string;
  platform_system : string;
  (* [asyncio.create_subprocess_exec] and [_start_process_windows] *)
  create_subprocess_exec : list string -> string -> gmap string string
                           -> raising os_process;
  _start_process_windows : list string -> string -> gmap string string
                           -> raising os_process;
  has_activity_callback : bool;
  emit_raises : string -> option exn
}.

(** What the other coroutines of the event loop do to the runtime while
    [start_crew] is suspended.  It awaits twice, the creation of the
    subprocess (lines 153-161) and the emit of [crew_started] (line
    175), and holds no lock: whatever is scheduled meanwhile may start
    crews, free them and make calls of its own. *)
Record interleaving := {
  during_spawn : runtime -> runtime;
  during_emit : runtime -> runtime
}.

(** Nothing else runs. *)
Definition alone : interleaving :=
  {| during_spawn := fun rt => rt; during_emit := fun rt => rt |}.

Definition update_env (env : gmap string string)
           (kvs : list (string * string)) : gmap string string :=
  fold_left (fun acc kv => <[fst kv := snd kv]> acc) kvs env.

Definition record_activity (h : host) (event : string)
           (p : lifecycle_payload) (rt : runtime) : runtime :=
  if has_activity_callback h then perform (RecordActivity event p) rt
  else rt.

(** [inputs] holds the pairs [(str(key), str(value))] in iteration
    order. *)
Definition start_crew (h : host) (others : interleaving) (crew_id : string)
           (inputs : list (string * string)) (rt : runtime)
  : raising string * runtime :=
  match normalize_crew_identifier crew_id with
  | inl e => (inl e, rt)
  | inr normalized_id =>
  if decide (is_Some (running_crews rt !! normalized_id)) then
    (inl (Exception ("Crew " ++ normalized_id ++ " is already running")), rt)
  else
  match resolve_existing_config_dir h normalized_id with
  | inl e => (inl e, rt)
  | inr (crew_dir, pkg_dir, _) =>
  let src_dir := joinpath h crew_dir "src" in
  let main_py := joinpath h pkg_dir "main.py" in
  if negb (path_exists h main_py) then
    (inl (Exception
            ("Invalid crew directory structure for " ++ normalized_id
             ++ ": main.py not found in package directory " ++ pkg_dir)),
     rt)
  else
  let crew_env_path := joinpath h crew_dir ".env" in
  let crew_env_vars :=
    if path_exists h crew_env_path then dotenv_values h crew_env_path
    else [] in
  let merged_env :=
    update_env (os_environ h)
               (omap (fun kv => match snd kv with
                                | Some v => Some (fst kv, v)
                                | None => None
                                end) crew_env_vars) in
  let env := <["PYTHONUNBUFFERED" := "1"]> merged_env in
  let env := update_env env (map (fun kv => (str_upper h (fst kv), snd kv))
                                 inputs) in
  let '(cmd, working_dir, env) :=
    match which_uv h with
    | Some _ =>
        (["uv"; "run"; "python"; relpath h main_py crew_dir], crew_dir, env)
    | None =>
        ([sys_executable h; "-u"; relpath h main_py pkg_dir], pkg_dir,
         <["PYTHONPATH" :=
             src_dir ++ pathsep h
             ++ default EmptyString (env !! "PYTHONPATH")]> env)
    end in
  let rt := perform (Spawn cmd working_dir env) rt in
  let rt := during_spawn others rt in
  match (if String.eqb (platform_system h) "Windows"
         then _start_process_windows h cmd working_dir env
         else create_subprocess_exec h cmd working_dir env) with
  | inl e => (inl e, rt)
  | inr proc =>
  let process_id := pid proc in
  let rt := {| running_crews :=
                 <[normalized_id := {| process := Some proc;
                                       process_id := process_id |}]>
                   (running_crews rt);
               effects := effects rt |} in
  let payload := {| payload_crew_id := normalized_id;
                    payload_process_id := process_id;
                    payload_status := "started" |} in
  let rt := record_activity h "crew_started" payload rt in
  let rt := perform (Emit "crew_started" payload) rt in
  let rt := during_emit others rt in
  match emit_raises h "crew_started" with
  | Some e => (inl e, rt)
  | None =>
  let rt := perform (CreateStreamTask normalized_id process_id) rt in
  (inr process_id, rt)
  end end end end.

(** [stop_crew] never touches [running_crews]; the handle is removed by
    the exit path of the log stream. *)
Definition stop_crew (crew_id : string) (rt : runtime)
  : raising unit * runtime :=
  match normalize_crew_identifier crew_id with
  | inl e => (inl e, rt)
  | inr normalized_id =>
  match running_crews rt !! normalized_id with
  | None => (inr tt, rt)                      (* warning: no running crew *)
  | Some crew_info =>
  match process crew_info with
  | None => (inr tt, rt)                      (* warning: no process *)
  | Some proc =>
  match returncode proc with
  | Some (Some _) => (inr tt, rt)             (* already terminated *)
  | _ =>
  let rt := perform (Terminate (pid proc)) rt in
  match terminate_raises proc with
  | None => (inr tt, rt)
  | Some _ =>
      match kill_raises proc with
      | Some _ => (inr tt, perform (Kill (pid proc)) rt)
      | None => (inr tt, rt)                  (* error: no kill method *)
      end
  end end end end end.

(** *** Concrete instances used to exercise the model *)

Definition sample_process (rc : option (option Z))
           (term : option exn) (kill : option (option exn)) : os_process :=
  {| pid := "4242"; returncode := rc;
     terminate_raises := term; kill_raises := kill |}.

Definition sample_runtime (p : os_process) : runtime :=
  {| running_crews :=
       {[ "my_crew" := {| process := Some p; process_id := "4242" |} ]};
     effects := [] |}.

Definition sample_host : host :=
  {| resolve_existing_config_dir :=
       fun id => inr ("/crews/" ++ id, "/crews/" ++ id ++ "/src/" ++ id,
                      "/crews/" ++ id ++ "/src/" ++ id ++ "/config");
     joinpath := fun dir name => dir ++ "/" ++ name;
     path_exists := fun _ => true;
     dotenv_values := fun _ => [];
     os_environ := ∅;
     which_uv := None;
     relpath := fun _ _ => "main.py";
     sys_executable := "python3";
     pathsep := ":";
     str_upper := fun s => s;
     platform_system := "Linux";
     create_subprocess_exec :=
       fun _ _ _ => inr (sample_process (Some None) None (Some None));
     _start_process_windows :=
       fun _ _ _ => inl (OSError "not on this platform");
     has_activity_callback := true;
     emit_raises := fun _ => None |}.

End CrewRuntime.

(** ** JSON values *)
Module Json.
Import PyExc.

(** What [json.load] produces and [json.dump] accepts, for documents
    whose numbers are integers.  A number written with a fraction or an
    exponent, [NaN] and [Infinity] are read as floats: no value of this
    type stands for them, and what is stated of a file or a payload is
    stated of those without such numbers.  A dictionary keeps its items
    in order; a lookup takes the first item with the key. *)
Inductive json :=
| JNull
| JBool (b : bool)
| JInt (z : Z)
| JStr (s : string)
| JList (items : list json)
| JDict (items : list (string * json)).

Fixpoint dict_get (key : string) (items : list (string * json))
  : option json :=
  match items with
  | [] => None
  | (k, v) :: rest => if String.eqb k key then Some v else dict_get key rest
  end.

(** [key in d] for a value that may not be a dictionary. *)
Definition has_key (key : string) (v : json) : bool :=
  match v with
  | JDict items => bool_decide (is_Some (dict_get key items))
  | _ => false
  end.

(** [d[key]] where the key is known to be present. *)
Definition field (key : string) (v : json) : json :=
  match v with
  | JDict items => default JNull (dict_get key items)
  | _ => JNull
  end.

(** [v[key]] for a string [key] and any value [v]. *)
Definition subscript (key : string) (v : json) : raising json :=
  match v with
  | JDict items =>
      match dict_get key items with
      | Some x => inr x
      | None => inl (KeyError key)
      end
  | JList _ => inl (TypeError "list indices must be integers or slices")
  | JStr _ => inl (TypeError "string indices must be integers")
  | _ => inl (TypeError "object is not subscriptable")
  end.

End Json.

(** ** Python objects: a heap of dictionaries and lists *)
Module PyHeap.
Import Json.

(** Locations are indices into the heap. *)
Abbreviation loc := nat.

Inductive value :=
| VNone
| VBool (b : bool)
| VInt (z : Z)
| VStr (s : string)
| VRef (l : loc).

Inductive object :=
| ODict (items : list (string * value))
| OList (items : list value).

Abbreviation heap := (list object).

Definition values_of (o : object) : list value :=
  match o with
  | ODict items => map snd items
  | OList items => items
  end.

Definition rebuild (o : object) (vals : list value) : object :=
  match o with
  | ODict items => ODict (zip (map fst items) vals)
  | OList _ => OList vals
  end.

Definition blank (o : object) : object :=
  match o with
  | ODict _ => ODict []
  | OList _ => OList []
  end.

Definition copy_result : Type := value * heap * gmap loc loc.

Fixpoint copy_seq (copy : value -> heap -> gmap loc loc -> option copy_result)
         (items : list value) (h : heap) (memo : gmap loc loc)
  : option (list value * heap * gmap loc loc) :=
  match items with
  | [] => Some ([], h, memo)
  | v :: rest =>
      match copy v h memo with
      | None => None
      | Some (v', h1, memo1) =>
          match copy_seq copy rest h1 memo1 with
          | None => None
          | Some (rest', h2, memo2) => Some (v' :: rest', h2, memo2)
          end
      end
  end.

Fixpoint deepcopy_rec (fuel : nat) (x : value) (h : heap)
         (memo : gmap loc loc) : option copy_result :=
  match x with
  | VRef l =>
      match memo !! l with
      | Some y => Some (VRef y, h, memo)
      | None =>
          match fuel, h !! l with
          | S fuel', Some o =>
              let y := length h in
              match copy_seq (deepcopy_rec fuel') (values_of o)
                             (h ++ [blank o])%list (<[l := y]> memo) with
              | Some (vals, h2, memo2) =>
                  Some (VRef y, <[y := rebuild o vals]> h2, memo2)
              | None => None
              end
          | _, _ => None
          end
      end
  | _ => Some (x, h, memo)
  end.

Definition deepcopy (x : value) (h : heap) : option (value * heap) :=
  match deepcopy_rec (length h) x h ∅ with
  | Some (v, h', _) => Some (v, h')
  | None => None
  end.

Definition ref_below (n : nat) (v : value) : Prop :=
  match v with VRef l => (l < n)%nat | _ => True end.

Definition heap_closed (h : heap) : Prop :=
  forall l o, h !! l = Some o -> Forall (ref_below (length h)) (values_of o).


(** The JSON document a value stands for, read off the heap to a
    depth of [fuel] objects. *)
Definition json_of (o : object) (vals : list json) : json :=
  match o with
  | ODict items => JDict (zip (map fst items) vals)
  | OList _ => JList vals
  end.

Fixpoint reify (fuel : nat) (h : heap) (v : value) : option json :=
  match v with
  | VNone => Some JNull
  | VBool b => Some (JBool b)
  | VInt z => Some (JInt z)
  | VStr s => Some (JStr s)
  | VRef l =>
      match fuel with
      | O => None
      | S fuel' =>
          match h !! l with
          | None => None
          | Some o => json_of o <$> mapM (reify fuel' h) (values_of o)
          end
      end
  end.

(** A value is an atom or a reference into [F]. *)
Definition ref_in (F : loc -> Prop) (v : value) : Prop :=
  match v with VRef l => F l | _ => True end.

(** The copy relates values through the memo. *)
Definition val_rel (memo : gmap loc loc) (v v' : value) : Prop :=
  match v with
  | VRef l => exists y, memo !! l = Some y /\ v' = VRef y
  | _ => v' = v
  end.

Definition obj_rel (memo : gmap loc loc) (o o' : object) : Prop :=
  exists vals, o' = rebuild o vals
               /\ Forall2 (val_rel memo) (values_of o) vals.

Definition ref_within (lo hi : nat) (v : value) : Prop :=
  match v with VRef z => (lo <= z < hi)%nat | _ => True end.

(** The state of a copy of objects of [h0] in progress: [h] extends
    [h0]; the memo sends objects of [h0] to objects allocated since;
    these refer to each other only; and the copy of every object that
    is not in progress ([P]) is complete. *)
Record copying (h0 : heap) (P : loc -> Prop) (h : heap)
       (memo : gmap loc loc) : Prop := {
  cp_prefix : h0 `prefix_of` h;
  cp_memo : forall l y, memo !! l = Some y ->
                        (l < length h0)%nat
                        /\ (length h0 <= y < length h)%nat;
  cp_new : forall y o, (length h0 <= y)%nat -> h !! y = Some o ->
                       Forall (ref_within (length h0) (length h))
                              (values_of o);
  cp_done : forall l y, memo !! l = Some y -> ~ P l ->
                        exists o o', h0 !! l = Some o /\ h !! y = Some o'
                                     /\ obj_rel memo o o'
}.

Record copied (h0 : heap) (P : loc -> Prop) (h : heap)
       (memo : gmap loc loc) (h' : heap) (memo' : gmap loc loc) : Prop := {
  cd_inv : copying h0 P h' memo';
  cd_heap : h `prefix_of` h';
  cd_memo : memo ⊆ memo';
  cd_fresh : forall l y, memo' !! l = Some y -> memo !! l = None ->
                         (length h <= y)%nat
}.

End PyHeap.


(** ** activity_store.py *)
Module ActivityStore.
Import PyExc Json.

Definition instant := Z.

(** *** Dates *)

(** The instants a [datetime] can hold, 0001-01-01T00:00:00 to
    9999-12-31T23:59:59.999999 in UTC, in microseconds since the
    epoch. *)
Definition datetime_min : instant := -62135596800000000.
Definition datetime_max : instant := 253402300799999999.

(** What [datetime.fromisoformat] returns: a datetime with an offset,
    which stands for an instant, or one without (naive). *)
Inductive datetime :=
| Aware (t : instant)
| Naive.

(** [t - delta] for the aware datetime at [t] and a [timedelta] of
    [delta] microseconds. *)
Definition datetime_sub (t : instant) (delta : Z) : raising instant :=
  let d := t - delta in
  if (datetime_min <=? d) && (d <=? datetime_max) then inr d
  else inl (OverflowError "date value out of range").

(** [d < cutoff] for an aware [cutoff]. *)
Definition datetime_lt (d : datetime) (cutoff : instant) : raising bool :=
  match d with
  | Aware t => inr (t <? cutoff)
  | Naive =>
      inl (TypeError "can't compare offset-naive and offset-aware datetimes")
  end.

(** [timedelta(seconds=secs)], in microseconds; a [timedelta] holds at
    most 999999999 days. *)
Definition timedelta_seconds (secs : Z) : raising Z :=
  if Z.abs (secs / 86400) <=? 999999999 then inr (secs * 1000000)
  else inl (OverflowError "days must have magnitude <= 999999999").

(** *** Events *)

Definition _TRACKED_EVENTS : list string :=
  ["crew_log"; "crew_started"; "crew_start_ack"; "crew_stopped";
   "crew_error"; "stop_requested"].

Definition tracked (event_type : string) : bool :=
  existsb (String.eqb event_type) _TRACKED_EVENTS.

(** *** The two trimming rules, on any representation of events *)

(** [while events and expired(events[0]): events.pop(0)]; an exception
    of the test ends the loop and the call. *)
Fixpoint pop_while {E : Type} (expired : E -> raising bool)
         (events : list E) : raising (list E) :=
  match events with
  | [] => inr []
  | e :: rest =>
      match expired e with
      | inl x => inl x
      | inr true => pop_while expired rest
      | inr false => inr events
      end
  end.

(** [_enforce_max_events_locked]: [del events[: len(events) - max_events]] *)
Definition enforce_max {E : Type} (max_events : option Z) (events : list E)
  : list E :=
  match max_events with
  | None => events
  | Some m =>
      let n := Z.of_nat (length events) in
      if m <? n then drop (Z.to_nat (n - m)) events else events
  end.

(** Lines 102-110 of [_prune_locked] on the list: the [removed] flag
    and the events kept; the size rule is applied only when something
    was removed. *)
Definition prune_list {E : Type} (expired : E -> raising bool)
           (max_events : option Z) (events : list E)
  : raising (bool * list E) :=
  let* kept := pop_while expired events in
  let removed := (length kept <? length events)%nat in
  inr (removed, if removed then enforce_max max_events kept else kept).

(** *** The store *)

(** The file at [storage_path]. *)
Inductive file_state :=
| NoFile
| Unreadable                       (* [json.load] raises *)
| Content (raw : json).

Record store := {
  max_events : option Z;
  retention : option Z;            (* a [timedelta], in microseconds *)
  storage : option file_state;     (* [None]: no [storage_path] *)
  _events : list json;
  _next_id : Z
}.

Definition with_events (s : store) (events : list json) : store :=
  {| max_events := max_events s; retention := retention s;
     storage := storage s; _events := events; _next_id := _next_id s |}.

(** [v if v and v > 0 else None] *)
Definition positive_or_none (o : option Z) : option Z :=
  match o with
  | Some v => if 0 <? v then Some v else None
  | None => None
  end.

(** [timedelta(seconds=retention_seconds) if retention_seconds and
    retention_seconds > 0 else None] *)
Definition retention_of (retention_seconds : option Z)
  : raising (option Z) :=
  match positive_or_none retention_seconds with
  | Some secs => let* delta := timedelta_seconds secs in inr (Some delta)
  | None => inr None
  end.

Definition _is_valid_event (event : json) : bool :=
  has_key "type" event && has_key "timestamp" event && has_key "data" event.

Section Timestamps.
(** [t.isoformat().replace("+00:00", "Z")] and
    [datetime.fromisoformat(raw.replace("Z", "+00:00"))], the latter
    with [None] for a string it rejects. *)
Variable format_timestamp : instant -> string.
Variable parse_isoformat : string -> option datetime.

(** [_parse_timestamp]: anything but a string has no [replace], which
    is caught like a string that does not parse.  The fallback reads
    the clock again; the reading of the caller stands for it, any
    reading within the retention window giving the same comparison. *)
Definition _parse_timestamp (now : instant) (raw : json) : datetime :=
  match raw with
  | JStr s => default (Aware now) (parse_isoformat s)
  | _ => Aware now
  end.

(** [self._parse_timestamp(event["timestamp"]) < cutoff] *)
Definition expired (now cutoff : instant) (event : json) : raising bool :=
  let* raw := subscript "timestamp" event in
  datetime_lt (_parse_timestamp now raw) cutoff.

Definition _enforce_max_events_locked (s : store) : store :=
  with_events s (enforce_max (max_events s) (_events s)).

(** [if not self.retention] holds of [None] and of a zero timedelta. *)
Definition _prune_locked (now : instant) (s : store)
  : raising (bool * store) :=
  match retention s with
  | None => inr (false, s)
  | Some r =>
      if r =? 0 then inr (false, s)
      else
        let* cutoff := datetime_sub now r in
        let* '(removed, events) :=
          prune_list (expired now cutoff) (max_events s) (_events s) in
        inr (removed, with_events s events)
  end.

Definition persisted_payload (next_id : Z) (events : list json) : json :=
  JDict [("next_id", JInt next_id); ("events", JList events)].

(** [_persist_locked]; [io_ok] tells whether the write and the rename
    went through.  A failure is logged and leaves the file as it was. *)
Definition _persist_locked (io_ok : bool) (s : store) : store :=
  match storage s with
  | None => s
  | Some _ =>
      if io_ok then
        {| max_events := max_events s; retention := retention s;
           storage := Some (Content (persisted_payload (_next_id s)
                                                       (_events s)));
           _events := _events s; _next_id := _next_id s |}
      else s
  end.

(** [add_event] reads the clock for the timestamp, [t_stamp], and
    again, under the lock, for the cutoff, [t_now]. *)
Definition add_event (t_stamp t_now : instant) (io_ok : bool)
           (event_type : string) (payload : json) (s : store)
  : raising (option json * store) :=
  if negb (tracked event_type) then inr (None, s)
  else
    let snapshot := payload in
    let timestamp := format_timestamp t_stamp in
    let* '(_, s) := _prune_locked t_now s in
    let event_id := _next_id s in
    let entry := JDict [("id", JInt event_id); ("type", JStr event_type);
                        ("timestamp", JStr timestamp);
                        ("data", snapshot)] in
    let s := {| max_events := max_events s; retention := retention s;
                storage := storage s; _events := _events s ++ [entry];
                _next_id := event_id + 1 |} in
    let s := _enforce_max_events_locked s in
    inr (Some entry, _persist_locked io_ok s).

Definition get_events (now : instant) (s : store)
  : raising (list json * store) :=
  let* '(_, s) := _prune_locked now s in
  inr (_events s, s).

Definition prune (now : instant) (io_ok : bool) (s : store)
  : raising store :=
  let* '(removed, s) := _prune_locked now s in
  inr (if removed then _persist_locked io_ok s else s).

(** Iterating over the value stored under ["events"]: a dictionary
    yields its keys, a string its characters, and a scalar is not
    iterable. *)
Definition iterate (v : json) : raising (list json) :=
  match v with
  | JList items => inr items
  | JDict items => inr (map (fun kv => JStr (fst kv)) items)
  | JStr s => inr (map (fun c => JStr (String c EmptyString))
                       (list_ascii_of_string s))
  | _ => inl (TypeError "object is not iterable")
  end.

(** The value of [event.get("id", 0)] as an integer.  Of the values of
    [json], a string, a list, a dictionary or null makes
    [max(...) + 1] raise. *)
Definition id_value (event : json) : raising Z :=
  match event with
  | JDict items =>
      match dict_get "id" items with
      | None => inr 0
      | Some (JInt z) => inr z
      | Some (JBool b) => inr (if b then 1 else 0)
      | Some _ => inl (TypeError "unsupported operand type(s)")
      end
  | _ => inl (TypeError "unsupported operand type(s)")
  end.

Fixpoint max_id (events : list json) : raising Z :=
  match events with
  | [] => inr 0
  | [e] => id_value e
  | e :: rest =>
      match id_value e, max_id rest with
      | inr a, inr b => inr (Z.max a b)
      | inl x, _ => inl x
      | _, inl x => inl x
      end
  end.

(** [next_id is not None and isinstance(next_id, int) and next_id > 0];
    [True] is an [int] and counts as 1. *)
Definition stored_counter (next_id : option json) : option Z :=
  match next_id with
  | Some (JInt z) => if 0 <? z then Some z else None
  | Some (JBool true) => Some 1
  | _ => None
  end.

Definition _load_persisted_events (now : instant) (s : store)
  : raising store :=
  match storage s with
  | None | Some NoFile | Some Unreadable => inr s
  | Some (Content raw) =>
      let* loaded :=
        match raw with
        | JDict items =>
            let* listed :=
              iterate (default (JList []) (dict_get "events" items)) in
            inr (Some (List.filter _is_valid_event listed,
                       dict_get "next_id" items))
        | JList items => inr (Some (List.filter _is_valid_event items, None))
        | _ => inr None
        end in
      match loaded with
      | None => inr s
      | Some (events, next_id) =>
          let s := with_events s events in
          let* '(_, s) := _prune_locked now s in
          let s := _enforce_max_events_locked s in
          match stored_counter next_id with
          | Some n =>
              inr {| max_events := max_events s; retention := retention s;
                     storage := storage s; _events := _events s;
                     _next_id := n |}
          | None =>
              let* m := max_id (_events s) in
              inr {| max_events := max_events s; retention := retention s;
                     storage := storage s; _events := _events s;
                     _next_id := m + 1 |}
          end
      end
  end.

Definition load_persisted_events := _load_persisted_events.

(** [ActivityStore(max_events, retention_seconds, storage_path)], the
    file found at the path being [file]. *)
Definition __init__ (max_events retention_seconds : option Z)
           (file : option file_state) (now : instant) : raising store :=
  let* retention := retention_of retention_seconds in
  load_persisted_events now
    {| max_events := positive_or_none max_events;
       retention := retention;
       storage := file; _events := []; _next_id := 1 |}.

(** *** Calls and runs *)

Inductive call :=
| AddEvent (event_type : string) (payload : json)
           (t_stamp t_now : instant) (io_ok : bool)
| Prune (t_now : instant) (io_ok : bool)
| GetEvents (t_now : instant)
| LoadPersisted (t_now : instant).

(** The store after a call that returns.  What a call that raises
    leaves behind is not followed up: a run ends there. *)
Definition step (c : call) (s : store) : raising store :=
  match c with
  | AddEvent event_type payload t_stamp t_now io_ok =>
      let* '(_, s) := add_event t_stamp t_now io_ok event_type payload s in
      inr s
  | Prune t_now io_ok => prune t_now io_ok s
  | GetEvents t_now => let* '(_, s) := get_events t_now s in inr s
  | LoadPersisted t_now => load_persisted_events t_now s
  end.

(** The first clock read of a call, and the read its cutoff is taken
    from. *)
Definition first_read (c : call) : instant :=
  match c with
  | AddEvent _ _ t_stamp _ _ => t_stamp
  | Prune t _ | GetEvents t | LoadPersisted t => t
  end.

Definition cutoff_read (c : call) : instant :=
  match c with
  | AddEvent _ _ _ t_now _ => t_now
  | Prune t _ | GetEvents t | LoadPersisted t => t
  end.

(** Whether [_load_persisted_events] gets as far as replacing the
    buffer: there is a file and it holds an object or an array. *)
Definition reads_buffer (s : store) : bool :=
  match storage s with
  | Some (Content (JDict _)) | Some (Content (JList _)) => true
  | _ => false
  end.

(** The calls that apply the age rule to the buffer. *)
Definition applies_age_rule (c : call) (s : store) : bool :=
  match c with
  | AddEvent event_type _ _ _ _ => tracked event_type
  | Prune _ _ | GetEvents _ => true
  | LoadPersisted _ => reads_buffer s
  end.

(** *** Order of the buffer *)

(** The instant of an event whose timestamp parses with an offset. *)
Definition stamp_of (event : json) : option instant :=
  match field "timestamp" event with
  | JStr s =>
      match parse_isoformat s with
      | Some (Aware t) => Some t
      | _ => None
      end
  | _ => None
  end.

(** The timestamp of the event does not parse to a naive datetime. *)
Definition offset_aware (event : json) : Prop :=
  forall s, field "timestamp" event = JStr s ->
            parse_isoformat s <> Some Naive.

(** [t_event >= bound] for a parsable timestamp. *)
Definition not_older_than (bound : instant) (event : json) : Prop :=
  exists t, stamp_of event = Some t /\ bound <= t.

Definition not_later_than (bound : instant) (event : json) : Prop :=
  exists t, stamp_of event = Some t /\ t <= bound.

Definition before (e1 e2 : json) : Prop :=
  exists t1 t2, stamp_of e1 = Some t1 /\ stamp_of e2 = Some t2 /\ t1 <= t2.

(** The events carry parsable timestamps in non-decreasing order, none
    later than [now]. *)
Definition chronological (now : instant) (events : list json) : Prop :=
  StronglySorted before events /\ Forall (not_later_than now) events.

Definition well_formed (events : list json) : Prop :=
  Forall (fun e => _is_valid_event e = true) events.

(** The state of a store that has run under a clock that does not go
    backwards, at a time [now]: the size bound holds, the buffer and
    the buffer last written to the file are well formed and in order. *)
Record store_ok (now : instant) (s : store) : Prop := {
  ok_bound : forall m, max_events s = Some m ->
                       0 < m /\ Z.of_nat (length (_events s)) <= m;
  ok_valid : well_formed (_events s);
  ok_order : chronological now (_events s);
  ok_counter : 0 < _next_id s;
  ok_file : forall raw, storage s = Some (Content raw) ->
                        exists n events,
                          raw = persisted_payload n events /\ 0 < n
                          /\ well_formed events
                          /\ chronological now events
}.

(** The size rule holds of the buffer. *)
Definition within_bound (s : store) : Prop :=
  forall m, max_events s = Some m -> Z.of_nat (length (_events s)) <= m.

(** The ids of the buffer are integers below the counter, and the last
    event carries the id assigned last. *)
Definition ids_ok (s : store) : Prop :=
  Forall (fun e => exists i, id_value e = inr i /\ i < _next_id s)
         (_events s)
  /\ (forall e, last (_events s) = Some e ->
                id_value e = inr (_next_id s - 1)).

(** The cutoff of a call at [now] is a date. *)
Definition cutoff_in_range (retention : Z) (now : instant) : Prop :=
  datetime_min <= now - retention /\ now - retention <= datetime_max.

(** The clock along a run: it never goes backwards, less than the
    retention window passes between the two reads of an [add_event],
    and every cutoff is a date. *)
Fixpoint clock_ok (retention : Z) (prev : instant) (calls : list call)
  : Prop :=
  match calls with
  | [] => True
  | c :: rest =>
      prev <= first_read c /\ first_read c <= cutoff_read c
      /\ cutoff_read c - retention <= first_read c
      /\ cutoff_in_range retention (cutoff_read c)
      /\ clock_ok retention (cutoff_read c) rest
  end.

(** The buffer after one call: bounded, and fresh where the age rule
    applies. *)
Definition fresh_and_bounded (m r : Z) (c : call) (before_call s : store)
  : Prop :=
  Z.of_nat (length (_events s)) <= m
  /\ (applies_age_rule c before_call = true ->
      Forall (not_older_than (cutoff_read c - r)) (_events s)).

(** Every call of the run returns, and the buffer is bounded and fresh
    after each. *)
Fixpoint run_ok (m r : Z) (calls : list call) (s : store) : Prop :=
  match calls with
  | [] => True
  | c :: rest =>
      exists s', step c s = inr s' /\ fresh_and_bounded m r c s s'
                 /\ run_ok m r rest s'
  end.

End Timestamps.

(** *** Concrete instances used to exercise the model *)

(** A stand-in for the ISO-8601 rendering: the count of microseconds
    in decimal, read back as a datetime in UTC. *)
Definition sample_format (t : instant) : string :=
  NilZero.string_of_int (Z.to_int t).

Definition sample_parse (s : string) : option datetime :=
  (fun i => Aware (Z.of_int i)) <$> NilZero.int_of_string s.

Definition sample_store (file : option file_state) : store :=
  {| max_events := Some 2; retention := Some 60000000; storage := file;
     _events := []; _next_id := 1 |}.

Definition sample_entry (id t : Z) (event_type : string) : json :=
  JDict [("id", JInt id); ("type", JStr event_type);
         ("timestamp", JStr (sample_format t)); ("data", JDict [])].

(** A store with a storage file, after one event at second 1 and a
    [prune] at second 121 that removed it. *)
Definition sample_store_emptied : store :=
  {| max_events := Some 2; retention := Some 60000000;
     storage := Some (Content (persisted_payload 2 []));
     _events := []; _next_id := 2 |}.

(** A buffer out of timestamp order: second 100, then second 50. *)
Definition sample_store_unordered : store :=
  {| max_events := Some 2; retention := Some 60000000; storage := None;
     _events := [sample_entry 1 100000000 "crew_log";
                 sample_entry 2 50000000 "crew_log"];
     _next_id := 3 |}.

(** A store with a storage file holding two events. *)
Definition sample_store_two_events : store :=
  {| max_events := Some 2; retention := Some 60000000;
     storage := Some NoFile;
     _events := [sample_entry 3 20000000 "crew_started";
                 sample_entry 4 50000000 "crew_log"];
     _next_id := 5 |}.

(** The store without a storage path after one event at second 1. *)
Definition sample_store_one_event : store :=
  {| max_events := Some 2; retention := Some 60000000; storage := None;
     _events := [sample_entry 1 1000000 "crew_log"]; _next_id := 2 |}.

(** An event whose timestamp is no date. *)
Definition sample_entry_undated (id : Z) (event_type : string) : json :=
  JDict [("id", JInt id); ("type", JStr event_type);
         ("timestamp", JStr "yesterday"); ("data", JDict [])].

(** A file as an older version of the store wrote it: the bare list of
    an event whose timestamp is no date and an event of second 1. *)
Definition sample_file_undated : file_state :=
  Content (JList [sample_entry_undated 1 "crew_started";
                  sample_entry 2 1000000 "crew_log"]).

(** The store constructed from [sample_file_undated], with room for
    five events and sixty seconds of retention. *)
Definition sample_store_undated : store :=
  {| max_events := Some 5; retention := Some 60000000;
     storage := Some sample_file_undated;
     _events := [sample_entry_undated 1 "crew_started";
                 sample_entry 2 1000000 "crew_log"];
     _next_id := 3 |}.

(** A store whose counter is not positive, with an empty buffer. *)
Definition sample_store_negative_counter : store :=
  {| max_events := Some 2; retention := Some 60000000;
     storage := Some NoFile; _events := []; _next_id := -3 |}.

(** A store whose counter has run ahead of the ids in its buffer. *)
Definition sample_store_counter_ahead : store :=
  {| max_events := Some 2; retention := Some 60000000;
     storage := Some NoFile;
     _events := [sample_entry 1 50000000 "crew_log"]; _next_id := 10 |}.

(** The store with a storage file after one event at second 1. *)
Definition sample_store_one_persisted : store :=
  {| max_events := Some 2; retention := Some 60000000;
     storage := Some (Content (persisted_payload
                                 2 [sample_entry 1 1000000 "crew_log"]));
     _events := [sample_entry 1 1000000 "crew_log"]; _next_id := 2 |}.

(** *** Runs and the order of ids *)

Section Runs.
Variable format_timestamp : instant -> string.
Variable parse_isoformat : string -> option datetime.

(** The calls of a run one after the other, up to the first that
    raises. *)
Fixpoint run (calls : list call) (s : store) : raising store :=
  match calls with
  | [] => inr s
  | c :: rest =>
      let* s' := step format_timestamp parse_isoformat c s in
      run rest s'
  end.

End Runs.

(** [e1] carries a smaller integer id than [e2]. *)
Definition id_lt (e1 e2 : json) : Prop :=
  exists i j, id_value e1 = inr i /\ id_value e2 = inr j /\ i < j.

Definition ids_increasing (events : list json) : Prop :=
  StronglySorted id_lt events.

Definition ids_below (bound : Z) (events : list json) : Prop :=
  Forall (fun e => exists i, id_value e = inr i /\ i < bound) events.

(** The ids of a store that assigned them itself: increasing along the
    buffer and below the counter, in the buffer and in the buffer last
    written to the file. *)
Record ids_in_step (s : store) : Prop := {
  in_step_valid : well_formed (_events s);
  in_step_order : ids_increasing (_events s);
  in_step_below : ids_below (_next_id s) (_events s);
  in_step_counter : 0 < _next_id s;
  in_step_file : forall raw, storage s = Some (Content raw) ->
                             exists n events,
                               raw = persisted_payload n events /\ 0 < n
                               /\ well_formed events
                               /\ ids_increasing events
                               /\ ids_below n events
}.

(** The entry [add_event] builds. *)
Definition new_entry (event_id : Z) (event_type timestamp : string)
           (payload : json) : json :=
  JDict [("id", JInt event_id); ("type", JStr event_type);
         ("timestamp", JStr timestamp); ("data", payload)].

(** A file as an older version of the store wrote it: the bare list of
    two events, the second of them without a timestamp. *)
Definition sample_legacy_file : file_state :=
  Content (JList [ sample_entry 7 20000000 "crew_started";
                   JDict [("id", JInt 9); ("type", JStr "crew_log");
                          ("data", JDict [])];
                   sample_entry 8 50000000 "crew_log" ]).

(** The counter a file holds, when it is an object with a [next_id] the
    loader accepts. *)
Definition file_counter (raw : json) : option Z :=
  match raw with
  | JDict items => stored_counter (dict_get "next_id" items)
  | _ => None
  end.

(** The store constructed from [sample_legacy_file] at second 60 with
    room for two events and sixty seconds of retention. *)
Definition sample_store_from_legacy : store :=
  {| max_events := Some 2; retention := Some 60000000;
     storage := Some sample_legacy_file;
     _events := [sample_entry 7 20000000 "crew_started";
                 sample_entry 8 50000000 "crew_log"];
     _next_id := 9 |}.

End ActivityStore.

(** ** activity_store.py over the heap: who shares what *)

(** The same store, with the payloads, the entries and the results of
    [get_events] as objects of a heap, so that a mutation by the caller
    is visible wherever the object is shared.  The file is left out:
    writing it reads the buffer and shares nothing.  A call gives
    [None] when it returns no value: the age rule raises, or a
    reference leads out of the heap, which happens on no closed
    heap. *)
Module ActivityStoreHeap.
Import PyExc Json PyHeap.

Record store := {
  max_events : option Z;
  retention : option Z;
  _events : list loc;              (* the entries, dictionaries of the heap *)
  _next_id : Z
}.

Definition with_events (s : store) (events : list loc) : store :=
  {| max_events := max_events s; retention := retention s;
     _events := events; _next_id := _next_id s |}.

Fixpoint items_get (key : string) (items : list (string * value))
  : option value :=
  match items with
  | [] => None
  | (k, v) :: rest => if String.eqb k key then Some v else items_get key rest
  end.

(** [event["timestamp"]] for an entry of the buffer. *)
Definition entry_timestamp (h : heap) (e : loc) : raising value :=
  match h !! e with
  | Some (ODict items) =>
      match items_get "timestamp" items with
      | Some v => inr v
      | None => inl (KeyError "timestamp")
      end
  | _ => inl (TypeError "list indices must be integers or slices")
  end.

Section Timestamps.
Variable format_timestamp : Z -> string.
Variable parse_isoformat : string -> option ActivityStore.datetime.

Definition _parse_timestamp (now : Z) (raw : value)
  : ActivityStore.datetime :=
  match raw with
  | VStr s => default (ActivityStore.Aware now) (parse_isoformat s)
  | _ => ActivityStore.Aware now
  end.

Definition expired (now cutoff : Z) (h : heap) (e : loc) : raising bool :=
  let* raw := entry_timestamp h e in
  ActivityStore.datetime_lt (_parse_timestamp now raw) cutoff.

Definition _prune_locked (now : Z) (s : store) (h : heap) : raising store :=
  match retention s with
  | None => inr s
  | Some r =>
      if r =? 0 then inr s
      else
        let* cutoff := ActivityStore.datetime_sub now r in
        let* '(_, events) :=
          ActivityStore.prune_list (expired now cutoff h) (max_events s)
                                   (_events s) in
        inr (with_events s events)
  end.

(** [isinstance(payload, dict)] *)
Definition is_dict (h : heap) (v : value) : bool :=
  match v with
  | VRef l => match h !! l with Some (ODict _) => true | _ => false end
  | _ => false
  end.

(** [add_event] returns the entry it stored, not a copy of it. *)
Definition add_event (t_stamp t_now : Z) (event_type : string)
           (payload : value) (s : store) (h : heap)
  : option (option value * store * heap) :=
  if negb (ActivityStore.tracked event_type) then Some (None, s, h)
  else
    match (if is_dict h payload then deepcopy payload h
           else Some (payload, h)) with
    | None => None
    | Some (snapshot, h) =>
        let timestamp := format_timestamp t_stamp in
        match _prune_locked t_now s h with
        | inl _ => None
        | inr s =>
            let event_id := _next_id s in
            let entry := ODict [("id", VInt event_id);
                                ("type", VStr event_type);
                                ("timestamp", VStr timestamp);
                                ("data", snapshot)] in
            let e := length h in
            let h := (h ++ [entry])%list in
            let s := {| max_events := max_events s;
                        retention := retention s;
                        _events := ActivityStore.enforce_max
                                     (max_events s) (_events s ++ [e])%list;
                        _next_id := event_id + 1 |} in
            Some (Some (VRef e), s, h)
        end
    end.

(** [[deepcopy(event) for event in self._events]]: one memo per event. *)
Fixpoint copy_each (vs : list value) (h : heap)
  : option (list value * heap) :=
  match vs with
  | [] => Some ([], h)
  | v :: rest =>
      match deepcopy v h with
      | None => None
      | Some (v', h1) =>
          match copy_each rest h1 with
          | None => None
          | Some (rest', h2) => Some (v' :: rest', h2)
          end
      end
  end.

(** The result is a new list object holding the copies. *)
Definition get_events (now : Z) (s : store) (h : heap)
  : option (value * store * heap) :=
  match _prune_locked now s h with
  | inl _ => None
  | inr s =>
      match copy_each (map VRef (_events s)) h with
      | None => None
      | Some (copies, h) =>
          Some (VRef (length h), s, (h ++ [OList copies])%list)
      end
  end.

End Timestamps.

(** The objects of the store: a set [F] of locations of the heap that
    holds the entries and everything they refer to. *)
Record footprint (h : heap) (F : loc -> Prop) (s : store) : Prop := {
  fp_dom : forall l, F l -> (l < length h)%nat;
  fp_closed : forall l o, F l -> h !! l = Some o ->
                          Forall (ref_in F) (values_of o);
  fp_events : Forall F (_events s)
}.

(** A mutation by the caller: a closed heap that differs from [h], if
    at all, on the objects in [M] and on objects allocated since. *)
Record mutation (M : loc -> Prop) (h h_mut : heap) : Prop := {
  mut_closed : heap_closed h_mut;
  mut_frame : forall l, (l < length h)%nat -> ~ M l -> h_mut !! l = h !! l
}.

(** Two runs of [get_events] return, leave the same store, and their
    results stand for the same document at every depth. *)
Definition same_data (a b : option (value * store * heap)) : Prop :=
  exists v s h v' h',
    a = Some (v, s, h) /\ b = Some (v', s, h')
    /\ forall n, reify n h v = reify n h' v'.

(** *** Concrete instances used to exercise the model *)

(** A payload [{"message": "hello", "details": {"count": 1}}]: the
    inner dictionary at 0, the payload at 1. *)
Definition sample_heap : heap :=
  [ ODict [("count", VInt 1)];
    ODict [("message", VStr "hello"); ("details", VRef 0%nat)] ].

Definition sample_store : store :=
  {| max_events := Some 500; retention := None;
     _events := []; _next_id := 1 |}.

(** [payload["details"]["count"] = 999] on a heap that extends
    [sample_heap]. *)
Definition sample_mutated (h : heap) : heap :=
  <[0%nat := ODict [("count", VInt 999)]]> h.

(** A list payload [[1]] at location 0. *)
Definition sample_list_heap : heap := [ OList [VInt 1] ].

End ActivityStoreHeap.

(** ** main.py: the request-metric percentile estimator *)
Module Metrics.
Import PyExc.

(** The estimator computes on binary64 floats.  The durations are
    floats; an [int] that meets a float in an operation is converted
    first, and so is an [int] among the samples, by the product it
    enters or by the final [float(...)], which leaves a float as it
    is.  The list holds the samples as floats. *)

(** [float(z)] for an [int] of fewer than 64 bits. *)
Definition float_of_Z (z : Z) : float :=
  if z <? 0 then PrimFloat.opp (PrimFloat.of_uint63 (Uint63.of_Z (- z)))
  else PrimFloat.of_uint63 (Uint63.of_Z z).

(** A finite float [(-1)^s * m * 2^e] as a fraction with a positive
    denominator. *)
Definition fraction_of (s : bool) (m : positive) (e : Z) : Z * Z :=
  let num := Z.pos m * 2 ^ Z.max e 0 in
  ((if s then - num else num), 2 ^ Z.max (- e) 0).

Definition float_round (round : Z -> Z -> Z) (x : float) : raising Z :=
  match Prim2SF x with
  | S754_zero _ => inr 0
  | S754_finite s m e =>
      let '(num, den) := fraction_of s m e in inr (round num den)
  | S754_infinity _ =>
      inl (OverflowError "cannot convert float infinity to integer")
  | S754_nan => inl (ValueError "cannot convert float NaN to integer")
  end.

(** [math.floor(x)], [math.ceil(x)] and [int(x)]. *)
Definition math_floor : float -> raising Z := float_round Z.div.

Definition math_ceil : float -> raising Z :=
  float_round (fun n d => - ((- n) / d)).

Definition int_of_float : float -> raising Z := float_round Z.quot.

(** [l[i]] for a Python list: a negative index counts from the end. *)
Definition getitem {A : Type} (l : list A) (i : Z) : raising A :=
  let n := Z.of_nat (length l) in
  let j := if i <? 0 then i + n else i in
  if (j <? 0) || (n <=? j) then inl (IndexError "list index out of range")
  else match l !! Z.to_nat j with
       | Some x => inr x
       | None => inl (IndexError "list index out of range")
       end.

Definition _calculate_percentile (sorted_values : list float)
           (percentile : float) : raising float :=
  match sorted_values with
  | [] => inr 0%float
  | [only] => inr only
  | _ =>
      let k := (float_of_Z (Z.of_nat (length sorted_values) - 1)
                * (percentile / float_of_Z 100))%float in
      let* lower_index := math_floor k in
      let* upper_index := math_ceil k in
      if lower_index =? upper_index then
        let* i := int_of_float k in
        getitem sorted_values i
      else
        let* lower_value := getitem sorted_values lower_index in
        let* upper_value := getitem sorted_values upper_index in
        inr (lower_value * (float_of_Z upper_index - k)
             + upper_value * (k - float_of_Z lower_index))%float
  end.

(** The call of [_recalculate_request_metrics_locked]. *)
Definition p95 (durations : list float) : raising float :=
  _calculate_percentile durations (float_of_Z 95).

(** The fractional index [k] that [p95] computes for [n] samples. *)
Definition fractional_index (n : Z) : float :=
  (float_of_Z (n - 1) * (float_of_Z 95 / float_of_Z 100))%float.

(** The number a finite float stands for. *)
Definition exact (x : float) : option Q :=
  match Prim2SF x with
  | S754_zero _ => Some 0%Q
  | S754_finite s m e =>
      let '(num, den) := fraction_of s m e in Some (num # Z.to_pos den)
  | _ => None
  end.

End Metrics.

(** ** crew_storage.py: agent and task order *)
Module CrewMetadata.
Import PyStr PyExc Json.

(** [name in names] for a list or a set of strings. *)
Definition name_in (name : string) (names : list string) : bool :=
  bool_decide (name ∈ names).

(** [if name not in names: names.append(name)] *)
Definition append_new (names : list string) (name : string) : list string :=
  if name_in name names then names else names ++ [name].

Definition _ensure_order (preferred available : list string) : list string :=
  let preferred_list := filter (fun name => name_in name available = true)
                               preferred in
  fold_left append_new available preferred_list.

(** Lines 287-292: what [_normalize_order] iterates over.  A decoded
    JSON document holds no tuple. *)
Definition candidate_iterable (raw_order : json) : list json :=
  match raw_order with
  | JStr s => [JStr s]
  | JList items => items
  | _ => []
  end.

(** Lines 294-301 for one candidate. *)
Definition take_candidate (available : list string)
           (normalized : list string) (candidate : json) : list string :=
  match candidate with
  | JStr s =>
      let name := strip s in
      if negb (truthy name) || negb (name_in name available) then normalized
      else append_new normalized name
  | _ => normalized
  end.

Definition _normalize_order (raw_order : json) (available : list string)
  : list string :=
  let normalized :=
    fold_left (take_candidate available) (candidate_iterable raw_order) [] in
  fold_left append_new available normalized.

(** [d.get(key)], with [None] for a missing key. *)
Definition get (key : string) (items : list (string * json)) : json :=
  default JNull (dict_get key items).

(** [d.get(key, fallback)] *)
Definition get_or (key : string) (fallback : json)
           (items : list (string * json)) : json :=
  default fallback (dict_get key items).

Record metadata := {
  meta_name : json;
  meta_description : json;
  meta_icon : json;
  agent_order : list string;
  task_order : list string
}.

Definition normalize_metadata (crew_id : string)
           (metadata_source : list (string * json))
           (agent_names task_names : list string) : metadata :=
  let agent_order_raw :=
    match get "agent_order" metadata_source with
    | JNull => get "agentOrder" metadata_source
    | v => v
    end in
  let task_order_raw :=
    match get "task_order" metadata_source with
    | JNull => get "taskOrder" metadata_source
    | v => v
    end in
  {| meta_name := get_or "name" (JStr crew_id) metadata_source;
     meta_description := get_or "description" (JStr EmptyString) metadata_source;
     meta_icon := get_or "icon" (JStr EmptyString) metadata_source;
     agent_order := _normalize_order agent_order_raw agent_names;
     task_order := _normalize_order task_order_raw task_names |}.

(** *** Validation of agent and task definitions *)

(** Truth value of a decoded value. *)
Definition json_truthy (v : json) : bool :=
  match v with
  | JNull => false
  | JBool b => b
  | JInt z => negb (z =? 0)
  | JStr s => truthy s
  | JList items => match items with [] => false | _ => true end
  | JDict items => match items with [] => false | _ => true end
  end.

(** [d[key] = v] on a dictionary that keeps its items in order. *)
Fixpoint dict_update (key : string) (v : json) (items : list (string * json))
  : list (string * json) :=
  match items with
  | [] => [(key, v)]
  | (k, x) :: rest =>
      if String.eqb k key then (k, v) :: rest
      else (k, x) :: dict_update key v rest
  end.

(** [', '.join(names)] *)
Fixpoint join_comma (names : list string) : string :=
  match names with
  | [] => EmptyString
  | [name] => name
  | name :: rest => name ++ ", " ++ join_comma rest
  end.

Section Validation.
(** [str(v)] for a value that is not a string. *)
Variable py_str : json -> string.

Definition str_of (v : json) : string :=
  match v with JStr s => s | _ => py_str v end.

(** The words that differ between the two validators: ['agents'],
    [agent], [Agent], and the required fields. *)
Variable plural singular capital : string.
Variable required_fields : list string.

(** Lines 369-379: the items of a dictionary, or the entries of a list
    under their names. *)
Fixpoint list_items (entries : list json) : raising (list (json * json)) :=
  match entries with
  | [] => inr []
  | JDict fields :: rest =>
      let* items := list_items rest in
      inr ((get "name" fields, JDict fields) :: items)
  | _ :: _ =>
      inl (ValueError ("Each " ++ singular ++ " definition must be an object"))
  end.

(** Lines 384-404: the loop over the items, with the dictionary built
    so far; its keys are [order]. *)
Fixpoint normalize_items (items : list (json * json))
         (normalized : list (string * list (string * json)))
  : raising (list (string * list (string * json))) :=
  match items with
  | [] => inr normalized
  | (key, JDict value) :: rest =>
      let chosen :=
        if json_truthy (get "name" value) then get "name" value
        else match key with JNull => JStr EmptyString | _ => key end in
      let name := strip (str_of chosen) in
      if negb (truthy name) then
        inl (ValueError ("Each " ++ singular
                         ++ " must include a non-empty name"))
      else if name_in name (map fst normalized) then
        inl (ValueError ("Duplicate " ++ singular ++ " name '" ++ name
                         ++ "' in configuration"))
      else
        let normalized_value := dict_update "name" (JStr name) value in
        let missing :=
          filter (fun field =>
                    json_truthy (get field normalized_value) = false)
                 required_fields in
        match missing with
        | [] => normalize_items rest (normalized ++ [(name, normalized_value)])
        | _ =>
            inl (ValueError (capital ++ " '" ++ name
                             ++ "' missing required fields: "
                             ++ join_comma missing))
        end
  | _ :: _ =>
      inl (ValueError ("Each " ++ singular ++ " definition must be an object"))
  end.

Definition validate_and_normalize (definitions : json) (allow_missing : bool)
  : raising (option (list (string * list (string * json))) * list string) :=
  match definitions with
  | JNull =>
      if allow_missing then inr (None, [])
      else inl (ValueError ("Invalid configuration: '" ++ plural
                            ++ "' must be provided"))
  | JDict fields =>
      let* normalized :=
        normalize_items (map (fun kv => (JStr (fst kv), snd kv)) fields) [] in
      inr (Some normalized, map fst normalized)
  | JList entries =>
      let* items := list_items entries in
      let* normalized := normalize_items items [] in
      inr (Some normalized, map fst normalized)
  | _ =>
      inl (ValueError ("Invalid configuration: '" ++ plural
                       ++ "' must be a dictionary or list"))
  end.

End Validation.

Definition validate_and_normalize_agents (py_str : json -> string) :=
  validate_and_normalize py_str "agents" "agent" "Agent"
                         ["name"; "role"; "goal"; "backstory"].

Definition validate_and_normalize_tasks (py_str : json -> string) :=
  validate_and_normalize py_str "tasks" "task" "Task"
                         ["name"; "description"; "expected_output"].

(** The definitions a document holds, in order. *)
Definition definitions_of (definitions : json) : list json :=
  match definitions with
  | JDict fields => map snd fields
  | JList entries => entries
  | _ => []
  end.

(** What a validator promises about its result: one entry for each
    definition, in order, which is the definition with its [name]
    replaced by the entry's key; the keys are non-empty, stripped and
    distinct, and every required field has a true value. *)
Definition validated (required_fields : list string) (definitions : json)
           (normalized : list (string * list (string * json)))
           (order : list string) : Prop :=
  order = map fst normalized
  /\ NoDup order
  /\ Forall2 (fun definition entry =>
                exists original,
                  definition = JDict original
                  /\ snd entry = dict_update "name" (JStr (fst entry)) original)
             (definitions_of definitions) normalized
  /\ Forall (fun entry =>
               truthy (fst entry) = true
               /\ strip (fst entry) = fst entry
               /\ dict_get "name" (snd entry) = Some (JStr (fst entry))
               /\ Forall (fun field =>
                            json_truthy (get field (snd entry)) = true)
                         required_fields)
            normalized.

Definition sample_agents : json :=
  JList [ JDict [("name", JStr " researcher "); ("role", JStr "Research");
                 ("goal", JStr "Find sources"); ("backstory", JStr "Curious")];
          JDict [("name", JStr "writer"); ("role", JStr "Write");
                 ("goal", JStr "Draft"); ("backstory", JStr "Concise");
                 ("llm", JStr "small")] ].

End CrewMetadata.

(** ** crew_runtime.py: the exit path *)
Module CrewRuntimeExit.
Import PyStr PyExc CrewRuntime Json.

(** The payload [stream_process_logs] hands to [on_stop]: it holds the
    three keys, and [process_id] is a string, possibly empty. *)
Record exit_payload := {
  exit_crew_id : string;
  exit_process_id : string;
  exit_code : option Z
}.

Record stopped_payload := {
  stopped_crew_id : string;
  stopped_process_id : string;
  stopped_exit_code : option Z;
  stopped_status : string
}.

(** Calls made on the outside world by the exit path, in program
    order. *)
Inductive exit_call :=
| RecordStopped (p : stopped_payload)
| EmitStopped (p : stopped_payload)
| EmitUpdated (crew_payload : list (string * json)).

(** [d[key] = v] on a dictionary that keeps its items in order. *)
Fixpoint dict_set (key : string) (v : json) (items : list (string * json))
  : list (string * json) :=
  match items with
  | [] => [(key, v)]
  | (k, x) :: rest =>
      if String.eqb k key then (k, v) :: rest
      else (k, x) :: dict_set key v rest
  end.

(** [v in self.running_crews] for a value [v] of a crew description: a
    string is looked up, a list or dictionary cannot be hashed, and
    nothing else is a key. *)
Definition is_running (v : json) (running : gmap string handle)
  : raising bool :=
  match v with
  | JStr s => inr (bool_decide (is_Some (running !! s)))
  | JList _ => inl (TypeError "unhashable type: 'list'")
  | JDict _ => inl (TypeError "unhashable type: 'dict'")
  | _ => inr false
  end.

Section Exit.
Variable h : host.
(** [self.storage.load_crew(crew_id, running_ids)]; the identifiers are
    used as a set. *)
Variable load_crew : string -> gset string
                     -> raising (option (list (string * json))).

Definition _emit_crew_update (crew_id : string)
           (running : gmap string handle) : raising unit * list exit_call :=
  match load_crew crew_id (dom running) with
  | inl (ValueError _) => (inr tt, [])
  | inl e => (inl e, [])
  | inr None => (inr tt, [])
  | inr (Some []) => (inr tt, [])
  | inr (Some crew_info) =>
      let id := default (JStr crew_id) (dict_get "id" crew_info) in
      let crew_payload := dict_set "id" id crew_info in
      match is_running id running with
      | inl e => (inl e, [])
      | inr r =>
          let crew_payload :=
            dict_set "status" (JStr (if r then "running" else "ready"))
                     crew_payload in
          (match emit_raises h "crew_updated" with
           | Some e => inl e
           | None => inr tt
           end,
           [EmitUpdated crew_payload])
      end
  end.

(** The exceptions of the callback, of both emits and of
    [_emit_crew_update] are logged and dropped.  The handle is popped at
    once (line 244).  The emit of [crew_stopped] is awaited (line 258)
    with no lock held, and [meanwhile] is what the rest of the event
    loop does to [running_crews] until it returns; [_emit_crew_update]
    reads the map after that (lines 270 and 280).  The result is the map
    as it is then, and the calls made. *)
Definition _handle_process_exit (p : exit_payload) (emit_update : bool)
           (meanwhile : gmap string handle -> gmap string handle)
           (running : gmap string handle)
  : gmap string handle * list exit_call :=
  let crew_id := exit_crew_id p in
  let tracked := running !! crew_id in
  let running := delete crew_id running in
  let process_id :=
    match tracked with
    | Some hd =>
        if negb (truthy (exit_process_id p)) then process_id hd
        else exit_process_id p
    | None => exit_process_id p
    end in
  let payload := {| stopped_crew_id := crew_id;
                    stopped_process_id := process_id;
                    stopped_exit_code := exit_code p;
                    stopped_status := "stopped" |} in
  let calls :=
    ((if has_activity_callback h then [RecordStopped payload] else [])
     ++ [EmitStopped payload])%list in
  let running := meanwhile running in
  if emit_update
  then (running, (calls ++ snd (_emit_crew_update crew_id running))%list)
  else (running, calls).

End Exit.

(** The effects of a start that went through, after the spawn. *)
Definition started_effects (h : host) (normalized_id process_id : string)
  : list effect :=
  let payload := {| payload_crew_id := normalized_id;
                    payload_process_id := process_id;
                    payload_status := "started" |} in
  ((if has_activity_callback h then [RecordActivity "crew_started" payload]
    else [])
   ++ [Emit "crew_started" payload])%list.

(** The creation of the subprocess (lines 152-161), as the platform
    has it. *)
Definition spawn (h : host) (cmd : list string) (cwd : string)
           (env : gmap string string) : raising os_process :=
  if String.eqb (platform_system h) "Windows"
  then _start_process_windows h cmd cwd env
  else create_subprocess_exec h cmd cwd env.

(** The handle [start_crew] registers for a process. *)
Definition handle_of (proc : os_process) : handle :=
  {| process := Some proc; process_id := pid proc |}.

(** The runtime after the registration of [proc] and the two
    notifications, [rt] being the runtime as the await of the spawn
    left it. *)
Definition registered (h : host) (rt : runtime) (id : string)
           (proc : os_process) : runtime :=
  {| running_crews := <[id := handle_of proc]> (running_crews rt);
     effects := (effects rt ++ started_effects h id (pid proc))%list |}.

(** What is scheduled during an [await] makes calls of its own and
    cannot take back a call that was made: it adds to the record of
    calls. *)
Definition appends (step : runtime -> runtime) : Prop :=
  forall rt, effects rt `prefix_of` effects (step rt).

(** Another [start_crew] for [id] that runs to its registration while
    the first one awaits. *)
Definition another_start (id : string) (proc : os_process)
  : runtime -> runtime :=
  fun rt => {| running_crews := <[id := handle_of proc]> (running_crews rt);
               effects := effects rt |}.

Definition sample_load_crew (crew_id : string) (running : gset string)
  : raising (option (list (string * json))) :=
  inr (Some [("id", JStr crew_id); ("name", JStr "A crew");
             ("status", JStr (if bool_decide (crew_id ∈ running)
                              then "running" else "ready"))]).

(** [str.upper()] on ASCII letters, for the sample host. *)
Fixpoint sample_upper (s : string) : string :=
  match s with
  | EmptyString => EmptyString
  | String c rest =>
      String (if in_range 97 122 c then ascii_of_N (code c - 32) else c)
             (sample_upper rest)
  end.

(** A host with a [.env] file and an environment of its own, which
    sets [PYTHONPATH]. *)
Definition sample_host_env : host :=
  {| resolve_existing_config_dir :=
       fun id => inr ("/crews/" ++ id, "/crews/" ++ id ++ "/src/" ++ id,
                      "/crews/" ++ id ++ "/src/" ++ id ++ "/config")%string;
     joinpath := fun dir name => (dir ++ "/" ++ name)%string;
     path_exists := fun _ => true;
     dotenv_values := fun _ => [("MODEL", Some "from-dotenv"); ("EMPTY", None);
                                ("TOPIC", Some "from-dotenv")];
     os_environ := {[ "MODEL" := "from-server"; "PATH" := "/usr/bin";
                      "EMPTY" := "from-server"; "PYTHONPATH" := "/opt/lib" ]};
     which_uv := None;
     relpath := fun _ _ => "main.py";
     sys_executable := "python3";
     pathsep := ":";
     str_upper := sample_upper;
     platform_system := "Linux";
     create_subprocess_exec :=
       fun _ _ _ => inr (sample_process (Some None) None (Some None));
     _start_process_windows :=
       fun _ _ _ => inl (OSError "not on this platform");
     has_activity_callback := true;
     emit_raises := fun _ => None |}.

(** A schedule in which another crew is killed while [start_crew]
    awaits its subprocess, and a third one terminated while it awaits
    the emit. *)
Definition sample_busy : interleaving :=
  {| during_spawn := perform (Kill "17");
     during_emit := perform (Terminate "23") |}.

End CrewRuntimeExit.

(* ===================================================================== *)
(** * Part II: properties                                                 *)
(* ===================================================================== *)

Module CrewBroadcastFacts.
Import PyStr CrewBroadcast.

Lemma first_match_at groups s i c terms :
  groups !! i = Some (c, terms) ->
  any_in terms s = true ->
  (forall j c' terms', (j < i)%nat -> groups !! j = Some (c', terms') ->
                       any_in terms' s = false) ->
  first_match groups s = c.
Proof.
  revert i. induction groups as [|[c0 t0] rest IH]; intros i Hi Hm Hlt.
  - discriminate.
  - destruct i as [|i]; simpl in *.
    + injection Hi as -> ->. now rewrite Hm.
    + rewrite (Hlt 0%nat c0 t0) by (try lia; reflexivity).
      apply (IH i); auto.
      intros j c' t' Hj Hl. apply (Hlt (S j) c' t'); [lia | exact Hl].
Qed.

Lemma first_match_none groups s :
  (forall c terms, In (c, terms) groups -> any_in terms s = false) ->
  first_match groups s = INFO.
Proof.
  induction groups as [|[c0 t0] rest IH]; intros H; simpl.
  - reflexivity.
  - rewrite (H c0 t0) by now left.
    apply IH. intros c t Hin. apply (H c t). now right.
Qed.

(** C5. [categorize_log] scans the keyword groups in the fixed order
    SEARCH, ANALYSIS, DECISION, RESULT, ERROR, ACTION: the category
    of the first group with a keyword in the lower-cased message is
    returned, and INFO when no group matches.  Hence a message with
    a search keyword and an error keyword is SEARCH, and the three
    sample messages are classified SEARCH, ERROR and INFO. *)
Theorem categorize_log_priority :
  map fst priority_groups
    = [SEARCH; ANALYSIS; DECISION; RESULT; ERROR; ACTION]
  /\ (forall m, categorize_log m = first_match priority_groups (lower m))
  /\ (forall m i c terms,
         priority_groups !! i = Some (c, terms) ->
         any_in terms (lower m) = true ->
         (forall j c' terms', (j < i)%nat ->
                              priority_groups !! j = Some (c', terms') ->
                              any_in terms' (lower m) = false) ->
         categorize_log m = c)
  /\ (forall m,
         (forall c terms, In (c, terms) priority_groups ->
                          any_in terms (lower m) = false) ->
         categorize_log m = INFO)
  /\ (forall m,
         any_in search_terms (lower m) = true ->
         any_in error_terms (lower m) = true ->
         categorize_log m = SEARCH)
  /\ categorize_log "Starting search for documents" = SEARCH
  /\ categorize_log "Failure: unexpected exception occurred" = ERROR
  /\ categorize_log "General update" = INFO.
Proof.
  assert (Heq : forall m,
             categorize_log m = first_match priority_groups (lower m))
    by reflexivity.
  split; [reflexivity|]. split; [exact Heq|].
  split.
  { intros m i c terms Hi Hm Hlt. rewrite Heq.
    now apply (first_match_at _ _ i c terms). }
  split.
  { intros m H. rewrite Heq. now apply first_match_none. }
  split.
  { intros m Hs _. unfold categorize_log. now rewrite Hs. }
  repeat split; vm_compute; reflexivity.
Qed.

Lemma categorize_log_priority_witness :
  categorize_log "Search failed with an error" = SEARCH
  /\ categorize_log "Task failed, nothing found" = RESULT.
Proof.
  destruct categorize_log_priority as (_ & _ & Hidx & _ & Hse & _).
  split.
  - apply Hse; vm_compute; reflexivity.
  - apply (Hidx _ 3%nat RESULT result_terms); try (vm_compute; reflexivity).
    intros j c' terms' Hj Hl.
    destruct j as [|[|[|j]]]; try lia;
      injection Hl as <- <-; vm_compute; reflexivity.
Defined.


(** *** The duplicate suppressor *)

Section DedupFacts.
Variable hash : string * string -> Z.

Lemma is_duplicate_new d e now :
  first_sight hash d e now ->
  is_duplicate hash now e d
  = ((false, 1), set_recent d (hash (message e, agent e)) (now, 1)).
Proof.
  unfold first_sight, is_duplicate, total_seconds_lt.
  destruct (recent_logs d !! hash (message e, agent e)) as [[last n]|];
    [|reflexivity].
  intros H. destruct (Z.ltb_spec (now - last) (time_window d * 1000000));
    [lia | reflexivity].
Qed.

Lemma is_duplicate_seen d e now last n :
  recent_logs d !! hash (message e, agent e) = Some (last, n) ->
  now - last < time_window d * 1000000 ->
  is_duplicate hash now e d
  = ((true, n + 1), set_recent d (hash (message e, agent e)) (now, n + 1)).
Proof.
  unfold is_duplicate, total_seconds_lt. intros -> H.
  destruct (Z.ltb_spec (now - last) (time_window d * 1000000));
    [reflexivity | lia].
Qed.

Lemma set_recent_lookup d k v : recent_logs (set_recent d k v) !! k = Some v.
Proof. unfold set_recent; simpl. apply lookup_insert_eq. Qed.

Lemma set_recent_window d k v : time_window (set_recent d k v) = time_window d.
Proof. reflexivity. Qed.

(** C6. Three calls with the same [(message, agent)]: the first sight
    of the key answers [(False, 1)]; a second call less than
    [time_window] seconds later answers [(True, 2)]; a call a full
    window after the last one answers [(False, 1)] again, and the
    stored window start and count are reset to that call.  The window
    is one the float comparison of the source measures exactly. *)
Theorem is_duplicate_window_cycle
        (d : LogDeduplicator) (e1 e2 e3 : log_entry) (t1 t2 t3 : instant) :
  exact_seconds (time_window d) ->
  (message e2, agent e2) = (message e1, agent e1) ->
  (message e3, agent e3) = (message e1, agent e1) ->
  first_sight hash d e1 t1 ->
  t2 - t1 < time_window d * 1000000 ->
  time_window d * 1000000 <= t3 - t2 ->
  let r1 := is_duplicate hash t1 e1 d in
  let r2 := is_duplicate hash t2 e2 (snd r1) in
  let r3 := is_duplicate hash t3 e3 (snd r2) in
  fst r1 = (false, 1)
  /\ fst r2 = (true, 2)
  /\ fst r3 = (false, 1)
  /\ recent_logs (snd r3) !! hash (message e1, agent e1) = Some (t3, 1).
Proof.
  intros _ K2 K3 Hfirst Hin Hout r1 r2 r3.
  pose (k := hash (message e1, agent e1)).
  assert (E1 : r1 = ((false, 1), set_recent d k (t1, 1)))
    by (apply is_duplicate_new; exact Hfirst).
  assert (E2 : r2 = ((true, 2), set_recent (snd r1) k (t2, 2))).
  { subst r2. rewrite E1; simpl. unfold k. rewrite <- K2.
    apply (is_duplicate_seen _ e2 t2 t1 1).
    - rewrite K2. apply set_recent_lookup.
    - rewrite set_recent_window. exact Hin. }
  assert (E3 : r3 = ((false, 1), set_recent (snd r2) k (t3, 1))).
  { subst r3. rewrite E2; simpl. unfold k. rewrite <- K3.
    apply is_duplicate_new. unfold first_sight.
    rewrite K3. rewrite set_recent_lookup.
    rewrite E1; simpl. exact Hout. }
  rewrite E1, E2, E3; simpl. repeat split. apply lookup_insert_eq.
Qed.

End DedupFacts.

Lemma is_duplicate_window_cycle_witness :
  let e := sample_entry "Agent Alpha working" "Alpha" in
  let r1 := is_duplicate sample_hash 0 e (new_LogDeduplicator 5) in
  let r2 := is_duplicate sample_hash 0 e (snd r1) in
  let r3 := is_duplicate sample_hash 10000000 e (snd r2) in
  fst r1 = (false, 1) /\ fst r2 = (true, 2) /\ fst r3 = (false, 1)
  /\ recent_logs (snd r3) !! sample_hash (message e, agent e)
     = Some (10000000, 1).
Proof.
  intros e.
  apply (is_duplicate_window_cycle sample_hash (new_LogDeduplicator 5)
                                   e e e 0 0 10000000).
  - unfold exact_seconds. simpl. lia.
  - reflexivity.
  - reflexivity.
  - unfold first_sight. simpl. rewrite lookup_empty. exact I.
  - simpl. lia.
  - simpl. lia.
Defined.


(** *** The operation tracker inside the reader loop *)

Lemma update_operation_present id tr op :
  operations tr !! id = Some op ->
  update_operation id None tr
  = (op_sequence op + 1,
     {| operations :=
          <[id := {| op_type := op_type op; op_agent := op_agent op;
                     start_time := start_time op; status := status op;
                     op_sequence := op_sequence op + 1;
                     end_time := end_time op |}]> (operations tr);
        current_operation_id := current_operation_id tr |}).
Proof. unfold update_operation. now intros ->. Qed.

Section StreamFacts.
Variable hash : string * string -> Z.
Variable operation_id_of : instant -> string.
Variable extract_agent_name : string -> string.

Local Abbreviation track_line := (track_line operation_id_of).
Local Abbreviation process_line :=
  (process_line hash operation_id_of extract_agent_name).

(** The tracker and the sequence number after a line seen while the
    operation [id] is open. *)
Lemma track_line_open clk cat agent tr id op :
  current_operation_id tr = Some id -> truthy id = true ->
  operations tr !! id = Some op ->
  exists tr' oid,
    track_line clk cat agent tr = (tr', oid, op_sequence op + 1)
    /\ oid = (if is_result cat then None else Some id)
    /\ current_operation_id tr'
       = (if is_result cat then None else Some id)
    /\ operations tr' !! id
       = Some {| op_type := op_type op; op_agent := op_agent op;
                 start_time := start_time op;
                 status := if is_result cat then "complete" else status op;
                 op_sequence := op_sequence op + 1;
                 end_time := if is_result cat then Some (t_end clk)
                             else end_time op |}.
Proof.
  intros Hcur Hid Hop. unfold track_line.
  rewrite Hcur; simpl. rewrite Hid.
  rewrite (update_operation_present _ _ _ Hop).
  destruct cat; simpl;
    try (eexists _, _; split; [reflexivity|]; simpl; repeat split;
         first [exact Hcur | apply lookup_insert_eq | reflexivity]).
  unfold end_operation; simpl. rewrite lookup_insert_eq; simpl.
  rewrite Hcur. destruct (decide (Some id = Some id)); [|congruence].
  eexists _, _. split; [reflexivity|]. simpl.
  repeat split. apply lookup_insert_eq.
Qed.

(** The tracker after a thinking line seen with no current operation. *)
Lemma track_line_opens clk cat agent tr :
  current_operation_id tr = None -> is_thinking cat = true ->
  let id := operation_id_of (t_start_id clk) in
  exists tr',
    track_line clk cat agent tr = (tr', Some id, 1)
    /\ current_operation_id tr' = Some id
    /\ operations tr' !! id
       = Some {| op_type := cat; op_agent := Some agent;
                 start_time := t_start clk; status := "in_progress";
                 op_sequence := 1; end_time := None |}.
Proof.
  intros Hcur Hth id. unfold track_line. rewrite Hth, Hcur.
  unfold start_operation. fold id.
  unfold update_operation; simpl. rewrite lookup_insert_eq; simpl.
  eexists. split; [reflexivity|]. simpl. split; [reflexivity|].
  apply lookup_insert_eq.
Qed.

(** Which lines get an operation id. *)
Lemma track_line_operation_id clk cat agent tr :
  snd (fst (track_line clk cat agent tr)) <> None
  <-> is_thinking cat = true
      \/ (cat <> RESULT /\ id_truthy (current_operation_id tr) = true).
Proof.
  unfold track_line.
  destruct (is_thinking cat) eqn:Hth.
  - split; [now left|]. intros _.
    destruct (current_operation_id tr) as [cur|]; simpl.
    + destruct (update_operation cur None tr); simpl. discriminate.
    + destruct (update_operation _ None _); simpl. discriminate.
  - destruct (id_truthy (current_operation_id tr)) eqn:Hid.
    + destruct cat; try discriminate Hth; simpl;
        destruct (update_operation _ None tr); simpl;
        split; try discriminate; try (intros _; right; split;
                                      [discriminate|reflexivity]);
        try congruence.
      intros [H|[H _]]; [discriminate | congruence].
    + rewrite andb_false_r. simpl.
      split; [congruence|]. intros [H|[_ H]]; discriminate.
Qed.

(** The entries handed to the callback and to the emit are the entry of
    the line. *)
Lemma process_line_calls clk sk crew_id text lvl tr dd c :
  In c (snd (process_line clk sk crew_id text lvl (tr, dd))) ->
  truthy (strip text) = true
  /\ message (call_entry c) = text
  /\ category (call_entry c) = categorize_log text
  /\ operationId (call_entry c)
     = snd (fst (track_line clk (categorize_log text)
                            (extract_agent_name text) tr))
  /\ sequence (call_entry c)
     = snd (track_line clk (categorize_log text)
                       (extract_agent_name text) tr).
Proof.
  unfold process_line.
  destruct (truthy (strip text)); simpl; [|intros []].
  destruct (track_line _ _ _ tr) as [[tr' oid] seq]; simpl.
  destruct (is_duplicate _ _ _ dd) as [[dup count] dd'].
  destruct (dup && (1 <? count)); simpl; [intros []|].
  unfold publish.
  destruct (has_activity_callback sk);
    [destruct (activity_callback_raises sk)|]; simpl;
    intuition (subst; simpl; auto).
Qed.

(** C9. A RESULT line seen while operation [id] is open bumps the
    sequence counter of [id], marks it complete and clears the current
    slot, yet the entry published for that line has a null
    [operationId].  Across all lines, a published entry has a non-null
    [operationId] exactly when the line is SEARCH/ANALYSIS/DECISION, or
    is not RESULT and was seen while an operation was current. *)
Theorem result_line_closes_operation :
  (forall clk sk crew_id text lvl tr dd id op,
      truthy (strip text) = true ->
      categorize_log text = RESULT ->
      current_operation_id tr = Some id -> truthy id = true ->
      operations tr !! id = Some op ->
      exists tr' dd' calls e,
        process_line clk sk crew_id text lvl (tr, dd) = ((tr', dd'), calls)
        /\ operations tr' !! id
           = Some {| op_type := op_type op; op_agent := op_agent op;
                     start_time := start_time op; status := "complete";
                     op_sequence := op_sequence op + 1;
                     end_time := Some (t_end clk) |}
        /\ current_operation_id tr' = None
        /\ message e = text
        /\ operationId e = None
        /\ sequence e = op_sequence op + 1
        /\ (calls = [] \/ calls = publish sk e))
  /\ (forall clk sk crew_id text lvl tr dd c,
         In c (snd (process_line clk sk crew_id text lvl (tr, dd))) ->
         operationId (call_entry c) <> None
         <-> is_thinking (categorize_log text) = true
             \/ (categorize_log text <> RESULT
                 /\ id_truthy (current_operation_id tr) = true)).
Proof.
  split.
  - intros clk sk crew_id text lvl tr dd id op Hnb Hcat Hcur Hid Hop.
    destruct (track_line_open clk RESULT (extract_agent_name text)
                              tr id op Hcur Hid Hop)
      as (tr' & oid & Htl & Hoid & Hcur' & Hop').
    simpl in Hoid, Hcur', Hop'. subst oid.
    unfold process_line. rewrite Hnb, Hcat; simpl. rewrite Htl.
    destruct (is_duplicate _ _ _ dd) as [[dup count] dd'] eqn:Hdup.
    exists tr', dd'.
    destruct (dup && (1 <? count));
      eexists _, (with_dedup (build_entry clk crew_id text lvl RESULT
                                (extract_agent_name text) None
                                (op_sequence op + 1)) dup count);
      (split; [reflexivity|]);
      repeat (split; [first [exact Hop' | exact Hcur' | reflexivity]|]);
      [now left | now right].
  - intros clk sk crew_id text lvl tr dd c Hin.
    apply process_line_calls in Hin as (_ & _ & _ & Hoid & _).
    rewrite Hoid. apply track_line_operation_id.
Qed.

(** The verdict depends on the entry through [(message, agent)] only. *)
Lemma is_duplicate_key now e e' d :
  message e = message e' -> agent e = agent e' ->
  is_duplicate hash now e d = is_duplicate hash now e' d.
Proof. unfold is_duplicate. now intros -> ->. Qed.

(** C10. A line that [is_duplicate] judges a duplicate (true, with a
    count above 1) leads to no callback and no emit, but the tracker
    has been updated as for any other line: an open operation has its
    sequence counter incremented, and a thinking line seen with no
    current operation has opened one whose counter is 1. *)
Theorem duplicate_line_suppressed
        clk sk crew_id text lvl tr dd (e : log_entry) (count : Z) dd1 :
  truthy (strip text) = true ->
  message e = text -> agent e = extract_agent_name text ->
  is_duplicate hash (t_dedup clk) e dd = ((true, count), dd1) ->
  1 < count ->
  exists tr',
    process_line clk sk crew_id text lvl (tr, dd) = ((tr', dd1), [])
    /\ tr' = fst (fst (track_line clk (categorize_log text)
                                  (extract_agent_name text) tr))
    /\ (forall id op,
           current_operation_id tr = Some id -> truthy id = true ->
           operations tr !! id = Some op ->
           exists op', operations tr' !! id = Some op'
                       /\ op_sequence op' = op_sequence op + 1)
    /\ (current_operation_id tr = None ->
        is_thinking (categorize_log text) = true ->
        exists op',
          operations tr' !! operation_id_of (t_start_id clk) = Some op'
          /\ op_sequence op' = 1
          /\ current_operation_id tr'
             = Some (operation_id_of (t_start_id clk))).
Proof.
  intros Hnb Hmsg Hagent Hdup Hcount.
  set (cat := categorize_log text). set (who := extract_agent_name text).
  destruct (track_line clk cat who tr) as [[tr' oid] seq] eqn:Htl.
  exists tr'. split; [|split; [reflexivity|split]].
  - unfold process_line. rewrite Hnb; simpl.
    fold cat who. rewrite Htl.
    rewrite (is_duplicate_key _ _ e) by (subst who; simpl; congruence).
    rewrite Hdup. simpl.
    destruct (Z.ltb_spec 1 count); [reflexivity | lia].
  - intros id op Hcur Hid Hop.
    destruct (track_line_open clk cat who tr id op Hcur Hid Hop)
      as (tr2 & oid2 & Htl2 & _ & _ & Hop2).
    rewrite Htl in Htl2. injection Htl2 as <- _ _.
    eexists. split; [exact Hop2 | reflexivity].
  - intros Hcur Hth.
    destruct (track_line_opens clk cat who tr Hcur Hth)
      as (tr2 & Htl2 & Hcur2 & Hop2).
    rewrite Htl in Htl2. injection Htl2 as <- _ _.
    eexists. split; [exact Hop2 | split; [reflexivity | exact Hcur2]].
Qed.

End StreamFacts.

Lemma result_line_closes_operation_witness :
  let op := {| op_type := SEARCH; op_agent := Some "system";
               start_time := 5; status := "in_progress";
               op_sequence := 1; end_time := None |} in
  let tr := {| operations := {[ "17" := op ]};
               current_operation_id := Some "17" |} in
  let clk := {| t_start_id := 20; t_start := 21; t_end := 22;
                t_entry := 23; t_dedup := 24 |} in
  let sk := {| has_activity_callback := true;
               activity_callback_raises := false |} in
  exists tr' dd' calls e,
    process_line sample_hash (fun _ => "op") (fun _ => "system")
                 clk sk "crew" "Result produced" "info"
                 (tr, new_LogDeduplicator 5) = ((tr', dd'), calls)
    /\ operations tr' !! "17"
       = Some {| op_type := SEARCH; op_agent := Some "system";
                 start_time := 5; status := "complete";
                 op_sequence := 2; end_time := Some 22 |}
    /\ current_operation_id tr' = None
    /\ message e = "Result produced"
    /\ operationId e = None
    /\ sequence e = 2
    /\ (calls = [] \/ calls = publish sk e).
Proof.
  intros op tr clk sk.
  apply (proj1 (result_line_closes_operation
                  sample_hash (fun _ => "op") (fun _ => "system"))
               clk sk "crew" "Result produced" "info" tr
               (new_LogDeduplicator 5) "17" op).
  - vm_compute; reflexivity.
  - vm_compute; reflexivity.
  - reflexivity.
  - reflexivity.
  - apply lookup_singleton_eq.
Defined.

Lemma duplicate_line_suppressed_witness :
  let op := {| op_type := SEARCH; op_agent := Some "system";
               start_time := 5; status := "in_progress";
               op_sequence := 1; end_time := None |} in
  let tr := {| operations := {[ "17" := op ]};
               current_operation_id := Some "17" |} in
  let clk := {| t_start_id := 20; t_start := 21; t_end := 22;
                t_entry := 23; t_dedup := 24 |} in
  let sk := {| has_activity_callback := true;
               activity_callback_raises := false |} in
  let text := "still looking" in
  let dd := set_recent (new_LogDeduplicator 5)
                       (sample_hash (text, "system")) (3, 1) in
  exists tr',
    process_line sample_hash (fun _ => "op") (fun _ => "system")
                 clk sk "crew" text "info" (tr, dd)
    = ((tr', set_recent dd (sample_hash (text, "system")) (24, 2)), [])
    /\ exists op', operations tr' !! "17" = Some op'
                   /\ op_sequence op' = 2.
Proof.
  intros op tr clk sk text dd.
  destruct (duplicate_line_suppressed
              sample_hash (fun _ => "op") (fun _ => "system")
              clk sk "crew" text "info" tr dd
              (sample_entry text "system") 2
              (set_recent dd (sample_hash (text, "system")) (24, 2)))
    as (tr' & Hrun & _ & Hopen & _).
  - vm_compute; reflexivity.
  - reflexivity.
  - reflexivity.
  - apply (is_duplicate_seen sample_hash dd (sample_entry text "system")
                             24 3 1).
    + apply set_recent_lookup.
    + simpl. lia.
  - lia.
  - exists tr'. split; [exact Hrun|].
    apply (Hopen "17" op); [reflexivity | reflexivity |].
    apply lookup_singleton_eq.
Defined.

End CrewBroadcastFacts.

Module CrewRuntimeFacts.
Import PyStr PyExc CrewStorage CrewRuntime.

(** *** Normalised identifiers are fixed points *)

Lemma name_char_facts c :
  name_char c = true ->
  is_space c = false
  /\ Ascii.eqb c "-" = false /\ Ascii.eqb c "." = false.
Proof.
  destruct c as [[] [] [] [] [] [] [] []]; vm_compute; intuition congruence.
Qed.

Lemma name_start_facts c :
  (is_ascii_letter c || is_underscore c) = true ->
  name_char c = true /\ (isalpha c || is_underscore c) = true.
Proof.
  destruct c as [[] [] [] [] [] [] [] []]; vm_compute; intuition congruence.
Qed.

Lemma replace_char_fixed old new s :
  all_chars (fun c => negb (Ascii.eqb c old)) s = true ->
  replace_char old new s = s.
Proof.
  induction s as [|c s IH]; simpl; [reflexivity|].
  intros [Hc Hs]%andb_true_iff.
  destruct (Ascii.eqb c old); [discriminate|]. now rewrite IH.
Qed.

Lemma all_chars_impl (p q : ascii -> bool) s :
  (forall c, p c = true -> q c = true) ->
  all_chars p s = true -> all_chars q s = true.
Proof.
  intros Hpq. induction s as [|c s IH]; simpl; [reflexivity|].
  intros [Hc Hs]%andb_true_iff. now rewrite (Hpq c Hc), IH.
Qed.

Lemma rstrip_fixed s :
  all_chars (fun c => negb (is_space c)) s = true -> rstrip s = s.
Proof.
  induction s as [|c s IH]; simpl; [reflexivity|].
  intros [Hc Hs]%andb_true_iff. rewrite (IH Hs).
  destruct s; [|reflexivity].
  destruct (is_space c); [discriminate | reflexivity].
Qed.

Lemma lstrip_fixed s :
  all_chars (fun c => negb (is_space c)) s = true -> lstrip s = s.
Proof.
  destruct s as [|c s]; simpl; [reflexivity|].
  intros [Hc _]%andb_true_iff.
  destruct (is_space c); [discriminate | reflexivity].
Qed.

Lemma normalize_name s :
  MODULE_IMPORT_NAME_fullmatch s = true ->
  normalize_crew_identifier s = inr s.
Proof.
  intros Hm. destruct s as [|c s]; [discriminate|].
  pose proof Hm as Hm0. simpl in Hm.
  apply andb_true_iff in Hm as [Hc Hs].
  destruct (name_start_facts c Hc) as [Hnc Hal].
  assert (Hall : all_chars name_char (String c s) = true)
    by (simpl; now rewrite Hnc).
  assert (Hsp : all_chars (fun c => negb (is_space c)) (String c s) = true).
  { apply (all_chars_impl name_char); [|exact Hall].
    intros x Hx. now destruct (name_char_facts x Hx) as (-> & _). }
  assert (Hd : all_chars (fun c => negb (Ascii.eqb c "-")) (String c s) = true).
  { apply (all_chars_impl name_char); [|exact Hall].
    intros x Hx. now destruct (name_char_facts x Hx) as (_ & -> & _). }
  assert (Hp : all_chars (fun c => negb (Ascii.eqb c ".")) (String c s) = true).
  { apply (all_chars_impl name_char); [|exact Hall].
    intros x Hx. now destruct (name_char_facts x Hx) as (_ & _ & ->). }
  unfold normalize_crew_identifier, strip.
  rewrite (lstrip_fixed _ Hsp), (rstrip_fixed _ Hsp).
  rewrite (replace_char_fixed _ _ _ Hd), (replace_char_fixed _ _ _ Hp).
  cbn [truthy negb]. rewrite Hal, Hm0. reflexivity.
Qed.

(** What [normalize_crew_identifier] returns is a module name, hence a
    fixed point: the keys of [running_crews] normalise to themselves. *)
Lemma normalize_idempotent raw_id normalized_id :
  normalize_crew_identifier raw_id = inr normalized_id ->
  normalize_crew_identifier normalized_id = inr normalized_id.
Proof.
  intros H. apply normalize_name. revert H.
  unfold normalize_crew_identifier.
  destruct (negb (truthy (strip raw_id))); [discriminate|].
  destruct (replace_char _ _ _) as [|c0 rest] eqn:E; [discriminate|].
  destruct (negb (isalpha c0 || is_underscore c0)); [discriminate|].
  destruct (MODULE_IMPORT_NAME_fullmatch (String c0 rest)) eqn:Hm;
    simpl; [|discriminate].
  intros [= <-]. exact Hm.
Qed.

(** C2. When the normalised identifier already has a handle,
    [start_crew] raises the "already running" exception and returns the
    runtime as it was: nothing was spawned or emitted, and the map,
    with the original handle, is unchanged. *)
Theorem start_crew_already_running
        (h : host) (others : interleaving) (crew_id : string)
        (inputs : list (string * string))
        (rt : runtime) (normalized_id : string) (hd : handle) :
  normalize_crew_identifier crew_id = inr normalized_id ->
  running_crews rt !! normalized_id = Some hd ->
  let out := start_crew h others crew_id inputs rt in
  fst out = inl (Exception ("Crew " ++ normalized_id ++ " is already running"))
  /\ snd out = rt
  /\ effects (snd out) = effects rt
  /\ running_crews (snd out) !! normalized_id = Some hd.
Proof.
  intros Hn Hk out. subst out. unfold start_crew. rewrite Hn.
  destruct (decide (is_Some (running_crews rt !! normalized_id))) as [_|Hno].
  - simpl. auto.
  - exfalso. apply Hno. now exists hd.
Qed.

Lemma start_crew_already_running_witness :
  let rt := sample_runtime (sample_process (Some None) None (Some None)) in
  let out := start_crew sample_host alone " my-crew " [("topic", "ai")] rt in
  fst out = inl (Exception "Crew my_crew is already running")
  /\ snd out = rt
  /\ effects (snd out) = []
  /\ running_crews (snd out) !! "my_crew"
     = Some {| process := Some (sample_process (Some None) None (Some None));
               process_id := "4242" |}.
Proof.
  intros rt.
  apply (start_crew_already_running sample_host alone " my-crew "
           [("topic", "ai")] rt "my_crew").
  - vm_compute; reflexivity.
  - apply lookup_singleton_eq.
Defined.

(** *** stop_crew *)

(** The identifier is normalised before the [try] block, so a rejected
    identifier makes [stop_crew] raise. *)
Lemma stop_crew_rejects_malformed_id :
  stop_crew "9lives" {| running_crews := ∅; effects := [] |}
  = (inl (ValueError
            "Invalid crew ID '9lives'. Crew IDs must start with a letter or underscore."),
     {| running_crews := ∅; effects := [] |}).
Proof. vm_compute; reflexivity. Qed.

(** C3 (amended). [stop_crew] raises exactly when
    [normalize_crew_identifier] rejects the identifier, with that
    [ValueError] and no effect.  For an accepted identifier it returns
    normally and leaves [running_crews] alone: with no handle, or with
    a process that has a return code, nothing is signalled; otherwise
    [terminate()] is called, a raising [terminate()] is followed by
    [kill()], and what [kill()] raises is dropped. *)
Theorem stop_crew_best_effort :
  (forall crew_id rt e,
      normalize_crew_identifier crew_id = inl e ->
      stop_crew crew_id rt = (inl e, rt))
  /\ (forall crew_id rt id,
         normalize_crew_identifier crew_id = inr id ->
         fst (stop_crew crew_id rt) = inr tt
         /\ running_crews (snd (stop_crew crew_id rt)) = running_crews rt)
  /\ (forall crew_id rt id,
         normalize_crew_identifier crew_id = inr id ->
         running_crews rt !! id = None ->
         stop_crew crew_id rt = (inr tt, rt))
  /\ (forall crew_id rt id p pid_ code,
         normalize_crew_identifier crew_id = inr id ->
         running_crews rt !! id = Some {| process := Some p;
                                          process_id := pid_ |} ->
         returncode p = Some (Some code) ->
         stop_crew crew_id rt = (inr tt, rt))
  /\ (forall crew_id rt id p pid_,
         normalize_crew_identifier crew_id = inr id ->
         running_crews rt !! id = Some {| process := Some p;
                                          process_id := pid_ |} ->
         (returncode p = None \/ returncode p = Some None) ->
         terminate_raises p = None ->
         stop_crew crew_id rt = (inr tt, perform (Terminate (pid p)) rt))
  /\ (forall crew_id rt id p pid_ e kill_outcome,
         normalize_crew_identifier crew_id = inr id ->
         running_crews rt !! id = Some {| process := Some p;
                                          process_id := pid_ |} ->
         (returncode p = None \/ returncode p = Some None) ->
         terminate_raises p = Some e ->
         kill_raises p = Some kill_outcome ->
         stop_crew crew_id rt
         = (inr tt, perform (Kill (pid p))
                            (perform (Terminate (pid p)) rt))).
Proof.
  split; [|split; [|split; [|split; [|split]]]].
  - intros crew_id rt e Hn. unfold stop_crew. now rewrite Hn.
  - intros crew_id rt id Hn. unfold stop_crew. rewrite Hn.
    destruct (running_crews rt !! id) as [[[p|] ?]|]; simpl; auto.
    destruct (returncode p) as [[c|]|]; simpl; auto;
      destruct (terminate_raises p); simpl; auto;
      destruct (kill_raises p); auto.
  - intros crew_id rt id Hn Hk. unfold stop_crew. now rewrite Hn, Hk.
  - intros crew_id rt id p pid_ code Hn Hk Hrc. unfold stop_crew.
    rewrite Hn, Hk; simpl. now rewrite Hrc.
  - intros crew_id rt id p pid_ Hn Hk Hrc Ht. unfold stop_crew.
    rewrite Hn, Hk; simpl. destruct Hrc as [-> | ->]; now rewrite Ht.
  - intros crew_id rt id p pid_ e ko Hn Hk Hrc Ht Hkill. unfold stop_crew.
    rewrite Hn, Hk; simpl. destruct Hrc as [-> | ->]; now rewrite Ht, Hkill.
Qed.

Lemma stop_crew_best_effort_witness :
  let p := sample_process (Some None) (Some (RuntimeError "boom"))
                          (Some (Some (OSError "gone"))) in
  stop_crew "my-crew" (sample_runtime p)
  = (inr tt, {| running_crews := running_crews (sample_runtime p);
                effects := [Terminate "4242"; Kill "4242"] |}).
Proof.
  intros p.
  destruct stop_crew_best_effort as (_ & _ & _ & _ & _ & Hkill).
  apply (Hkill "my-crew" (sample_runtime p) "my_crew" p "4242"
               (RuntimeError "boom") (Some (OSError "gone"))).
  - vm_compute; reflexivity.
  - apply lookup_singleton_eq.
  - now right.
  - reflexivity.
  - reflexivity.
Defined.

End CrewRuntimeFacts.

Module MetricsFacts.
Import PyExc Metrics.

Lemma getitem_in_range {A : Type} (l : list A) (i : Z) :
  0 <= i < Z.of_nat (length l) ->
  exists x, l !! Z.to_nat i = Some x /\ getitem l i = inr x.
Proof.
  intros Hi. unfold getitem.
  destruct (Z.ltb_spec i 0); [lia|].
  destruct (Z.ltb_spec i 0); [lia|].
  destruct (Z.leb_spec (Z.of_nat (length l)) i); [lia|]. simpl.
  destruct (l !! Z.to_nat i) as [x|] eqn:E.
  - now exists x.
  - apply lookup_ge_None in E. lia.
Qed.

Lemma calculate_percentile_many (vs : list float) (p : float) :
  (2 <= length vs)%nat ->
  _calculate_percentile vs p
  = let k := (float_of_Z (Z.of_nat (length vs) - 1)
              * (p / float_of_Z 100))%float in
    let* lower_index := math_floor k in
    let* upper_index := math_ceil k in
    if lower_index =? upper_index then
      let* i := int_of_float k in
      getitem vs i
    else
      let* lower_value := getitem vs lower_index in
      let* upper_value := getitem vs upper_index in
      inr (lower_value * (float_of_Z upper_index - k)
           + upper_value * (k - float_of_Z lower_index))%float.
Proof.
  destruct vs as [|a [|b rest]]; simpl; intros Hn; try lia. reflexivity.
Qed.

(** *** binary64 arithmetic *)

(** What follows is derived from the specification of the operations
    on floats: the number of digits of a mantissa, the shifts of the
    rounding, and from them the float of an integer, the product of two
    normal floats and the difference of two floats that are close. *)

Lemma digits2_pos_bounds p :
  2 ^ (Z.pos (digits2_pos p) - 1) <= Z.pos p < 2 ^ Z.pos (digits2_pos p).
Proof.
  induction p as [p IH|p IH|]; cbn [digits2_pos].
  - rewrite Pos2Z.inj_succ.
    replace (Z.succ (Z.pos (digits2_pos p)) - 1) with (Z.succ (Z.pos (digits2_pos p) - 1)) by lia.
    rewrite !Z.pow_succ_r by lia. lia.
  - rewrite Pos2Z.inj_succ.
    replace (Z.succ (Z.pos (digits2_pos p)) - 1) with (Z.succ (Z.pos (digits2_pos p) - 1)) by lia.
    rewrite !Z.pow_succ_r by lia. lia.
  - simpl. lia.
Qed.

Lemma digits2_pos_unique p d :
  2 ^ (d - 1) <= Z.pos p < 2 ^ d -> Z.pos (digits2_pos p) = d.
Proof.
  intros [Hlo Hhi]. pose proof (digits2_pos_bounds p) as [Hlo' Hhi'].
  assert (0 < d).
  { destruct (Z.ltb_spec 0 d); [assumption|].
    rewrite Z.pow_neg_r in Hlo by lia.
    assert (2 ^ d <= 2 ^ 0) by (apply Z.pow_le_mono_r; lia). simpl in *. lia. }
  set (d' := Z.pos (digits2_pos p)) in *.
  destruct (Z.lt_trichotomy d' d) as [Hlt|[Heq|Hgt]]; [|exact Heq|].
  - assert (2 ^ d' <= 2 ^ (d - 1)) by (apply Z.pow_le_mono_r; lia). lia.
  - assert (2 ^ d <= 2 ^ (d' - 1)) by (apply Z.pow_le_mono_r; lia). lia.
Qed.

Lemma iter_xO p k : Z.pos (Pos.iter xO p k) = Z.pos p * 2 ^ Z.pos k.
Proof.
  induction k as [|k IH] using Pos.peano_ind.
  - simpl. lia.
  - rewrite Pos.iter_succ, Pos2Z.inj_succ, Z.pow_succ_r by lia.
    rewrite Pos2Z.inj_xO, IH. lia.
Qed.

Lemma shr_1_m mrs :
  0 <= shr_m mrs -> shr_m (shr_1 mrs) = shr_m mrs / 2.
Proof.
  destruct mrs as [m r s]. cbn [shr_m]. intros Hm.
  destruct m as [|[p|p|]|p]; cbn [shr_1 shr_m]; [reflexivity| | |reflexivity|lia].
  - apply Z.div_unique with 1; lia.
  - apply Z.div_unique with 0; lia.
Qed.

Lemma iter_pos_shr_m n : forall mrs,
  0 <= shr_m mrs ->
  shr_m (SpecFloat.iter_pos shr_1 n mrs) = shr_m mrs / 2 ^ Z.pos n.
Proof.
  assert (Hstep : forall mrs, 0 <= shr_m mrs -> 0 <= shr_m (shr_1 mrs)).
  { intros mrs H. rewrite shr_1_m by exact H. apply Z.div_pos; lia. }
  induction n as [n IH|n IH|]; intros mrs Hm; cbn [SpecFloat.iter_pos].
  - assert (H1 : 0 <= shr_m (shr_1 mrs)) by now apply Hstep.
    assert (H2 : 0 <= shr_m (SpecFloat.iter_pos shr_1 n (shr_1 mrs))).
    { rewrite IH by exact H1. apply Z.div_pos; lia. }
    rewrite IH by exact H2. rewrite IH by exact H1. rewrite shr_1_m by exact Hm.
    rewrite !Z.div_div by lia. f_equal.
    replace (Z.pos n~1) with (Z.pos n + Z.pos n + 1) by lia.
    rewrite !Z.pow_add_r by lia. change (2 ^ 1) with 2. ring.
  - assert (H2 : 0 <= shr_m (SpecFloat.iter_pos shr_1 n mrs)).
    { rewrite IH by exact Hm. apply Z.div_pos; lia. }
    rewrite IH by exact H2. rewrite IH by exact Hm.
    rewrite !Z.div_div by lia. f_equal.
    replace (Z.pos n~0) with (Z.pos n + Z.pos n) by lia.
    now rewrite !Z.pow_add_r by lia.
  - now rewrite shr_1_m.
Qed.

Lemma round_nearest_even_cases m l :
  round_nearest_even m l = m \/ round_nearest_even m l = m + 1.
Proof.
  destruct l as [|[]]; cbn; auto. destruct (Z.even m); auto.
Qed.

(** A mantissa of 53 digits with an exponent in range is a float as it
    stands. *)
Lemma binary_round_aux_exact s m e :
  Z.pos (digits2_pos m) = 53 -> -1074 <= e <= 971 ->
  binary_round_aux prec emax s (Z.pos m) e loc_Exact = S754_finite s m e.
Proof.
  intros Hd He. unfold binary_round_aux, shr_fexp.
  cbn [Zdigits2 shr_record_of_loc]. rewrite Hd.
  assert (Hf : fexp prec emax (53 + e) - e = 0).
  { unfold fexp, emin, prec, emax. lia. }
  rewrite Hf. cbn [shr shr_m loc_of_shr_record round_nearest_even Zdigits2
                   shr_record_of_loc].
  rewrite Hd, Hf. cbn [shr shr_m].
  destruct (Z.leb_spec e (emax - prec)) as [_|H]; [reflexivity|].
  unfold emax, prec in H. lia.
Qed.

Lemma shl_align_value mx ex ez :
  ez <= ex ->
  Z.pos (fst (shl_align mx ex ez)) = Z.pos mx * 2 ^ (ex - ez).
Proof.
  intros Hle. unfold shl_align.
  destruct (ez - ex) as [|d|d] eqn:Hd; cbn [fst]; try lia.
  - replace (ex - ez) with 0 by lia. simpl. lia.
  - change (PosDef.Pos.iter xO mx d) with (Pos.iter xO mx d).
    rewrite iter_xO. f_equal. f_equal. lia.
Qed.

(** An integer of at most 53 digits times a power of two in range is a
    float. *)
Lemma binary_normalize_exact D ez :
  0 < D < 2 ^ 53 -> -1022 <= ez <= 971 ->
  exists m e,
    binary_normalize prec emax D ez false = S754_finite false m e
    /\ Z.pos (digits2_pos m) = 53
    /\ ez - 52 <= e <= ez
    /\ Z.pos m = D * 2 ^ (ez - e).
Proof.
  intros HD Hez. destruct D as [|p|p]; try lia.
  cbn [binary_normalize]. unfold binary_round.
  pose proof (digits2_pos_bounds p) as [Hlo Hhi].
  set (d := Z.pos (digits2_pos p)) in *.
  assert (Hd : 1 <= d <= 53).
  { split; [subst d; lia|].
    destruct (Z.leb_spec d 53) as [|H]; [assumption|].
    assert (2 ^ 53 <= 2 ^ (d - 1)) by (apply Z.pow_le_mono_r; lia). lia. }
  assert (Hf : fexp prec emax (d + ez) = d + ez - 53).
  { unfold fexp, emin, prec, emax. lia. }
  rewrite Hf. unfold shl_align.
  destruct (d + ez - 53 - ez) as [|k|k] eqn:Hk; try lia.
  - assert (d = 53) by lia.
    rewrite binary_round_aux_exact by (fold d; lia).
    exists p, ez. split; [reflexivity|]. split; [fold d; lia|].
    split; [lia|]. rewrite Z.sub_diag. simpl. lia.
  - change (PosDef.Pos.iter xO p k) with (Pos.iter xO p k).
    assert (Hm : Z.pos (Pos.iter xO p k) = Z.pos p * 2 ^ Z.pos k)
      by apply iter_xO.
    assert (Hdk : Z.pos (digits2_pos (Pos.iter xO p k)) = 53).
    { apply digits2_pos_unique. rewrite Hm.
      assert (H0 : 0 < 2 ^ Z.pos k) by (apply Z.pow_pos_nonneg; lia).
      assert (E1 : 2 ^ (53 - 1) = 2 ^ (d - 1) * 2 ^ Z.pos k).
      { rewrite <- Z.pow_add_r by lia. f_equal. lia. }
      assert (E2 : 2 ^ 53 = 2 ^ d * 2 ^ Z.pos k).
      { rewrite <- Z.pow_add_r by lia. f_equal. lia. }
      rewrite E1, E2. nia. }
    rewrite binary_round_aux_exact by (try exact Hdk; lia).
    exists (Pos.iter xO p k), (d + ez - 53).
    split; [reflexivity|]. split; [exact Hdk|]. split; [lia|].
    rewrite Hm. f_equal. f_equal. lia.
Qed.

(** The float of a positive integer below [2^53]: the integer itself. *)
Lemma float_of_Z_exact z :
  1 <= z < 2 ^ 53 ->
  exists m e,
    Prim2SF (float_of_Z z) = S754_finite false m e
    /\ Z.pos (digits2_pos m) = 53
    /\ -52 <= e <= 0
    /\ Z.pos m = z * 2 ^ (- e).
Proof.
  intros Hz. unfold float_of_Z.
  destruct (Z.ltb_spec z 0) as [|_]; [lia|].
  rewrite of_uint63_spec.
  rewrite Uint63.of_Z_spec, Z.mod_small
    by (change Uint63Axioms.wB with (2 ^ 63); split; [lia|];
        apply Z.lt_trans with (2 ^ 53); [lia | reflexivity]).
  destruct (binary_normalize_exact z 0) as (m & e & -> & Hd & He & Hm);
    [lia | lia|].
  exists m, e. split; [reflexivity|]. split; [exact Hd|]. split; [lia|].
  rewrite Hm. reflexivity.
Qed.

Lemma digits2_pos_53 m : Z.pos (digits2_pos m) = 53 -> 2 ^ 52 <= Z.pos m < 2 ^ 53.
Proof. intros H. pose proof (digits2_pos_bounds m) as Hb. now rewrite H in Hb. Qed.

(** The product of two normal floats, away from the ends of the
    exponent range: the quotient of the product of the mantissas by a
    power of two, or one more. *)
Lemma SFmul_normal mx ex my ey :
  Z.pos (digits2_pos mx) = 53 -> Z.pos (digits2_pos my) = 53 ->
  -1074 <= ex + ey + 52 -> ex + ey + 54 <= 971 ->
  exists m e M s,
    SFmul prec emax (S754_finite false mx ex) (S754_finite false my ey)
    = S754_finite false m e
    /\ Z.pos (digits2_pos m) = 53
    /\ (s = 52 \/ s = 53)
    /\ (M = Z.pos mx * Z.pos my / 2 ^ s \/ M = Z.pos mx * Z.pos my / 2 ^ s + 1)
    /\ 2 ^ 52 <= Z.pos mx * Z.pos my / 2 ^ s < 2 ^ 53
    /\ ((Z.pos m = M /\ e = ex + ey + s)
        \/ (M = 2 ^ 53 /\ Z.pos m = 2 ^ 52 /\ e = ex + ey + s + 1)).
Proof.
  intros Hdx Hdy Hlo Hhi.
  apply digits2_pos_53 in Hdx, Hdy.
  cbn [SFmul xorb]. unfold binary_round_aux.
  set (P := (mx * my)%positive).
  assert (HP : Z.pos P = Z.pos mx * Z.pos my) by (subst P; apply Pos2Z.inj_mul).
  pose proof (digits2_pos_bounds P) as [HPlo HPhi].
  set (dP := Z.pos (digits2_pos P)) in *.
  assert (HPb : 2 ^ 104 <= Z.pos P < 2 ^ 106).
  { rewrite HP. change (2 ^ 104) with (2 ^ 52 * 2 ^ 52).
    change (2 ^ 106) with (2 ^ 53 * 2 ^ 53). nia. }
  assert (HdP : dP = 105 \/ dP = 106).
  { assert (104 < dP).
    { destruct (Z.ltb_spec 104 dP) as [|H]; [assumption|].
      assert (2 ^ dP <= 2 ^ 104) by (apply Z.pow_le_mono_r; lia). lia. }
    assert (dP - 1 < 106).
    { destruct (Z.ltb_spec (dP - 1) 106) as [|H']; [assumption|].
      assert (2 ^ 106 <= 2 ^ (dP - 1)) by (apply Z.pow_le_mono_r; lia). lia. }
    lia. }
  set (E := ex + ey) in *.
  assert (Hf : fexp prec emax (dP + E) - E = dP - 53).
  { unfold fexp, emin, prec, emax. lia. }
  destruct (dP - 53) as [|sp|sp] eqn:Hs; try lia.
  set (mrs0 := {| shr_m := Z.pos P; shr_r := false; shr_s := false |}).
  set (mrs1 := SpecFloat.iter_pos shr_1 sp mrs0).
  assert (H1 : shr_fexp prec emax (Z.pos P) E loc_Exact
               = (mrs1, E + Z.pos sp)).
  { unfold shr_fexp. cbn [Zdigits2 shr_record_of_loc]. fold dP.
    rewrite Hf. reflexivity. }
  rewrite H1.
  assert (Hq : shr_m mrs1 = Z.pos P / 2 ^ Z.pos sp).
  { subst mrs1. rewrite iter_pos_shr_m; [reflexivity | cbn; lia]. }
  set (q := Z.pos P / 2 ^ Z.pos sp) in *.
  assert (Hqb : 2 ^ 52 <= q < 2 ^ 53).
  { subst q. split.
    - apply Z.div_le_lower_bound; [apply Z.pow_pos_nonneg; lia|].
      rewrite <- Z.pow_add_r by lia.
      replace (Z.pos sp + 52) with (dP - 1) by lia. exact HPlo.
    - apply Z.div_lt_upper_bound; [apply Z.pow_pos_nonneg; lia|].
      rewrite <- Z.pow_add_r by lia.
      replace (Z.pos sp + 53) with dP by lia. exact HPhi. }
  set (M := round_nearest_even (shr_m mrs1) (loc_of_shr_record mrs1)).
  assert (HM : M = q \/ M = q + 1).
  { subst M. rewrite Hq. apply round_nearest_even_cases. }
  assert (Hs' : Z.pos sp = 52 \/ Z.pos sp = 53) by lia.
  destruct M as [|pm|pm] eqn:HMp; try lia.
  destruct (Z.ltb_spec (Z.pos pm) (2 ^ 53)) as [Hsmall|Hbig].
  - (* no carry *)
    assert (Hdm : Z.pos (digits2_pos pm) = 53).
    { apply digits2_pos_unique. change (53 - 1) with 52. lia. }
    unfold shr_fexp. cbn [Zdigits2 shr_record_of_loc]. rewrite Hdm.
    assert (Hf2 : fexp prec emax (53 + (E + Z.pos sp)) - (E + Z.pos sp) = 0).
    { unfold fexp, emin, prec, emax. lia. }
    rewrite Hf2. cbn [shr shr_m].
    destruct (Z.leb_spec (E + Z.pos sp) (emax - prec)) as [_|H];
      [|unfold emax, prec in H; lia].
    exists pm, (E + Z.pos sp), (Z.pos pm), (Z.pos sp).
    split; [reflexivity|]. split; [exact Hdm|].
    split; [exact Hs'|]. rewrite <- HP.
    split; [exact HM|]. split; [exact Hqb|]. left. now split.
  - (* the mantissa has reached 2^53 *)
    assert (Hpm : Z.pos pm = 2 ^ 53) by lia.
    assert (Hdm : Z.pos (digits2_pos pm) = 54).
    { apply digits2_pos_unique. rewrite Hpm. change (54 - 1) with 53.
      split; [lia | reflexivity]. }
    unfold shr_fexp. cbn [Zdigits2 shr_record_of_loc]. rewrite Hdm.
    assert (Hf2 : fexp prec emax (54 + (E + Z.pos sp)) - (E + Z.pos sp) = 1).
    { unfold fexp, emin, prec, emax. lia. }
    rewrite Hf2. cbn [shr SpecFloat.iter_pos].
    assert (Hpm' : pm = 9007199254740992%positive).
    { apply Pos2Z.inj. exact Hpm. }
    subst pm. cbn [shr_1 shr_m orb].
    destruct (Z.leb_spec (E + Z.pos sp + 1) (emax - prec)) as [_|H];
      [|unfold emax, prec in H; lia].
    exists 4503599627370496%positive, (E + Z.pos sp + 1), (2 ^ 53), (Z.pos sp).
    split; [reflexivity|]. split; [reflexivity|].
    split; [exact Hs'|]. rewrite <- HP.
    split; [exact HM|]. split; [exact Hqb|]. right. now repeat split.
Qed.

Lemma ratio_95_100 :
  Prim2SF (PrimFloat.div (float_of_Z 95) (float_of_Z 100))
  = S754_finite false 8556839292003942 (-53).
Proof. vm_compute. reflexivity. Qed.

(** The fractional index of the 95th percentile among [z + 1] samples
    is a normal float between one half and [z]. *)
Lemma fractional_index_le z :
  1 <= z < 2 ^ 53 ->
  exists m e,
    Prim2SF (fractional_index (z + 1)) = S754_finite false m e
    /\ Z.pos (digits2_pos m) = 53
    /\ -53 <= e <= 0
    /\ Z.pos m <= z * 2 ^ (- e).
Proof.
  intros Hz. unfold fractional_index.
  replace (z + 1 - 1) with z by lia.
  rewrite mul_spec, ratio_95_100.
  destruct (float_of_Z_exact z Hz) as (mx & ex & -> & Hdx & Hex & Hmx).
  unfold SF64mul.
  destruct (SFmul_normal mx ex 8556839292003942 (-53) Hdx eq_refl)
    as (m & e & M & s & -> & Hdm & Hs & HM & Hq & Hme); [lia | lia|].
  exists m, e. split; [reflexivity|]. split; [exact Hdm|].
  pose proof (digits2_pos_53 mx Hdx) as Hmxb.
  (* the quotient lies below [z] at the scale of the result *)
  assert (H2s : 0 < 2 ^ s) by (apply Z.pow_pos_nonneg; lia).
  assert (HJ : Z.pos mx * 8556839292003942 / 2 ^ s + 1
               <= Z.pos mx * 2 ^ (53 - s)).
  { assert (Z.pos mx * 8556839292003942 / 2 ^ s < Z.pos mx * 2 ^ (53 - s));
      [|lia].
    apply Z.div_lt_upper_bound; [exact H2s|].
    replace (2 ^ s * (Z.pos mx * 2 ^ (53 - s)))
      with (Z.pos mx * (2 ^ s * 2 ^ (53 - s))) by ring.
    rewrite <- Z.pow_add_r by lia.
    replace (s + (53 - s)) with 53 by lia.
    apply Z.mul_lt_mono_pos_l; [lia | reflexivity]. }
  assert (HMJ : M <= Z.pos mx * 2 ^ (53 - s)) by lia.
  assert (Hscale : z * 2 ^ (- (ex + -53 + s)) = Z.pos mx * 2 ^ (53 - s)).
  { rewrite Hmx. replace (- (ex + -53 + s)) with (- ex + (53 - s)) by lia.
    rewrite Z.pow_add_r by lia. ring. }
  destruct Hme as [[Hm ->]|(HM53 & Hm & ->)].
  - split; [lia|]. rewrite Hm, Hscale. exact HMJ.
  - destruct (Z.eq_dec (ex + -53 + s) 0) as [E0|E0].
    + (* then [z] itself is the mantissa, below [2^53] *)
      exfalso. assert (s = 53 /\ ex = 0) as [-> ->] by lia.
      change (2 ^ (53 - 53)) with 1 in HMJ. lia.
    + split; [lia|]. rewrite Hm.
      assert (H2 : 2 ^ (- (ex + -53 + s))
                   = 2 * 2 ^ (- (ex + -53 + s + 1))).
      { rewrite <- Z.pow_succ_r by lia. f_equal. lia. }
      rewrite H2 in Hscale. change (2 ^ 53) with (2 * 2 ^ 52) in HM53. lia.
Qed.

Lemma float_round_finite round x m e :
  Prim2SF x = S754_finite false m e ->
  float_round round x
  = inr (round (Z.pos m * 2 ^ Z.max e 0) (2 ^ Z.max (- e) 0)).
Proof. intros H. unfold float_round. rewrite H. reflexivity. Qed.

(** The indices of a positive float that does not exceed [z]. *)
Lemma indices_in_range (k : float) m e z :
  Prim2SF k = S754_finite false m e -> e <= 0 ->
  Z.pos m <= z * 2 ^ (- e) ->
  let lo := Z.pos m / 2 ^ (- e) in
  let hi := - (- Z.pos m / 2 ^ (- e)) in
  math_floor k = inr lo /\ math_ceil k = inr hi /\ int_of_float k = inr lo
  /\ 0 <= lo /\ lo <= hi /\ hi <= z /\ hi <= lo + 1
  /\ (lo <> hi ->
      0 < hi * 2 ^ (- e) - Z.pos m < 2 ^ (- e)
      /\ 0 < Z.pos m - lo * 2 ^ (- e) < 2 ^ (- e)).
Proof.
  intros Hk He Hle lo hi. unfold math_floor, math_ceil, int_of_float.
  rewrite !(float_round_finite _ k m e Hk).
  replace (Z.max e 0) with 0 by lia.
  replace (Z.max (- e) 0) with (- e) by lia.
  change (2 ^ 0) with 1. rewrite Z.mul_1_r.
  set (den := 2 ^ (- e)) in *.
  assert (Hden : 0 < den) by (apply Z.pow_pos_nonneg; lia).
  split; [reflexivity|]. split; [reflexivity|].
  split; [f_equal; apply Z.quot_div_nonneg; lia|].
  pose proof (Z.div_mod (Z.pos m) den ltac:(lia)) as Hdm.
  pose proof (Z.mod_pos_bound (Z.pos m) den Hden) as Hmod.
  pose proof (Z.div_mod (- Z.pos m) den ltac:(lia)) as Hdm'.
  pose proof (Z.mod_pos_bound (- Z.pos m) den Hden) as Hmod'.
  assert (Hfl : 0 <= Z.pos m / den) by (apply Z.div_pos; lia).
  assert (Hup : - z <= - Z.pos m / den).
  { apply Z.div_le_lower_bound; [exact Hden | lia]. }
  fold lo in Hdm, Hfl |- *.
  assert (Hhi : hi = - (- Z.pos m / den)) by reflexivity.
  clearbody lo hi.
  repeat split; try lia; nia.
Qed.

(** The difference of two positive floats whose mantissas, brought to
    the smaller exponent, differ by less than [2^53]: it is computed
    exactly. *)
Lemma SFsub_exact mx ex my ey :
  let ez := Z.min ex ey in
  let D := Z.pos mx * 2 ^ (ex - ez) - Z.pos my * 2 ^ (ey - ez) in
  0 < D < 2 ^ 53 -> -1022 <= ez <= 971 ->
  exists m e,
    SFsub prec emax (S754_finite false mx ex) (S754_finite false my ey)
    = S754_finite false m e
    /\ Z.pos (digits2_pos m) = 53
    /\ ez - 52 <= e <= ez
    /\ Z.pos m = D * 2 ^ (ez - e).
Proof.
  intros ez D HD Hez. cbn [SFsub cond_Zopp].
  change (IntDef.Z.min ex ey) with ez.
  rewrite !shl_align_value by (subst ez; lia).
  fold D. now apply binary_normalize_exact.
Qed.

Lemma float_of_Z_zero : Prim2SF (float_of_Z 0) = S754_zero false.
Proof. vm_compute. reflexivity. Qed.

(** [h - k] for a float [k] just below the integer [h]. *)
Lemma weight_above (k : float) m e h :
  Prim2SF k = S754_finite false m e -> -53 <= e <= 0 ->
  1 <= h < 2 ^ 53 ->
  0 < h * 2 ^ (- e) - Z.pos m < 2 ^ (- e) ->
  exists m1 e1,
    Prim2SF (float_of_Z h - k)%float = S754_finite false m1 e1
    /\ e1 <= e
    /\ Z.pos m1 = h * 2 ^ (- e1) - Z.pos m * 2 ^ (e - e1).
Proof.
  intros Hk He Hh Hgap.
  rewrite sub_spec, Hk.
  destruct (float_of_Z_exact h Hh) as (mh & eh & -> & _ & Heh & Hmh).
  unfold SF64sub.
  set (ez := Z.min eh e).
  assert (HD : Z.pos mh * 2 ^ (eh - ez) - Z.pos m * 2 ^ (e - ez)
               = (h * 2 ^ (- e) - Z.pos m) * 2 ^ (e - ez)).
  { rewrite Hmh, Z.mul_sub_distr_r, <- !Z.mul_assoc, <- !Z.pow_add_r
      by (subst ez; lia).
    do 3 f_equal. lia. }
  assert (H0 : 0 < 2 ^ (e - ez)) by (apply Z.pow_pos_nonneg; subst ez; lia).
  destruct (SFsub_exact mh eh m e) as (m1 & e1 & -> & _ & He1 & Hm1).
  - fold ez. rewrite HD. split; [nia|].
    apply Z.lt_le_trans with (2 ^ (- e) * 2 ^ (e - ez)); [nia|].
    rewrite <- Z.pow_add_r by (subst ez; lia).
    apply Z.pow_le_mono_r; subst ez; lia.
  - fold ez. subst ez. lia.
  - fold ez in He1, Hm1. exists m1, e1.
    split; [reflexivity|]. split; [subst ez; lia|].
    rewrite Hm1, HD, Z.mul_sub_distr_r, Z.mul_sub_distr_r.
    rewrite <- !Z.mul_assoc, <- !Z.pow_add_r by (subst ez; lia).
    f_equal; f_equal; f_equal; lia.
Qed.

(** [k - l] for a float [k] just above the integer [l]. *)
Lemma weight_below (k : float) m e l :
  Prim2SF k = S754_finite false m e -> -53 <= e <= 0 ->
  0 <= l < 2 ^ 53 ->
  0 < Z.pos m - l * 2 ^ (- e) < 2 ^ (- e) ->
  exists m1 e1,
    Prim2SF (k - float_of_Z l)%float = S754_finite false m1 e1
    /\ e1 <= e
    /\ Z.pos m1 = Z.pos m * 2 ^ (e - e1) - l * 2 ^ (- e1).
Proof.
  intros Hk He Hl Hgap.
  rewrite sub_spec, Hk.
  destruct (Z.eq_dec l 0) as [->|Hl0].
  - rewrite float_of_Z_zero. cbn [SF64sub SFsub].
    exists m, e. split; [reflexivity|]. split; [lia|].
    rewrite Z.sub_diag. simpl. lia.
  - destruct (float_of_Z_exact l ltac:(lia)) as (ml & el & -> & _ & Hel & Hml).
    unfold SF64sub.
    set (ez := Z.min e el).
    assert (HD : Z.pos m * 2 ^ (e - ez) - Z.pos ml * 2 ^ (el - ez)
                 = (Z.pos m - l * 2 ^ (- e)) * 2 ^ (e - ez)).
    { rewrite Hml, Z.mul_sub_distr_r, <- !Z.mul_assoc, <- !Z.pow_add_r
        by (subst ez; lia).
      do 3 f_equal. lia. }
    assert (H0 : 0 < 2 ^ (e - ez)) by (apply Z.pow_pos_nonneg; subst ez; lia).
    destruct (SFsub_exact m e ml el) as (m1 & e1 & -> & _ & He1 & Hm1).
    + fold ez. rewrite HD. split; [nia|].
      apply Z.lt_le_trans with (2 ^ (- e) * 2 ^ (e - ez)); [nia|].
      rewrite <- Z.pow_add_r by (subst ez; lia).
      apply Z.pow_le_mono_r; subst ez; lia.
    + fold ez. subst ez. lia.
    + fold ez in He1, Hm1. exists m1, e1.
      split; [reflexivity|]. split; [subst ez; lia|].
      rewrite Hm1, HD, Z.mul_sub_distr_r, Z.mul_sub_distr_r.
      rewrite <- !Z.mul_assoc, <- !Z.pow_add_r by (subst ez; lia).
      f_equal; f_equal; f_equal; lia.
Qed.

Lemma exact_finite x m e :
  Prim2SF x = S754_finite false m e -> e <= 0 ->
  exact x = Some (Z.pos m # Z.to_pos (2 ^ (- e))).
Proof.
  intros Hx He. unfold exact, fraction_of. rewrite Hx.
  replace (Z.max e 0) with 0 by lia.
  replace (Z.max (- e) 0) with (- e) by lia.
  change (2 ^ 0) with 1. now rewrite Z.mul_1_r.
Qed.

Lemma pow2_pos e : e <= 0 -> Z.pos (Z.to_pos (2 ^ (- e))) = 2 ^ (- e).
Proof. intros He. apply Z2Pos.id. apply Z.pow_pos_nonneg; lia. Qed.

(** C8. On binary64 floats, as the program computes: for at least two
    samples, and no more than [2^53], the fractional index
    [k = (n - 1) * (95 / 100)] is a finite number [q]; its floor [lo]
    and ceiling [hi] are what [math.floor] and [math.ceil] return, they
    are indices of the list and at most one apart.  When they are
    equal the 95th percentile is the sample at that index.  Otherwise
    it is [v_lo * (hi - k) + v_hi * (k - lo)] for the samples [v_lo]
    and [v_hi] at [lo] and [hi], the products and the sum rounded; the
    two weights are computed without rounding, they are the numbers
    [hi - q] and [q - lo], which add up to 1.  Of the sorted samples
    10, 20, 30, 40, 50 the 95th percentile is 48.0. *)
Theorem calculate_percentile_interpolates (vs : list float) :
  (2 <= length vs)%nat -> Z.of_nat (length vs) <= 2 ^ 53 ->
  let n := Z.of_nat (length vs) in
  let k := fractional_index n in
  (exists (q : Q) (v_lo v_hi : float),
      exact k = Some q
      /\ let lo := Qfloor q in
         let hi := Qceiling q in
         math_floor k = inr lo /\ math_ceil k = inr hi
         /\ 0 <= lo /\ lo <= hi /\ hi <= n - 1 /\ hi <= lo + 1
         /\ vs !! Z.to_nat lo = Some v_lo /\ vs !! Z.to_nat hi = Some v_hi
         /\ (lo = hi -> p95 vs = inr v_lo)
         /\ (lo <> hi ->
             p95 vs = inr (v_lo * (float_of_Z hi - k)
                           + v_hi * (k - float_of_Z lo))%float
             /\ exists w_lo w_hi,
                  exact (float_of_Z hi - k)%float = Some w_lo
                  /\ exact (k - float_of_Z lo)%float = Some w_hi
                  /\ (w_lo == inject_Z hi - q)%Q
                  /\ (w_hi == q - inject_Z lo)%Q
                  /\ (w_lo + w_hi == 1)%Q))
  /\ p95 [10; 20; 30; 40; 50]%float = inr 48%float.
Proof.
  intros Hn Hmax n k. split; [|vm_compute; reflexivity].
  destruct (fractional_index_le (n - 1)) as (m & e & Hk & Hdm & He & Hle);
    [subst n; lia|].
  replace (n - 1 + 1) with n in Hk by lia. fold k in Hk.
  pose proof (indices_in_range k m e (n - 1) Hk ltac:(lia) Hle) as Hidx.
  cbv zeta in Hidx.
  set (q := Z.pos m # Z.to_pos (2 ^ (- e))).
  assert (Hlo : Qfloor q = Z.pos m / 2 ^ (- e)).
  { unfold q, Qfloor. now rewrite pow2_pos by lia. }
  assert (Hhi : Qceiling q = - (- Z.pos m / 2 ^ (- e))).
  { unfold q, Qceiling, Qfloor, Qopp. cbn [Qnum Qden].
    now rewrite pow2_pos by lia. }
  rewrite <- Hlo, <- Hhi in Hidx.
  set (lo := Qfloor q) in *. set (hi := Qceiling q) in *.
  destruct Hidx as (Hfl & Hce & Htr & H0 & Hlh & Hhn & Hadj & Hgap).
  destruct (getitem_in_range vs lo) as (v_lo & Hvlo & Hglo); [subst n; lia|].
  destruct (getitem_in_range vs hi) as (v_hi & Hvhi & Hghi); [subst n; lia|].
  exists q, v_lo, v_hi.
  split; [now apply exact_finite; [|lia]|].
  cbv zeta. fold lo hi.
  split; [exact Hfl|]. split; [exact Hce|].
  split; [exact H0|]. split; [exact Hlh|]. split; [exact Hhn|].
  split; [exact Hadj|]. split; [exact Hvlo|]. split; [exact Hvhi|].
  assert (Hp : p95 vs
               = if lo =? hi then inr v_lo
                 else inr (v_lo * (float_of_Z hi - k)
                           + v_hi * (k - float_of_Z lo))%float).
  { unfold p95. rewrite (calculate_percentile_many vs (float_of_Z 95) Hn).
    cbv zeta. fold n. fold (fractional_index n). fold k.
    rewrite Hfl, Hce. cbn [bind].
    destruct (lo =? hi); [now rewrite Htr; cbn [bind]|].
    now rewrite Hglo, Hghi. }
  split.
  - intros Heq. rewrite Hp. now rewrite (proj2 (Z.eqb_eq lo hi) Heq).
  - intros Hne. rewrite Hp, (proj2 (Z.eqb_neq lo hi) Hne).
    split; [reflexivity|].
    destruct (Hgap Hne) as [Hup Hdown].
    destruct (weight_above k m e hi Hk He) as (m1 & e1 & Hw1 & He1 & Hm1);
      [subst n; lia | exact Hup|].
    destruct (weight_below k m e lo Hk He) as (m2 & e2 & Hw2 & He2 & Hm2);
      [subst n; lia | exact Hdown|].
    exists (Z.pos m1 # Z.to_pos (2 ^ (- e1))),
           (Z.pos m2 # Z.to_pos (2 ^ (- e2))).
    split; [apply exact_finite; [exact Hw1 | lia]|].
    split; [apply exact_finite; [exact Hw2 | lia]|].
    assert (Hs1 : 2 ^ (- e1) = 2 ^ (- e) * 2 ^ (e - e1)).
    { rewrite <- Z.pow_add_r by lia. f_equal. lia. }
    assert (Hs2 : 2 ^ (- e2) = 2 ^ (- e) * 2 ^ (e - e2)).
    { rewrite <- Z.pow_add_r by lia. f_equal. lia. }
    assert (Hwlo : (Z.pos m1 # Z.to_pos (2 ^ (- e1)) == inject_Z hi - q)%Q).
    { unfold q, Qeq, Qminus, Qplus, Qopp, inject_Z. cbn [Qnum Qden].
      rewrite Pos2Z.inj_mul, !pow2_pos by lia.
      rewrite Hm1, Hs1. ring. }
    assert (Hwhi : (Z.pos m2 # Z.to_pos (2 ^ (- e2)) == q - inject_Z lo)%Q).
    { unfold q, Qeq, Qminus, Qplus, Qopp, inject_Z. cbn [Qnum Qden].
      rewrite Pos2Z.inj_mul, !pow2_pos by lia.
      rewrite Hm2, Hs2. ring. }
    split; [exact Hwlo|]. split; [exact Hwhi|].
    rewrite Hwlo, Hwhi.
    assert (Hone : hi = lo + 1) by lia.
    rewrite Hone, inject_Z_plus. change (inject_Z 1) with 1%Q. ring.
Qed.

Lemma calculate_percentile_interpolates_witness :
  exists q v_lo v_hi,
    exact (fractional_index 5) = Some q
    /\ Qfloor q = 3 /\ Qceiling q = 4
    /\ [10; 20; 30; 40; 50]%float !! 3%nat = Some v_lo
    /\ [10; 20; 30; 40; 50]%float !! 4%nat = Some v_hi
    /\ p95 [10; 20; 30; 40; 50]%float
       = inr (v_lo * (float_of_Z 4 - fractional_index 5)
              + v_hi * (fractional_index 5 - float_of_Z 3))%float.
Proof.
  destruct (calculate_percentile_interpolates [10; 20; 30; 40; 50]%float)
    as [(q & v_lo & v_hi & Hq & H) _].
  - simpl. lia.
  - simpl. lia.
  - cbv zeta in H. change (Z.of_nat (length [10; 20; 30; 40; 50]%float))
      with 5 in *.
    destruct H as (_ & _ & _ & _ & _ & _ & Hvlo & Hvhi & _ & Hne).
    vm_compute in Hq. injection Hq as <-.
    exists (8556839292003942 # 2251799813685248), v_lo, v_hi.
    split; [vm_compute; reflexivity|].
    split; [reflexivity|]. split; [reflexivity|].
    split; [exact Hvlo|]. split; [exact Hvhi|].
    apply Hne. discriminate.
Defined.

End MetricsFacts.

Module ActivityStoreFacts.
Import PyExc Json ActivityStore.

(** *** The trimming rules on lists *)

Lemma pop_while_suffix {E : Type} (p : E -> raising bool) (l kept : list E) :
  pop_while p l = inr kept -> exists k, kept = drop k l.
Proof.
  induction l as [|e l IH]; simpl.
  - intros [= <-]. now exists 0%nat.
  - destruct (p e) as [x|[|]]; [discriminate| |].
    + intros H. destruct (IH H) as [k ->]. now exists (S k).
    + intros [= <-]. now exists 0%nat.
Qed.

Lemma pop_while_head {E : Type} (p : E -> raising bool) (l : list E) e rest :
  pop_while p l = inr (e :: rest) -> p e = inr false.
Proof.
  induction l as [|x l IH]; simpl; [discriminate|].
  destruct (p x) as [y|[|]] eqn:Hx; [discriminate | exact IH|].
  now intros [= <- _].
Qed.

Lemma pop_while_length {E : Type} (p : E -> raising bool) (l kept : list E) :
  pop_while p l = inr kept -> (length kept <= length l)%nat.
Proof.
  intros H. destruct (pop_while_suffix p l kept H) as [k ->].
  rewrite length_drop. lia.
Qed.

(** The loop returns when its test does on every event. *)
Lemma pop_while_returns {E : Type} (p : E -> raising bool) (l : list E) :
  Forall (fun e => exists b, p e = inr b) l ->
  exists kept, pop_while p l = inr kept.
Proof.
  induction 1 as [|e l [b He] _ [kept IH]]; simpl; [eauto|].
  rewrite He. destruct b; eauto.
Qed.

Lemma pop_while_ext {E : Type} (p q : E -> raising bool) (l : list E) :
  Forall (fun e => p e = q e) l -> pop_while p l = pop_while q l.
Proof.
  induction 1 as [|e l He _ IH]; simpl; [reflexivity|].
  rewrite He. now destruct (q e) as [x|[|]].
Qed.

(** Popping what a weaker test has left gives what popping the whole
    list gives. *)
Lemma pop_while_absorb {E : Type} (p q : E -> raising bool)
      (l kept : list E) :
  (forall e, p e = inr true -> q e = inr true) ->
  pop_while p l = inr kept ->
  pop_while q kept = pop_while q l.
Proof.
  intros Hpq. induction l as [|e l IH]; simpl.
  - now intros [= <-].
  - destruct (p e) as [x|[|]] eqn:Hp; [discriminate| |].
    + intros H. now rewrite (Hpq e Hp), (IH H).
    + now intros [= <-].
Qed.

Lemma enforce_max_suffix {E : Type} (m : option Z) (l : list E) :
  exists k, enforce_max m l = drop k l.
Proof.
  unfold enforce_max. destruct m as [m|]; [|now exists 0%nat].
  destruct (m <? Z.of_nat (length l)); [eauto | now exists 0%nat].
Qed.

Lemma enforce_max_length {E : Type} (m : Z) (l : list E) :
  0 < m -> Z.of_nat (length (enforce_max (Some m) l)) <= m.
Proof.
  intros Hm. unfold enforce_max.
  destruct (Z.ltb_spec m (Z.of_nat (length l))); [|lia].
  rewrite length_drop. lia.
Qed.

Lemma enforce_max_id {E : Type} (m : option Z) (l : list E) :
  (forall k, m = Some k -> Z.of_nat (length l) <= k) ->
  enforce_max m l = l.
Proof.
  intros H. unfold enforce_max. destruct m as [k|]; [|reflexivity].
  specialize (H k eq_refl).
  destruct (Z.ltb_spec k (Z.of_nat (length l))); [lia | reflexivity].
Qed.

(** [prune_list] returns when the loop does, with a suffix of the
    list that is a suffix of what the loop kept. *)
Lemma prune_list_of_loop {E : Type} (p : E -> raising bool) m
      (l kept : list E) :
  pop_while p l = inr kept ->
  exists removed j,
    prune_list p m l = inr (removed, drop j kept).
Proof.
  intros H. unfold prune_list. rewrite H. cbn [bind].
  destruct (length kept <? length l)%nat.
  - destruct (enforce_max_suffix m kept) as [j ->]. eauto.
  - exists false, 0%nat. reflexivity.
Qed.

Lemma prune_list_loop {E : Type} (p : E -> raising bool) m
      (l : list E) removed events :
  prune_list p m l = inr (removed, events) ->
  exists kept, pop_while p l = inr kept
               /\ events = (if removed then enforce_max m kept else kept)
               /\ removed = (length kept <? length l)%nat.
Proof.
  unfold prune_list. destruct (pop_while p l) as [x|kept]; [discriminate|].
  cbn [bind]. intros [= <- <-]. eauto.
Qed.

Lemma prune_list_suffix {E : Type} (p : E -> raising bool) m
      (l : list E) removed events :
  prune_list p m l = inr (removed, events) -> exists k, events = drop k l.
Proof.
  intros H. destruct (prune_list_loop p m l removed events H)
    as (kept & Hk & -> & _).
  destruct (pop_while_suffix p l kept Hk) as [k ->].
  destruct removed; [|eauto].
  destruct (enforce_max_suffix m (drop k l)) as [j ->].
  rewrite drop_drop. eauto.
Qed.

Lemma prune_list_ext {E : Type} (p q : E -> raising bool) m (l : list E) :
  Forall (fun e => p e = q e) l -> prune_list p m l = prune_list q m l.
Proof.
  intros H. unfold prune_list. now rewrite (pop_while_ext p q l H).
Qed.

Lemma prune_list_within_bound {E : Type} (p : E -> raising bool) m
      (l : list E) :
  (forall k, m = Some k -> Z.of_nat (length l) <= k) ->
  prune_list p m l
  = let* kept := pop_while p l in
    inr ((length kept <? length l)%nat, kept).
Proof.
  intros Hb. unfold prune_list.
  destruct (pop_while p l) as [x|kept] eqn:Hk; [reflexivity|]. cbn [bind].
  destruct (length kept <? length l)%nat; [|reflexivity].
  rewrite enforce_max_id; [reflexivity|].
  intros k Hm. specialize (Hb k Hm).
  pose proof (pop_while_length p l kept Hk). lia.
Qed.

Section Order.
Variable format_timestamp : instant -> string.
Variable parse_isoformat : string -> option datetime.
Hypothesis parse_format :
  forall t, parse_isoformat (format_timestamp t) = Some (Aware t).

Local Abbreviation stamp_of := (stamp_of parse_isoformat).
Local Abbreviation not_older_than := (not_older_than parse_isoformat).
Local Abbreviation not_later_than := (not_later_than parse_isoformat).
Local Abbreviation before := (before parse_isoformat).
Local Abbreviation chronological := (chronological parse_isoformat).
Local Abbreviation expired := (expired parse_isoformat).
Local Abbreviation store_ok := (store_ok parse_isoformat).

Lemma chronological_drop now k events :
  chronological now events -> chronological now (drop k events).
Proof.
  intros [Hs Hf]. split.
  - rewrite <- (take_drop k events) in Hs.
    now apply StronglySorted_app in Hs as (_ & _ & Hs).
  - now apply Forall_drop.
Qed.

Lemma chronological_later now now' events :
  now <= now' -> chronological now events -> chronological now' events.
Proof.
  intros Hle [Hs Hf]. split; [exact Hs|].
  eapply Forall_impl; [exact Hf|].
  intros e (t & He & Ht). exists t. split; [exact He | lia].
Qed.

Lemma chronological_snoc now events e t :
  chronological now events -> stamp_of e = Some t ->
  now <= t ->
  chronological t (events ++ [e]).
Proof.
  intros [Hs Hf] He Hle. split.
  - apply StronglySorted_app. split; [|split].
    + intros x1 x2 Hx1 ->%list_elem_of_singleton.
      rewrite Forall_forall in Hf.
      destruct (Hf x1 Hx1) as (t1 & H1 & Ht1).
      exists t1, t. repeat split; auto. lia.
    + exact Hs.
    + repeat constructor.
  - apply Forall_app. split.
    + eapply Forall_impl; [exact Hf|].
      intros x (tx & Hx & Htx). exists tx. split; [exact Hx | lia].
    + constructor; [|constructor]. exists t. split; [exact He | lia].
Qed.

(** On an event with a parsable timestamp the test of the loop returns
    the comparison of the instants. *)
Lemma expired_stamped now cutoff e t :
  stamp_of e = Some t -> expired now cutoff e = inr (t <? cutoff).
Proof.
  unfold ActivityStore.stamp_of, ActivityStore.expired, field, subscript.
  destruct e as [| | | | |items]; try discriminate.
  destruct (dict_get "timestamp" items) as [v|]; [|discriminate].
  cbn [default from_option id bind].
  destruct v as [| | |ts| |]; try discriminate.
  cbn [_parse_timestamp].
  destruct (parse_isoformat ts) as [[x|]|]; try discriminate.
  now intros [= ->].
Qed.

Lemma datetime_sub_in_range now r :
  cutoff_in_range r now -> datetime_sub now r = inr (now - r).
Proof.
  intros [Hlo Hhi]. unfold datetime_sub.
  destruct (Z.leb_spec datetime_min (now - r)); [|lia].
  destruct (Z.leb_spec (now - r) datetime_max); [reflexivity | lia].
Qed.

(** On a buffer in timestamp order, the loop of [_prune_locked] returns
    and leaves no event older than the cutoff. *)
Lemma pop_while_fresh now cutoff bound events :
  chronological bound events ->
  exists k, pop_while (expired now cutoff) events = inr (drop k events)
            /\ Forall (not_older_than cutoff) (drop k events).
Proof.
  intros Hc.
  assert (Hret : Forall (fun e => exists b, expired now cutoff e = inr b)
                        events).
  { eapply Forall_impl; [exact (proj2 Hc)|].
    intros e (t & He & _). rewrite (expired_stamped _ _ _ _ He). eauto. }
  destruct (pop_while_returns _ _ Hret) as [kept Hp].
  destruct (pop_while_suffix _ _ _ Hp) as [k ->].
  exists k. split; [exact Hp|].
  destruct (drop k events) as [|e rest] eqn:Hd; [constructor|].
  pose proof (pop_while_head _ _ _ _ Hp) as Hhead.
  apply (chronological_drop _ k) in Hc. rewrite Hd in Hc.
  destruct Hc as [Hs Hf].
  apply StronglySorted_cons in Hs as [Hhd _].
  apply Forall_cons in Hf as [(t & He & _) _].
  rewrite (expired_stamped _ _ _ _ He) in Hhead.
  injection Hhead as Hhead. apply Z.ltb_ge in Hhead.
  constructor.
  - exists t. split; [exact He | exact Hhead].
  - eapply Forall_impl; [exact Hhd|].
    intros x (t1 & t2 & H1 & H2 & Hle).
    exists t2. split; [exact H2|].
    rewrite He in H1. injection H1 as <-. lia.
Qed.

Lemma prune_list_fresh now cutoff m bound events :
  chronological bound events ->
  exists removed k,
    prune_list (expired now cutoff) m events = inr (removed, drop k events)
    /\ Forall (not_older_than cutoff) (drop k events).
Proof.
  intros Hc. destruct (pop_while_fresh now cutoff bound events Hc)
    as (k & Hp & Hf).
  destruct (prune_list_of_loop _ m _ _ Hp) as (removed & j & Hl).
  exists removed, (k + j)%nat. rewrite <- drop_drop.
  split; [exact Hl | now apply Forall_drop].
Qed.

(** *** One call *)

Ltac store_fields :=
  unfold with_events;
  cbn [max_events retention storage _events _next_id].

Lemma store_ok_later now now' s :
  now <= now' -> store_ok now s -> store_ok now' s.
Proof.
  intros Hle [Hb Hv Ho Hc Hf]. split; auto.
  - now apply (chronological_later now).
  - intros raw Hraw. destruct (Hf raw Hraw) as (n & evs & ? & ? & ? & ?).
    exists n, evs. split; [|split; [|split]]; auto.
    now apply (chronological_later now).
Qed.

Lemma store_ok_drop now s k :
  store_ok now s -> store_ok now (with_events s (drop k (_events s))).
Proof.
  intros [Hb Hv Ho Hc Hf]. split; simpl; auto.
  - intros m Hm. destruct (Hb m Hm) as [H0 Hlen]. split; [exact H0|].
    rewrite length_drop. lia.
  - now apply Forall_drop.
  - now apply chronological_drop.
Qed.

(** The age rule on a store in order, at a time whose cutoff is a
    date: it returns a suffix of the buffer with no event older than
    the cutoff. *)
Lemma prune_locked_ok now0 now r s :
  store_ok now0 s -> now0 <= now ->
  retention s = Some r -> 0 < r -> cutoff_in_range r now ->
  exists removed k,
    _prune_locked parse_isoformat now s
    = inr (removed, with_events s (drop k (_events s)))
    /\ store_ok now (with_events s (drop k (_events s)))
    /\ Forall (not_older_than (now - r)) (drop k (_events s)).
Proof.
  intros Hok Hle Hr Hpos Hrange.
  apply (store_ok_later _ _ _ Hle) in Hok.
  destruct (prune_list_fresh now (now - r) (max_events s) now (_events s)
                             (ok_order _ _ _ Hok))
    as (removed & k & Hp & Hf).
  exists removed, k. split; [|split; [now apply store_ok_drop | exact Hf]].
  unfold _prune_locked. rewrite Hr.
  destruct (Z.eqb_spec r 0); [lia|].
  rewrite (datetime_sub_in_range now r Hrange). cbn [bind].
  now rewrite Hp.
Qed.

Lemma persist_locked_ok now io_ok s :
  store_ok now s ->
  let s' := _persist_locked io_ok s in
  store_ok now s'
  /\ max_events s' = max_events s /\ retention s' = retention s
  /\ _events s' = _events s /\ _next_id s' = _next_id s.
Proof.
  intros Hok. unfold _persist_locked.
  destruct (storage s) as [f|] eqn:Hst; [destruct io_ok|]; simpl; auto.
  split; [|auto].
  destruct Hok as [Hb Hv Ho Hc Hf]. split; simpl; auto.
  intros raw [= <-]. exists (_next_id s), (_events s). auto.
Qed.

Lemma add_event_ok m r now0 t_stamp t_now io_ok event_type payload s :
  max_events s = Some m -> retention s = Some r -> 0 < r ->
  store_ok now0 s ->
  now0 <= t_stamp -> t_stamp <= t_now -> t_now - r <= t_stamp ->
  cutoff_in_range r t_now ->
  exists entry s',
    add_event format_timestamp parse_isoformat
              t_stamp t_now io_ok event_type payload s = inr (entry, s')
    /\ store_ok t_now s'
    /\ max_events s' = Some m /\ retention s' = Some r
    /\ Z.of_nat (length (_events s')) <= m
    /\ (tracked event_type = true ->
        Forall (not_older_than (t_now - r)) (_events s')).
Proof.
  intros Hm Hr Hrpos Hok H0 H1 H2 Hrange. unfold add_event.
  destruct (tracked event_type) eqn:Htr; cbn [negb].
  2:{ exists None, s. split; [reflexivity|].
      split; [apply (store_ok_later now0); [lia | exact Hok]|].
      split; [exact Hm|]. split; [exact Hr|].
      split; [now apply (ok_bound _ _ _ Hok) | discriminate]. }
  (* the age rule, then the new entry, then the size rule *)
  destruct (prune_locked_ok now0 t_now r s Hok ltac:(lia) Hr Hrpos Hrange)
    as (removed & k & Hp & Hok1 & Hfresh).
  rewrite Hp. cbn [bind].
  set (s1 := with_events s (drop k (_events s))) in *.
  set (entry := JDict [("id", JInt (_next_id s1)); ("type", JStr event_type);
                       ("timestamp", JStr (format_timestamp t_stamp));
                       ("data", payload)]).
  assert (Hstamp : stamp_of entry = Some t_stamp).
  { unfold ActivityStore.stamp_of. cbn. now rewrite parse_format. }
  assert (Hchron : chronological t_now (_events s1 ++ [entry])).
  { apply (chronological_later t_stamp); [lia|].
    apply (chronological_snoc now0); [|exact Hstamp | lia].
    apply chronological_drop. apply Hok. }
  assert (Hfresh' : Forall (not_older_than (t_now - r))
                           (_events s1 ++ [entry])).
  { apply Forall_app. split; [exact Hfresh|].
    constructor; [|constructor]. exists t_stamp. split; [exact Hstamp | lia]. }
  assert (Hvalid : well_formed (_events s1 ++ [entry])).
  { apply Forall_app. split; [apply Hok1|].
    constructor; [reflexivity | constructor]. }
  assert (Hpos : 0 < m) by now apply (ok_bound _ _ _ Hok).
  unfold _enforce_max_events_locked.
  cbn [with_events max_events retention storage _events _next_id].
  change (max_events s1) with (max_events s). rewrite Hm.
  destruct (enforce_max_suffix (Some m) (_events s1 ++ [entry])) as [j Hj].
  match goal with
  | |- context [_persist_locked io_ok ?x] => set (s2 := x)
  end.
  assert (Hok2 : store_ok t_now s2).
  { subst s2. split; store_fields.
    - intros m' [= <-]. split; [exact Hpos|].
      now apply enforce_max_length.
    - rewrite Hj. now apply Forall_drop.
    - rewrite Hj. now apply chronological_drop.
    - pose proof (ok_counter _ _ _ Hok1) as Hc. lia.
    - intros raw Hraw.
      destruct (ok_file _ _ _ Hok raw Hraw) as (n & evs & ? & ? & ? & ?).
      exists n, evs. split; [|split; [|split]]; auto.
      apply (chronological_later now0); [lia | assumption]. }
  destruct (persist_locked_ok t_now io_ok s2 Hok2)
    as (Hok3 & Hm3 & Hr3 & Hev3 & _).
  eexists _, _. split; [reflexivity|].
  split; [exact Hok3|]. split; [|split; [|split]].
  - now rewrite Hm3.
  - rewrite Hr3. subst s2; store_fields. exact Hr.
  - rewrite Hev3. subst s2; store_fields. now apply enforce_max_length.
  - intros _. rewrite Hev3. subst s2; store_fields. rewrite Hj.
    now apply Forall_drop.
Qed.

Lemma prune_ok m r now0 now io_ok s :
  max_events s = Some m -> retention s = Some r -> 0 < r ->
  store_ok now0 s -> now0 <= now -> cutoff_in_range r now ->
  exists s',
    prune parse_isoformat now io_ok s = inr s'
    /\ store_ok now s'
    /\ max_events s' = Some m /\ retention s' = Some r
    /\ Z.of_nat (length (_events s')) <= m
    /\ Forall (not_older_than (now - r)) (_events s').
Proof.
  intros Hm Hr Hrpos Hok Hle Hrange.
  destruct (prune_locked_ok now0 now r s Hok Hle Hr Hrpos Hrange)
    as (removed & k & Hp & Hok1 & Hfresh).
  unfold prune. rewrite Hp. cbn [bind].
  set (s1 := with_events s (drop k (_events s))) in *.
  assert (Hm1 : max_events s1 = Some m) by exact Hm.
  assert (Hr1 : retention s1 = Some r) by exact Hr.
  assert (Hlen : Z.of_nat (length (_events s1)) <= m).
  { now apply (ok_bound _ _ _ Hok1). }
  destruct removed.
  - destruct (persist_locked_ok now io_ok s1 Hok1)
      as (Hok2 & Hm2 & Hr2 & Hev2 & _).
    eexists. split; [reflexivity|]. rewrite Hev2.
    split; [exact Hok2|].
    split; [congruence|]. split; [congruence|].
    split; [exact Hlen | exact Hfresh].
  - exists s1. split; [reflexivity|].
    split; [exact Hok1|].
    split; [exact Hm1|]. split; [exact Hr1|].
    split; [exact Hlen | exact Hfresh].
Qed.

Lemma get_events_ok m r now0 now s :
  max_events s = Some m -> retention s = Some r -> 0 < r ->
  store_ok now0 s -> now0 <= now -> cutoff_in_range r now ->
  exists events s',
    get_events parse_isoformat now s = inr (events, s')
    /\ store_ok now s'
    /\ max_events s' = Some m /\ retention s' = Some r
    /\ Z.of_nat (length (_events s')) <= m
    /\ Forall (not_older_than (now - r)) (_events s').
Proof.
  intros Hm Hr Hrpos Hok Hle Hrange.
  destruct (prune_locked_ok now0 now r s Hok Hle Hr Hrpos Hrange)
    as (removed & k & Hp & Hok1 & Hfresh).
  unfold get_events. rewrite Hp. cbn [bind].
  eexists _, _. split; [reflexivity|].
  split; [exact Hok1|].
  split; [exact Hm|]. split; [exact Hr|].
  split; [now apply (ok_bound _ _ _ Hok1) | exact Hfresh].
Qed.

Lemma filter_well_formed events :
  well_formed events -> List.filter _is_valid_event events = events.
Proof.
  induction 1 as [|e l He _ IH]; simpl; [reflexivity|].
  now rewrite He, IH.
Qed.

(** Reloading the buffer the store wrote itself. *)
Lemma load_own_file now s n events :
  storage s = Some (Content (persisted_payload n events)) ->
  0 < n -> well_formed events ->
  _load_persisted_events parse_isoformat now s
  = let* '(_, s1) := _prune_locked parse_isoformat now
                                  (with_events s events) in
    let s2 := _enforce_max_events_locked s1 in
    inr {| max_events := max_events s2; retention := retention s2;
           storage := storage s2; _events := _events s2;
           _next_id := n |}.
Proof.
  intros Hst Hn Hwf. unfold _load_persisted_events. rewrite Hst.
  cbn [persisted_payload dict_get String.eqb Ascii.eqb Bool.eqb
       default from_option id iterate stored_counter bind].
  rewrite (filter_well_formed _ Hwf).
  destruct (Z.ltb_spec 0 n); [reflexivity | lia].
Qed.

Lemma load_ok m r now0 now s :
  max_events s = Some m -> retention s = Some r -> 0 < r ->
  store_ok now0 s -> now0 <= now -> cutoff_in_range r now ->
  exists s',
    load_persisted_events parse_isoformat now s = inr s'
    /\ store_ok now s'
    /\ max_events s' = Some m /\ retention s' = Some r
    /\ Z.of_nat (length (_events s')) <= m
    /\ (reads_buffer s = true ->
        Forall (not_older_than (now - r)) (_events s')).
Proof.
  intros Hm Hr Hrpos Hok Hle Hrange.
  assert (Hkeep : reads_buffer s = false ->
                  load_persisted_events parse_isoformat now s = inr s ->
                  exists s',
                    load_persisted_events parse_isoformat now s = inr s'
                    /\ store_ok now s'
                    /\ max_events s' = Some m /\ retention s' = Some r
                    /\ Z.of_nat (length (_events s')) <= m
                    /\ (reads_buffer s = true ->
                        Forall (not_older_than (now - r)) (_events s'))).
  { intros Hnb Hload. exists s. split; [exact Hload|].
    split; [now apply (store_ok_later now0)|].
    split; [exact Hm|]. split; [exact Hr|].
    split; [now apply (ok_bound _ _ _ Hok) | congruence]. }
  destruct (storage s) as [[| |raw]|] eqn:Hst;
    try (apply Hkeep; unfold reads_buffer, load_persisted_events,
                      _load_persisted_events; now rewrite Hst).
  destruct (ok_file _ _ _ Hok raw Hst) as (n & evs & -> & Hn & Hwf & Hch).
  unfold load_persisted_events.
  rewrite (load_own_file now s n evs Hst Hn Hwf).
  (* the loaded buffer, pruned and trimmed *)
  assert (Hch0 : chronological now evs)
    by now apply (chronological_later now0).
  destruct (prune_list_fresh now (now - r) (max_events s) now evs Hch0)
    as (removed & k & Hp & Hfresh).
  unfold _prune_locked.
  cbn [with_events max_events retention storage _events _next_id].
  rewrite Hr. destruct (Z.eqb_spec r 0); [lia|].
  rewrite (datetime_sub_in_range now r Hrange). cbn [bind].
  rewrite Hp. cbn [bind].
  eexists. split; [reflexivity|].
  unfold _enforce_max_events_locked. store_fields. rewrite Hm.
  destruct (enforce_max_suffix (Some m) (drop k evs)) as [j Hj].
  assert (Hpos : 0 < m) by now apply (ok_bound _ _ _ Hok).
  split; [|split; [reflexivity|split; [exact Hr|split]]].
  - split; store_fields.
    + intros m' [= <-]. split; [exact Hpos|]. now apply enforce_max_length.
    + rewrite Hj. now do 2 apply Forall_drop.
    + rewrite Hj. now do 2 apply chronological_drop.
    + exact Hn.
    + rewrite Hst. intros raw [= <-]. exists n, evs. auto.
  - now apply enforce_max_length.
  - intros _. rewrite Hj. now apply Forall_drop.
Qed.

Lemma step_ok m r now0 c s :
  max_events s = Some m -> retention s = Some r -> 0 < r ->
  store_ok now0 s ->
  now0 <= first_read c -> first_read c <= cutoff_read c ->
  cutoff_read c - r <= first_read c ->
  cutoff_in_range r (cutoff_read c) ->
  exists s',
    step format_timestamp parse_isoformat c s = inr s'
    /\ store_ok (cutoff_read c) s'
    /\ max_events s' = Some m /\ retention s' = Some r
    /\ fresh_and_bounded parse_isoformat m r c s s'.
Proof.
  intros Hm Hr Hrpos Hok H0 H1 H2 Hrange. unfold fresh_and_bounded.
  destruct c as [event_type payload t_stamp t_now io_ok
                | t_now io_ok | t_now | t_now]; simpl in *.
  - destruct (add_event_ok m r now0 t_stamp t_now io_ok event_type
                           payload s Hm Hr Hrpos Hok H0 H1 H2 Hrange)
      as (entry & s' & -> & ? & ? & ? & ? & ?).
    exists s'. split; [reflexivity|].
    do 4 (split; [assumption|]). assumption.
  - destruct (prune_ok m r now0 t_now io_ok s Hm Hr Hrpos Hok H0 Hrange)
      as (s' & -> & ? & ? & ? & ? & ?).
    exists s'. split; [reflexivity|].
    do 4 (split; [assumption|]). auto.
  - destruct (get_events_ok m r now0 t_now s Hm Hr Hrpos Hok H0 Hrange)
      as (events & s' & -> & ? & ? & ? & ? & ?).
    exists s'. split; [reflexivity|].
    do 4 (split; [assumption|]). auto.
  - destruct (load_ok m r now0 t_now s Hm Hr Hrpos Hok H0 Hrange)
      as (s' & ? & ? & ? & ? & ? & ?).
    exists s'. do 5 (split; [assumption|]). assumption.
Qed.

(** The constructor on a path without a file. *)
Lemma init_fresh max_ev secs file now r :
  file = None \/ file = Some NoFile ->
  retention_of secs = inr r ->
  exists s, __init__ parse_isoformat max_ev secs file now = inr s
            /\ max_events s = positive_or_none max_ev
            /\ retention s = r
            /\ _events s = [] /\ _next_id s = 1 /\ storage s = file
            /\ store_ok now s.
Proof.
  intros Hfile Hret. unfold __init__, load_persisted_events,
                       _load_persisted_events.
  rewrite Hret. cbn [bind storage].
  eexists. split.
  { destruct Hfile as [-> | ->]; reflexivity. }
  cbn [_events _next_id storage max_events retention].
  do 5 (split; [reflexivity|]).
  split; cbn [_events _next_id storage max_events].
  - intros m Hm. destruct max_ev as [v|]; [|discriminate].
    simpl in Hm. destruct (Z.ltb_spec 0 v); [|discriminate].
    injection Hm as <-. simpl. lia.
  - constructor.
  - split; constructor.
  - lia.
  - intros raw Hraw. destruct Hfile as [-> | ->]; discriminate.
Qed.

End Order.

(** *** Persist, then reload *)

Section Reload.
Variable parse_isoformat : string -> option datetime.

Local Abbreviation expired := (expired parse_isoformat).
Local Abbreviation get_events := (get_events parse_isoformat).
Local Abbreviation offset_aware := (offset_aware parse_isoformat).

(** The test of the loop returns on a valid event whose timestamp is
    not naive. *)
Lemma expired_returns now cutoff e :
  _is_valid_event e = true -> offset_aware e ->
  exists b, expired now cutoff e = inr b.
Proof.
  unfold _is_valid_event, ActivityStore.offset_aware, ActivityStore.expired,
    has_key, field, subscript.
  destruct e as [| | | | |items]; try discriminate.
  intros Hv Haw.
  apply andb_prop in Hv as [Hv _]. apply andb_prop in Hv as [_ Hv].
  apply bool_decide_eq_true in Hv as [v Hv]. rewrite Hv in *.
  cbn [default from_option id bind] in *.
  destruct v as [| | |ts| |]; cbn [_parse_timestamp datetime_lt]; eauto.
  specialize (Haw ts eq_refl).
  destruct (parse_isoformat ts) as [[x|]|];
    cbn [default from_option id datetime_lt]; eauto.
  contradiction.
Qed.

(** What has expired at some time has expired at any later time. *)
Lemma expired_mono t t' cutoff cutoff' e :
  cutoff <= t -> cutoff <= cutoff' ->
  expired t cutoff e = inr true -> expired t' cutoff' e = inr true.
Proof.
  intros Ht Hc. unfold ActivityStore.expired.
  destruct (subscript "timestamp" e) as [x|raw]; [discriminate|].
  cbn [bind]. unfold _parse_timestamp.
  assert (Hnow : datetime_lt (Aware t) cutoff = inr true -> False).
  { cbn [datetime_lt]. intros [= H]. apply Z.ltb_lt in H. lia. }
  destruct raw as [| | |ts| |]; try (intros H; now destruct (Hnow H)).
  destruct (parse_isoformat ts) as [[x|]|]; cbn [default from_option id].
  - cbn [datetime_lt]. intros [= H]. apply Z.ltb_lt in H.
    do 2 f_equal. apply Z.ltb_lt. lia.
  - discriminate.
  - intros H. now destruct (Hnow H).
Qed.

Lemma prune_locked_within_bound now s :
  within_bound s ->
  _prune_locked parse_isoformat now s
  = match retention s with
    | None => inr (false, s)
    | Some r =>
        if r =? 0 then inr (false, s)
        else
          let* cutoff := datetime_sub now r in
          let* kept := pop_while (expired now cutoff) (_events s) in
          inr ((length kept <? length (_events s))%nat, with_events s kept)
    end.
Proof.
  intros Hb. unfold _prune_locked.
  destruct (retention s) as [r|]; [|reflexivity].
  destruct (r =? 0); [reflexivity|].
  destruct (datetime_sub now r) as [x|cutoff]; [reflexivity|]. cbn [bind].
  rewrite (prune_list_within_bound _ (max_events s) (_events s) Hb).
  now destruct (pop_while _ _).
Qed.

Lemma retention_of_positive secs r :
  retention_of secs = inr (Some r) -> 0 < r.
Proof.
  unfold retention_of, positive_or_none, timedelta_seconds.
  destruct secs as [v|]; [|discriminate].
  destruct (Z.ltb_spec 0 v); [|discriminate].
  destruct (_ <=? _); [|discriminate].
  cbn [bind]. intros [= <-]. lia.
Qed.

Lemma max_id_last events e bound :
  Forall (fun x => exists i, id_value x = inr i /\ i < bound) events ->
  last events = Some e -> id_value e = inr (bound - 1) ->
  max_id events = inr (bound - 1).
Proof.
  induction events as [|x rest IH]; [discriminate|].
  intros Hall Hlast He. apply Forall_cons in Hall as [(i & Hi & Hlt) Hrest].
  destruct rest as [|y rest'].
  - simpl in Hlast. injection Hlast as ->. exact He.
  - change (max_id (x :: y :: rest'))
      with (match id_value x, max_id (y :: rest') with
            | inr a, inr b => inr (Z.max a b)
            | inl err, _ => inl err
            | _, inl err => inl err
            end).
    rewrite Hi, (IH Hrest Hlast He). f_equal. lia.
Qed.

(** C4 (amended). Take a store with a storage path whose buffer
    satisfies the size bound, holds only events with type, timestamp
    and data and no naive timestamp, and whose id counter is positive.
    Once persisted, the write going through, it is reproduced by a new
    store constructed with the same parameters from the file, at
    [t_load]: the constructor returns, at any later time [t'] a
    [get_events] returns the same sequence from both, and the id
    counter of the new store is the persisted [next_id], the counter
    of the old store.  That counter is [max(id) + 1] over the persisted
    events when the buffer is not empty and its ids are in step with
    the counter: integers below it, the last event carrying the
    counter minus one.  The cutoffs at the two times are dates. *)
Theorem persist_then_reload
        (max_ev secs : option Z) (s : store) (file : file_state)
        (t_load t' : instant) :
  storage s = Some file ->
  max_events s = positive_or_none max_ev ->
  retention_of secs = inr (retention s) ->
  within_bound s ->
  well_formed (_events s) ->
  Forall offset_aware (_events s) ->
  0 < _next_id s ->
  t_load <= t' ->
  (forall r, retention s = Some r ->
             cutoff_in_range r t_load /\ cutoff_in_range r t') ->
  exists s_new events st st',
    __init__ parse_isoformat max_ev secs
             (storage (_persist_locked true s)) t_load = inr s_new
    /\ get_events t' s_new = inr (events, st)
    /\ get_events t' s = inr (events, st')
    /\ _next_id s_new = _next_id s
    /\ (ids_ok s -> _events s <> [] ->
        max_id (_events s) = inr (_next_id s_new - 1)).
Proof.
  intros Hst Hm Hr Hb Hwf Haw Hid Hle Hrange.
  assert (Hfile : storage (_persist_locked true s)
                  = Some (Content (persisted_payload (_next_id s)
                                                     (_events s)))).
  { unfold _persist_locked. now rewrite Hst. }
  assert (Hret : forall now cutoff,
             Forall (fun e => exists b, expired now cutoff e = inr b)
                    (_events s)).
  { intros now cutoff. apply Forall_forall. intros e He.
    apply expired_returns.
    - exact (proj1 (Forall_forall _ _) Hwf e He).
    - exact (proj1 (Forall_forall _ _) Haw e He). }
  assert (Hids : ids_ok s -> _events s <> [] ->
                 max_id (_events s) = inr (_next_id s - 1)).
  { intros [Hall Hlast] Hne.
    destruct (last (_events s)) as [e|] eqn:Hl.
    - apply (max_id_last _ e); [exact Hall | exact Hl|]. now apply Hlast.
    - apply last_None in Hl. contradiction. }
  rewrite Hfile. unfold __init__, load_persisted_events.
  rewrite Hr. cbn [bind]. rewrite <- Hm.
  erewrite load_own_file; [|reflexivity | exact Hid | exact Hwf].
  set (s0 := with_events _ (_events s)).
  assert (Hb0 : within_bound s0) by exact Hb.
  rewrite (prune_locked_within_bound t_load s0 Hb0).
  change (retention s0) with (retention s).
  change (_events s0) with (_events s).
  assert (Hget : forall s1 : store,
             within_bound s1 ->
             ActivityStore.get_events parse_isoformat t' s1
             = let* '(_, s2) :=
                 match retention s1 with
                 | None => inr (false, s1)
                 | Some r =>
                     if r =? 0 then inr (false, s1)
                     else
                       let* cutoff := datetime_sub t' r in
                       let* kept := pop_while (expired t' cutoff)
                                              (_events s1) in
                       inr ((length kept <? length (_events s1))%nat,
                            with_events s1 kept)
                 end in
               inr (_events s2, s2)).
  { intros s1 Hb1. unfold ActivityStore.get_events.
    now rewrite (prune_locked_within_bound t' s1 Hb1). }
  rewrite (Hget s Hb).
  destruct (retention s) as [r|] eqn:Hrs.
  - (* with a retention *)
    pose proof (retention_of_positive secs r Hr) as Hrpos.
    destruct (Hrange r eq_refl) as [Hload Hread].
    assert (Hr0 : (r =? 0) = false) by (apply Z.eqb_neq; lia).
    rewrite Hr0.
    rewrite (datetime_sub_in_range t_load r Hload).
    rewrite (datetime_sub_in_range t' r Hread). cbn [bind].
    destruct (pop_while_returns _ _ (Hret t_load (t_load - r)))
      as [kept Hkept].
    destruct (pop_while_returns _ _ (Hret t' (t' - r))) as [kept' Hkept'].
    rewrite Hkept, Hkept'. cbn [bind].
    pose proof (pop_while_length _ _ _ Hkept) as Hlen.
    assert (Habs : pop_while (expired t' (t' - r)) kept = inr kept').
    { rewrite <- Hkept'.
      apply (pop_while_absorb (expired t_load (t_load - r))); [|exact Hkept].
      intros e. apply expired_mono; lia. }
    unfold _enforce_max_events_locked.
    cbn [with_events max_events retention storage _events _next_id].
    rewrite enforce_max_id.
    2:{ intros m Hmm. specialize (Hb m Hmm). lia. }
    eexists _, kept', _, _. split; [reflexivity|].
    split; [|split; [reflexivity | split; [reflexivity | exact Hids]]].
    rewrite Hget.
    2:{ intros m Hmm. cbn [max_events _events] in *.
        specialize (Hb m Hmm). lia. }
    cbn [retention _events]. change (retention s0) with (Some r).
    cbv beta iota.
    rewrite Hr0, (datetime_sub_in_range t' r Hread). cbn [bind].
    rewrite Habs. cbn [bind]. reflexivity.
  - (* without *)
    cbn [bind]. unfold _enforce_max_events_locked.
    rewrite enforce_max_id by exact Hb0.
    eexists _, (_events s), _, _. split; [reflexivity|].
    split; [|split; [reflexivity | split; [reflexivity | exact Hids]]].
    rewrite Hget by exact Hb0.
    cbn [retention _events]. change (retention s0) with (@None Z).
    reflexivity.
Qed.

(** The ids stay in step under the calls that change the buffer. *)
Lemma last_drop {A : Type} (l : list A) k :
  (k < length l)%nat -> last (drop k l) = last l.
Proof.
  revert k. induction l as [|x l IH]; intros k Hk; [simpl in Hk; lia|].
  destruct k as [|k]; [reflexivity|]. simpl in Hk.
  change (drop (S k) (x :: l)) with (drop k l). rewrite (IH k) by lia.
  destruct l; [simpl in Hk; lia | reflexivity].
Qed.

Lemma ids_ok_drop s k :
  ids_ok s -> ids_ok (with_events s (drop k (_events s))).
Proof.
  intros [Hall Hlast]. split; cbn [with_events _events _next_id].
  - now apply Forall_drop.
  - intros e He. apply Hlast.
    destruct (Nat.lt_ge_cases k (length (_events s))) as [Hlt|Hge].
    + now rewrite <- (last_drop _ k Hlt).
    + rewrite drop_ge in He by lia. discriminate.
Qed.

Lemma prune_locked_ids_ok now s removed s' :
  _prune_locked parse_isoformat now s = inr (removed, s') ->
  ids_ok s -> ids_ok s' /\ max_events s' = max_events s.
Proof.
  unfold _prune_locked. intros Hp Hok.
  destruct (retention s) as [r|]; [|injection Hp as _ <-; now split].
  destruct (r =? 0); [injection Hp as _ <-; now split|].
  destruct (datetime_sub now r) as [x|cutoff]; [discriminate|].
  cbn [bind] in Hp.
  destruct (prune_list _ _ _) as [x|[rem events]] eqn:Hl; [discriminate|].
  cbn [bind] in Hp. injection Hp as _ <-.
  destruct (prune_list_suffix _ _ _ _ _ Hl) as [k ->].
  split; [now apply ids_ok_drop | reflexivity].
Qed.

Lemma add_event_ids_ok format_timestamp t_stamp t_now io_ok
      event_type payload s entry s' :
  (forall m, max_events s = Some m -> 0 < m) ->
  add_event format_timestamp parse_isoformat t_stamp t_now
            io_ok event_type payload s = inr (entry, s') ->
  ids_ok s -> ids_ok s'.
Proof.
  intros Hpos Hrun Hok. unfold add_event in Hrun.
  destruct (tracked event_type); cbn [negb] in Hrun;
    [|now injection Hrun as _ <-].
  destruct (_prune_locked parse_isoformat t_now s) as [x|[removed s1]] eqn:Hp;
    [discriminate|].
  cbn [bind] in Hrun. injection Hrun as _ <-.
  destruct (prune_locked_ids_ok t_now s removed s1 Hp Hok)
    as [[Hall Hlast] Hmax].
  set (entry' := JDict _).
  assert (Hent : id_value entry' = inr (_next_id s1)) by reflexivity.
  set (l := (_events s1 ++ [entry'])%list).
  assert (Hids : ids_ok {| max_events := max_events s1;
                           retention := retention s1;
                           storage := storage s1;
                           _events := enforce_max (max_events s1) l;
                           _next_id := _next_id s1 + 1 |}).
  { assert (Hl : Forall (fun e => exists i, id_value e = inr i
                                            /\ i < _next_id s1 + 1) l).
    { apply Forall_app. split.
      - eapply Forall_impl; [exact Hall|].
        intros e (i & Hi & Hlt). exists i. split; [exact Hi | lia].
      - constructor; [|constructor]. exists (_next_id s1).
        split; [exact Hent | lia]. }
    assert (Hll : last l = Some entry') by apply last_snoc.
    destruct (enforce_max_suffix (max_events s1) l) as [k Hk].
    split; cbn [_events _next_id].
    - rewrite Hk. now apply Forall_drop.
    - intros e He. replace (_next_id s1 + 1 - 1) with (_next_id s1) by lia.
      assert (e = entry'); [|now subst].
      unfold enforce_max in He.
      destruct (max_events s1) as [m|] eqn:Hm1; [|congruence].
      destruct (Z.ltb_spec m (Z.of_nat (length l))); [|congruence].
      rewrite last_drop in He; [congruence|].
      assert (Hm : max_events s = Some m) by congruence.
      specialize (Hpos m Hm). lia. }
  unfold _persist_locked, _enforce_max_events_locked.
  cbn [with_events storage max_events retention _events _next_id].
  fold entry'. fold l.
  destruct (storage s1); [destruct io_ok|]; exact Hids.
Qed.

End Reload.

(** The buffer emptied by pruning: the stored counter is 2, the next
    event of the reloaded store gets id 2, and [max(id) + 1] over the
    persisted events is 1. *)
Lemma reload_after_expiry_keeps_counter :
  step sample_format sample_parse
       (AddEvent "crew_log" (JDict []) 1000000 1000000 true)
       (sample_store (Some NoFile))
  = inr sample_store_one_persisted
  /\ prune sample_parse 121000000 true sample_store_one_persisted
     = inr sample_store_emptied
  /\ storage sample_store_emptied
     = Some (Content (persisted_payload 2 []))
  /\ __init__ sample_parse (Some 2) (Some 60)
              (storage (_persist_locked true sample_store_emptied))
              122000000
     = inr sample_store_emptied
  /\ max_id [] = inr 0
  /\ add_event sample_format sample_parse
               123000000 123000000 true "crew_log"
               (JDict []) sample_store_emptied
     = inr (Some (sample_entry 2 123000000 "crew_log"),
            {| max_events := Some 2; retention := Some 60000000;
               storage :=
                 Some (Content
                         (persisted_payload
                            3 [sample_entry 2 123000000 "crew_log"]));
               _events := [sample_entry 2 123000000 "crew_log"];
               _next_id := 3 |}).
Proof. repeat split; vm_compute; reflexivity. Qed.

Lemma sample_parse_format t :
  sample_parse (sample_format t) = Some (Aware t).
Proof.
  unfold sample_parse, sample_format.
  rewrite NilZero.isi.
  - simpl. now rewrite DecimalZ.of_to.
  - destruct t; simpl; try discriminate.
    intros [= H]. now apply Unsigned.to_uint_nonnil in H.
  - destruct t; simpl; try discriminate.
    intros [= H]. now apply Unsigned.to_uint_nonnil in H.
Qed.

Lemma persist_then_reload_witness :
  exists s_new events st st',
    __init__ sample_parse (Some 2) (Some 60)
             (storage (_persist_locked true sample_store_two_events))
             70000000 = inr s_new
    /\ get_events sample_parse 90000000 s_new = inr (events, st)
    /\ get_events sample_parse 90000000 sample_store_two_events
       = inr (events, st')
    /\ _next_id s_new = 5
    /\ max_id (_events sample_store_two_events) = inr (_next_id s_new - 1).
Proof.
  destruct (persist_then_reload sample_parse (Some 2) (Some 60)
                                sample_store_two_events NoFile
                                70000000 90000000)
    as (s_new & events & st & st' & Hinit & Hnew & Hold & Hctr & Hmax).
  - reflexivity.
  - reflexivity.
  - reflexivity.
  - intros m [= <-]. simpl. lia.
  - repeat constructor.
  - repeat constructor; intros ts [= <-];
      rewrite sample_parse_format; discriminate.
  - simpl. lia.
  - lia.
  - intros r [= <-]. unfold cutoff_in_range, datetime_min, datetime_max.
    lia.
  - exists s_new, events, st, st'.
    split; [exact Hinit|]. split; [exact Hnew|]. split; [exact Hold|].
    split; [exact Hctr|]. apply Hmax.
    + split.
      * repeat constructor; eexists; (split; [reflexivity|simpl; lia]).
      * intros e [= <-]. reflexivity.
    + discriminate.
Defined.

(** A counter that is not positive is not read back: the new store
    recomputes it from the ids, here as 1. *)
Lemma nonpositive_counter_is_recomputed :
  storage (_persist_locked true sample_store_negative_counter)
  = Some (Content (persisted_payload (-3) []))
  /\ __init__ sample_parse (Some 2) (Some 60)
              (storage (_persist_locked true sample_store_negative_counter))
              70000000
     = inr {| max_events := Some 2; retention := Some 60000000;
              storage := Some (Content (persisted_payload (-3) []));
              _events := []; _next_id := 1 |}.
Proof. split; vm_compute; reflexivity. Qed.

(** A counter that has run ahead of the ids is read back as it is: the
    new store continues from 10, and [max(id) + 1] is 2. *)
Lemma counter_ahead_is_kept :
  __init__ sample_parse (Some 2) (Some 60)
           (storage (_persist_locked true sample_store_counter_ahead))
           70000000
  = inr {| max_events := Some 2; retention := Some 60000000;
           storage := Some (Content
                              (persisted_payload
                                 10 [sample_entry 1 50000000 "crew_log"]));
           _events := [sample_entry 1 50000000 "crew_log"];
           _next_id := 10 |}
  /\ max_id (_events sample_store_counter_ahead) = inr 1.
Proof. split; vm_compute; reflexivity. Qed.

(** A store without a storage file: [load_persisted_events] returns at
    once, so an event recorded at second 1 is still in the buffer after
    a [load_persisted_events] at second 121, with sixty seconds of
    retention. *)
Lemma load_without_file_skips_age_rule :
  __init__ sample_parse (Some 2) (Some 60) None 0 = inr (sample_store None)
  /\ step sample_format sample_parse
          (AddEvent "crew_log" (JDict []) 1000000 1000000 true)
          (sample_store None)
     = inr sample_store_one_event
  /\ step sample_format sample_parse (LoadPersisted 121000000)
          sample_store_one_event
     = inr sample_store_one_event
  /\ stamp_of sample_parse (sample_entry 1 1000000 "crew_log")
     = Some 1000000
  /\ ~ Forall (not_older_than sample_parse (121000000 - 60000000))
              (_events sample_store_one_event).
Proof.
  split; [reflexivity|]. split; [vm_compute; reflexivity|].
  split; [reflexivity|]. split; [vm_compute; reflexivity|].
  intros H. apply Forall_cons in H as [(t & Ht & Hle) _].
  vm_compute in Ht. injection Ht as <-. lia.
Qed.

(** The age rule pops from the head while the head has expired: behind
    an event that is still fresh, an older one stays.  With a clock
    that is set back from second 100 to second 50 between two
    [add_event] calls, the buffer is out of order; at second 115 the
    cutoff is second 55, and the event of second 50 is kept. *)
Lemma pruning_stops_at_first_fresh_event :
  step sample_format sample_parse
       (AddEvent "crew_log" (JDict []) 100000000 100000000 true)
       (sample_store None)
  = inr {| max_events := Some 2; retention := Some 60000000;
           storage := None;
           _events := [sample_entry 1 100000000 "crew_log"];
           _next_id := 2 |}
  /\ step sample_format sample_parse
          (AddEvent "crew_log" (JDict []) 50000000 50000000 true)
          {| max_events := Some 2; retention := Some 60000000;
             storage := None;
             _events := [sample_entry 1 100000000 "crew_log"];
             _next_id := 2 |}
     = inr sample_store_unordered
  /\ get_events sample_parse 115000000 sample_store_unordered
     = inr (_events sample_store_unordered, sample_store_unordered)
  /\ stamp_of sample_parse (sample_entry 2 50000000 "crew_log")
     = Some 50000000.
Proof. repeat split; vm_compute; reflexivity. Qed.

(** A timestamp without an offset parses to a naive datetime, and the
    comparison with the cutoff raises. *)
Lemma naive_timestamp_raises :
  get_events (fun _ => Some Naive) 115000000 sample_store_one_event
  = inl (TypeError
           "can't compare offset-naive and offset-aware datetimes").
Proof. reflexivity. Qed.

(** A retention that reaches back before the year 1: the cutoff is no
    date. *)
Lemma distant_cutoff_raises :
  retention_of (Some 80000000000) = inr (Some 80000000000000000)
  /\ get_events sample_parse 115000000
                {| max_events := Some 2; retention := Some 80000000000000000;
                   storage := None; _events := []; _next_id := 1 |}
     = inl (OverflowError "date value out of range").
Proof. split; reflexivity. Qed.

(** A timestamp that does not parse counts as the present instant, so
    the event never expires; at the head of the buffer it stops the
    age rule.  The store constructed at second 121 from a file that
    lists such an event before an event of second 1 keeps both, and so
    do [get_events], [prune] and [add_event] at second 200. *)
Lemma undated_head_blocks_pruning :
  __init__ sample_parse (Some 5) (Some 60) (Some sample_file_undated)
           121000000
  = inr sample_store_undated
  /\ get_events sample_parse 200000000 sample_store_undated
     = inr (_events sample_store_undated, sample_store_undated)
  /\ prune sample_parse 200000000 true sample_store_undated
     = inr sample_store_undated
  /\ (exists entry s,
         add_event sample_format sample_parse 200000000 200000000 false
                   "crew_log" (JDict []) sample_store_undated
         = inr (Some entry, s)
         /\ _events s = (_events sample_store_undated ++ [entry])%list)
  /\ stamp_of sample_parse (sample_entry 2 1000000 "crew_log")
     = Some 1000000
  /\ stamp_of sample_parse (sample_entry_undated 1 "crew_started") = None.
Proof.
  split; [vm_compute; reflexivity|]. split; [vm_compute; reflexivity|].
  split; [vm_compute; reflexivity|].
  split; [eexists _, _; split; vm_compute; reflexivity|].
  split; vm_compute; reflexivity.
Qed.

(** [add_event] takes the timestamp before it takes the lock, and the
    cutoff under the lock.  With more than the retention between the
    two, here second 1 and second 100, the event it stores is older
    than the cutoff of its own call. *)
Lemma late_add_event_stores_expired_entry :
  step sample_format sample_parse
       (AddEvent "crew_log" (JDict []) 1000000 100000000 true)
       (sample_store None)
  = inr sample_store_one_event
  /\ stamp_of sample_parse (sample_entry 1 1000000 "crew_log")
     = Some 1000000
  /\ ~ Forall (not_older_than sample_parse (100000000 - 60000000))
              (_events sample_store_one_event).
Proof.
  split; [vm_compute; reflexivity|]. split; [vm_compute; reflexivity|].
  intros H. apply Forall_cons in H as [(t & Ht & Hle) _].
  vm_compute in Ht. injection Ht as <-. lia.
Qed.

(** C1 (amended). Take a store with a size bound [m] and a positive
    retention [r] that is in order at a clock reading [now0]
    ([store_ok]): the buffer holds at most [m] events, [m] being
    positive; its events have type, timestamp and data; their
    timestamps parse with an offset, do not decrease along the buffer
    and are not later than [now0]; the counter is positive; and the
    file, if it has content, is the object the store writes, with a
    positive counter and events of which the same holds.  Take calls
    under a clock that behaves ([clock_ok]): no call reads it earlier
    than [now0] or than the call before; the second reading of an
    [add_event], for the cutoff, is not earlier than its first, for
    the timestamp, and at most [r] later; and every cutoff is a date.
    The timestamps [add_event] writes parse back to the instant they
    were taken at.  Then every call returns and leaves at most [m]
    events; after [add_event] with a tracked type, [prune],
    [get_events], and a [load_persisted_events] that reads a buffer
    from the file, no event is older than the call's clock reading
    minus the retention. *)
Theorem buffer_stays_fresh_and_bounded
        (format_timestamp : instant -> string)
        (parse_isoformat : string -> option datetime)
        (m r : Z) (now0 : instant) (calls : list call) (s : store) :
  (forall t, parse_isoformat (format_timestamp t) = Some (Aware t)) ->
  max_events s = Some m -> retention s = Some r -> 0 < r ->
  store_ok parse_isoformat now0 s ->
  clock_ok r now0 calls ->
  run_ok format_timestamp parse_isoformat m r calls s.
Proof.
  intros Hpf Hm Hr Hrpos. revert now0 s Hm Hr.
  induction calls as [|c calls IH]; intros now0 s Hm Hr Hok Hclk.
  - exact I.
  - destruct Hclk as (H0 & H1 & H2 & Hrange & Hrest).
    destruct (step_ok format_timestamp parse_isoformat Hpf m r now0 c s
                      Hm Hr Hrpos Hok H0 H1 H2 Hrange)
      as (s' & Hstep & Hok' & Hm' & Hr' & Hfresh).
    exists s'. split; [exact Hstep|]. split; [exact Hfresh|].
    now apply (IH (cutoff_read c)).
Qed.

Lemma buffer_stays_fresh_and_bounded_witness :
  run_ok sample_format sample_parse 2 60000000
         [ AddEvent "crew_started" (JDict []) 1000000 1000000 true;
           AddEvent "crew_log" (JDict []) 2000000 2000001 true;
           AddEvent "crew_log" (JDict []) 50000000 50000000 false;
           Prune 61500000 true;
           LoadPersisted 62500000;
           GetEvents 200000000 ]
         (sample_store (Some NoFile)).
Proof.
  apply (buffer_stays_fresh_and_bounded sample_format sample_parse
                                        2 60000000 0).
  - exact sample_parse_format.
  - reflexivity.
  - reflexivity.
  - lia.
  - destruct (init_fresh sample_parse (Some 2) (Some 60) (Some NoFile) 0
                         (Some 60000000))
      as (s & Hs & _ & _ & _ & _ & _ & Hok); [now right | reflexivity|].
    injection Hs as <-. exact Hok.
  - unfold clock_ok, cutoff_in_range, datetime_min, datetime_max,
      first_read, cutoff_read. lia.
Defined.

End ActivityStoreFacts.

Module PyHeapFacts.
Import PyHeap.

Lemma memo_size_bound (memo : gmap loc loc) (n : nat) :
  (forall l y, memo !! l = Some y -> (l < n)%nat) -> (size memo <= n)%nat.
Proof.
  intros H. rewrite <- size_dom.
  rewrite <- (size_set_seq (C := gset nat) 0 n).
  apply subseteq_size. intros l Hl.
  apply elem_of_dom in Hl as [y Hy]. apply elem_of_set_seq.
  specialize (H l y Hy). lia.
Qed.

Lemma val_rel_mono memo memo' v v' :
  memo ⊆ memo' -> val_rel memo v v' -> val_rel memo' v v'.
Proof.
  intros Hsub. destruct v; simpl; auto.
  intros (y & Hy & ->). exists y. split; [|reflexivity].
  eapply lookup_weaken; eauto.
Qed.

Lemma obj_rel_mono memo memo' o o' :
  memo ⊆ memo' -> obj_rel memo o o' -> obj_rel memo' o o'.
Proof.
  intros Hsub (vals & -> & Hv). exists vals. split; [reflexivity|].
  eapply Forall2_impl; [exact Hv|]. intros. now apply (val_rel_mono memo).
Qed.

Lemma copied_refl h0 P h memo :
  copying h0 P h memo -> copied h0 P h memo h memo.
Proof.
  intros H. split; [exact H | reflexivity | reflexivity|].
  intros l y H1 H2. congruence.
Qed.

Lemma copied_trans h0 P h1 m1 h2 m2 h3 m3 :
  copied h0 P h1 m1 h2 m2 -> copied h0 P h2 m2 h3 m3 ->
  copied h0 P h1 m1 h3 m3.
Proof.
  intros [I1 H1 M1 F1] [I2 H2 M2 F2]. split.
  - exact I2.
  - now transitivity h2.
  - now transitivity m2.
  - intros l y Hy Hn.
    destruct (m2 !! l) as [y'|] eqn:E.
    + assert (m3 !! l = Some y') by (eapply lookup_weaken; eauto).
      assert (y' = y) by congruence. subst. now apply (F1 l).
    + specialize (F2 l y Hy E).
      apply prefix_length in H1. lia.
Qed.

Section Copy.
Variable h0 : heap.
Hypothesis h0_closed : heap_closed h0.

Definition copy_ok (copy : value -> heap -> gmap loc loc -> option copy_result)
           (fuel : nat) : Prop :=
  forall P x h memo,
    copying h0 P h memo -> ref_below (length h0) x ->
    (length h0 <= fuel + size memo)%nat ->
    exists v' h' memo',
      copy x h memo = Some (v', h', memo')
      /\ copied h0 P h memo h' memo' /\ val_rel memo' x v'.

Lemma copy_seq_ok copy fuel :
  copy_ok copy fuel ->
  forall items P h memo,
    copying h0 P h memo -> Forall (ref_below (length h0)) items ->
    (length h0 <= fuel + size memo)%nat ->
    exists vals h' memo',
      copy_seq copy items h memo = Some (vals, h', memo')
      /\ copied h0 P h memo h' memo'
      /\ Forall2 (val_rel memo') items vals.
Proof.
  intros Hcopy. induction items as [|v rest IH]; intros P h memo Hinv Hall Hfuel.
  - exists [], h, memo. simpl. split; [reflexivity|].
    split; [now apply copied_refl | constructor].
  - apply Forall_cons in Hall as [Hv Hrest].
    destruct (Hcopy P v h memo Hinv Hv Hfuel)
      as (v' & h1 & m1 & Hc1 & Hcd1 & Hr1).
    assert (Hfuel1 : (length h0 <= fuel + size m1)%nat).
    { pose proof (map_subseteq_size _ _ (cd_memo _ _ _ _ _ _ Hcd1)). lia. }
    destruct (IH P h1 m1 (cd_inv _ _ _ _ _ _ Hcd1) Hrest Hfuel1)
      as (vals & h2 & m2 & Hc2 & Hcd2 & Hr2).
    exists (v' :: vals), h2, m2. simpl. rewrite Hc1, Hc2.
    split; [reflexivity|]. split; [now apply (copied_trans _ _ _ _ h1 m1)|].
    constructor; [|exact Hr2].
    apply (val_rel_mono m1); [apply (cd_memo _ _ _ _ _ _ Hcd2) | exact Hr1].
Qed.

Lemma prefix_insert_beyond (k h : heap) y o :
  k `prefix_of` h -> (length k <= y)%nat -> k `prefix_of` <[y := o]> h.
Proof.
  intros [t ->] Hy. exists (<[(y - length k)%nat := o]> t).
  now rewrite insert_app_r_alt.
Qed.

Lemma values_of_rebuild o vals :
  length (values_of o) = length vals -> values_of (rebuild o vals) = vals.
Proof.
  destruct o as [items|items]; simpl; [|reflexivity].
  rewrite length_map. intros Hlen.
  apply snd_zip. rewrite length_map. lia.
Qed.

Lemma json_of_rebuild o vals js :
  length (values_of o) = length vals ->
  json_of (rebuild o vals) js = json_of o js.
Proof.
  destruct o as [items|items]; simpl; [|reflexivity].
  rewrite length_map. intros Hlen.
  rewrite fst_zip; [reflexivity|]. rewrite length_map. lia.
Qed.

Lemma values_of_blank o : values_of (blank o) = [].
Proof. now destruct o. Qed.

Lemma ref_within_weaken lo hi hi' v :
  (hi <= hi')%nat -> ref_within lo hi v -> ref_within lo hi' v.
Proof. destruct v; simpl; auto. lia. Qed.

(** Entering the copy of [l]: a blank object is allocated for it and
    recorded in the memo. *)
Lemma copying_enter P h memo l o :
  copying h0 P h memo -> memo !! l = None -> (l < length h0)%nat ->
  copying h0 (fun z => P z \/ z = l) (h ++ [blank o])
          (<[l := length h]> memo).
Proof.
  intros [Hpre Hmemo Hnew Hdone] Hl Hlt.
  pose proof (prefix_length _ _ Hpre) as Hlen.
  split.
  - now apply prefix_app_r.
  - intros l' y'. rewrite lookup_insert, length_app. simpl.
    case_decide as Heq.
    + intros [= <-]. subst. lia.
    + intros Hy. specialize (Hmemo l' y' Hy). lia.
  - intros y' o' Hy' Hlook. rewrite length_app. simpl.
    destruct (Nat.lt_ge_cases y' (length h)) as [Hin|Hout].
    + rewrite lookup_app_l in Hlook by exact Hin.
      eapply Forall_impl; [exact (Hnew y' o' Hy' Hlook)|].
      intros v. apply ref_within_weaken. lia.
    + rewrite lookup_app_r in Hlook by exact Hout.
      destruct (y' - length h)%nat as [|n]; [|now destruct n].
      injection Hlook as <-. rewrite values_of_blank. constructor.
  - intros l' y' Hy' Hnp.
    assert (Hne : l <> l') by (intros ->; apply Hnp; now right).
    rewrite lookup_insert_ne in Hy' by exact Hne.
    destruct (Hdone l' y' Hy') as (o1 & o1' & H1 & H2 & H3).
    { intros HP. apply Hnp. now left. }
    exists o1, o1'. split; [exact H1|]. split.
    + now apply lookup_app_l_Some.
    + apply (obj_rel_mono memo); [|exact H3].
      now apply insert_subseteq.
Qed.

Lemma deepcopy_rec_ok fuel : copy_ok (deepcopy_rec fuel) fuel.
Proof.
  induction fuel as [|fuel IH]; intros P x h memo Hinv Hx Hfuel;
    (destruct x as [| b | z | s | l];
     [ exists VNone, h, memo | exists (VBool b), h, memo
       | exists (VInt z), h, memo | exists (VStr s), h, memo | ];
     try (split; [reflexivity|]; split;
          [now apply copied_refl | reflexivity])).
  all: simpl in Hx; simpl.
  all: destruct (memo !! l) as [y|] eqn:Hl;
    [ exists (VRef y), h, memo; split; [reflexivity|];
      split; [now apply copied_refl | now exists y] |].
  all: assert (Hsize : (S (size memo) <= length h0)%nat);
    [ rewrite <- (map_size_insert_None l 0%nat memo Hl);
      apply memo_size_bound; intros l' y'; rewrite lookup_insert;
      case_decide; [intros _; subst; exact Hx
                   | intros Hy; now apply (cp_memo _ _ _ _ Hinv l' y')] |].
  - lia.
  - pose proof (cp_prefix _ _ _ _ Hinv) as Hpre.
    pose proof (prefix_length _ _ Hpre) as Hlen.
    destruct (lookup_lt_is_Some_2 h0 l Hx) as [o Ho].
    pose proof (prefix_lookup_Some _ _ _ _ Ho Hpre) as Hho.
    rewrite Hho.
    pose proof (h0_closed l o Ho) as Hvals.
    pose proof (copying_enter P h memo l o Hinv Hl Hx) as Hinv1.
    destruct (copy_seq_ok (deepcopy_rec fuel) fuel IH (values_of o)
                          _ _ _ Hinv1 Hvals)
      as (vals & h2 & m2 & Hcs & Hcd & Hrel).
    { rewrite (map_size_insert_None l _ memo Hl). lia. }
    rewrite Hcs.
    destruct Hcd as [Hinv2 Hpre2 Hsub2 Hfresh2].
    pose proof (prefix_length _ _ Hpre2) as Hlen2.
    rewrite length_app in Hlen2. simpl in Hlen2.
    assert (Hm2l : m2 !! l = Some (length h)).
    { eapply lookup_weaken; [apply lookup_insert_eq | exact Hsub2]. }
    assert (Hmemo_sub : memo ⊆ m2).
    { transitivity (<[l := length h]> memo); [|exact Hsub2].
      now apply insert_subseteq. }
    exists (VRef (length h)), (<[length h := rebuild o vals]> h2), m2.
    split; [reflexivity|]. split; [|now exists (length h)].
    destruct Hinv2 as [Hp2 Hmm2 Hnew2 Hdone2].
    split; [split|..].
    + apply prefix_insert_beyond; [exact Hp2 | lia].
    + intros l' y' Hy'. rewrite length_insert. now apply Hmm2.
    + intros y' o' Hy' Hlook. rewrite length_insert.
      destruct (decide (y' = length h)) as [->|Hne].
      * rewrite list_lookup_insert_eq in Hlook by lia.
        injection Hlook as <-.
        rewrite values_of_rebuild by (eapply Forall2_length; eauto).
        clear -Hrel Hmm2. induction Hrel as [|v v' ? ? Hv _ IHr];
          constructor; [|exact IHr].
        destruct v; simpl in Hv; subst; simpl; auto.
        destruct Hv as (y & Hy & ->). simpl.
        now apply (Hmm2 _ _ Hy).
      * rewrite list_lookup_insert_ne in Hlook by congruence.
        now apply (Hnew2 y' o').
    + intros l' y' Hy' Hnp.
      destruct (decide (l' = l)) as [->|Hne].
      * assert (y' = length h) by congruence. subst y'.
        exists o, (rebuild o vals). split; [exact Ho|]. split.
        -- apply list_lookup_insert_eq. lia.
        -- now exists vals.
      * destruct (Hdone2 l' y' Hy') as (o1 & o1' & H1 & H2 & H3).
        { intros [HP | ->]; [now apply Hnp | now apply Hne]. }
        exists o1, o1'. split; [exact H1|]. split; [|exact H3].
        rewrite list_lookup_insert_ne; [exact H2|].
        destruct (memo !! l') as [y''|] eqn:Hold.
        -- assert (m2 !! l' = Some y'')
             by (eapply lookup_weaken; eauto).
           assert (y'' = y') by congruence. subst y''.
           pose proof (cp_memo _ _ _ _ Hinv l' y' Hold). lia.
        -- assert (Hnone : <[l := length h]> memo !! l' = None)
             by (rewrite lookup_insert_ne; auto).
           specialize (Hfresh2 l' y' Hy' Hnone).
           rewrite length_app in Hfresh2. simpl in Hfresh2. lia.
    + apply prefix_insert_beyond; [|lia].
      transitivity (h ++ [blank o])%list; [now apply prefix_app_r | exact Hpre2].
    + exact Hmemo_sub.
    + intros l' y' Hy' Hnone.
      destruct (decide (l' = l)) as [->|Hne].
      * assert (y' = length h) by congruence. lia.
      * assert (Hnone1 : <[l := length h]> memo !! l' = None)
          by (rewrite lookup_insert_ne; auto).
        specialize (Hfresh2 l' y' Hy' Hnone1).
        rewrite length_app in Hfresh2. simpl in Hfresh2. lia.
Qed.

(** With the memo of a finished copy, a value and its copy stand for
    the same document. *)
Lemma reify_copied h memo :
  copying h0 (fun _ => False) h memo ->
  forall n v v',
    ref_below (length h0) v -> val_rel memo v v' ->
    reify n h v' = reify n h0 v.
Proof.
  intros Hinv. induction n as [|n IH]; intros v v' Hv Hrel.
  - destruct v; simpl in Hrel; subst; try reflexivity.
    now destruct Hrel as (y & _ & ->).
  - destruct v; simpl in Hrel; subst; try reflexivity.
    destruct Hrel as (y & Hy & ->).
    destruct (cp_done _ _ _ _ Hinv l y Hy) as (o & o' & Ho & Ho' & Hrel);
      [tauto|].
    destruct Hrel as (vals & -> & Hvals).
    simpl. rewrite Ho, Ho'.
    pose proof (Forall2_length _ _ _ Hvals) as Hlen.
    rewrite (values_of_rebuild _ _ Hlen).
    assert (Hm : mapM (reify n h) vals = mapM (reify n h0) (values_of o)).
    { pose proof (h0_closed l o Ho) as Hcl.
      clear -IH Hvals Hcl.
      induction Hvals as [|a b la lb Hab _ IHv]; [reflexivity|].
      apply Forall_cons in Hcl as [Ha Hla].
      simpl. rewrite (IH a b Ha Hab), (IHv Hla). reflexivity. }
    rewrite Hm.
    destruct (mapM (reify n h0) (values_of o)) as [js|]; [|reflexivity].
    simpl. now rewrite (json_of_rebuild _ _ _ Hlen).
Qed.

End Copy.

(** Reading a document touches only what the value reaches. *)
Lemma reify_agree (F : loc -> Prop) (h h' : heap) :
  (forall l, F l -> h' !! l = h !! l) ->
  (forall l o, F l -> h !! l = Some o -> Forall (ref_in F) (values_of o)) ->
  forall n v, ref_in F v -> reify n h' v = reify n h v.
Proof.
  intros Hag Hcl. induction n as [|n IH]; intros v Hv;
    destruct v; try reflexivity.
  simpl in Hv. simpl. rewrite (Hag l Hv).
  destruct (h !! l) as [o|] eqn:Ho; [|reflexivity].
  pose proof (Hcl l o Hv Ho) as Hvals.
  assert (Hm : mapM (reify n h') (values_of o)
               = mapM (reify n h) (values_of o)).
  { clear -IH Hvals. induction Hvals as [|a la Ha _ IHv]; [reflexivity|].
    simpl. now rewrite (IH a Ha), IHv. }
  now rewrite Hm.
Qed.

Lemma ref_below_in n v : ref_below n v <-> ref_in (fun l => (l < n)%nat) v.
Proof. now destruct v. Qed.

Lemma reify_prefix (h h' : heap) n v :
  heap_closed h -> h `prefix_of` h' -> ref_below (length h) v ->
  reify n h' v = reify n h v.
Proof.
  intros Hcl Hpre Hv.
  apply (reify_agree (fun l => (l < length h)%nat)).
  - intros l Hl. destruct (lookup_lt_is_Some_2 h l Hl) as [o Ho].
    rewrite Ho. now apply (prefix_lookup_Some h).
  - intros l o _ Ho. eapply Forall_impl; [exact (Hcl l o Ho)|].
    intros x. apply ref_below_in.
  - now apply ref_below_in.
Qed.

(** [deepcopy] on a closed heap: it returns; the heap is extended and
    stays closed; the objects allocated refer to each other only; and
    the copy stands for the document of the original. *)
Lemma deepcopy_spec (h : heap) (x : value) :
  heap_closed h -> ref_below (length h) x ->
  exists v' h',
    deepcopy x h = Some (v', h')
    /\ h `prefix_of` h'
    /\ heap_closed h'
    /\ ref_within (length h) (length h') v'
    /\ (forall y o, (length h <= y)%nat -> h' !! y = Some o ->
                    Forall (ref_within (length h) (length h'))
                           (values_of o))
    /\ (forall n, reify n h' v' = reify n h x).
Proof.
  intros Hcl Hx.
  assert (Hinit : copying h (fun _ => False) h ∅).
  { split.
    - reflexivity.
    - intros l y Hy. now rewrite lookup_empty in Hy.
    - intros y o Hy Hlook. apply lookup_lt_Some in Hlook. lia.
    - intros l y Hy. now rewrite lookup_empty in Hy. }
  destruct (deepcopy_rec_ok h Hcl (length h) (fun _ => False) x h ∅
                            Hinit Hx ltac:(lia))
    as (v' & h' & memo' & Hrun & [Hinv Hpre _ _] & Hrel).
  exists v', h'. unfold deepcopy. rewrite Hrun.
  split; [reflexivity|]. split; [exact Hpre|].
  pose proof (prefix_length _ _ Hpre) as Hlen.
  split; [|split; [|split]].
  - intros l o Ho.
    destruct (Nat.lt_ge_cases l (length h)) as [Hold|Hnew].
    + destruct (lookup_lt_is_Some_2 h l Hold) as [o' Ho'].
      pose proof (prefix_lookup_Some _ _ _ _ Ho' Hpre) as Ho''.
      assert (o' = o) by congruence. subst o'.
      eapply Forall_impl; [exact (Hcl l o Ho')|].
      intros v. destruct v; simpl; auto. lia.
    + eapply Forall_impl; [exact (cp_new _ _ _ _ Hinv l o Hnew Ho)|].
      intros v. destruct v; simpl; auto. lia.
  - destruct x; simpl in Hrel; subst; simpl; auto.
    destruct Hrel as (y & Hy & ->). simpl.
    now apply (cp_memo _ _ _ _ Hinv l y).
  - exact (cp_new _ _ _ _ Hinv).
  - intros n. now apply (reify_copied h Hcl h' memo').
Qed.

End PyHeapFacts.

Module ActivityStoreHeapFacts.
Import PyExc Json PyHeap PyHeapFacts ActivityStoreHeap.

Lemma Forall2_refine {A B : Type} (P : A -> Prop) (Q : B -> Prop)
      (R R' : A -> B -> Prop) (l : list A) (k : list B) :
  Forall P l -> Forall Q k -> Forall2 R l k ->
  (forall a b, P a -> Q b -> R a b -> R' a b) ->
  Forall2 R' l k.
Proof.
  intros HP HQ HR Himp. induction HR as [|a b l k Hab _ IH]; [constructor|].
  apply Forall_cons in HP as [Ha Hl]. apply Forall_cons in HQ as [Hb Hk].
  constructor; auto.
Qed.

Section Sharing.
Variable format_timestamp : Z -> string.
Variable parse_isoformat : string -> option ActivityStore.datetime.

Local Abbreviation _prune_locked := (_prune_locked parse_isoformat).
Local Abbreviation get_events := (get_events parse_isoformat).
Local Abbreviation add_event :=
  (add_event format_timestamp parse_isoformat).

(** Pruning looks at the entries only. *)
Lemma prune_locked_agree now s (F : loc -> Prop) (h h' : heap) :
  Forall F (_events s) ->
  (forall l, F l -> h' !! l = h !! l) ->
  _prune_locked now s h' = _prune_locked now s h.
Proof.
  intros Hev Hag. unfold ActivityStoreHeap._prune_locked.
  destruct (retention s) as [r|]; [|reflexivity].
  destruct (r =? 0); [reflexivity|].
  destruct (ActivityStore.datetime_sub now r) as [x|cutoff]; [reflexivity|].
  cbn [bind]. f_equal. apply ActivityStoreFacts.prune_list_ext.
  eapply Forall_impl; [exact Hev|].
  intros e He. unfold expired, entry_timestamp. now rewrite (Hag e He).
Qed.

Lemma prune_locked_events now s sp h (F : loc -> Prop) :
  _prune_locked now s h = inr sp ->
  Forall F (_events s) ->
  Forall F (_events sp) /\ max_events sp = max_events s
  /\ _next_id sp = _next_id s.
Proof.
  unfold ActivityStoreHeap._prune_locked. intros Hp Hev.
  destruct (retention s) as [r|]; [|now injection Hp as <-].
  destruct (r =? 0); [now injection Hp as <-|].
  destruct (ActivityStore.datetime_sub now r) as [x|cutoff]; [discriminate|].
  cbn [bind] in Hp.
  destruct (ActivityStore.prune_list _ _ _) as [x|[removed events]] eqn:Hl;
    [discriminate|].
  cbn [bind] in Hp. injection Hp as <-.
  destruct (ActivityStoreFacts.prune_list_suffix _ _ _ _ _ Hl) as [k ->].
  split; [now apply Forall_drop | now split].
Qed.

(** The copies of a sequence of values, one [deepcopy] each. *)
Lemma copy_each_spec (vs : list value) (h : heap) :
  heap_closed h -> Forall (ref_below (length h)) vs ->
  exists copies h',
    copy_each vs h = Some (copies, h')
    /\ h `prefix_of` h'
    /\ heap_closed h'
    /\ Forall (ref_within (length h) (length h')) copies
    /\ (forall y o, (length h <= y)%nat -> h' !! y = Some o ->
                    Forall (ref_within (length h) (length h'))
                           (values_of o))
    /\ Forall2 (fun v v' => forall n, reify n h' v' = reify n h v)
               vs copies.
Proof.
  revert h. induction vs as [|v rest IH]; intros h Hcl Hvs.
  - exists [], h. simpl. split; [reflexivity|]. split; [reflexivity|].
    split; [exact Hcl|]. split; [constructor|]. split; [|constructor].
    intros y o Hy Ho. apply lookup_lt_Some in Ho. lia.
  - apply Forall_cons in Hvs as [Hv Hrest].
    destruct (deepcopy_spec h v Hcl Hv)
      as (v' & h1 & Hrun & Hpre1 & Hcl1 & Hfresh1 & Hnew1 & Hdoc1).
    pose proof (prefix_length _ _ Hpre1) as Hlen1.
    assert (Hrest1 : Forall (ref_below (length h1)) rest).
    { eapply Forall_impl; [exact Hrest|].
      intros x. destruct x; simpl; auto. lia. }
    destruct (IH h1 Hcl1 Hrest1)
      as (copies & h2 & Hrun2 & Hpre2 & Hcl2 & Hfresh2 & Hnew2 & Hdoc2).
    pose proof (prefix_length _ _ Hpre2) as Hlen2.
    exists (v' :: copies), h2. simpl. rewrite Hrun, Hrun2.
    split; [reflexivity|]. split; [now transitivity h1|].
    split; [exact Hcl2|].
    assert (Hv'1 : ref_below (length h1) v').
    { destruct v'; simpl in *; auto. lia. }
    split; [|split].
    + constructor.
      * destruct v'; simpl in *; auto. lia.
      * eapply Forall_impl; [exact Hfresh2|].
        intros x. destruct x; simpl; auto. lia.
    + intros y o Hy Ho.
      destruct (Nat.lt_ge_cases y (length h1)) as [Hlt|Hge].
      * destruct (lookup_lt_is_Some_2 h1 y Hlt) as [o1 Ho1].
        pose proof (prefix_lookup_Some _ _ _ _ Ho1 Hpre2) as Ho2.
        assert (o1 = o) by congruence. subst o1.
        eapply Forall_impl; [exact (Hnew1 y o Hy Ho1)|].
        intros x. destruct x; simpl; auto. lia.
      * eapply Forall_impl; [exact (Hnew2 y o Hge Ho)|].
        intros x. destruct x; simpl; auto. lia.
    + constructor.
      * intros n. rewrite <- Hdoc1. now apply reify_prefix.
      * apply (Forall2_refine (ref_below (length h)) (fun _ => True)
                              _ _ _ _ Hrest (Forall_true _ _ (fun _ => I))
                              Hdoc2).
        intros a b Ha _ Hab n. rewrite Hab. now apply reify_prefix.
Qed.

Lemma mapM_reify_eq n (h h' : heap) (vs vs' : list value) :
  Forall2 (fun v v' => reify n h' v' = reify n h v) vs vs' ->
  mapM (reify n h') vs' = mapM (reify n h) vs.
Proof.
  induction 1 as [|v v' l l' Hv _ IH]; [reflexivity|].
  simpl. now rewrite Hv, IH.
Qed.

(** [get_events] on a closed heap: it returns a new list object that
    stands for the list of the documents of the entries kept. *)
Lemma get_events_spec now s sp (h : heap) :
  heap_closed h -> Forall (fun e => (e < length h)%nat) (_events s) ->
  _prune_locked now s h = inr sp ->
  exists r h',
    get_events now s h = Some (VRef r, sp, h')
    /\ (length h <= r < length h')%nat
    /\ h `prefix_of` h'
    /\ heap_closed h'
    /\ (forall y o, (length h <= y)%nat -> h' !! y = Some o ->
                    Forall (ref_within (length h) (length h'))
                           (values_of o))
    /\ forall n,
         reify (S n) h' (VRef r)
         = JList <$> mapM (reify n h) (map VRef (_events sp)).
Proof.
  intros Hcl Hev Hp. unfold ActivityStoreHeap.get_events. rewrite Hp.
  assert (Hev1 : Forall (ref_below (length h)) (map VRef (_events sp))).
  { apply Forall_map.
    exact (proj1 (prune_locked_events now s sp h _ Hp Hev)). }
  destruct (copy_each_spec _ h Hcl Hev1)
    as (copies & h1 & Hrun & Hpre & Hcl1 & Hfresh & Hnew & Hdoc).
  pose proof (prefix_length _ _ Hpre) as Hlen.
  rewrite Hrun. exists (length h1), (h1 ++ [OList copies])%list.
  split; [reflexivity|]. rewrite length_app. simpl.
  split; [lia|]. split; [now apply prefix_app_r|].
  assert (Hlast : (h1 ++ [OList copies])%list !! length h1
                  = Some (OList copies)).
  { rewrite lookup_app_r by lia. now rewrite Nat.sub_diag. }
  split; [|split].
  - intros l o Ho. rewrite length_app. simpl.
    destruct (Nat.lt_ge_cases l (length h1)) as [Hlt|Hge].
    + rewrite lookup_app_l in Ho by exact Hlt.
      eapply Forall_impl; [exact (Hcl1 l o Ho)|].
      intros x. destruct x; simpl; auto. lia.
    + rewrite lookup_app_r in Ho by exact Hge.
      destruct (l - length h1)%nat as [|k]; [|now destruct k].
      injection Ho as <-. simpl.
      eapply Forall_impl; [exact Hfresh|].
      intros x. destruct x; simpl; auto. lia.
  - intros y o Hy Ho.
    destruct (Nat.lt_ge_cases y (length h1)) as [Hlt|Hge].
    + rewrite lookup_app_l in Ho by exact Hlt.
      eapply Forall_impl; [exact (Hnew y o Hy Ho)|].
      intros x. destruct x; simpl; auto. lia.
    + rewrite lookup_app_r in Ho by exact Hge.
      destruct (y - length h1)%nat as [|k]; [|now destruct k].
      injection Ho as <-. simpl.
      eapply Forall_impl; [exact Hfresh|].
      intros x. destruct x; simpl; auto. lia.
  - intros n. cbn [reify]. rewrite Hlast. cbn [values_of json_of].
    f_equal. apply mapM_reify_eq.
    apply (Forall2_refine (fun _ => True)
                          (ref_within (length h) (length h1)) _ _ _ _
                          (Forall_true _ _ (fun _ => I)) Hfresh Hdoc).
    intros a b _ Hb Hab. rewrite <- Hab.
    apply reify_prefix; [exact Hcl1 | now apply prefix_app_r|].
    destruct b; simpl in *; auto. lia.
Qed.

(** What [get_events] returns depends on the heap through the objects
    of the store only. *)
Lemma get_events_frame now s sp (F : loc -> Prop) (h h2 : heap) :
  heap_closed h -> heap_closed h2 ->
  footprint h F s ->
  (forall l, F l -> h2 !! l = h !! l) ->
  _prune_locked now s h = inr sp ->
  same_data (get_events now s h2) (get_events now s h).
Proof.
  intros Hcl Hcl2 [Hdom Hclosed Hev] Hag Hp.
  assert (Hp2 : _prune_locked now s h2 = inr sp).
  { now rewrite (prune_locked_agree now s F h h2 Hev Hag). }
  assert (Hev1 : Forall (fun e => (e < length h)%nat) (_events s)).
  { eapply Forall_impl; [exact Hev | exact Hdom]. }
  assert (Hev2 : Forall (fun e => (e < length h2)%nat) (_events s)).
  { eapply Forall_impl; [exact Hev|]. intros e He.
    destruct (lookup_lt_is_Some_2 h e (Hdom e He)) as [o Ho].
    apply (lookup_lt_Some h2 e o). now rewrite (Hag e He). }
  destruct (get_events_spec now s sp h Hcl Hev1 Hp)
    as (r & h' & Hrun & _ & _ & _ & _ & Hdoc).
  destruct (get_events_spec now s sp h2 Hcl2 Hev2 Hp2)
    as (r2 & h2' & Hrun2 & _ & _ & _ & _ & Hdoc2).
  exists (VRef r2), sp, h2', (VRef r), h'.
  split; [exact Hrun2|]. split; [exact Hrun|].
  intros [|n]; [reflexivity|].
  rewrite Hdoc, Hdoc2. f_equal.
  apply mapM_reify_eq, Forall2_same_length_lookup_2; [reflexivity|].
  intros i v v' Hv Hv'. assert (v' = v) by congruence. subst v'.
  apply list_lookup_fmap_Some in Hv as (e & -> & He).
  apply (reify_agree F h h2 Hag Hclosed).
  pose proof (proj1 (prune_locked_events now s sp h F Hp Hev)) as Hkept.
  rewrite Forall_forall in Hkept. apply Hkept.
  now apply (list_elem_of_lookup_2 _ i).
Qed.

(** [add_event] with a dictionary as payload returns when its age
    rule does: every object the new entry refers to was allocated by
    the call. *)
Lemma add_event_footprint t_stamp t_now event_type payload s sp
      (F : loc -> Prop) (h : heap) :
  heap_closed h -> footprint h F s -> is_dict h payload = true ->
  _prune_locked t_now s h = inr sp ->
  exists entry s1 h1,
    add_event t_stamp t_now event_type payload s h = Some (entry, s1, h1)
    /\ h `prefix_of` h1
    /\ heap_closed h1
    /\ footprint h1 (fun l => F l \/ (length h <= l < length h1)%nat) s1.
Proof.
  intros Hcl [Hdom Hclosed Hev] Hdict Hprune.
  unfold ActivityStoreHeap.add_event.
  destruct (ActivityStore.tracked event_type); simpl.
  2:{ exists None, s, h. split; [reflexivity|]. split; [reflexivity|].
      split; [exact Hcl|]. split.
      - intros l [Hl|Hl]; [now apply Hdom | lia].
      - intros l o [Hl|Hl] Ho; [|lia].
        eapply Forall_impl; [exact (Hclosed l o Hl Ho)|].
        intros v. destruct v; simpl; auto.
      - eapply Forall_impl; [exact Hev|]. now left. }
  rewrite Hdict.
  assert (Hp : ref_below (length h) payload).
  { destruct payload; simpl in *; auto.
    destruct (h !! l) eqn:E; [|discriminate].
    now apply lookup_lt_Some in E. }
  destruct (deepcopy_spec h payload Hcl Hp)
    as (snapshot & hc & Hrun & Hpre & Hclc & Hfresh & Hnew & _).
  pose proof (prefix_length _ _ Hpre) as Hlen.
  rewrite Hrun.
  assert (Hpc : _prune_locked t_now s hc = inr sp).
  { rewrite (prune_locked_agree t_now s F h hc Hev); [exact Hprune|].
    intros l Hl.
    destruct (lookup_lt_is_Some_2 h l (Hdom l Hl)) as [o Ho].
    rewrite Ho. now apply (prefix_lookup_Some h). }
  rewrite Hpc.
  destruct (prune_locked_events t_now s sp h F Hprune Hev)
    as (Hkept & _ & _).
  set (s1 := sp).
  set (entry := ODict [("id", VInt (_next_id s1)); ("type", VStr event_type);
                       ("timestamp", VStr (format_timestamp t_stamp));
                       ("data", snapshot)]).
  eexists _, _, _. split; [reflexivity|].
  rewrite length_app. simpl.
  split; [transitivity hc; [exact Hpre | now apply prefix_app_r]|].
  assert (Hentry : Forall (ref_within (length h) (length hc + 1))
                          (values_of entry)).
  { repeat constructor. destruct snapshot; simpl in *; auto. lia. }
  split; [|split].
  - intros l o Ho. rewrite length_app. simpl.
    destruct (Nat.lt_ge_cases l (length hc)) as [Hlt|Hge].
    + rewrite lookup_app_l in Ho by exact Hlt.
      eapply Forall_impl; [exact (Hclc l o Ho)|].
      intros v. destruct v; simpl; auto. lia.
    + rewrite lookup_app_r in Ho by exact Hge.
      destruct (l - length hc)%nat as [|k]; [|now destruct k].
      injection Ho as <-.
      eapply Forall_impl; [exact Hentry|].
      intros v. destruct v; simpl; auto. lia.
  - intros l Hl. rewrite length_app. simpl.
    destruct Hl as [Hl|Hl]; [|lia]. specialize (Hdom l Hl). lia.
  - intros l o [Hl|Hl] Ho.
    + destruct (lookup_lt_is_Some_2 h l (Hdom l Hl)) as [o' Ho'].
      assert (Hhc : hc !! l = Some o')
        by now apply (prefix_lookup_Some h).
      rewrite lookup_app_l in Ho by (apply lookup_lt_Some in Hhc; lia).
      assert (o' = o) by congruence. subst o'.
      eapply Forall_impl; [exact (Hclosed l o Hl Ho')|].
      intros v. destruct v; simpl; auto.
    + destruct (Nat.lt_ge_cases l (length hc)) as [Hlt|Hge].
      * rewrite lookup_app_l in Ho by exact Hlt.
        eapply Forall_impl; [exact (Hnew l o ltac:(lia) Ho)|].
        intros v. destruct v; simpl; auto; intros ?; right; lia.
      * rewrite lookup_app_r in Ho by exact Hge.
        destruct (l - length hc)%nat as [|k]; [|now destruct k].
        injection Ho as <-.
        eapply Forall_impl; [exact Hentry|].
        intros v. destruct v; simpl; auto; intros ?; right; lia.
  - cbn [_events].
    destruct (ActivityStoreFacts.enforce_max_suffix
                (max_events s1) (_events s1 ++ [length hc])%list) as [k ->].
    apply Forall_drop, Forall_app. split.
    + eapply Forall_impl; [exact Hkept|]. now left.
    + constructor; [|constructor]. right. lia.
Qed.

End Sharing.

(** A list as payload is stored as it is: appending to it afterwards
    changes what [get_events] returns for the event recorded. *)
Lemma list_payload_is_shared :
  add_event ActivityStore.sample_format ActivityStore.sample_parse
            1000000 1000000 "crew_log"
            (VRef 0%nat) sample_store sample_list_heap
  = Some (Some (VRef 1%nat),
          {| max_events := Some 500; retention := None;
             _events := [1%nat]; _next_id := 2 |},
          [ OList [VInt 1];
            ODict [("id", VInt 1); ("type", VStr "crew_log");
                   ("timestamp", VStr "1000000"); ("data", VRef 0%nat)] ])
  /\ (exists r h,
         get_events ActivityStore.sample_parse 2000000
                    {| max_events := Some 500; retention := None;
                       _events := [1%nat]; _next_id := 2 |}
                    [ OList [VInt 1];
                      ODict [("id", VInt 1); ("type", VStr "crew_log");
                             ("timestamp", VStr "1000000");
                             ("data", VRef 0%nat)] ]
         = Some (r, {| max_events := Some 500; retention := None;
                       _events := [1%nat]; _next_id := 2 |}, h)
         /\ reify 3 h r
            = Some (JList [JDict [("id", JInt 1); ("type", JStr "crew_log");
                                  ("timestamp", JStr "1000000");
                                  ("data", JList [JInt 1])]]))
  /\ (exists r h,
         get_events ActivityStore.sample_parse 2000000
                    {| max_events := Some 500; retention := None;
                       _events := [1%nat]; _next_id := 2 |}
                    [ OList [VInt 1; VInt 2];
                      ODict [("id", VInt 1); ("type", VStr "crew_log");
                             ("timestamp", VStr "1000000");
                             ("data", VRef 0%nat)] ]
         = Some (r, {| max_events := Some 500; retention := None;
                       _events := [1%nat]; _next_id := 2 |}, h)
         /\ reify 3 h r
            = Some (JList [JDict [("id", JInt 1); ("type", JStr "crew_log");
                                  ("timestamp", JStr "1000000");
                                  ("data", JList [JInt 1; JInt 2])]])).
Proof.
  split; [vm_compute; reflexivity|].
  split; eexists _, _; (split; [vm_compute; reflexivity|]);
    vm_compute; reflexivity.
Qed.

(** The value [add_event] returns is the entry in the buffer itself. *)
Lemma add_event_returns_stored_entry :
  exists e s1 h1,
    add_event ActivityStore.sample_format ActivityStore.sample_parse
              1000000 1000000 "crew_started" (VRef 1%nat)
              sample_store sample_heap
    = Some (Some (VRef e), s1, h1)
    /\ _events s1 = [e].
Proof. eexists _, _, _. split; vm_compute; reflexivity. Qed.

(** C7 (amended). Insert: [add_event] with a dictionary as payload
    returns when its age rule does, and afterwards whatever the caller
    does to objects that existed before the call and are not objects of
    the store (the payload among them) leaves what [get_events] returns
    unchanged.  Read: [get_events] returns when its age rule does, and
    whatever the caller does to the objects of the result, all of them
    allocated by that call, leaves what [get_events] returns
    unchanged.  The age rule returns unless a comparison of timestamps
    raises. *)
Theorem deep_copy_isolation
        (format_timestamp : Z -> string)
        (parse_isoformat : string -> option ActivityStore.datetime) :
  (forall t_stamp t_now event_type payload s sp (F M : loc -> Prop)
          (h : heap),
      heap_closed h -> footprint h F s ->
      is_dict h payload = true ->
      (forall l, M l -> (l < length h)%nat /\ ~ F l) ->
      _prune_locked parse_isoformat t_now s h = inr sp ->
      exists entry s1 h1,
        add_event format_timestamp parse_isoformat t_stamp t_now
                  event_type payload s h = Some (entry, s1, h1)
        /\ heap_closed h1
        /\ footprint h1 (fun l => F l \/ (length h <= l < length h1)%nat) s1
        /\ forall h_mut now sp1,
             mutation M h1 h_mut ->
             _prune_locked parse_isoformat now s1 h1 = inr sp1 ->
             same_data (get_events parse_isoformat now s1 h_mut)
                       (get_events parse_isoformat now s1 h1))
  /\ (forall now s sp (F M : loc -> Prop) (h : heap),
         heap_closed h -> footprint h F s ->
         _prune_locked parse_isoformat now s h = inr sp ->
         exists r h1,
           get_events parse_isoformat now s h = Some (VRef r, sp, h1)
           /\ (length h <= r < length h1)%nat
           /\ (forall y o, (length h <= y)%nat -> h1 !! y = Some o ->
                           Forall (ref_within (length h) (length h1))
                                  (values_of o))
           /\ heap_closed h1
           /\ footprint h1 F sp
           /\ ((forall l, M l -> (length h <= l)%nat) ->
               forall h_mut now' sp1,
                 mutation M h1 h_mut ->
                 _prune_locked parse_isoformat now' sp h1 = inr sp1 ->
                 same_data (get_events parse_isoformat now' sp h_mut)
                           (get_events parse_isoformat now' sp h1))).
Proof.
  split.
  - intros t_stamp t_now event_type payload s sp F M h Hcl Hfp Hdict HM Hp.
    destruct (add_event_footprint format_timestamp parse_isoformat
                t_stamp t_now event_type payload s sp F h Hcl Hfp Hdict Hp)
      as (entry & s1 & h1 & Hrun & Hpre & Hcl1 & Hfp1).
    exists entry, s1, h1. split; [exact Hrun|]. split; [exact Hcl1|].
    split; [exact Hfp1|].
    intros h_mut now sp1 [Hclm Hframe] Hp1.
    apply (get_events_frame parse_isoformat now s1 sp1 _ h1 h_mut
                            Hcl1 Hclm Hfp1); [|exact Hp1].
    intros l Hl. apply Hframe.
    + now apply (fp_dom _ _ _ Hfp1).
    + intros HMl. destruct (HM l HMl) as [Hold HnF].
      destruct Hl as [Hl|Hl]; [now apply HnF | lia].
  - intros now s sp F M h Hcl Hfp Hp.
    assert (Hev : Forall (fun e => (e < length h)%nat) (_events s)).
    { eapply Forall_impl; [exact (fp_events _ _ _ Hfp)|].
      exact (fp_dom _ _ _ Hfp). }
    destruct (get_events_spec parse_isoformat now s sp h Hcl Hev Hp)
      as (r & h1 & Hrun & Hr & Hpre & Hcl1 & Hnew & _).
    pose proof (prefix_length _ _ Hpre) as Hlen.
    exists r, h1.
    split; [exact Hrun|]. split; [exact Hr|]. split; [exact Hnew|].
    split; [exact Hcl1|].
    assert (Hfp1 : footprint h1 F sp).
    { destruct Hfp as [Hdom Hclosed Hevs]. split.
      - intros l Hl. specialize (Hdom l Hl). lia.
      - intros l o Hl Ho.
        destruct (lookup_lt_is_Some_2 h l (Hdom l Hl)) as [o' Ho'].
        pose proof (prefix_lookup_Some _ _ _ _ Ho' Hpre) as Ho1.
        assert (o' = o) by congruence. subst o'.
        now apply (Hclosed l).
      - exact (proj1 (prune_locked_events parse_isoformat now s sp h F
                                          Hp Hevs)). }
    split; [exact Hfp1|].
    intros HM h_mut now' sp1 [Hclm Hframe] Hp1.
    apply (get_events_frame parse_isoformat now' sp sp1 F h1 h_mut
                            Hcl1 Hclm Hfp1); [|exact Hp1].
    intros l Hl. apply Hframe.
    + now apply (fp_dom _ _ _ Hfp1).
    + intros HMl. specialize (HM l HMl).
      pose proof (fp_dom _ _ _ Hfp l Hl). lia.
Qed.

Lemma heap_closed_insert (h : heap) l o :
  heap_closed h -> Forall (ref_below (length h)) (values_of o) ->
  heap_closed (<[l := o]> h).
Proof.
  intros Hcl Ho l' o' Hl'. rewrite length_insert.
  destruct (decide (l = l')) as [<-|Hne].
  - destruct (Nat.lt_ge_cases l (length h)) as [Hlt|Hge].
    + rewrite list_lookup_insert_eq in Hl' by exact Hlt.
      now injection Hl' as <-.
    + rewrite list_insert_ge in Hl' by exact Hge. now apply (Hcl l).
  - rewrite list_lookup_insert_ne in Hl' by exact Hne. now apply (Hcl l').
Qed.

Lemma sample_heap_closed : heap_closed sample_heap.
Proof.
  intros [|[|l]] o; simpl; intros [= <-]; repeat constructor.
Qed.

Lemma deep_copy_isolation_witness :
  exists entry s1 h1,
    add_event ActivityStore.sample_format ActivityStore.sample_parse
              1000000 1000000 "crew_started" (VRef 1%nat)
              sample_store sample_heap
    = Some (entry, s1, h1)
    /\ same_data
         (get_events ActivityStore.sample_parse 2000000 s1
                     (sample_mutated h1))
         (get_events ActivityStore.sample_parse 2000000 s1 h1).
Proof.
  destruct (proj1 (deep_copy_isolation ActivityStore.sample_format
                                       ActivityStore.sample_parse)
                  1000000 1000000 "crew_started" (VRef 1%nat) sample_store
                  sample_store
                  (fun _ => False) (fun l => (l < 2)%nat) sample_heap)
    as (entry & s1 & h1 & Hrun & Hcl1 & _ & Hiso).
  - exact sample_heap_closed.
  - split; [intros l [] | intros l o [] | constructor].
  - reflexivity.
  - intros l Hl. simpl. split; [lia | tauto].
  - reflexivity.
  - exists entry, s1, h1. split; [exact Hrun|].
    apply (Hiso (sample_mutated h1) 2000000 s1).
    + split.
      * apply heap_closed_insert; [exact Hcl1 | repeat constructor].
      * intros l _ Hl. unfold sample_mutated.
        apply list_lookup_insert_ne. lia.
    + vm_compute in Hrun. injection Hrun as _ <- _. reflexivity.
Defined.

End ActivityStoreHeapFacts.

(* ===================================================================== *)
(** * Part III: further properties of the modules                         *)
(* ===================================================================== *)

(** ** activity_store.py: order, ids and the file *)
Module ActivityStoreLaws.
Import PyExc Json ActivityStore ActivityStoreFacts.

Lemma drop_same_length {A : Type} (l : list A) k :
  (length l <= length (drop k l))%nat -> drop k l = l.
Proof.
  rewrite length_drop. intros H.
  destruct l as [|x l]; [now rewrite drop_nil|].
  simpl in H. destruct k as [|k]; [reflexivity | lia].
Qed.

Lemma with_events_same s : with_events s (_events s) = s.
Proof. now destruct s. Qed.

Lemma positive_or_none_positive o m : positive_or_none o = Some m -> 0 < m.
Proof.
  destruct o as [v|]; simpl; [|discriminate].
  destruct (Z.ltb_spec 0 v); [|discriminate]. now intros [= <-].
Qed.

Lemma max_id_bounds events m :
  max_id events = inr m ->
  Forall (fun e => exists i, id_value e = inr i /\ i <= m) events.
Proof.
  revert m. induction events as [|e rest IH]; intros m; [constructor|].
  destruct rest as [|e' rest'].
  - simpl. intros H. constructor; [|constructor]. exists m. split; [exact H|lia].
  - change (max_id (e :: e' :: rest'))
      with (match id_value e, max_id (e' :: rest') with
            | inr a, inr b => inr (Z.max a b)
            | inl err, _ => inl err
            | _, inl err => inl err
            end).
    destruct (id_value e) as [x|a] eqn:He; [discriminate|].
    destruct (max_id (e' :: rest')) as [x|b] eqn:Hb; [discriminate|].
    intros [= <-]. constructor.
    + exists a. split; [exact He | lia].
    + eapply Forall_impl; [exact (IH b eq_refl)|].
      intros x (i & Hi & Hle). exists i. split; [exact Hi | lia].
Qed.

Lemma max_id_attained events m :
  events <> [] -> max_id events = inr m ->
  exists e, e ∈ events /\ id_value e = inr m.
Proof.
  revert m. induction events as [|e rest IH]; intros m Hne; [contradiction|].
  destruct rest as [|e' rest'].
  - simpl. intros H. exists e. split; [now left | exact H].
  - change (max_id (e :: e' :: rest'))
      with (match id_value e, max_id (e' :: rest') with
            | inr a, inr b => inr (Z.max a b)
            | inl err, _ => inl err
            | _, inl err => inl err
            end).
    destruct (id_value e) as [x|a] eqn:He; [discriminate|].
    destruct (max_id (e' :: rest')) as [x|b] eqn:Hb; [discriminate|].
    intros [= <-].
    destruct (Z.max_spec a b) as [[_ ->]|[_ ->]].
    + destruct (IH b) as (x & Hx & Hid); [discriminate | reflexivity|].
      exists x. split; [now right | exact Hid].
    + exists e. split; [now left | exact He].
Qed.

Lemma filter_valid events : well_formed (List.filter _is_valid_event events).
Proof.
  induction events as [|e l IH]; simpl; [constructor|].
  destruct (_is_valid_event e) eqn:He; [constructor|]; assumption.
Qed.

Lemma ids_increasing_drop k events :
  ids_increasing events -> ids_increasing (drop k events).
Proof.
  intros H. unfold ids_increasing in *.
  rewrite <- (take_drop k events) in H.
  now apply StronglySorted_app in H as (_ & _ & H).
Qed.

Lemma ids_increasing_snoc events e n :
  ids_increasing events -> ids_below n events -> id_value e = inr n ->
  ids_increasing (events ++ [e]).
Proof.
  intros Hs Hb He. apply StronglySorted_app. split; [|split].
  - intros x1 x2 Hx1 ->%list_elem_of_singleton.
    unfold ids_below in Hb. rewrite Forall_forall in Hb.
    destruct (Hb x1 Hx1) as (i & Hi & Hlt). now exists i, n.
  - exact Hs.
  - repeat constructor.
Qed.

Lemma ids_below_mono n n' events :
  n <= n' -> ids_below n events -> ids_below n' events.
Proof.
  intros Hle H. eapply Forall_impl; [exact H|].
  intros e (i & Hi & Hlt). exists i. split; [exact Hi | lia].
Qed.

Section Laws.
Variable format_timestamp : instant -> string.
Variable parse_isoformat : string -> option datetime.

Local Abbreviation _prune_locked := (_prune_locked parse_isoformat).
Local Abbreviation add_event := (add_event format_timestamp parse_isoformat).
Local Abbreviation get_events := (get_events parse_isoformat).
Local Abbreviation prune := (prune parse_isoformat).
Local Abbreviation step := (step format_timestamp parse_isoformat).
Local Abbreviation run := (run format_timestamp parse_isoformat).

(** The age rule changes nothing but the buffer, of which it keeps a
    suffix; when it reports that nothing was removed, the store is as
    it was. *)
Lemma prune_locked_suffix now s removed s' :
  _prune_locked now s = inr (removed, s') ->
  exists k, (k <= length (_events s))%nat
            /\ s' = with_events s (drop k (_events s))
            /\ (removed = false -> s' = s)
            /\ (removed = true ->
                (length (_events s') < length (_events s))%nat).
Proof.
  unfold ActivityStore._prune_locked. intros Hp.
  assert (Hsame : forall b, @inr exn _ (false, s) = inr (b, s') ->
            exists k, (k <= length (_events s))%nat
                      /\ s' = with_events s (drop k (_events s))
                      /\ (b = false -> s' = s)
                      /\ (b = true ->
                          (length (_events s') < length (_events s))%nat)).
  { intros b [= <- <-]. exists 0%nat. split; [lia|].
    split; [now rewrite drop_0, with_events_same|].
    split; [reflexivity | discriminate]. }
  destruct (retention s) as [r|]; [|now apply Hsame].
  destruct (r =? 0); [now apply Hsame|].
  destruct (datetime_sub now r) as [x|cutoff]; [discriminate|].
  cbn [bind] in Hp.
  destruct (prune_list _ _ _) as [x|[rem events]] eqn:Hl; [discriminate|].
  cbn [bind] in Hp. injection Hp as <- <-.
  destruct (prune_list_loop _ _ _ _ _ Hl) as (kept & Hk & Hev & Hrem).
  destruct (prune_list_suffix _ _ _ _ _ Hl) as [k Hk'].
  destruct (pop_while_suffix _ _ _ Hk) as [j ->].
  exists (Nat.min k (length (_events s))).
  assert (Hmin : drop (Nat.min k (length (_events s))) (_events s)
                 = drop k (_events s)).
  { destruct (Nat.le_gt_cases k (length (_events s))) as [Hle|Hgt].
    - now rewrite Nat.min_l.
    - rewrite Nat.min_r by lia. now rewrite !drop_ge by lia. }
  rewrite Hmin, <- Hk'. split; [lia|]. split; [reflexivity|]. split.
  - intros ->. symmetry in Hrem. apply Nat.ltb_ge in Hrem.
    rewrite Hev. rewrite (drop_same_length _ j Hrem).
    apply with_events_same.
  - intros ->. symmetry in Hrem. apply Nat.ltb_lt in Hrem.
    cbn [with_events _events]. rewrite Hev.
    destruct (enforce_max_suffix (max_events s) (drop j (_events s)))
      as [i ->].
    rewrite !length_drop in *. lia.
Qed.

(** X1. [add_event] with a tracked type and a positive (or no) size
    bound, once its age rule has returned: the entry it returns carries
    the old counter as id and the timestamp read before the lock; it is
    the last event of the buffer, which is a suffix of the old buffer
    followed by the entry, so that the two trimming rules drop from the
    old end only and never the event just added; the counter has
    advanced by one and the bound holds. *)
Theorem add_event_keeps_newest
        t_stamp t_now io_ok event_type payload s removed s1 :
  tracked event_type = true ->
  (forall m, max_events s = Some m -> 0 < m) ->
  _prune_locked t_now s = inr (removed, s1) ->
  let entry := new_entry (_next_id s) event_type
                         (format_timestamp t_stamp) payload in
  exists s' k,
    add_event t_stamp t_now io_ok event_type payload s
    = inr (Some entry, s')
    /\ _events s' = drop k (_events s ++ [entry])
    /\ last (_events s') = Some entry
    /\ _next_id s' = _next_id s + 1
    /\ (forall m, max_events s = Some m ->
                  Z.of_nat (length (_events s')) <= m).
Proof.
  intros Htr Hpos Hp entry.
  destruct (prune_locked_suffix _ _ _ _ Hp) as (k & Hk & -> & _ & _).
  unfold ActivityStore.add_event. rewrite Htr. cbn [negb].
  rewrite Hp. cbn [bind].
  unfold _enforce_max_events_locked.
  cbn [with_events max_events retention storage _events _next_id].
  fold (new_entry (_next_id s) event_type (format_timestamp t_stamp) payload).
  fold entry.
  set (l := (drop k (_events s) ++ [entry])%list).
  assert (Hl : l = drop k (_events s ++ [entry]))
    by (subst l; now rewrite drop_app_le).
  assert (Hlast : last l = Some entry) by apply last_snoc.
  destruct (enforce_max_suffix (max_events s) l) as [j Hj].
  assert (Hkeep : last (enforce_max (max_events s) l) = Some entry).
  { unfold enforce_max. destruct (max_events s) as [m|] eqn:Hm; [|exact Hlast].
    specialize (Hpos m eq_refl).
    destruct (Z.ltb_spec m (Z.of_nat (length l))); [|exact Hlast].
    rewrite last_drop; [exact Hlast | lia]. }
  assert (Hbound : forall m, max_events s = Some m ->
             Z.of_nat (length (enforce_max (max_events s) l)) <= m).
  { intros m Hm. rewrite Hm. apply enforce_max_length. now apply Hpos. }
  assert (Hsuffix : exists i, enforce_max (max_events s) l
                              = drop i (_events s ++ [entry])).
  { exists (k + j)%nat. now rewrite Hj, Hl, drop_drop. }
  destruct Hsuffix as [i Hi].
  unfold _persist_locked.
  cbn [with_events max_events retention storage _events _next_id].
  destruct (storage s); [destruct io_ok|];
    eexists _, i; (split; [reflexivity|]);
    cbn [_events _next_id]; auto.
Qed.

(** X2. Reading and pruning drop a prefix of the buffer and change
    nothing else: what [get_events] returns is the buffer it leaves, a
    suffix of the old one; it never touches the file, the counter or
    the configuration.  [prune] writes the file only when it removed
    something, and then with the counter unchanged; when nothing has
    expired the store is as it was. *)
Theorem reading_never_writes now io_ok s :
  (forall events s',
      get_events now s = inr (events, s') ->
      events = _events s'
      /\ exists k, s' = with_events s (drop k (_events s)))
  /\ (forall s',
         prune now io_ok s = inr s' ->
         (exists k, _events s' = drop k (_events s))
         /\ max_events s' = max_events s /\ retention s' = retention s
         /\ _next_id s' = _next_id s
         /\ (storage s' = storage s
             \/ storage s'
                = Some (Content (persisted_payload (_next_id s)
                                                   (_events s'))))
         /\ (length (_events s') = length (_events s) -> s' = s)).
Proof.
  split.
  - intros events s'. unfold ActivityStore.get_events.
    destruct (_prune_locked now s) as [x|[removed s1]] eqn:Hp; [discriminate|].
    cbn [bind]. intros [= <- <-].
    destruct (prune_locked_suffix _ _ _ _ Hp) as (k & _ & Hk & _).
    split; [reflexivity | now exists k].
  - intros s'. unfold ActivityStore.prune.
    destruct (_prune_locked now s) as [x|[removed s1]] eqn:Hp; [discriminate|].
    cbn [bind]. intros [= <-].
    destruct (prune_locked_suffix _ _ _ _ Hp) as (k & _ & -> & Hsame & Hless).
    destruct removed.
    + specialize (Hless eq_refl). cbn [with_events _events] in Hless.
      unfold _persist_locked.
      cbn [with_events max_events retention storage _events _next_id].
      assert (Hne : length (drop k (_events s)) = length (_events s) ->
                    False) by lia.
      destruct (storage s) as [f|] eqn:Hst; [destruct io_ok|];
        cbn [max_events retention storage _events _next_id];
        (split; [now exists k|]); do 3 (split; [reflexivity|]);
        (split; [first [now left | now right]|]);
        intros Hlen; now destruct (Hne Hlen).
    + rewrite (Hsame eq_refl).
      split; [now exists 0%nat|]. repeat (split; [reflexivity|]).
      split; [now left | reflexivity].
Qed.

(** X3. [prune] is idempotent at an instant: on a store within its
    size bound, a second [prune] at the same clock reading finds
    nothing to remove, returns the store as the first left it and does
    not write the file. *)
Theorem prune_idempotent now io_ok io_ok' s s' :
  within_bound s ->
  prune now io_ok s = inr s' ->
  prune now io_ok' s' = inr s'.
Proof.
  intros Hb. unfold ActivityStore.prune.
  rewrite (prune_locked_within_bound parse_isoformat now s Hb).
  destruct (retention s) as [r|] eqn:Hr.
  2:{ cbn [bind]. intros [= <-].
      unfold ActivityStore._prune_locked. now rewrite Hr. }
  destruct (r =? 0) eqn:Hr0.
  { cbn [bind]. intros [= <-].
    unfold ActivityStore._prune_locked. now rewrite Hr, Hr0. }
  destruct (datetime_sub now r) as [x|cutoff] eqn:Hc; [discriminate|].
  cbn [bind].
  destruct (pop_while _ _) as [x|kept] eqn:Hk; [discriminate|].
  cbn [bind]. intros [= <-].
  pose proof (pop_while_length _ _ _ Hk) as Hlen.
  assert (Hagain : pop_while (expired parse_isoformat now cutoff) kept
                   = inr kept).
  { rewrite <- Hk.
    now apply (pop_while_absorb (expired parse_isoformat now cutoff)
                                (expired parse_isoformat now cutoff)
                                (_events s)). }
  set (s1 := with_events s kept).
  assert (Hb1 : within_bound s1).
  { intros m Hm. specialize (Hb m Hm). cbn [s1 with_events _events]. lia. }
  assert (Hp1 : forall s2 : store,
             max_events s2 = max_events s1 -> retention s2 = retention s1 ->
             _events s2 = _events s1 ->
             _prune_locked now s2 = inr (false, s2)).
  { intros s2 Hm2 Hr2 He2.
    rewrite (prune_locked_within_bound parse_isoformat now s2).
    2:{ intros m Hm. rewrite He2. apply Hb1. congruence. }
    rewrite Hr2. cbn [s1 with_events retention]. rewrite Hr, Hr0, Hc.
    cbn [bind]. cbn [s1 with_events _events] in He2. rewrite He2.
    rewrite Hagain. cbn [bind]. rewrite Nat.ltb_irrefl.
    rewrite <- He2. now rewrite with_events_same. }
  destruct (length kept <? length (_events s))%nat.
  - unfold _persist_locked. destruct (storage s1); [destruct io_ok|];
      rewrite Hp1; reflexivity.
  - rewrite Hp1; reflexivity.
Qed.

(** X4. Whatever the file holds, a store the constructor returns has
    only valid events in its buffer (objects with the keys [type],
    [timestamp] and [data]), a positive size bound that the buffer
    respects, and the file as it was found: loading never writes. *)
Theorem constructor_validates_file max_ev secs file now s :
  __init__ parse_isoformat max_ev secs file now = inr s ->
  well_formed (_events s)
  /\ (forall m, max_events s = Some m ->
                0 < m /\ Z.of_nat (length (_events s)) <= m)
  /\ max_events s = positive_or_none max_ev
  /\ storage s = file.
Proof.
  unfold __init__, load_persisted_events, _load_persisted_events.
  destruct (retention_of secs) as [x|r]; [discriminate|]. cbn [bind storage].
  set (s0 := {| max_events := positive_or_none max_ev; retention := r;
                storage := file; _events := []; _next_id := 1 |}).
  assert (Hfresh : forall s', @inr exn _ s0 = inr s' ->
            well_formed (_events s')
            /\ (forall m, max_events s' = Some m ->
                          0 < m /\ Z.of_nat (length (_events s')) <= m)
            /\ max_events s' = positive_or_none max_ev
            /\ storage s' = file).
  { intros s' [= <-]. split; [constructor|]. split; [|now split].
    intros m Hm. apply positive_or_none_positive in Hm. simpl. lia. }
  assert (Hload : forall events next_id,
            well_formed events ->
            (let s := with_events s0 events in
             let* '(_, s) := ActivityStore._prune_locked parse_isoformat now s in
             let s := _enforce_max_events_locked s in
             match stored_counter next_id with
             | Some n =>
                 inr {| max_events := max_events s; retention := retention s;
                        storage := storage s; _events := _events s;
                        _next_id := n |}
             | None =>
                 let* m := max_id (_events s) in
                 inr {| max_events := max_events s;
                        retention := retention s;
                        storage := storage s; _events := _events s;
                        _next_id := m + 1 |}
             end) = inr s ->
            well_formed (_events s)
            /\ (forall m, max_events s = Some m ->
                          0 < m /\ Z.of_nat (length (_events s)) <= m)
            /\ max_events s = positive_or_none max_ev
            /\ storage s = file).
  { intros events next_id Hwf. cbv zeta.
    destruct (ActivityStore._prune_locked parse_isoformat now
                (with_events s0 events)) as [x|[removed s1]] eqn:Hp;
      [discriminate|].
    cbn [bind].
    destruct (prune_locked_suffix _ _ _ _ Hp) as (k & _ & -> & _ & _).
    unfold _enforce_max_events_locked.
    cbn [with_events s0 max_events retention storage _events _next_id].
    destruct (enforce_max_suffix (positive_or_none max_ev) (drop k events))
      as [j Hj].
    assert (Hres : forall n,
              let s' := {| max_events := positive_or_none max_ev;
                           retention := r; storage := file;
                           _events := enforce_max (positive_or_none max_ev)
                                                  (drop k events);
                           _next_id := n |} in
              well_formed (_events s')
              /\ (forall m, max_events s' = Some m ->
                            0 < m /\ Z.of_nat (length (_events s')) <= m)
              /\ max_events s' = positive_or_none max_ev
              /\ storage s' = file).
    { intros n. cbn [max_events storage _events].
      split; [rewrite Hj; now do 2 apply Forall_drop|].
      split; [|now split].
      intros m Hm. pose proof (positive_or_none_positive _ _ Hm) as Hpos.
      split; [exact Hpos|]. rewrite Hm. now apply enforce_max_length. }
    destruct (stored_counter next_id) as [n|].
    - intros [= <-]. apply Hres.
    - destruct (max_id _) as [x|m]; [discriminate|]. cbn [bind].
      intros [= <-]. apply Hres. }
  destruct file as [[| |raw]|]; try (now apply Hfresh).
  destruct raw as [| | | |items|items]; cbn [bind]; try (now apply Hfresh).
  - apply (Hload (List.filter _is_valid_event items) None).
    apply filter_valid.
  - destruct (iterate _) as [x|listed]; [discriminate|]. cbn [bind].
    apply (Hload (List.filter _is_valid_event listed)
                 (dict_get "next_id" items)).
    apply filter_valid.
Qed.

(** What [_load_persisted_events] returns: the store as it was, or the
    valid events of the file without a prefix and with the counter of
    the file or one more than the largest id kept. *)
Lemma load_persisted_cases now s0 s :
  _load_persisted_events parse_isoformat now s0 = inr s ->
  s = s0
  \/ exists raw listed k n,
       storage s0 = Some (Content raw)
       /\ (raw = JList listed
           \/ exists items,
                raw = JDict items
                /\ iterate (default (JList []) (dict_get "events" items))
                   = inr listed)
       /\ s = {| max_events := max_events s0; retention := retention s0;
                 storage := storage s0;
                 _events := drop k (List.filter _is_valid_event listed);
                 _next_id := n |}
       /\ (forall m, max_events s0 = Some m -> 0 < m ->
                     Z.of_nat (length (_events s)) <= m)
       /\ match file_counter raw with
          | Some c => n = c
          | None => max_id (_events s) = inr (n - 1)
          end.
Proof.
  unfold _load_persisted_events.
  destruct (storage s0) as [[| |raw]|] eqn:Hst;
    try (intros [= <-]; now left).
  assert (Hload : forall listed next_id,
            (raw = JList listed
             \/ exists items,
                  raw = JDict items
                  /\ iterate (default (JList []) (dict_get "events" items))
                     = inr listed) ->
            file_counter raw = stored_counter next_id ->
            (let s := with_events s0 (List.filter _is_valid_event listed) in
             let* '(_, s) := _prune_locked now s in
             let s := _enforce_max_events_locked s in
             match stored_counter next_id with
             | Some n =>
                 inr {| max_events := max_events s; retention := retention s;
                        storage := storage s; _events := _events s;
                        _next_id := n |}
             | None =>
                 let* m := max_id (_events s) in
                 inr {| max_events := max_events s;
                        retention := retention s;
                        storage := storage s; _events := _events s;
                        _next_id := m + 1 |}
             end) = inr s ->
            exists listed k n,
              (raw = JList listed
               \/ exists items,
                    raw = JDict items
                    /\ iterate (default (JList []) (dict_get "events" items))
                       = inr listed)
              /\ s = {| max_events := max_events s0;
                        retention := retention s0;
                        storage := Some (Content raw);
                        _events := drop k (List.filter _is_valid_event
                                                       listed);
                        _next_id := n |}
              /\ (forall m, max_events s0 = Some m -> 0 < m ->
                            Z.of_nat (length (_events s)) <= m)
              /\ match file_counter raw with
                 | Some c => n = c
                 | None => max_id (_events s) = inr (n - 1)
                 end).
  { intros listed next_id Hraw Hctr. cbv zeta.
    set (events := List.filter _is_valid_event listed).
    destruct (_prune_locked now (with_events s0 events))
      as [x|[removed s1]] eqn:Hp; [discriminate|].
    cbn [bind].
    destruct (prune_locked_suffix _ _ _ _ Hp) as (k & _ & -> & _ & _).
    unfold _enforce_max_events_locked.
    cbn [with_events max_events retention storage _events _next_id].
    destruct (enforce_max_suffix (max_events s0) (drop k events)) as [j Hj].
    assert (Hlen : forall m, max_events s0 = Some m -> 0 < m ->
              Z.of_nat (length (enforce_max (max_events s0)
                                            (drop k events))) <= m).
    { intros m Hm Hpos. rewrite Hm. now apply enforce_max_length. }
    rewrite Hctr.
    destruct (stored_counter next_id) as [n|].
    - rewrite Hst. intros [= <-]. exists listed, (k + j)%nat, n.
      cbn [_events]. rewrite Hj, drop_drop in *. auto.
    - destruct (max_id _) as [x|m] eqn:Hmax; [discriminate|]. cbn [bind].
      rewrite Hst. intros [= <-]. exists listed, (k + j)%nat, (m + 1).
      cbn [_events]. rewrite Hj, drop_drop in *.
      split; [exact Hraw|]. split; [reflexivity|]. split; [exact Hlen|].
      now replace (m + 1 - 1) with m by lia. }
  destruct raw as [| | | |items|items]; cbn [bind];
    try (intros [= <-]; now left).
  - intros H. right. exists (JList items).
    destruct (Hload items None (or_introl eq_refl) eq_refl H)
      as (listed & k & n & Hr & Hs & Hl & Hc).
    exists listed, k, n. auto.
  - destruct (iterate _) as [x|listed] eqn:Hit; [discriminate|]. cbn [bind].
    intros H. right. exists (JDict items).
    destruct (Hload listed (dict_get "next_id" items)
                    (or_intror (ex_intro _ items (conj eq_refl Hit)))
                    eq_refl H)
      as (listed' & k & n & Hr & Hs & Hl & Hc).
    exists listed', k, n. auto.
Qed.

(** X5. A file without a counter the loader accepts (the bare list of
    older versions, or an object whose [next_id] is missing, not an
    integer or not positive), the ids in it being integers: when the
    constructor returns, every id kept is an integer, an event without
    one counting as 0; the counter of the store is the largest of them
    plus one, recomputed from the ids when the file holds a buffer,
    and 1 for an empty buffer; so it lies above the id of every event
    kept, and the ids assigned from then on collide with none of
    them. *)
Theorem recomputed_counter_exceeds_ids max_ev secs raw now s :
  file_counter raw = None ->
  __init__ parse_isoformat max_ev secs (Some (Content raw)) now = inr s ->
  exists m,
    max_id (_events s) = inr m
    /\ _next_id s = m + 1
    /\ Forall (fun e => exists i, id_value e = inr i /\ i <= m) (_events s)
    /\ (_events s = [] -> m = 0)
    /\ (_events s <> [] ->
        exists e, e ∈ _events s /\ id_value e = inr m)
    /\ ids_below (_next_id s) (_events s).
Proof.
  intros Hctr. unfold __init__, load_persisted_events.
  destruct (retention_of secs) as [x|r]; [discriminate|]. cbn [bind].
  intros Hload.
  assert (Hmax : max_id (_events s) = inr (_next_id s - 1)).
  { destruct (load_persisted_cases _ _ _ Hload)
      as [-> | (raw' & listed & k & n & Hst & _ & Hs & _ & Hc)].
    - reflexivity.
    - cbn [storage] in Hst. injection Hst as <-. rewrite Hctr in Hc.
      assert (Hn : _next_id s = n) by now rewrite Hs.
      now rewrite Hn. }
  exists (_next_id s - 1).
  pose proof (max_id_bounds _ _ Hmax) as Hb.
  split; [exact Hmax|]. split; [lia|]. split; [exact Hb|].
  split; [intros He; rewrite He in Hmax; cbn in Hmax; congruence|].
  split; [intros Hne; now apply max_id_attained|].
  eapply Forall_impl; [exact Hb|].
  intros e (i & Hi & Hle). exists i. split; [exact Hi | lia].
Qed.

Lemma persisted_payload_cases n events listed :
  (persisted_payload n events = JList listed
   \/ exists items,
        persisted_payload n events = JDict items
        /\ iterate (default (JList []) (dict_get "events" items))
           = inr listed) ->
  listed = events.
Proof.
  intros [H | (items & Hi & Hl)]; [discriminate|].
  unfold persisted_payload in Hi. injection Hi as <-.
  cbn in Hl. now injection Hl as <-.
Qed.

Lemma step_ids_in_step c s s' :
  ids_in_step s -> step c s = inr s' -> ids_in_step s'.
Proof.
  intros [Hv Ho Hb Hc Hf].
  assert (Hsuffix : forall k, ids_in_step (with_events s (drop k (_events s)))).
  { intros k. split; cbn [with_events _events _next_id storage].
    - now apply Forall_drop.
    - now apply ids_increasing_drop.
    - now apply Forall_drop.
    - exact Hc.
    - exact Hf. }
  assert (Hpersist : forall io_ok s1,
             ids_in_step s1 -> ids_in_step (_persist_locked io_ok s1)).
  { intros io_ok s1 H1. unfold _persist_locked.
    destruct (storage s1) as [f|] eqn:Hst; [destruct io_ok|];
      try exact H1.
    destruct H1 as [Hv1 Ho1 Hb1 Hc1 Hf1].
    split; cbn [_events _next_id storage]; auto.
    intros raw [= <-]. exists (_next_id s1), (_events s1). auto. }
  destruct c as [event_type payload t_stamp t_now io_ok
                | t_now io_ok | t_now | t_now];
    cbn [ActivityStore.step].
  - (* add_event *)
    unfold ActivityStore.add_event.
    destruct (tracked event_type); cbn [negb bind].
    2:{ intros [= <-]. now split. }
    destruct (_prune_locked t_now s) as [x|[removed s1]] eqn:Hp;
      [discriminate|].
    cbn [bind]. intros [= <-].
    destruct (prune_locked_suffix _ _ _ _ Hp) as (k & _ & -> & _ & _).
    apply Hpersist. unfold _enforce_max_events_locked.
    cbn [with_events max_events retention storage _events _next_id].
    set (entry := JDict _).
    assert (Hent : id_value entry = inr (_next_id s)) by reflexivity.
    destruct (enforce_max_suffix (max_events s)
                                 (drop k (_events s) ++ [entry])) as [j ->].
    split; cbn [with_events _events _next_id storage].
    + apply Forall_drop, Forall_app. split; [now apply Forall_drop|].
      constructor; [reflexivity | constructor].
    + apply ids_increasing_drop.
      apply (ids_increasing_snoc _ _ (_next_id s));
        [now apply ids_increasing_drop | now apply Forall_drop | exact Hent].
    + apply Forall_drop, Forall_app. split.
      * apply (ids_below_mono (_next_id s) (_next_id s + 1)); [lia|].
        now apply Forall_drop.
      * constructor; [|constructor]. exists (_next_id s).
        split; [exact Hent | lia].
    + lia.
    + exact Hf.
  - (* prune *)
    unfold ActivityStore.prune.
    destruct (_prune_locked t_now s) as [x|[removed s1]] eqn:Hp;
      [discriminate|].
    cbn [bind]. intros [= <-].
    destruct (prune_locked_suffix _ _ _ _ Hp) as (k & _ & -> & _ & _).
    destruct removed; [apply Hpersist|]; apply Hsuffix.
  - (* get_events *)
    unfold ActivityStore.get_events.
    destruct (_prune_locked t_now s) as [x|[removed s1]] eqn:Hp;
      [discriminate|].
    cbn [bind]. intros [= <-].
    destruct (prune_locked_suffix _ _ _ _ Hp) as (k & _ & -> & _ & _).
    apply Hsuffix.
  - (* load_persisted_events *)
    unfold load_persisted_events. intros Hload.
    destruct (load_persisted_cases _ _ _ Hload)
      as [-> | (raw & listed & k & n & Hst & Hraw & -> & _ & Hctr)].
    { now split. }
    destruct (Hf raw Hst) as (n0 & evs & -> & Hn0 & Hwf & Hinc & Hbel).
    apply persisted_payload_cases in Hraw. subst listed.
    rewrite (filter_well_formed _ Hwf) in *.
    assert (Hn : n = n0).
    { revert Hctr. unfold file_counter, persisted_payload.
      cbn [dict_get String.eqb Ascii.eqb Bool.eqb stored_counter].
      destruct (Z.ltb_spec 0 n0); [auto | lia]. }
    subst n. split; cbn [_events _next_id storage].
    + now apply Forall_drop.
    + now apply ids_increasing_drop.
    + now apply Forall_drop.
    + exact Hn0.
    + exact Hf.
Qed.

(** X6. Along every run of [add_event], [prune], [get_events] and
    [load_persisted_events] that returns, from a store that assigned
    its ids itself (a new one, for instance), the ids of the buffer
    are integers that increase strictly from the oldest event to the
    newest and lie below the counter: no two events of the buffer share
    an id, also after a reload of the store's own file. *)
Theorem ids_stay_in_step calls s s' :
  ids_in_step s -> run calls s = inr s' ->
  ids_in_step s'
  /\ forall i j e1 e2,
       (i < j)%nat -> _events s' !! i = Some e1 -> _events s' !! j = Some e2 ->
       id_lt e1 e2.
Proof.
  intros Hs Hrun.
  assert (Hinv : ids_in_step s').
  { revert s Hs Hrun. induction calls as [|c calls IH]; intros s Hs.
    - now intros [= <-].
    - cbn [ActivityStore.run].
      destruct (step c s) as [x|s1] eqn:Hstep; [discriminate|]. cbn [bind].
      apply IH. now apply (step_ids_in_step c s). }
  split; [exact Hinv|].
  intros i j e1 e2 Hij H1 H2.
  pose proof (in_step_order _ Hinv) as Hsorted. unfold ids_increasing in Hsorted.
  rewrite <- (take_drop_middle _ _ _ H2) in Hsorted, H1.
  apply StronglySorted_app in Hsorted as (Hcross & _ & _).
  apply (Hcross e1 e2); [|now left].
  rewrite lookup_app_l in H1.
  - now apply (list_elem_of_lookup_2 _ i).
  - rewrite length_take. apply lookup_lt_Some in H2. lia.
Qed.

End Laws.

Lemma add_event_keeps_newest_witness :
  exists s' k,
    add_event sample_format sample_parse 55000000 55000001 true "crew_log"
              (JDict []) sample_store_two_events
    = inr (Some (sample_entry 5 55000000 "crew_log"), s')
    /\ _events s'
       = drop k (_events sample_store_two_events
                 ++ [sample_entry 5 55000000 "crew_log"])
    /\ last (_events s') = Some (sample_entry 5 55000000 "crew_log")
    /\ _next_id s' = 5 + 1
    /\ (forall m, max_events sample_store_two_events = Some m ->
                  Z.of_nat (length (_events s')) <= m).
Proof.
  apply (add_event_keeps_newest sample_format sample_parse
           55000000 55000001 true "crew_log" (JDict [])
           sample_store_two_events false sample_store_two_events).
  - reflexivity.
  - intros m [= <-]. lia.
  - vm_compute. reflexivity.
Defined.

Lemma reading_never_writes_witness :
  let s' := {| max_events := Some 2; retention := Some 60000000;
               storage := storage sample_store_one_persisted;
               _events := []; _next_id := 2 |} in
  [] = _events s'
  /\ exists k, s' = with_events sample_store_one_persisted
                                (drop k (_events sample_store_one_persisted)).
Proof.
  intros s'.
  apply (proj1 (reading_never_writes sample_parse 121000000 true
                                     sample_store_one_persisted) [] s').
  vm_compute. reflexivity.
Defined.

Lemma prune_idempotent_witness :
  prune sample_parse 121000000 false sample_store_emptied
  = inr sample_store_emptied.
Proof.
  apply (prune_idempotent sample_parse 121000000 true false
                          sample_store_one_persisted).
  - intros m [= <-]. simpl. lia.
  - vm_compute. reflexivity.
Defined.

Lemma constructor_validates_file_witness :
  well_formed (_events sample_store_from_legacy)
  /\ (forall m, max_events sample_store_from_legacy = Some m ->
                0 < m
                /\ Z.of_nat (length (_events sample_store_from_legacy)) <= m)
  /\ max_events sample_store_from_legacy = positive_or_none (Some 2)
  /\ storage sample_store_from_legacy = Some sample_legacy_file.
Proof.
  apply (constructor_validates_file sample_parse (Some 2) (Some 60)
                                    (Some sample_legacy_file) 60000000).
  vm_compute. reflexivity.
Defined.

Lemma recomputed_counter_exceeds_ids_witness :
  exists m,
    max_id (_events sample_store_from_legacy) = inr m
    /\ _next_id sample_store_from_legacy = m + 1
    /\ Forall (fun e => exists i, id_value e = inr i /\ i <= m)
              (_events sample_store_from_legacy)
    /\ (_events sample_store_from_legacy = [] -> m = 0)
    /\ (_events sample_store_from_legacy <> [] ->
        exists e, e ∈ _events sample_store_from_legacy
                  /\ id_value e = inr m)
    /\ ids_below (_next_id sample_store_from_legacy)
                 (_events sample_store_from_legacy).
Proof.
  apply (recomputed_counter_exceeds_ids
           sample_parse (Some 2) (Some 60)
           (JList [ sample_entry 7 20000000 "crew_started";
                    JDict [("id", JInt 9); ("type", JStr "crew_log");
                           ("data", JDict [])];
                    sample_entry 8 50000000 "crew_log" ])
           60000000 sample_store_from_legacy).
  - reflexivity.
  - vm_compute. reflexivity.
Defined.

Lemma ids_stay_in_step_witness :
  exists s',
    run sample_format sample_parse
        [ AddEvent "crew_started" (JDict []) 1000000 1000000 true;
          AddEvent "crew_log" (JDict []) 2000000 2000000 false;
          AddEvent "crew_log" (JDict []) 3000000 3000000 true;
          LoadPersisted 4000000;
          AddEvent "crew_stopped" (JDict []) 5000000 5000000 true;
          GetEvents 64000000 ]
        (sample_store (Some NoFile)) = inr s'
    /\ ids_in_step s'
    /\ forall i j e1 e2,
         (i < j)%nat ->
         _events s' !! i = Some e1 -> _events s' !! j = Some e2 ->
         id_lt e1 e2.
Proof.
  eexists. split; [vm_compute; reflexivity|].
  eapply (ids_stay_in_step sample_format sample_parse
            [ AddEvent "crew_started" (JDict []) 1000000 1000000 true;
              AddEvent "crew_log" (JDict []) 2000000 2000000 false;
              AddEvent "crew_log" (JDict []) 3000000 3000000 true;
              LoadPersisted 4000000;
              AddEvent "crew_stopped" (JDict []) 5000000 5000000 true;
              GetEvents 64000000 ]
            (sample_store (Some NoFile))).
  - split; cbn [sample_store _events _next_id storage];
      [constructor | constructor | constructor | lia | discriminate].
  - vm_compute. reflexivity.
Defined.

End ActivityStoreLaws.

(** ** crew_broadcast.py: the broadcaster over a run *)

Module CrewBroadcastLaws.
Import PyStr CrewBroadcast CrewBroadcastFacts.

Section Laws.
Variable hash : string * string -> Z.
Variable operation_id_of : instant -> string.
Variable extract_agent_name : string -> string.

Local Abbreviation process_line :=
  (process_line hash operation_id_of extract_agent_name).
Local Abbreviation track_line := (track_line operation_id_of).
Local Abbreviation handle := (handle hash operation_id_of extract_agent_name).
Local Abbreviation handle_all :=
  (handle_all hash operation_id_of extract_agent_name).

(** *** The deduplicator *)

Lemma is_duplicate_cases now e d :
  let k := hash (message e, agent e) in
  (is_duplicate hash now e d = ((false, 1), set_recent d k (now, 1))
   /\ forall last n, recent_logs d !! k = Some (last, n) ->
         total_seconds_lt (now - last) (time_window d) = false)
  \/ exists last n,
       recent_logs d !! k = Some (last, n)
       /\ total_seconds_lt (now - last) (time_window d) = true
       /\ is_duplicate hash now e d
          = ((true, n + 1), set_recent d k (now, n + 1)).
Proof.
  intros k. unfold is_duplicate. fold k.
  destruct (recent_logs d !! k) as [[last n]|] eqn:Hk.
  - destruct (total_seconds_lt (now - last) (time_window d)) eqn:Hlt.
    + right. exists last, n. auto.
    + left. split; [reflexivity|]. now intros l' n' [= <- <-].
  - left. split; [reflexivity | discriminate].
Qed.

Lemma counts_positive_set d k t n :
  counts_positive d -> 1 <= n -> counts_positive (set_recent d k (t, n)).
Proof.
  intros Hd Hn k' t' n'. unfold set_recent; cbn.
  destruct (decide (k = k')) as [<-|Hne].
  - rewrite lookup_insert_eq. intros [= <- <-]. exact Hn.
  - rewrite lookup_insert_ne by exact Hne. apply Hd.
Qed.

Lemma counts_positive_cleanup t d :
  counts_positive d -> counts_positive (dedup_cleanup t d).
Proof.
  intros Hd k t' n. unfold dedup_cleanup; cbn.
  intros [H _]%map_lookup_filter_Some. exact (Hd _ _ _ H).
Qed.

Lemma counts_positive_new w : counts_positive (new_LogDeduplicator w).
Proof. intros k t n. unfold new_LogDeduplicator; cbn.
       rewrite lookup_empty. discriminate. Qed.

Lemma is_duplicate_positive now e d :
  counts_positive d ->
  counts_positive (snd (is_duplicate hash now e d))
  /\ (fst (is_duplicate hash now e d) = (false, 1)
      \/ exists n, 1 <= n /\ fst (is_duplicate hash now e d) = (true, n + 1)).
Proof.
  intros Hd.
  destruct (is_duplicate_cases now e d) as [[-> _]|(last & n & Hk & _ & ->)];
    cbn [fst snd].
  - split; [apply counts_positive_set; [exact Hd | lia] | now left].
  - pose proof (Hd _ _ _ Hk) as Hn.
    split; [apply counts_positive_set; [exact Hd | lia] |].
    right. exists n. split; [exact Hn | reflexivity].
Qed.

Lemma publish_entries sk e c : In c (publish sk e) -> call_entry c = e.
Proof.
  unfold publish.
  destruct (has_activity_callback sk), (activity_callback_raises sk);
    cbn; intuition (subst; reflexivity).
Qed.

(** What one line does to the deduplicator, and what it publishes. *)
Lemma process_line_dedup clk sk crew_id text lvl tr dd :
  truthy (strip text) = true ->
  exists tr' e,
    message e = text /\ agent e = extract_agent_name text
    /\ operationId e
       = snd (fst (track_line clk (categorize_log text)
                              (extract_agent_name text) tr))
    /\ sequence e
       = snd (track_line clk (categorize_log text)
                         (extract_agent_name text) tr)
    /\ tr' = fst (fst (track_line clk (categorize_log text)
                                  (extract_agent_name text) tr))
    /\ process_line clk sk crew_id text lvl (tr, dd)
       = ((tr', snd (is_duplicate hash (t_dedup clk) e dd)),
          let '(dup, count) := fst (is_duplicate hash (t_dedup clk) e dd) in
          if dup && (1 <? count) then []
          else publish sk (with_dedup e dup count)).
Proof.
  intros Ht. unfold CrewBroadcast.process_line. rewrite Ht. cbn [negb].
  destruct (track_line clk (categorize_log text) (extract_agent_name text) tr)
    as [[tr' oid] seq] eqn:Htl.
  exists tr', (build_entry clk crew_id text lvl (categorize_log text)
                           (extract_agent_name text) oid seq).
  cbn [fst snd build_entry message agent operationId sequence].
  repeat (split; [reflexivity|]).
  destruct (is_duplicate hash (t_dedup clk) _ dd) as [[dup count] dd'].
  cbn [fst snd]. now destruct (dup && (1 <? count)).
Qed.

Lemma process_line_blank clk sk crew_id text lvl st :
  truthy (strip text) = false ->
  process_line clk sk crew_id text lvl st = (st, []).
Proof.
  intros Ht. unfold CrewBroadcast.process_line. destruct st as [tr dd].
  now rewrite Ht.
Qed.

Lemma process_line_positive clk sk crew_id text lvl st :
  counts_positive (snd st) ->
  counts_positive (snd (fst (process_line clk sk crew_id text lvl st)))
  /\ Forall (fun c => isDuplicate (call_entry c) = Some false
                      /\ duplicateCount (call_entry c) = Some 1)
            (snd (process_line clk sk crew_id text lvl st)).
Proof.
  intros Hd. destruct (truthy (strip text)) eqn:Ht.
  - destruct st as [tr dd].
    destruct (process_line_dedup clk sk crew_id text lvl tr dd Ht)
      as (tr' & e & _ & _ & _ & _ & _ & ->).
    cbn [fst snd] in *.
    destruct (is_duplicate_positive (t_dedup clk) e dd Hd)
      as [Hpos [Hf|(n & Hn & Hf)]]; (split; [exact Hpos|]); rewrite Hf.
    + cbn [andb]. apply Forall_forall. intros c Hc.
      apply list_elem_of_In, publish_entries in Hc. now rewrite Hc.
    + replace (1 <? n + 1) with true by (symmetry; apply Z.ltb_lt; lia).
      constructor.
  - rewrite process_line_blank by exact Ht. cbn [fst snd].
    split; [exact Hd | constructor].
Qed.

Lemma handle_all_cons a acts st :
  handle_all (a :: acts) st
  = (fst (handle_all acts (fst (handle a st))),
     (snd (handle a st) ++ snd (handle_all acts (fst (handle a st))))%list).
Proof.
  cbn [CrewBroadcast.handle_all].
  destruct (handle a st) as [st1 c1]. cbn [fst snd].
  now destruct (handle_all acts st1).
Qed.

(** X7. Along every run of lines and clean-ups of a broadcaster whose
    deduplicator holds counts of at least 1 (as a new one does), no
    entry handed to the activity callback or emitted is flagged: each
    one has [isDuplicate] false and [duplicateCount] 1.  The counts
    stay at least 1. *)
Theorem published_entries_never_flagged acts st :
  counts_positive (snd st) ->
  counts_positive (snd (fst (handle_all acts st)))
  /\ Forall (fun c => isDuplicate (call_entry c) = Some false
                      /\ duplicateCount (call_entry c) = Some 1)
            (snd (handle_all acts st)).
Proof.
  revert st. induction acts as [|a acts IH]; intros st Hd.
  - cbn. split; [exact Hd | constructor].
  - rewrite handle_all_cons. cbn [fst snd].
    assert (Hstep : counts_positive (snd (fst (handle a st)))
                    /\ Forall (fun c => isDuplicate (call_entry c) = Some false
                                        /\ duplicateCount (call_entry c) = Some 1)
                              (snd (handle a st))).
    { destruct a as [l|t_d t_o]; cbn [CrewBroadcast.handle].
      - apply process_line_positive, Hd.
      - cbn [fst snd broadcaster_cleanup].
        split; [apply counts_positive_cleanup, Hd | constructor]. }
    destruct Hstep as [Hd1 Hc1].
    destruct (IH _ Hd1) as [Hd2 Hc2].
    split; [exact Hd2 | apply Forall_app; split; assumption].
Qed.

(** *** A line repeated within the window *)

Lemma set_recent_other d k v k' :
  k <> k' -> recent_logs (set_recent d k v) !! k' = recent_logs d !! k'.
Proof. intros Hne. unfold set_recent; cbn. now rewrite lookup_insert_ne. Qed.

(** After a line has passed, its key is stored with the line's instant. *)
Lemma process_line_stores clk sk crew_id text lvl tr dd :
  truthy (strip text) = true ->
  counts_positive dd ->
  let dd' := snd (fst (process_line clk sk crew_id text lvl (tr, dd))) in
  time_window dd' = time_window dd
  /\ counts_positive dd'
  /\ exists n, 1 <= n
       /\ recent_logs dd' !! hash (text, extract_agent_name text)
          = Some (t_dedup clk, n).
Proof.
  intros Ht Hd.
  destruct (process_line_dedup clk sk crew_id text lvl tr dd Ht)
    as (tr' & e & Hm & Ha & _ & _ & _ & ->).
  cbn [fst snd]. rewrite <- Ha, <- Hm.
  destruct (is_duplicate_cases (t_dedup clk) e dd)
    as [[-> _]|(last & n & Hk & _ & ->)]; cbn [fst snd].
  - split; [reflexivity|]. split; [apply counts_positive_set; [exact Hd|lia]|].
    exists 1. split; [lia | apply set_recent_lookup].
  - pose proof (Hd _ _ _ Hk).
    split; [reflexivity|]. split; [apply counts_positive_set; [exact Hd|lia]|].
    exists (n + 1). split; [lia | apply set_recent_lookup].
Qed.

(** A line whose key was stored less than a window ago publishes
    nothing. *)
Lemma process_line_repeat clk sk crew_id text lvl tr dd last n :
  truthy (strip text) = true ->
  recent_logs dd !! hash (text, extract_agent_name text) = Some (last, n) ->
  1 <= n ->
  t_dedup clk - last < time_window dd * 1000000 ->
  snd (process_line clk sk crew_id text lvl (tr, dd)) = [].
Proof.
  intros Ht Hk Hn Hgap.
  destruct (process_line_dedup clk sk crew_id text lvl tr dd Ht)
    as (tr' & e & Hm & Ha & _ & _ & _ & ->).
  cbn [fst snd].
  rewrite (is_duplicate_seen hash dd e (t_dedup clk) last n).
  - cbn [fst andb].
    now replace (1 <? n + 1) with true by (symmetry; apply Z.ltb_lt; lia).
  - now rewrite Hm, Ha.
  - exact Hgap.
Qed.

Lemma repeated_lines_silent text rest :
  truthy (strip text) = true ->
  forall st prev,
    Forall (fun l => l_text l = text) rest ->
    counts_positive (snd st) ->
    (exists n, 1 <= n
       /\ recent_logs (snd st) !! hash (text, extract_agent_name text)
          = Some (prev, n)) ->
    gaps_below (time_window (snd st)) prev (map dedup_time rest) ->
    snd (handle_all (map Line rest) st) = [].
Proof.
  intros Ht. induction rest as [|l rest IH]; intros st prev Hall Hd Hk Hgaps.
  - reflexivity.
  - cbn [map]. rewrite handle_all_cons. cbn [snd CrewBroadcast.handle].
    apply Forall_cons in Hall as [Hl Hall]. rewrite Hl.
    destruct Hgaps as [Hgap Hgaps]. destruct Hk as (n & Hn & Hk).
    destruct st as [tr dd]. cbn [fst snd] in *.
    rewrite (process_line_repeat _ _ _ _ _ _ _ prev n Ht Hk Hn Hgap).
    cbn [app].
    destruct (process_line_stores (l_clock l) (l_sinks l) (l_crew l) text
                                  (l_level l) tr dd Ht Hd)
      as (Hw & Hd' & Hk').
    apply (IH _ (dedup_time l)); try assumption.
    now rewrite Hw.
Qed.

(** X8. The window slides, and the key ignores the crew and the stream:
    when lines with one text follow each other, each read less than a
    window after the one before, only the first can be published; the
    others are dropped however long the run lasts and whichever crew or
    stream they come from. *)
Theorem repeated_line_published_once first rest text st :
  Forall (fun l => l_text l = text) (first :: rest) ->
  counts_positive (snd st) ->
  exact_seconds (time_window (snd st)) ->
  gaps_below (time_window (snd st)) (dedup_time first) (map dedup_time rest) ->
  snd (handle_all (map Line (first :: rest)) st) = snd (handle (Line first) st).
Proof.
  intros Hall Hd _ Hgaps.
  apply Forall_cons in Hall as [Hf Hall].
  cbn [map]. rewrite handle_all_cons. cbn [snd].
  rewrite <- (app_nil_r (snd (handle (Line first) st))) at 2. f_equal.
  cbn [CrewBroadcast.handle]. rewrite Hf.
  destruct (truthy (strip text)) eqn:Ht.
  - destruct st as [tr dd]. cbn [fst snd] in *.
    destruct (process_line_stores (l_clock first) (l_sinks first)
                (l_crew first) text (l_level first) tr dd Ht Hd)
      as (Hw & Hd' & Hk').
    apply (repeated_lines_silent text rest Ht _ (dedup_time first));
      try assumption.
    now rewrite Hw.
  - rewrite process_line_blank by exact Ht. cbn [fst].
    clear Hgaps. induction rest as [|l rest IH]; [reflexivity|].
    apply Forall_cons in Hall as [Hl Hall].
    cbn [map]. rewrite handle_all_cons. cbn [snd CrewBroadcast.handle].
    rewrite Hl, process_line_blank by exact Ht. cbn [fst snd app].
    now apply IH.
Qed.

(** *** The tracker *)

Lemma tracker_ok_new : tracker_ok new_OperationTracker.
Proof. intros id. cbn. discriminate. Qed.

Lemma tracker_ok_start t1 t2 cat ag tr :
  tracker_ok (snd (start_operation operation_id_of t1 t2 cat ag tr)).
Proof.
  intros id. cbn. intros [= <-]. rewrite lookup_insert_eq.
  eexists. split; reflexivity.
Qed.

Lemma tracker_ok_update id st tr :
  tracker_ok tr -> tracker_ok (snd (update_operation id st tr)).
Proof.
  unfold update_operation.
  destruct (operations tr !! id) as [op|] eqn:Hop; [|auto].
  intros Hok id' Hc. cbn in Hc |- *.
  destruct (decide (id = id')) as [<-|Hne].
  - rewrite lookup_insert_eq. destruct (Hok _ Hc) as (op' & Hop' & He).
    rewrite Hop in Hop'. injection Hop' as <-.
    eexists. split; [reflexivity | exact He].
  - rewrite lookup_insert_ne by exact Hne. apply Hok, Hc.
Qed.

Lemma tracker_ok_end now id st tr :
  tracker_ok tr -> tracker_ok (end_operation now id st tr).
Proof.
  unfold end_operation.
  destruct (operations tr !! id) as [op|] eqn:Hop; [|auto].
  intros Hok id' Hc. cbn in Hc |- *.
  destruct (decide (current_operation_id tr = Some id)) as [Heq|Hne];
    [discriminate|].
  rewrite lookup_insert_ne by congruence. apply Hok, Hc.
Qed.

Lemma tracker_ok_cleanup now age tr :
  tracker_ok tr -> tracker_ok (cleanup_completed_operations now age tr).
Proof.
  intros Hok id Hc. cbn in Hc |- *.
  destruct (Hok _ Hc) as (op & Hop & He).
  exists op. split; [|exact He].
  apply map_lookup_filter_Some. split; [exact Hop|].
  cbn. unfold op_expired. now rewrite He.
Qed.

Lemma id_truthy_some o :
  id_truthy o = true -> exists id, o = Some id /\ truthy id = true.
Proof. destruct o as [id|]; [|discriminate]. intros H. now exists id. Qed.

(** The tracker update of one line, case by case. *)
Lemma track_line_cases clk cat agent tr :
  (is_thinking cat = true /\ current_operation_id tr = None
   /\ track_line clk cat agent tr
      = (let r := start_operation operation_id_of (t_start_id clk)
                                  (t_start clk) cat (Some agent) tr in
         (snd (update_operation (fst r) None (snd r)), Some (fst r),
          fst (update_operation (fst r) None (snd r)))))
  \/ (exists cur, current_operation_id tr = Some cur
        /\ (is_thinking cat = true
            \/ (is_result cat = false /\ truthy cur = true))
        /\ track_line clk cat agent tr
           = (snd (update_operation cur None tr), Some cur,
              fst (update_operation cur None tr)))
  \/ (exists cur, current_operation_id tr = Some cur
        /\ is_thinking cat = false /\ is_result cat = true
        /\ truthy cur = true
        /\ track_line clk cat agent tr
           = (end_operation (t_end clk) cur "complete"
                            (snd (update_operation cur None tr)),
              None, fst (update_operation cur None tr)))
  \/ (is_thinking cat = false
      /\ id_truthy (current_operation_id tr) = false
      /\ track_line clk cat agent tr = (tr, None, 0)).
Proof.
  unfold CrewBroadcast.track_line.
  destruct (is_thinking cat) eqn:Hth.
  - destruct (current_operation_id tr) as [cur|] eqn:Hc.
    + right; left. exists cur. split; [reflexivity|]. split; [now left|].
      now destruct (update_operation cur None tr).
    + left. split; [reflexivity|]. split; [reflexivity|].
      destruct (start_operation _ _ _ _ _ tr) as [oid tr1]. cbn [fst snd].
      now destruct (update_operation oid None tr1).
  - destruct (id_truthy (current_operation_id tr)) eqn:Hid.
    + destruct (id_truthy_some _ Hid) as (cur & Hc & Hcur).
      rewrite Hc. cbn [from_option id].
      destruct (is_result cat) eqn:Hres; cbn [andb].
      * right; right; left. exists cur.
        repeat (split; [reflexivity || assumption|]).
        now destruct (update_operation cur None tr).
      * right; left. exists cur. split; [reflexivity|].
        split; [right; now split|].
        now destruct (update_operation cur None tr).
    + rewrite andb_false_r. right; right; right. now repeat split.
Qed.

Lemma update_operation_lookup id tr op :
  operations tr !! id = Some op ->
  fst (update_operation id None tr) = op_sequence op + 1
  /\ current_operation_id (snd (update_operation id None tr))
     = current_operation_id tr
  /\ exists op', operations (snd (update_operation id None tr)) !! id
                 = Some op'
       /\ op_sequence op' = op_sequence op + 1
       /\ end_time op' = end_time op.
Proof.
  intros Hop. rewrite (update_operation_present id tr op Hop). cbn.
  split; [reflexivity|]. split; [reflexivity|].
  rewrite lookup_insert_eq. eexists. now split.
Qed.

Lemma track_line_ok clk cat agent tr :
  tracker_ok tr ->
  let r := track_line clk cat agent tr in
  tracker_ok (fst (fst r))
  /\ forall id, snd (fst r) = Some id ->
       current_operation_id (fst (fst r)) = Some id
       /\ exists op, operations (fst (fst r)) !! id = Some op
            /\ op_sequence op = snd r /\ end_time op = None.
Proof.
  intros Hok.
  destruct (track_line_cases clk cat agent tr)
    as [(_ & Hc & ->)|[(cur & Hc & _ & ->)|[(cur & Hc & _ & _ & _ & ->)
                                           |(_ & _ & ->)]]];
    cbn [fst snd].
  - split; [apply tracker_ok_update, tracker_ok_start|].
    intros id [= <-].
    set (r := start_operation _ _ _ _ _ tr).
    assert (Hop : operations (snd r) !! fst r
                  = Some {| op_type := cat; op_agent := Some agent;
                            start_time := t_start clk;
                            status := "in_progress"; op_sequence := 0;
                            end_time := None |})
      by (subst r; cbn; apply lookup_insert_eq).
    destruct (update_operation_lookup _ _ _ Hop)
      as (Hs & Hcur & op' & Hop' & Hseq & Hend).
    split; [rewrite Hcur; reflexivity|].
    exists op'. split; [exact Hop'|]. split; [now rewrite Hs, Hseq | exact Hend].
  - split; [apply tracker_ok_update, Hok|].
    intros id [= <-].
    destruct (Hok _ Hc) as (op & Hop & He).
    destruct (update_operation_lookup _ _ _ Hop)
      as (Hs & Hcur & op' & Hop' & Hseq & Hend).
    split; [now rewrite Hcur|].
    exists op'. split; [exact Hop'|].
    split; [now rewrite Hs, Hseq | now rewrite Hend].
  - split; [apply tracker_ok_end, tracker_ok_update, Hok | discriminate].
  - split; [exact Hok | discriminate].
Qed.

Lemma process_line_eq clk sk crew_id text lvl tr dd :
  truthy (strip text) = true ->
  let tl := track_line clk (categorize_log text) (extract_agent_name text) tr in
  let e := build_entry clk crew_id text lvl (categorize_log text)
                       (extract_agent_name text) (snd (fst tl)) (snd tl) in
  process_line clk sk crew_id text lvl (tr, dd)
  = ((fst (fst tl), snd (is_duplicate hash (t_dedup clk) e dd)),
     if fst (fst (is_duplicate hash (t_dedup clk) e dd))
        && (1 <? snd (fst (is_duplicate hash (t_dedup clk) e dd)))
     then []
     else publish sk (with_dedup e
                        (fst (fst (is_duplicate hash (t_dedup clk) e dd)))
                        (snd (fst (is_duplicate hash (t_dedup clk) e dd))))).
Proof.
  intros Ht tl e. subst e tl.
  unfold CrewBroadcast.process_line. rewrite Ht. cbn [negb].
  destruct (track_line clk (categorize_log text) (extract_agent_name text) tr)
    as [[tr' oid] seq].
  cbn [fst snd].
  destruct (is_duplicate hash (t_dedup clk) _ dd) as [[dup count] dd'].
  cbn [fst snd]. now destruct (dup && (1 <? count)).
Qed.

Lemma process_line_tracker clk sk crew_id text lvl st :
  fst (fst (process_line clk sk crew_id text lvl st))
  = if truthy (strip text)
    then fst (fst (track_line clk (categorize_log text)
                              (extract_agent_name text) (fst st)))
    else fst st.
Proof.
  destruct (truthy (strip text)) eqn:Ht.
  - destruct st as [tr dd]. now rewrite process_line_eq by exact Ht.
  - now rewrite process_line_blank by exact Ht.
Qed.

Lemma handle_tracker_ok a st :
  tracker_ok (fst st) -> tracker_ok (fst (fst (handle a st))).
Proof.
  intros Hok. destruct a as [l|t_d t_o]; cbn [CrewBroadcast.handle].
  - rewrite process_line_tracker.
    destruct (truthy (strip (l_text l))); [|exact Hok].
    apply track_line_ok, Hok.
  - cbn [fst snd broadcaster_cleanup]. apply tracker_ok_cleanup, Hok.
Qed.

Lemma handle_all_tracker_ok acts st :
  tracker_ok (fst st) -> tracker_ok (fst (fst (handle_all acts st))).
Proof.
  revert st. induction acts as [|a acts IH]; intros st Hok; [exact Hok|].
  rewrite handle_all_cons. cbn [fst]. apply IH, handle_tracker_ok, Hok.
Qed.

(** X9. The current operation is never lost: along every run of lines
    and clean-ups from a tracker whose current operation is registered
    and open (as in a new tracker, which has none), it stays so, and
    clean-ups never remove it.  An entry that the next line publishes
    with an [operationId] names the tracker's current operation, which
    is open and whose counter is the entry's [sequence]. *)
Theorem current_operation_stays_registered acts st :
  tracker_ok (fst st) ->
  tracker_ok (fst (fst (handle_all acts st)))
  /\ forall l c id,
       In c (snd (handle (Line l) (fst (handle_all acts st)))) ->
       operationId (call_entry c) = Some id ->
       let tr' := fst (fst (handle (Line l) (fst (handle_all acts st)))) in
       current_operation_id tr' = Some id
       /\ exists op, operations tr' !! id = Some op
            /\ op_sequence op = sequence (call_entry c)
            /\ end_time op = None.
Proof.
  intros Hok0.
  pose proof (handle_all_tracker_ok acts st Hok0) as Hok.
  split; [exact Hok|].
  destruct (fst (handle_all acts st)) as [tr dd]. cbn [fst] in Hok.
  intros l c id. cbn [CrewBroadcast.handle].
  destruct (truthy (strip (l_text l))) eqn:Ht.
  - rewrite process_line_eq by exact Ht. cbn [fst snd].
    set (tl := track_line (l_clock l) (categorize_log (l_text l))
                          (extract_agent_name (l_text l)) tr).
    destruct (track_line_ok (l_clock l) (categorize_log (l_text l))
                            (extract_agent_name (l_text l)) tr Hok)
      as [_ Hid]. fold tl in Hid.
    intros Hc Hoid.
    destruct (_ && _); [contradiction|].
    apply publish_entries in Hc. rewrite Hc in Hoid |- *.
    cbn [with_dedup operationId sequence build_entry] in Hoid |- *.
    exact (Hid id Hoid).
  - rewrite process_line_blank by exact Ht. cbn [snd]. contradiction.
Qed.

(** *** Clean-ups and what follows them *)

Lemma dedup_sim_start t d : dedup_sim t (dedup_cleanup t d) d.
Proof.
  split; [reflexivity|]. intros k. unfold dedup_cleanup; cbn [recent_logs].
  destruct (recent_logs d !! k) as [[last n]|] eqn:Hk.
  - destruct (total_seconds_gt (t - last) (time_window d)) eqn:Hgt.
    + right. split.
      * apply map_lookup_filter_None. right. intros v Hv.
        rewrite Hk in Hv. injection Hv as <-. cbn. now rewrite Hgt.
      * exists last, n. split; [reflexivity|].
        unfold total_seconds_gt in Hgt. now apply Z.ltb_lt in Hgt.
    + left. apply map_lookup_filter_Some. split; [exact Hk | exact Hgt].
  - left. apply map_lookup_filter_None. now left.
Qed.

Lemma dedup_sim_cleanup T t d1 d2 :
  dedup_sim T d1 d2 -> dedup_sim T (dedup_cleanup t d1) (dedup_cleanup t d2).
Proof.
  intros [Hw Hk]. split; [exact Hw|]. intros k.
  unfold dedup_cleanup; cbn [recent_logs time_window]. rewrite Hw.
  destruct (Hk k) as [Heq|(Hn & last & n & Hs & Hstale)].
  - left. apply option_eq. intros v.
    rewrite !map_lookup_filter_Some, Heq. reflexivity.
  - rewrite (map_lookup_filter_None_2 _ (recent_logs d1) k)
      by (left; exact Hn).
    destruct (total_seconds_gt (t - last) (time_window d2)) eqn:Hgt.
    + left. symmetry. apply map_lookup_filter_None. right. intros v Hv.
      pose proof (eq_trans (eq_sym Hs) Hv) as Hv'. injection Hv' as <-.
      cbn. now rewrite Hgt.
    + right. split; [reflexivity|]. exists last, n. split; [|exact Hstale].
      apply map_lookup_filter_Some. split; [exact Hs | exact Hgt].
Qed.

Lemma dedup_sim_is_duplicate T now e d1 d2 :
  dedup_sim T d1 d2 -> T <= now ->
  fst (is_duplicate hash now e d1) = fst (is_duplicate hash now e d2)
  /\ dedup_sim T (snd (is_duplicate hash now e d1))
                 (snd (is_duplicate hash now e d2)).
Proof.
  intros [Hw Hk] Hnow.
  assert (Hset : forall v,
             dedup_sim T (set_recent d1 (hash (message e, agent e)) v)
                         (set_recent d2 (hash (message e, agent e)) v)).
  { intros v. split; [exact Hw|]. intros k. cbn [set_recent recent_logs time_window].
    destruct (decide (hash (message e, agent e) = k)) as [<-|Hne].
    - left. now rewrite !lookup_insert_eq.
    - rewrite !lookup_insert_ne by exact Hne. apply Hk. }
  destruct (Hk (hash (message e, agent e)))
    as [Heq|(Hn & last & n & Hs & Hstale)];
    destruct (is_duplicate_cases now e d1)
      as [[-> H1]|(l1 & n1 & Hk1 & Hlt1 & ->)];
    destruct (is_duplicate_cases now e d2)
      as [[-> H2]|(l2 & n2 & Hk2 & Hlt2 & ->)];
    cbn [fst snd].
  - split; [reflexivity | apply Hset].
  - exfalso. pose proof (H1 _ _ (eq_trans Heq Hk2)) as Hf.
    rewrite Hw in Hf. congruence.
  - exfalso. pose proof (H2 _ _ (eq_trans (eq_sym Heq) Hk1)) as Hf.
    rewrite <- Hw in Hf. congruence.
  - pose proof (eq_trans (eq_sym Hk1) (eq_trans Heq Hk2)) as E.
    injection E as -> ->. split; [reflexivity | apply Hset].
  - split; [reflexivity | apply Hset].
  - exfalso. pose proof (eq_trans (eq_sym Hs) Hk2) as E.
    injection E as <- <-.
    unfold total_seconds_lt in Hlt2. apply Z.ltb_lt in Hlt2. lia.
  - exfalso. discriminate (eq_trans (eq_sym Hn) Hk1).
  - exfalso. discriminate (eq_trans (eq_sym Hn) Hk1).
Qed.

Lemma tracker_sim_refl tr : tracker_sim tr tr.
Proof. split; [reflexivity | now left]. Qed.

Lemma tracker_sim_start_cleanup t age tr :
  tracker_sim (cleanup_completed_operations t age tr) tr.
Proof.
  split; [reflexivity|]. intros id.
  unfold cleanup_completed_operations; cbn [operations].
  destruct (operations tr !! id) as [op|] eqn:Hop.
  - destruct (op_expired t age op) eqn:Hex.
    + right. split.
      * apply map_lookup_filter_None. right. intros v Hv.
        rewrite Hop in Hv. injection Hv as <-. cbn. now rewrite Hex.
      * unfold op_expired in Hex.
        destruct (end_time op) as [t'|] eqn:He; [|discriminate].
        now exists op, t'.
    + left. apply map_lookup_filter_Some. split; [exact Hop | exact Hex].
  - left. apply map_lookup_filter_None. now left.
Qed.

Lemma tracker_sim_cleanup t age tr1 tr2 :
  tracker_sim tr1 tr2 ->
  tracker_sim (cleanup_completed_operations t age tr1)
              (cleanup_completed_operations t age tr2).
Proof.
  intros [Hc Hk]. split; [exact Hc|]. intros id.
  unfold cleanup_completed_operations; cbn [operations].
  destruct (Hk id) as [Heq|(Hn & op & t' & Hs & He)].
  - left. apply option_eq. intros v.
    rewrite !map_lookup_filter_Some, Heq. reflexivity.
  - rewrite (map_lookup_filter_None_2 _ (operations tr1) id)
      by (left; exact Hn).
    destruct (op_expired t age op) eqn:Hex.
    + left. symmetry. apply map_lookup_filter_None. right. intros v Hv.
      rewrite Hs in Hv. injection Hv as <-. cbn. now rewrite Hex.
    + right. split; [reflexivity|]. exists op, t'. split; [|exact He].
      apply map_lookup_filter_Some. split; [exact Hs | exact Hex].
Qed.

Lemma tracker_sim_insert tr1 tr2 id op c :
  (forall id', operations tr1 !! id' = operations tr2 !! id'
       \/ (operations tr1 !! id' = None
           /\ exists op' t, operations tr2 !! id' = Some op'
                            /\ end_time op' = Some t)) ->
  tracker_sim {| operations := <[id := op]> (operations tr1);
                 current_operation_id := c |}
              {| operations := <[id := op]> (operations tr2);
                 current_operation_id := c |}.
Proof.
  intros Hk. split; [reflexivity|]. intros id'. cbn [operations].
  destruct (decide (id = id')) as [<-|Hne].
  - left. now rewrite !lookup_insert_eq.
  - rewrite !lookup_insert_ne by exact Hne. apply Hk.
Qed.

Lemma tracker_sim_start t1 t2 cat ag tr1 tr2 :
  tracker_sim tr1 tr2 ->
  tracker_sim (snd (start_operation operation_id_of t1 t2 cat ag tr1))
              (snd (start_operation operation_id_of t1 t2 cat ag tr2)).
Proof. intros [_ Hk]. cbn. now apply tracker_sim_insert. Qed.

Lemma tracker_sim_update id st tr1 tr2 :
  tracker_sim tr1 tr2 ->
  operations tr1 !! id = operations tr2 !! id ->
  fst (update_operation id st tr1) = fst (update_operation id st tr2)
  /\ tracker_sim (snd (update_operation id st tr1))
                 (snd (update_operation id st tr2))
  /\ operations (snd (update_operation id st tr1)) !! id
     = operations (snd (update_operation id st tr2)) !! id.
Proof.
  intros [Hc Hk] Heq. unfold update_operation. rewrite <- Heq.
  destruct (operations tr1 !! id) as [op|] eqn:Hop; cbn [fst snd].
  - split; [reflexivity|]. rewrite Hc.
    split; [now apply tracker_sim_insert|].
    cbn [operations]. now rewrite !lookup_insert_eq.
  - split; [reflexivity|]. split; [now split | congruence].
Qed.

Lemma tracker_sim_end now id st tr1 tr2 :
  tracker_sim tr1 tr2 ->
  operations tr1 !! id = operations tr2 !! id ->
  tracker_sim (end_operation now id st tr1) (end_operation now id st tr2).
Proof.
  intros [Hc Hk] Heq. unfold end_operation. rewrite <- Heq, <- Hc.
  destruct (operations tr1 !! id) as [op|]; [|now split].
  now apply tracker_sim_insert.
Qed.

Lemma track_line_sim clk cat agent tr1 tr2 :
  tracker_ok tr1 -> tracker_sim tr1 tr2 ->
  snd (fst (track_line clk cat agent tr1))
  = snd (fst (track_line clk cat agent tr2))
  /\ snd (track_line clk cat agent tr1) = snd (track_line clk cat agent tr2)
  /\ tracker_sim (fst (fst (track_line clk cat agent tr1)))
                 (fst (fst (track_line clk cat agent tr2))).
Proof.
  intros Hok Hsim.
  assert (Hcur : forall cur, current_operation_id tr1 = Some cur ->
                   operations tr1 !! cur = operations tr2 !! cur).
  { intros cur Hc. destruct (Hok _ Hc) as (op & Hop & _).
    destruct (proj2 Hsim cur) as [Heq|[Hn _]]; [exact Heq | congruence]. }
  pose proof (proj1 Hsim) as Hc12.
  destruct (track_line_cases clk cat agent tr1)
    as [(Hth & Hc & H1)|[(cur & Hc & Hcase & H1)
                        |[(cur & Hc & Hth & Hres & Htr & H1)
                         |(Hth & Hid & H1)]]];
    destruct (track_line_cases clk cat agent tr2)
    as [(Hth' & Hc' & H2)|[(cur' & Hc' & Hcase' & H2)
                          |[(cur' & Hc' & Hth' & Hres' & Htr' & H2)
                           |(Hth' & Hid' & H2)]]];
    rewrite H1, H2; cbn [fst snd];
    try solve
        [ exfalso; rewrite Hc12 in *;
          repeat match goal with
                 | Hc : current_operation_id ?tr = Some _,
                   Hid : id_truthy (current_operation_id ?tr) = false |- _ =>
                     rewrite Hc in Hid; cbn in Hid
                 | H : _ \/ _ |- _ => destruct H as [H|[? H]]
                 end;
          congruence ].
  - pose proof (tracker_sim_start (t_start_id clk) (t_start clk) cat
                                  (Some agent) tr1 tr2 Hsim) as Hs.
    destruct (tracker_sim_update (operation_id_of (t_start_id clk)) None
                _ _ Hs) as (Hf & Hs' & _).
    { cbn. now rewrite !lookup_insert_eq. }
    cbn [start_operation fst snd] in *.
    split; [reflexivity|]. split; [exact Hf | exact Hs'].
  - assert (cur' = cur) as -> by congruence.
    destruct (tracker_sim_update cur None _ _ Hsim (Hcur _ Hc))
      as (Hf & Hs' & _).
    split; [reflexivity|]. split; [exact Hf | exact Hs'].
  - assert (cur' = cur) as -> by congruence.
    destruct (tracker_sim_update cur None _ _ Hsim (Hcur _ Hc))
      as (Hf & Hs' & Hl).
    split; [reflexivity|]. split; [exact Hf|].
    now apply tracker_sim_end.
  - split; [reflexivity|]. split; [reflexivity | exact Hsim].
Qed.

Lemma handle_sim T a st1 st2 :
  tracker_ok (fst st1) -> tracker_sim (fst st1) (fst st2) ->
  dedup_sim T (snd st1) (snd st2) ->
  match a with Line l => T <= dedup_time l | Cleanup _ _ => True end ->
  snd (handle a st1) = snd (handle a st2)
  /\ tracker_sim (fst (fst (handle a st1))) (fst (fst (handle a st2)))
  /\ dedup_sim T (snd (fst (handle a st1))) (snd (fst (handle a st2))).
Proof.
  intros Hok Htr Hdd Ht. destruct st1 as [tr1 d1], st2 as [tr2 d2].
  cbn [fst snd] in *.
  destruct a as [l|t_d t_o]; cbn [CrewBroadcast.handle].
  - destruct (truthy (strip (l_text l))) eqn:Htext.
    + rewrite !process_line_eq by exact Htext. cbn [fst snd].
      destruct (track_line_sim (l_clock l) (categorize_log (l_text l))
                  (extract_agent_name (l_text l)) tr1 tr2 Hok Htr)
        as (Hoid & Hseq & Htr').
      rewrite <- Hoid, <- Hseq.
      set (e := build_entry _ _ _ _ _ _ _ _).
      destruct (dedup_sim_is_duplicate T (t_dedup (l_clock l)) e d1 d2
                  Hdd Ht) as [Hf Hdd'].
      rewrite Hf. split; [reflexivity|]. split; [exact Htr' | exact Hdd'].
    + rewrite !process_line_blank by exact Htext. cbn [fst snd].
      split; [reflexivity|]. split; [exact Htr | exact Hdd].
  - cbn [fst snd broadcaster_cleanup].
    split; [reflexivity|].
    split; [now apply tracker_sim_cleanup | now apply dedup_sim_cleanup].
Qed.

Lemma handle_all_sim T acts :
  forall st1 st2,
    tracker_ok (fst st1) -> tracker_sim (fst st1) (fst st2) ->
    dedup_sim T (snd st1) (snd st2) ->
    Forall (fun a => match a with
                     | Line l => T <= dedup_time l
                     | Cleanup _ _ => True
                     end) acts ->
    snd (handle_all acts st1) = snd (handle_all acts st2).
Proof.
  induction acts as [|a acts IH]; intros st1 st2 Hok Htr Hdd Hall;
    [reflexivity|].
  apply Forall_cons in Hall as [Ha Hall].
  rewrite !handle_all_cons. cbn [snd].
  destruct (handle_sim T a st1 st2 Hok Htr Hdd Ha) as (Hc & Htr' & Hdd').
  rewrite Hc. f_equal.
  apply IH; try assumption. apply handle_tracker_ok, Hok.
Qed.

(** X10. A clean-up is invisible to the log stream.  When the current
    operation is registered and open and no later line reads the clock
    before the clean-up did, the rest of the run publishes exactly the
    entries it would publish had the clean-up not run: clean-ups only
    free memory. *)
Theorem cleanup_unobservable acts st t_d t_o :
  tracker_ok (fst st) ->
  exact_seconds (time_window (snd st)) ->
  Forall (fun a => match a with
                   | Line l => t_d <= dedup_time l
                   | Cleanup _ _ => True
                   end) acts ->
  snd (handle_all (Cleanup t_d t_o :: acts) st) = snd (handle_all acts st).
Proof.
  intros Hok _ Hall. rewrite handle_all_cons.
  cbn [CrewBroadcast.handle fst snd app].
  apply (handle_all_sim t_d); [| | |exact Hall];
    cbn [broadcaster_cleanup fst snd].
  - apply tracker_ok_cleanup, Hok.
  - apply tracker_sim_start_cleanup.
  - apply dedup_sim_start.
Qed.

End Laws.

Lemma published_entries_never_flagged_witness :
  let r := handle_all sample_hash (fun _ => "op") (fun _ => "system")
             [ Line (sample_line 1000000 "crew-a" "info" "Searching the index");
               Line (sample_line 2000000 "crew-b" "error" "Searching the index");
               Cleanup 9000000 9000000;
               Line (sample_line 9500000 "crew-a" "info" "Task complete") ]
             (new_OperationTracker, new_LogDeduplicator 5) in
  counts_positive (snd (fst r))
  /\ Forall (fun c => isDuplicate (call_entry c) = Some false
                      /\ duplicateCount (call_entry c) = Some 1)
            (snd r).
Proof.
  apply (published_entries_never_flagged
           sample_hash (fun _ => "op") (fun _ => "system")
           [ Line (sample_line 1000000 "crew-a" "info" "Searching the index");
             Line (sample_line 2000000 "crew-b" "error" "Searching the index");
             Cleanup 9000000 9000000;
             Line (sample_line 9500000 "crew-a" "info" "Task complete") ]
           (new_OperationTracker, new_LogDeduplicator 5)).
  intros k t n. cbn. rewrite lookup_empty. discriminate.
Defined.

Lemma repeated_line_published_once_witness :
  let st := (new_OperationTracker, new_LogDeduplicator 5) in
  let first := sample_line 1000000 "crew-a" "info" "still looking" in
  let rest := [ sample_line 4000000 "crew-b" "error" "still looking";
                sample_line 8000000 "crew-a" "info" "still looking" ] in
  snd (handle_all sample_hash (fun _ => "op") (fun _ => "system")
                  (map Line (first :: rest)) st)
  = snd (handle sample_hash (fun _ => "op") (fun _ => "system")
                (Line first) st).
Proof.
  apply (repeated_line_published_once
           sample_hash (fun _ => "op") (fun _ => "system")
           (sample_line 1000000 "crew-a" "info" "still looking")
           [ sample_line 4000000 "crew-b" "error" "still looking";
             sample_line 8000000 "crew-a" "info" "still looking" ]
           "still looking"
           (new_OperationTracker, new_LogDeduplicator 5)).
  - repeat constructor.
  - intros k t n. cbn. rewrite lookup_empty. discriminate.
  - unfold exact_seconds. cbn. lia.
  - cbn. lia.
Defined.

Lemma current_operation_stays_registered_witness :
  let st := (new_OperationTracker, new_LogDeduplicator 5) in
  let acts := [ Line (sample_line 1000000 "crew-a" "info" "Searching the index");
                Cleanup 9000000000 9000000000 ] in
  let st' := fst (handle_all sample_hash (fun _ => "op") (fun _ => "system")
                             acts st) in
  tracker_ok (fst st')
  /\ forall l c id,
       In c (snd (handle sample_hash (fun _ => "op") (fun _ => "system")
                         (Line l) st')) ->
       operationId (call_entry c) = Some id ->
       let tr' := fst (fst (handle sample_hash (fun _ => "op")
                                   (fun _ => "system") (Line l) st')) in
       current_operation_id tr' = Some id
       /\ exists op, operations tr' !! id = Some op
            /\ op_sequence op = sequence (call_entry c)
            /\ end_time op = None.
Proof.
  apply (current_operation_stays_registered
           sample_hash (fun _ => "op") (fun _ => "system")
           [ Line (sample_line 1000000 "crew-a" "info" "Searching the index");
             Cleanup 9000000000 9000000000 ]
           (new_OperationTracker, new_LogDeduplicator 5)).
  intros id. cbn. discriminate.
Defined.

Lemma cleanup_unobservable_witness :
  let st := fst (handle_all sample_hash (fun _ => "op") (fun _ => "system")
                   [ Line (sample_line 1000000 "crew-a" "info" "Searching") ]
                   (new_OperationTracker, new_LogDeduplicator 5)) in
  let acts := [ Line (sample_line 9000000 "crew-a" "info" "Searching");
                Line (sample_line 9500000 "crew-a" "info" "Task complete") ] in
  snd (handle_all sample_hash (fun _ => "op") (fun _ => "system")
                  (Cleanup 8000000 8000000 :: acts) st)
  = snd (handle_all sample_hash (fun _ => "op") (fun _ => "system") acts st).
Proof.
  apply (cleanup_unobservable
           sample_hash (fun _ => "op") (fun _ => "system")
           [ Line (sample_line 9000000 "crew-a" "info" "Searching");
             Line (sample_line 9500000 "crew-a" "info" "Task complete") ]
           (fst (handle_all sample_hash (fun _ => "op") (fun _ => "system")
                   [ Line (sample_line 1000000 "crew-a" "info" "Searching") ]
                   (new_OperationTracker, new_LogDeduplicator 5)))
           8000000 8000000).
  - intros id. vm_compute. intros [= <-]. eexists. split; reflexivity.
  - vm_compute. discriminate.
  - repeat constructor; cbn; lia.
Defined.

End CrewBroadcastLaws.

(** ** crew_storage.py: identifiers and directories *)

Module CrewStorageLaws.
Import PyStr PyExc CrewStorage CrewRuntimeFacts.

Lemma normalize_raises_ValueError raw_id e :
  normalize_crew_identifier raw_id = inl e -> exists msg, e = ValueError msg.
Proof.
  unfold normalize_crew_identifier.
  destruct (negb (truthy (strip raw_id))); [intros [= <-]; eauto|].
  destruct (replace_char _ _ _) as [|c0 rest]; [intros [= <-]; eauto|].
  destruct (negb (isalpha c0 || is_underscore c0)); [intros [= <-]; eauto|].
  destruct (negb (MODULE_IMPORT_NAME_fullmatch (String c0 rest)));
    [intros [= <-]; eauto | discriminate].
Qed.

Lemma normalize_result raw_id id :
  normalize_crew_identifier raw_id = inr id ->
  id = replace_char "." "_" (replace_char "-" "_" (strip raw_id))
  /\ MODULE_IMPORT_NAME_fullmatch id = true.
Proof.
  unfold normalize_crew_identifier.
  destruct (negb (truthy (strip raw_id))); [discriminate|].
  destruct (replace_char _ _ _) as [|c0 rest] eqn:E; [discriminate|].
  destruct (negb (isalpha c0 || is_underscore c0)); [discriminate|].
  destruct (MODULE_IMPORT_NAME_fullmatch (String c0 rest)) eqn:Hm;
    cbn [negb]; [|discriminate].
  intros [= <-]. now split.
Qed.

Lemma fullmatch_name_chars s :
  MODULE_IMPORT_NAME_fullmatch s = true -> all_chars name_char s = true.
Proof.
  destruct s as [|c s]; [discriminate|]. cbn.
  intros [Hc Hs]%andb_true_iff.
  destruct (name_start_facts c Hc) as [-> _]. exact Hs.
Qed.

(** X11. An identifier that [normalize_crew_identifier] returns is the
    stripped input with hyphens and periods turned into underscores;
    it is a module name: it starts with an ASCII letter or an
    underscore and holds ASCII letters, digits and underscores only, so
    no path separator, period or white space.  Normalising it again
    returns it unchanged. *)
Theorem normalized_id_is_module_name raw_id id :
  normalize_crew_identifier raw_id = inr id ->
  id = replace_char "." "_" (replace_char "-" "_" (strip raw_id))
  /\ MODULE_IMPORT_NAME_fullmatch id = true
  /\ all_chars name_char id = true
  /\ str_in "/" id = false /\ str_in "." id = false /\ str_in "\" id = false
  /\ strip id = id
  /\ normalize_crew_identifier id = inr id.
Proof.
  intros Hn. destruct (normalize_result raw_id id Hn) as [Hid Hm].
  pose proof (fullmatch_name_chars id Hm) as Hall.
  split; [exact Hid|]. split; [exact Hm|]. split; [exact Hall|].
  assert (Hno : forall c : ascii, name_char c = false ->
                  str_in (String c EmptyString) id = false).
  { intros c Hc. clear Hn Hid Hm. induction id as [|a s IH]; [reflexivity|].
    cbn in Hall. apply andb_true_iff in Hall as [Ha Hs].
    cbn [str_in startswith]. rewrite (IH Hs), orb_false_r, andb_true_r.
    destruct (Ascii.eqb_spec c a) as [->|]; [congruence | reflexivity]. }
  split; [apply Hno; reflexivity|].
  split; [apply Hno; reflexivity|].
  split; [apply Hno; reflexivity|].
  assert (Hsp : all_chars (fun c => negb (is_space c)) id = true).
  { apply (all_chars_impl name_char); [|exact Hall].
    intros x Hx. now destruct (name_char_facts x Hx) as (-> & _). }
  split; [|now apply normalize_name].
  unfold strip. now rewrite (lstrip_fixed _ Hsp), (rstrip_fixed _ Hsp).
Qed.

(** *** Directory discovery *)

Lemma first_entry_for_sound id entries dir :
  first_entry_for id entries = inr (Some dir) ->
  normalize_crew_identifier dir = inr id
  /\ exists before after,
       entries = (before ++ {| entry_name := dir; entry_is_dir := true |}
                            :: after)%list
       /\ forall entry, entry ∈ before -> entry_is_dir entry = true ->
                        normalize_crew_identifier (entry_name entry)
                        <> inr id.
Proof.
  induction entries as [|[name is_dir] rest IH]; [discriminate|].
  cbn [first_entry_for entry_is_dir entry_name].
  assert (Hskip : (is_dir = true ->
                   normalize_crew_identifier name <> inr id) ->
                  first_entry_for id rest = inr (Some dir) ->
                  normalize_crew_identifier dir = inr id
                  /\ exists before after,
                       {| entry_name := name; entry_is_dir := is_dir |} :: rest
                       = (before ++ {| entry_name := dir;
                                       entry_is_dir := true |} :: after)%list
                       /\ forall entry, entry ∈ before ->
                            entry_is_dir entry = true ->
                            normalize_crew_identifier (entry_name entry)
                            <> inr id).
  { intros Hother H. destruct (IH H) as (H1 & before & after & -> & Hno).
    split; [exact H1|].
    exists ({| entry_name := name; entry_is_dir := is_dir |} :: before), after.
    split; [reflexivity|].
    intros entry [->|Hin]%elem_of_cons; [exact Hother | now apply Hno]. }
  destruct is_dir; cbn [negb].
  - destruct (normalize_crew_identifier name) as [e|id'] eqn:Hn.
    + destruct e; try discriminate. apply Hskip. discriminate.
    + destruct (String.eqb_spec id' id) as [->|Hne].
      * intros [= <-]. split; [exact Hn|].
        exists [], rest. split; [reflexivity|].
        intros entry Hin. now apply elem_of_nil in Hin.
      * apply Hskip. congruence.
  - apply Hskip. discriminate.
Qed.

Lemma first_entry_for_complete id entries entry :
  entry ∈ entries -> entry_is_dir entry = true ->
  normalize_crew_identifier (entry_name entry) = inr id ->
  exists dir, first_entry_for id entries = inr (Some dir).
Proof.
  intros Hin Hdir Hn.
  induction entries as [|[name is_dir] rest IH]; [now apply elem_of_nil in Hin|].
  cbn [first_entry_for entry_is_dir entry_name].
  apply elem_of_cons in Hin as [->|Hin].
  - cbn in Hdir, Hn. rewrite Hdir, Hn. cbn [negb].
    rewrite String.eqb_refl. eauto.
  - destruct is_dir; cbn [negb]; [|now apply IH].
    destruct (normalize_crew_identifier name) as [e|id'] eqn:Hn'.
    + destruct (normalize_raises_ValueError _ _ Hn') as [msg ->]. now apply IH.
    + destruct (String.eqb id' id); [eauto | now apply IH].
Qed.

(** X12. [resolve_crew_dir] finds a crew by the normal form of its
    name.  What it returns is the normalised identifier with a
    directory whose own name normalises to it: the child of that very
    name if it is a directory, or else the first such directory of the
    listing, no directory listed before it having a name that
    normalises to the identifier.  Two spellings with the same normal
    form resolve to the same directory, and when the listing holds a
    directory whose name normalises to the identifier, the call
    succeeds. *)
Theorem resolve_crew_dir_by_normal_form fs :
  (forall crew_id id dir,
      resolve_crew_dir fs crew_id = inr (id, dir) ->
      normalize_crew_identifier crew_id = inr id
      /\ normalize_crew_identifier dir = inr id
      /\ ((child_is_dir fs id = true /\ dir = id)
          \/ (child_is_dir fs id = false
              /\ exists before after,
                   iterdir fs
                   = Entries (before ++ {| entry_name := dir;
                                           entry_is_dir := true |} :: after)
                   /\ forall entry,
                        entry ∈ before -> entry_is_dir entry = true ->
                        normalize_crew_identifier (entry_name entry)
                        <> inr id)))
  /\ (forall crew_id crew_id' r,
         resolve_crew_dir fs crew_id = inr r ->
         normalize_crew_identifier crew_id'
         = normalize_crew_identifier crew_id ->
         resolve_crew_dir fs crew_id' = inr r)
  /\ (forall crew_id id entries entry,
         normalize_crew_identifier crew_id = inr id ->
         iterdir fs = Entries entries ->
         entry ∈ entries -> entry_is_dir entry = true ->
         normalize_crew_identifier (entry_name entry) = inr id ->
         exists dir, resolve_crew_dir fs crew_id = inr (id, dir)).
Proof.
  split; [|split].
  - intros crew_id id dir. unfold resolve_crew_dir.
    destruct (normalize_crew_identifier crew_id) as [e|id'] eqn:Hn;
      [discriminate|]. cbn [bind].
    unfold find_existing_crew_dir.
    destruct (child_is_dir fs id') eqn:Hc; cbn [bind].
    + intros [= <- <-]. split; [reflexivity|].
      split; [exact (normalize_idempotent _ _ Hn) | left; now split].
    + destruct (iterdir fs) as [entries| |e]; cbn [bind]; try discriminate.
      destruct (first_entry_for id' entries) as [e|[d|]] eqn:Hf;
        cbn [bind]; try discriminate.
      intros [= <- <-]. split; [reflexivity|].
      destruct (first_entry_for_sound _ _ _ Hf)
        as (H1 & before & after & -> & Hno).
      split; [exact H1|]. right. split; [exact Hc|].
      now exists before, after.
  - intros crew_id crew_id' r. unfold resolve_crew_dir.
    intros Hr Hn. rewrite Hn.
    destruct (normalize_crew_identifier crew_id) as [e|id]; [discriminate|].
    cbn [bind] in Hr |- *.
    destruct (find_existing_crew_dir fs id) as [e|[d|]]; cbn [bind] in Hr |- *;
      try discriminate. exact Hr.
  - intros crew_id id entries entry Hn Hl Hin Hdir Hne.
    unfold resolve_crew_dir. rewrite Hn. cbn [bind].
    unfold find_existing_crew_dir.
    destruct (child_is_dir fs id); cbn [bind]; [eauto|].
    rewrite Hl.
    destruct (first_entry_for_complete id entries entry Hin Hdir Hne)
      as [dir ->].
    cbn [bind]. eauto.
Qed.

Lemma normalized_id_is_module_name_witness :
  let id := "my_crew_v2" in
  id = replace_char "." "_" (replace_char "-" "_" (strip "  my-crew.v2 "))
  /\ MODULE_IMPORT_NAME_fullmatch id = true
  /\ all_chars name_char id = true
  /\ str_in "/" id = false /\ str_in "." id = false /\ str_in "\" id = false
  /\ strip id = id
  /\ normalize_crew_identifier id = inr id.
Proof.
  apply (normalized_id_is_module_name "  my-crew.v2 " "my_crew_v2").
  vm_compute. reflexivity.
Defined.

Lemma resolve_crew_dir_by_normal_form_witness :
  resolve_crew_dir sample_folder " my_crew " = inr ("my_crew", "my-crew")
  /\ exists before after,
       iterdir sample_folder
       = Entries (before ++ {| entry_name := "my-crew";
                               entry_is_dir := true |} :: after)
       /\ forall entry,
            entry ∈ before -> entry_is_dir entry = true ->
            normalize_crew_identifier (entry_name entry) <> inr "my_crew".
Proof.
  destruct (resolve_crew_dir_by_normal_form sample_folder)
    as (Hfirst & Hsame & _).
  assert (H : resolve_crew_dir sample_folder " my_crew "
              = inr ("my_crew", "my-crew")).
  { apply (Hsame "my.crew" " my_crew " ("my_crew", "my-crew")).
    - vm_compute. reflexivity.
    - vm_compute. reflexivity. }
  split; [exact H|].
  destruct (Hfirst " my_crew " "my_crew" "my-crew" H)
    as (_ & _ & [[Hchild _]|[_ Hlist]]); [discriminate Hchild | exact Hlist].
Defined.

End CrewStorageLaws.

(** ** crew_storage.py: agent and task order *)

Module CrewMetadataLaws.
Import PyStr PyExc Json CrewMetadata.
Local Open Scope list_scope.

Lemma name_in_spec name names : name_in name names = true <-> name ∈ names.
Proof. unfold name_in. apply bool_decide_eq_true. Qed.

Lemma name_in_false name names : name_in name names = false <-> name ∉ names.
Proof. unfold name_in. apply bool_decide_eq_false. Qed.

Lemma append_new_elem names name x :
  x ∈ append_new names name <-> x ∈ names \/ x = name.
Proof.
  unfold append_new. destruct (name_in name names) eqn:Hin.
  - apply name_in_spec in Hin. split; [now left|]. now intros [?| ->].
  - rewrite elem_of_app, list_elem_of_singleton. reflexivity.
Qed.

Lemma append_new_NoDup names name :
  NoDup names -> NoDup (append_new names name).
Proof.
  intros Hnd. unfold append_new. destruct (name_in name names) eqn:Hin;
    [exact Hnd|].
  apply name_in_false in Hin. apply NoDup_app. split; [exact Hnd|].
  split; [|apply NoDup_singleton].
  intros x Hx ->%list_elem_of_singleton. contradiction.
Qed.

Lemma append_new_prefix names name : names `prefix_of` append_new names name.
Proof.
  unfold append_new. destruct (name_in name names); [reflexivity|].
  now apply prefix_app_r.
Qed.

Lemma fold_append_new available : forall names,
  (forall x, x ∈ fold_left append_new available names
             <-> x ∈ names \/ x ∈ available)
  /\ (NoDup names -> NoDup (fold_left append_new available names))
  /\ names `prefix_of` fold_left append_new available names.
Proof.
  induction available as [|a rest IH]; intros names; cbn [fold_left].
  - split; [|split; [auto | reflexivity]].
    intros x. split; [now left | intros [?|[]%elem_of_nil]; assumption].
  - destruct (IH (append_new names a)) as (He & Hn & Hp).
    split; [|split].
    + intros x. rewrite He, append_new_elem, elem_of_cons. tauto.
    + intros Hnd. now apply Hn, append_new_NoDup.
    + etransitivity; [apply append_new_prefix | exact Hp].
Qed.

Lemma fold_append_new_fixed available names :
  (forall x, x ∈ available -> x ∈ names) ->
  fold_left append_new available names = names.
Proof.
  induction available as [|a rest IH]; intros Hsub; [reflexivity|].
  cbn [fold_left]. unfold append_new at 2.
  replace (name_in a names) with true
    by (symmetry; apply name_in_spec, Hsub; now left).
  apply IH. intros x Hx. apply Hsub. now right.
Qed.

Lemma take_candidate_keeps available normalized candidate :
  NoDup normalized -> (forall x, x ∈ normalized -> x ∈ available) ->
  NoDup (take_candidate available normalized candidate)
  /\ forall x, x ∈ take_candidate available normalized candidate ->
               x ∈ available.
Proof.
  intros Hnd Hsub. unfold take_candidate.
  destruct candidate as [| | |s| |]; try (split; assumption).
  destruct (negb (truthy (strip s)) || negb (name_in (strip s) available))
    eqn:Hskip; [split; assumption|].
  apply orb_false_iff in Hskip as [_ Hin].
  apply negb_false_iff, name_in_spec in Hin.
  split; [now apply append_new_NoDup|].
  intros x [Hx| ->]%append_new_elem; [now apply Hsub | exact Hin].
Qed.

Lemma fold_take_candidate available candidates : forall normalized,
  NoDup normalized -> (forall x, x ∈ normalized -> x ∈ available) ->
  NoDup (fold_left (take_candidate available) candidates normalized)
  /\ forall x, x ∈ fold_left (take_candidate available) candidates normalized
               -> x ∈ available.
Proof.
  induction candidates as [|c rest IH]; intros normalized Hnd Hsub;
    cbn [fold_left]; [now split|].
  destruct (take_candidate_keeps available normalized c Hnd Hsub) as [H1 H2].
  now apply IH.
Qed.

Lemma normalize_order_facts raw_order available :
  NoDup (_normalize_order raw_order available)
  /\ (forall x, x ∈ _normalize_order raw_order available <-> x ∈ available).
Proof.
  unfold _normalize_order.
  destruct (fold_take_candidate available (candidate_iterable raw_order) [])
    as [Hnd Hsub]; [constructor | now intros x ?%elem_of_nil |].
  destruct (fold_append_new available
              (fold_left (take_candidate available)
                         (candidate_iterable raw_order) []))
    as (He & Hn & _).
  split; [now apply Hn|].
  intros x. rewrite He. split; [intros [?|?]; auto | now right].
Qed.

Lemma fold_take_candidate_listed available order : forall normalized,
  NoDup (normalized ++ order) ->
  Forall (fun s => strip s = s /\ s <> EmptyString /\ s ∈ available) order ->
  fold_left (take_candidate available) (JStr <$> order) normalized
  = normalized ++ order.
Proof.
  induction order as [|s rest IH]; intros normalized Hnd Hall;
    cbn [fmap list_fmap fold_left]; [now rewrite app_nil_r|].
  apply Forall_cons in Hall as [(Hs & Hne & Hin) Hall].
  unfold take_candidate at 2. rewrite Hs.
  replace (truthy s) with true
    by (destruct s; [exfalso; now apply Hne | reflexivity]).
  replace (name_in s available) with true
    by (symmetry; now apply name_in_spec).
  cbn [negb orb]. unfold append_new.
  replace (name_in s normalized) with false.
  - rewrite IH; [now rewrite <- app_assoc | now rewrite <- app_assoc | exact Hall].
  - symmetry. apply name_in_false. intros Hs'.
    apply NoDup_app in Hnd as (_ & Hdis & _).
    apply (Hdis s Hs'). now left.
Qed.

(** X13. [_normalize_order] always returns an enumeration of
    [available] without repetition, whatever the stored order holds: a
    permutation of [available] when that has no repetition.  An order
    that lists every available name once, stripped and non-empty, is
    returned as it is; [normalize_metadata] builds both of its orders
    this way. *)
Theorem normalize_order_enumerates :
  (forall raw_order available,
      NoDup (_normalize_order raw_order available)
      /\ (forall x, x ∈ _normalize_order raw_order available <-> x ∈ available)
      /\ (NoDup available -> _normalize_order raw_order available ≡ₚ available))
  /\ (forall order available,
         NoDup order -> (forall x, x ∈ order <-> x ∈ available) ->
         Forall (fun s => strip s = s /\ s <> EmptyString) order ->
         _normalize_order (JList (JStr <$> order)) available = order)
  /\ (forall crew_id metadata_source agent_names task_names,
         let m := normalize_metadata crew_id metadata_source
                                     agent_names task_names in
         NoDup (agent_order m) /\ NoDup (task_order m)
         /\ (forall x, x ∈ agent_order m <-> x ∈ agent_names)
         /\ (forall x, x ∈ task_order m <-> x ∈ task_names)).
Proof.
  split; [|split].
  - intros raw_order available.
    destruct (normalize_order_facts raw_order available) as [Hnd He].
    split; [exact Hnd|]. split; [exact He|].
    intros Hav. now apply NoDup_Permutation.
  - intros order available Hnd He Hall. unfold _normalize_order.
    cbn [candidate_iterable].
    rewrite (fold_take_candidate_listed available order []).
    + cbn [app]. apply fold_append_new_fixed. intros x. apply He.
    + exact Hnd.
    + apply Forall_forall. intros s Hs.
      destruct (proj1 (Forall_forall _ _) Hall s Hs) as [H1 H2].
      repeat split; try assumption. now apply He.
  - intros crew_id metadata_source agent_names task_names m. subst m.
    cbn [normalize_metadata agent_order task_order].
    destruct (normalize_order_facts
                match get "agent_order" metadata_source with
                | JNull => get "agentOrder" metadata_source
                | v => v
                end agent_names) as [H1 H2].
    destruct (normalize_order_facts
                match get "task_order" metadata_source with
                | JNull => get "taskOrder" metadata_source
                | v => v
                end task_names) as [H3 H4].
    auto.
Qed.

(** X14. [_ensure_order] returns names of [available] only and all of
    them; it keeps the repetitions of [preferred], so the result is
    free of repetition when [preferred] is.  On a list that already
    holds exactly the available names it changes nothing: on what
    [_normalize_order] returned, and on [available] itself. *)
Theorem ensure_order_completes :
  (forall preferred available x,
      x ∈ _ensure_order preferred available <-> x ∈ available)
  /\ (forall preferred available,
         NoDup preferred -> NoDup (_ensure_order preferred available))
  /\ (forall preferred available,
         (forall x, x ∈ preferred <-> x ∈ available) ->
         _ensure_order preferred available = preferred)
  /\ (forall raw_order available,
         _ensure_order (_normalize_order raw_order available) available
         = _normalize_order raw_order available)
  /\ (forall available, _ensure_order available available = available).
Proof.
  assert (Hfix : forall preferred available,
             (forall x, x ∈ preferred <-> x ∈ available) ->
             _ensure_order preferred available = preferred).
  { intros preferred available He. unfold _ensure_order.
    assert (Hf : filter (fun name => name_in name available = true) preferred
                 = preferred).
    { clear -He. assert (Hsub : forall x, x ∈ preferred -> x ∈ available)
        by (intros x; apply He).
      clear He. induction preferred as [|p rest IH]; [reflexivity|].
      rewrite filter_cons.
      destruct (decide (name_in p available = true)) as [_|Hn].
      - f_equal. apply IH. intros x Hx. apply Hsub. now right.
      - exfalso. apply Hn, name_in_spec, Hsub. now left. }
    rewrite Hf. apply fold_append_new_fixed. intros x. apply He. }
  split; [|split; [|split; [exact Hfix|split]]].
  - intros preferred available x. unfold _ensure_order.
    destruct (fold_append_new available
                (filter (fun name => name_in name available = true) preferred))
      as (He & _ & _).
    rewrite He, list_elem_of_filter, name_in_spec. tauto.
  - intros preferred available Hnd. unfold _ensure_order.
    destruct (fold_append_new available
                (filter (fun name => name_in name available = true) preferred))
      as (_ & Hn & _).
    apply Hn. now apply NoDup_filter.
  - intros raw_order available. apply Hfix.
    apply normalize_order_facts.
  - intros available. now apply Hfix.
Qed.

(** *** Validation *)

Lemma rstrip_head c rest :
  is_space c = false -> rstrip (String c rest) = String c (rstrip rest).
Proof.
  intros Hc. cbn [rstrip]. destruct (rstrip rest); [now rewrite Hc | reflexivity].
Qed.

Lemma rstrip_rstrip s : rstrip (rstrip s) = rstrip s.
Proof.
  induction s as [|c rest IH]; [reflexivity|].
  cbn [rstrip]. destruct (rstrip rest) as [|a kept] eqn:Hr.
  - destruct (is_space c) eqn:Hc; [reflexivity|].
    cbn [rstrip]. now rewrite Hc.
  - cbn [rstrip]. cbn [rstrip] in IH. now rewrite IH.
Qed.

Lemma lstrip_head s :
  lstrip s = EmptyString
  \/ exists c rest, lstrip s = String c rest /\ is_space c = false.
Proof.
  induction s as [|c rest IH]; [now left|].
  cbn [lstrip]. destruct (is_space c) eqn:Hc; [exact IH|].
  right. now exists c, rest.
Qed.

Lemma strip_strip s : strip (strip s) = strip s.
Proof.
  unfold strip. destruct (lstrip_head s) as [->|(c & rest & -> & Hc)];
    [reflexivity|].
  rewrite (rstrip_head c rest Hc). cbn [lstrip]. rewrite Hc.
  rewrite <- (rstrip_head c rest Hc). apply rstrip_rstrip.
Qed.

Lemma dict_get_update key v items :
  dict_get key (dict_update key v items) = Some v.
Proof.
  induction items as [|[k x] rest IH]; cbn [dict_update dict_get].
  - now rewrite String.eqb_refl.
  - destruct (String.eqb k key) eqn:E; cbn [dict_get]; now rewrite E.
Qed.

Section ValidationLaws.
Variable py_str : json -> string.
Variable plural singular capital : string.
Variable required_fields : list string.

Local Abbreviation normalize_items :=
  (normalize_items py_str singular capital required_fields).
Local Abbreviation list_items := (list_items singular).

Lemma list_items_spec entries items :
  list_items entries = inr items -> map snd items = entries.
Proof.
  revert items. induction entries as [|entry rest IH]; intros items;
    cbn [CrewMetadata.list_items].
  - now intros [= <-].
  - destruct entry as [| | | | |fields]; try discriminate.
    destruct (list_items rest) as [e|items']; cbn [bind]; [discriminate|].
    intros [= <-]. cbn [map snd]. now rewrite (IH items').
Qed.

Lemma normalize_items_spec items : forall normalized result,
  normalize_items items normalized = inr result ->
  NoDup (map fst normalized) ->
  exists added,
    result = normalized ++ added
    /\ NoDup (map fst result)
    /\ Forall2 (fun definition entry =>
                  exists original,
                    definition = JDict original
                    /\ snd entry
                       = dict_update "name" (JStr (fst entry)) original)
               (map snd items) added
    /\ Forall (fun entry =>
                 truthy (fst entry) = true
                 /\ strip (fst entry) = fst entry
                 /\ dict_get "name" (snd entry) = Some (JStr (fst entry))
                 /\ Forall (fun field =>
                              json_truthy (get field (snd entry)) = true)
                           required_fields)
              added.
Proof.
  induction items as [|[key definition] rest IH]; intros normalized result;
    cbn [CrewMetadata.normalize_items].
  - intros [= <-] Hnd. exists []. rewrite app_nil_r.
    split; [reflexivity|]. split; [exact Hnd|]. split; constructor.
  - destruct definition as [| | | | |value]; try discriminate.
    set (chosen := if json_truthy (get "name" value) then get "name" value
                   else match key with JNull => JStr EmptyString | _ => key end).
    set (name := strip (str_of py_str chosen)).
    destruct (truthy name) eqn:Hname; cbn [negb]; [|discriminate].
    destruct (name_in name (map fst normalized)) eqn:Hdup; [discriminate|].
    apply name_in_false in Hdup.
    set (normalized_value := dict_update "name" (JStr name) value).
    destruct (filter (fun field =>
                json_truthy (get field normalized_value) = false)
                required_fields) as [|m ms] eqn:Hmissing; [|discriminate].
    intros Hrest Hnd.
    destruct (IH (normalized ++ [(name, normalized_value)]) result Hrest)
      as (added & -> & Hnd' & Hrel & Hgood).
    { rewrite map_app. cbn [map fst]. apply NoDup_app.
      split; [exact Hnd|]. split; [|apply NoDup_singleton].
      intros x Hx ->%list_elem_of_singleton. contradiction. }
    exists ((name, normalized_value) :: added).
    split; [now rewrite <- app_assoc|]. split; [exact Hnd'|].
    split.
    + cbn [map snd]. constructor; [|exact Hrel]. now exists value.
    + constructor; [|exact Hgood]. cbn [fst snd].
      split; [exact Hname|]. split; [apply strip_strip|].
      split; [apply dict_get_update|].
      apply Forall_forall. intros field Hfield.
      destruct (json_truthy (get field normalized_value)) eqn:Ht;
        [reflexivity|].
      assert (Hin : field ∈ filter (fun field =>
                      json_truthy (get field normalized_value) = false)
                      required_fields)
        by (apply list_elem_of_filter; now split).
      rewrite Hmissing in Hin. now apply elem_of_nil in Hin.
Qed.

Lemma validate_and_normalize_spec definitions allow_missing normalized order :
  validate_and_normalize py_str plural singular capital required_fields
                         definitions allow_missing
  = inr (Some normalized, order) ->
  validated required_fields definitions normalized order.
Proof.
  unfold validate_and_normalize, validated.
  destruct definitions as [| | | |entries|fields]; try discriminate.
  - destruct allow_missing; discriminate.
  - destruct (list_items entries) as [e|items] eqn:Hitems; cbn [bind];
      [discriminate|].
    destruct (normalize_items items []) as [e|result] eqn:Hn; cbn [bind];
      [discriminate|].
    intros [= <- <-].
    destruct (normalize_items_spec items [] result Hn)
      as (added & -> & Hnd & Hrel & Hgood); [constructor|].
    cbn [app] in *. rewrite (list_items_spec _ _ Hitems) in Hrel.
    now repeat split.
  - destruct (normalize_items (map (fun kv => (JStr (fst kv), snd kv)) fields)
                              []) as [e|result] eqn:Hn; cbn [bind];
      [discriminate|].
    intros [= <- <-].
    destruct (normalize_items_spec _ [] result Hn)
      as (added & -> & Hnd & Hrel & Hgood); [constructor|].
    cbn [app] in *. rewrite map_map in Hrel. cbn [snd] in Hrel.
    now repeat split.
Qed.

End ValidationLaws.

(** X15. What [validate_and_normalize_agents] and
    [validate_and_normalize_tasks] return for a configuration they
    accept: one entry for each definition, in the order given, equal to
    the definition with its [name] set to the entry's key; the keys are
    non-empty, stripped and pairwise distinct, [order] lists them, and
    every required field of every entry has a true value.  A missing
    configuration is accepted only when [allow_missing] is set, and
    then gives no dictionary and no names. *)
Theorem validated_definitions_are_complete py_str :
  (forall agents allow_missing normalized order,
      validate_and_normalize_agents py_str agents allow_missing
      = inr (Some normalized, order) ->
      validated ["name"; "role"; "goal"; "backstory"] agents normalized order)
  /\ (forall tasks allow_missing normalized order,
         validate_and_normalize_tasks py_str tasks allow_missing
         = inr (Some normalized, order) ->
         validated ["name"; "description"; "expected_output"]
                   tasks normalized order)
  /\ (forall definitions allow_missing order,
         (validate_and_normalize_agents py_str definitions allow_missing
          = inr (None, order)
          \/ validate_and_normalize_tasks py_str definitions allow_missing
             = inr (None, order)) ->
         definitions = JNull /\ allow_missing = true /\ order = []).
Proof.
  split; [|split].
  - intros agents allow_missing normalized order.
    apply validate_and_normalize_spec.
  - intros tasks allow_missing normalized order.
    apply validate_and_normalize_spec.
  - intros definitions allow_missing order.
    unfold validate_and_normalize_agents, validate_and_normalize_tasks,
      validate_and_normalize.
    destruct definitions as [| | | |entries|fields];
      try (intros [H|H]; discriminate H).
    + destruct allow_missing; intros [H|H]; try discriminate H;
        injection H as <-; auto.
    + intros [H|H]; revert H;
        destruct (CrewMetadata.list_items _ entries) as [e|items];
        cbn [bind]; try discriminate;
        destruct (CrewMetadata.normalize_items _ _ _ _ items []);
        cbn [bind]; discriminate.
    + intros [H|H]; revert H;
        destruct (CrewMetadata.normalize_items _ _ _ _ _ []);
        cbn [bind]; discriminate.
Qed.

Lemma validated_definitions_are_complete_witness :
  exists normalized,
    validate_and_normalize_agents (fun _ => "?") sample_agents false
    = inr (Some normalized, ["researcher"; "writer"])
    /\ validated ["name"; "role"; "goal"; "backstory"] sample_agents
                 normalized ["researcher"; "writer"].
Proof.
  eexists. split; [vm_compute; reflexivity|].
  apply (proj1 (validated_definitions_are_complete (fun _ => "?"))
               sample_agents false).
  vm_compute. reflexivity.
Defined.

Lemma normalize_order_enumerates_witness :
  _normalize_order (JList (JStr <$> ["writer"; "researcher"; "editor"]))
                   ["researcher"; "writer"; "editor"]
  = ["writer"; "researcher"; "editor"].
Proof.
  destruct normalize_order_enumerates as (_ & Hround & _).
  apply (Hround ["writer"; "researcher"; "editor"]
                ["researcher"; "writer"; "editor"]).
  - repeat (constructor;
            [rewrite ?elem_of_cons, ?elem_of_nil; intuition discriminate|]).
    constructor.
  - intros x. rewrite !elem_of_cons. tauto.
  - repeat constructor; discriminate.
Defined.

Lemma ensure_order_completes_witness :
  _ensure_order ["writer"; "editor"; "researcher"]
                ["researcher"; "writer"; "editor"]
  = ["writer"; "editor"; "researcher"].
Proof.
  destruct ensure_order_completes as (_ & _ & Hfix & _).
  apply (Hfix ["writer"; "editor"; "researcher"]
              ["researcher"; "writer"; "editor"]).
  intros x. rewrite !elem_of_cons. tauto.
Defined.

End CrewMetadataLaws.

(** ** crew_runtime.py: the life of a running crew *)

Module CrewRuntimeLaws.
Import PyStr PyExc CrewStorage CrewRuntime Json CrewRuntimeExit.
Import CrewRuntimeFacts.
Local Open Scope list_scope.

Lemma start_crew_registration h rt id proc :
  perform (Emit "crew_started"
             {| payload_crew_id := id; payload_process_id := pid proc;
                payload_status := "started" |})
    (record_activity h "crew_started"
       {| payload_crew_id := id; payload_process_id := pid proc;
          payload_status := "started" |}
       {| running_crews :=
            <[id := {| process := Some proc; process_id := pid proc |}]>
              (running_crews rt);
          effects := effects rt |})
  = registered h rt id proc.
Proof.
  unfold registered, handle_of, record_activity, started_effects, perform.
  destruct (has_activity_callback h); cbn [running_crews effects];
    f_equal; now rewrite <- ?app_assoc.
Qed.

(** The ways through [start_crew].  The tests, the command and the
    environment come before the first [await]: they do not depend on
    what else is scheduled. *)
Lemma start_crew_outcome h crew_id inputs rt :
  (exists e, forall others,
      start_crew h others crew_id inputs rt = (inl e, rt))
  \/ exists id cmd cwd env,
       normalize_crew_identifier crew_id = inr id
       /\ running_crews rt !! id = None
       /\ forall others,
            let spawned :=
              during_spawn others (perform (Spawn cmd cwd env) rt) in
            (exists e, spawn h cmd cwd env = inl e
                       /\ start_crew h others crew_id inputs rt
                          = (inl e, spawned))
            \/ exists proc,
                 spawn h cmd cwd env = inr proc
                 /\ ((exists e, emit_raises h "crew_started" = Some e
                            /\ start_crew h others crew_id inputs rt
                               = (inl e,
                                  during_emit others
                                    (registered h spawned id proc)))
                 \/ (emit_raises h "crew_started" = None
                     /\ start_crew h others crew_id inputs rt
                        = (inr (pid proc),
                           perform (CreateStreamTask id (pid proc))
                             (during_emit others
                                (registered h spawned id proc))))).
Proof.
  unfold start_crew.
  destruct (normalize_crew_identifier crew_id) as [e|id] eqn:Hn;
    [left; eauto|].
  destruct (decide (is_Some (running_crews rt !! id))) as [Hrun|Hfree];
    [left; eauto|].
  apply eq_None_not_Some in Hfree.
  destruct (resolve_existing_config_dir h id) as [e|[[crew_dir pkg_dir] cfg]];
    [left; eauto|].
  destruct (negb (path_exists h (joinpath h pkg_dir "main.py")));
    [left; eauto|].
  destruct (which_uv h) as [uv|]; cbv beta iota zeta;
    lazymatch goal with
    | |- context [if String.eqb (platform_system h) "Windows"
                  then _start_process_windows h ?cmd ?cwd ?env else _] =>
        right; exists id, cmd, cwd, env;
        (split; [reflexivity|]); (split; [exact Hfree|]);
        intros others; unfold spawn;
        destruct (if String.eqb (platform_system h) "Windows"
                  then _start_process_windows h cmd cwd env
                  else create_subprocess_exec h cmd cwd env) as [e|proc];
        [left; eauto|];
        right; exists proc; (split; [reflexivity|]);
        rewrite (start_crew_registration h
                   (during_spawn others (perform (Spawn cmd cwd env) rt))
                   id proc);
        destruct (emit_raises h "crew_started") as [e|]; [left | right]; eauto
    end.
Qed.

Lemma start_crew_refused h others crew_id inputs rt id hd :
  normalize_crew_identifier crew_id = inr id ->
  running_crews rt !! id = Some hd ->
  start_crew h others crew_id inputs rt
  = (inl (Exception ("Crew " ++ id ++ " is already running")%string), rt).
Proof.
  intros Hn Hk. unfold start_crew. rewrite Hn.
  destruct (decide (is_Some (running_crews rt !! id))) as [_|Hno];
    [reflexivity|].
  exfalso. apply Hno. now exists hd.
Qed.

Lemma stop_crew_keeps_map crew_id rt :
  running_crews (snd (stop_crew crew_id rt)) = running_crews rt.
Proof.
  unfold stop_crew.
  destruct (normalize_crew_identifier crew_id) as [e|id]; [reflexivity|].
  destruct (running_crews rt !! id) as [[[p|] ?]|]; try reflexivity.
  cbn [process].
  destruct (returncode p) as [[c|]|]; try reflexivity;
    destruct (terminate_raises p); try reflexivity;
    destruct (kill_raises p); reflexivity.
Qed.

(** X16. [start_crew] tests the normalised identifier once, before
    anything else: a call that gets as far as the spawn found it free.
    It then awaits the creation of the subprocess holding no lock, and
    registers the process in the map as the await left it, without
    testing again: a handle that another start of the same crew
    registered meanwhile is replaced.  A call that fails before the
    spawn leaves the runtime as it was, and one whose spawn fails
    leaves it as the await left it.  After the registration come the
    activity record and the emit of [crew_started], which is awaited
    too; when it raises the call raises with the process registered
    and no stream task created, otherwise the stream task is the last
    call made and the process id is returned.  As long as the
    identifier has a handle, and [stop_crew] does not remove it, every
    further [start_crew] for a spelling of it is refused as already
    running. *)
Theorem start_crew_registers_or_leaves h others crew_id inputs rt :
  let out := start_crew h others crew_id inputs rt in
  (snd out = rt /\ exists e, fst out = inl e)
  \/ exists id cmd cwd env,
       normalize_crew_identifier crew_id = inr id
       /\ running_crews rt !! id = None
       /\ (let spawned :=
              during_spawn others (perform (Spawn cmd cwd env) rt) in
           (snd out = spawned
            /\ exists e, spawn h cmd cwd env = inl e /\ fst out = inl e)
           \/ exists proc,
                let reg :=
                  {| running_crews :=
                       <[id := handle_of proc]> (running_crews spawned);
                     effects := effects spawned
                                ++ started_effects h id (pid proc) |} in
                spawn h cmd cwd env = inr proc
                /\ running_crews reg !! id = Some (handle_of proc)
                /\ (forall other, other <> id ->
                       running_crews reg !! other
                       = running_crews spawned !! other)
                /\ (fst out = inr (pid proc)
                    /\ emit_raises h "crew_started" = None
                    /\ snd out
                       = perform (CreateStreamTask id (pid proc))
                                 (during_emit others reg)
                    \/ exists e,
                         fst out = inl e
                         /\ emit_raises h "crew_started" = Some e
                         /\ snd out = during_emit others reg))
       /\ forall others' crew_id' inputs' stopped rt',
            normalize_crew_identifier crew_id' = inr id ->
            is_Some (running_crews rt' !! id) ->
            start_crew h others' crew_id' inputs' (snd (stop_crew stopped rt'))
            = (inl (Exception ("Crew " ++ id ++ " is already running")%string),
               snd (stop_crew stopped rt')).
Proof.
  intros out. subst out.
  destruct (start_crew_outcome h crew_id inputs rt)
    as [[e He]|(id & cmd & cwd & env & Hn & Hfree & Hout)].
  - left. rewrite He. split; [reflexivity | eauto].
  - right. exists id, cmd, cwd, env.
    split; [exact Hn|]. split; [exact Hfree|]. split.
    + cbv zeta. destruct (Hout others)
        as [(e & Hsp & ->)|(proc & Hsp & [(e & He & ->)|(He & ->)])];
        cbn [fst snd].
      * left. split; [reflexivity | eauto].
      * right. exists proc. split; [exact Hsp|].
        split; [apply lookup_insert_eq|].
        split; [intros other Hne; apply lookup_insert_ne; congruence|].
        right. exists e. now repeat split.
      * right. exists proc. split; [exact Hsp|].
        split; [apply lookup_insert_eq|].
        split; [intros other Hne; apply lookup_insert_ne; congruence|].
        left. now repeat split.
    + intros others' crew_id' inputs' stopped rt' Hn' [hd Hhd].
      apply (start_crew_refused _ _ _ _ _ id hd Hn').
      now rewrite stop_crew_keeps_map.
Qed.

(** *** The environment of the child process *)

Lemma update_env_other env kvs K :
  (forall kv, kv ∈ kvs -> fst kv <> K) ->
  update_env env kvs !! K = env !! K.
Proof.
  unfold update_env. revert env.
  induction kvs as [|kv kvs IH]; intros env Hno; [reflexivity|].
  cbn [fold_left]. rewrite IH by (intros x Hx; apply Hno; now right).
  apply lookup_insert_ne. apply Hno. now left.
Qed.

Lemma update_env_last env pre K v suf :
  (forall kv, kv ∈ suf -> fst kv <> K) ->
  update_env env (pre ++ (K, v) :: suf) !! K = Some v.
Proof.
  intros Hno. unfold update_env. rewrite fold_left_app. cbn [fold_left fst snd].
  change (update_env (<[K := v]> (fold_left
            (fun acc kv => <[fst kv := snd kv]> acc) pre env)) suf !! K
          = Some v).
  rewrite update_env_other by exact Hno. apply lookup_insert_eq.
Qed.

(** The environment handed to the spawn, as [start_crew] builds it. *)
Lemma start_crew_spawn h others crew_id inputs rt cmd cwd env :
  appends (during_spawn others) -> appends (during_emit others) ->
  effects (snd (start_crew h others crew_id inputs rt)) !! length (effects rt)
  = Some (Spawn cmd cwd env) ->
  exists id crew_dir pkg_dir cfg,
    normalize_crew_identifier crew_id = inr id
    /\ resolve_existing_config_dir h id = inr (crew_dir, pkg_dir, cfg)
    /\ let dotenv := if path_exists h (joinpath h crew_dir ".env")
                     then dotenv_values h (joinpath h crew_dir ".env")
                     else [] in
       let env0 :=
         update_env
           (<["PYTHONUNBUFFERED" := "1"]>
              (update_env (os_environ h)
                 (omap (fun kv => match snd kv with
                                  | Some v => Some (fst kv, v)
                                  | None => None
                                  end) dotenv)))
           (map (fun kv => (str_upper h (fst kv), snd kv)) inputs) in
       env = match which_uv h with
             | Some _ => env0
             | None =>
                 <["PYTHONPATH" :=
                     (joinpath h crew_dir "src" ++ pathsep h
                      ++ default EmptyString (env0 !! "PYTHONPATH"))%string]>
                   env0
             end.
Proof.
  intros Hsp Hem.
  assert (Hnone : effects rt !! length (effects rt) = Some (Spawn cmd cwd env)
                  -> False).
  { intros H. apply lookup_lt_Some in H. lia. }
  unfold start_crew.
  destruct (normalize_crew_identifier crew_id) as [e|id] eqn:Hn;
    [intros H; destruct (Hnone H)|].
  destruct (decide (is_Some (running_crews rt !! id))) as [Hrun|Hfree];
    [intros H; destruct (Hnone H)|].
  destruct (resolve_existing_config_dir h id)
    as [e|[[crew_dir pkg_dir] cfg]] eqn:Hres;
    [intros H; destruct (Hnone H)|].
  destruct (negb (path_exists h (joinpath h pkg_dir "main.py")));
    [intros H; destruct (Hnone H)|].
  intros H. exists id, crew_dir, pkg_dir, cfg.
  split; [reflexivity|]. split; [exact Hres|]. cbv zeta.
  revert H.
  destruct (which_uv h) as [uv|]; cbv beta iota zeta;
    lazymatch goal with
    | |- context [if String.eqb (platform_system h) "Windows"
                  then _start_process_windows h ?cmd' ?cwd' ?env' else _] =>
        assert (Hfirst : forall r : raising string * runtime,
                   (exists more, effects (snd r)
                                 = effects rt ++ Spawn cmd' cwd' env' :: more) ->
                   effects (snd r) !! length (effects rt)
                   = Some (Spawn cmd cwd env) -> env = env');
        [ intros r [more ->];
          rewrite lookup_app_r by lia;
          rewrite Nat.sub_diag; cbn; now intros [= _ _ ->]
        | apply Hfirst;
          destruct (Hsp (perform (Spawn cmd' cwd' env') rt)) as [more1 Hm1];
          cbn [perform effects] in Hm1;
          destruct (if String.eqb (platform_system h) "Windows"
                    then _start_process_windows h cmd' cwd' env'
                    else create_subprocess_exec h cmd' cwd' env')
            as [e|proc];
          [ exists more1; cbn [snd]; rewrite Hm1;
            now rewrite <- app_assoc |];
          rewrite (start_crew_registration h
                     (during_spawn others (perform (Spawn cmd' cwd' env') rt))
                     id proc);
          destruct (Hem (registered h
                           (during_spawn others
                              (perform (Spawn cmd' cwd' env') rt)) id proc))
            as [more2 Hm2];
          assert (Hreg : effects (registered h
                                    (during_spawn others
                                       (perform (Spawn cmd' cwd' env') rt))
                                    id proc)
                         = effects rt
                           ++ Spawn cmd' cwd' env'
                              :: more1 ++ started_effects h id (pid proc))
            by (unfold registered; cbn [effects]; rewrite Hm1;
                now rewrite <- !app_assoc);
          rewrite Hreg in Hm2;
          destruct (emit_raises h "crew_started");
            cbn [snd perform effects]; rewrite Hm2;
            rewrite <- !app_assoc; cbn [app]; eauto ]
    end.
Qed.

(** X17. The environment of the child process, which [start_crew]
    builds before its first [await]: it is the same whatever is
    scheduled during the call.  Of the variables as they stand
    before the interpreter path is set: an input overrides the crew's
    [.env] file, which overrides the environment of the server; the
    value of an input is found under its upper-cased key, the last
    input winning; [PYTHONUNBUFFERED] is [1] unless an input sets it;
    any other variable that no input sets has the last value the
    [.env] file gives it, or else the server's.  With [uv] that is the
    environment of the child.  Without [uv], [PYTHONPATH] is then set,
    after all of them, to the crew's [src] directory, the path
    separator of the platform and the value [PYTHONPATH] had until
    then, or the empty string if it had none; nothing else changes. *)
Theorem start_crew_env_precedence h others crew_id inputs rt cmd cwd env :
  appends (during_spawn others) -> appends (during_emit others) ->
  effects (snd (start_crew h others crew_id inputs rt)) !! length (effects rt)
  = Some (Spawn cmd cwd env) ->
  let U := str_upper h in
  exists id crew_dir pkg_dir cfg env0,
    normalize_crew_identifier crew_id = inr id
    /\ resolve_existing_config_dir h id = inr (crew_dir, pkg_dir, cfg)
    /\ let dotenv := if path_exists h (joinpath h crew_dir ".env")
                     then dotenv_values h (joinpath h crew_dir ".env")
                     else [] in
       (forall pre k v suf,
           inputs = pre ++ (k, v) :: suf ->
           (forall kv, kv ∈ suf -> U (fst kv) <> U k) ->
           env0 !! U k = Some v)
       /\ (forall K,
              (forall kv, kv ∈ inputs -> U (fst kv) <> K) ->
              (K = "PYTHONUNBUFFERED" -> env0 !! K = Some "1")
              /\ (K <> "PYTHONUNBUFFERED" ->
                  (forall pre v suf,
                      dotenv = pre ++ (K, Some v) :: suf ->
                      (forall kv, kv ∈ suf -> fst kv = K -> snd kv = None) ->
                      env0 !! K = Some v)
                  /\ ((forall kv, kv ∈ dotenv -> fst kv = K ->
                                  snd kv = None) ->
                      env0 !! K = os_environ h !! K)))
       /\ (is_Some (which_uv h) -> env = env0)
       /\ (which_uv h = None ->
           env = <["PYTHONPATH" :=
                     (joinpath h crew_dir "src" ++ pathsep h
                      ++ match env0 !! "PYTHONPATH" with
                         | Some previous => previous
                         | None => EmptyString
                         end)%string]> env0).
Proof.
  intros Hsp Hem Hspawn U.
  destruct (start_crew_spawn h others crew_id inputs rt cmd cwd env
                             Hsp Hem Hspawn)
    as (id & crew_dir & pkg_dir & cfg & Hn & Hres & Henv).
  cbv zeta in Henv.
  set (dotenv := if path_exists h (joinpath h crew_dir ".env")
                 then dotenv_values h (joinpath h crew_dir ".env") else [])
    in *.
  set (some_values := omap (fun kv : string * option string =>
                              match snd kv with
                              | Some v => Some (fst kv, v)
                              | None => None
                              end) dotenv) in *.
  set (upper_inputs := map (fun kv : string * string =>
                              (str_upper h (fst kv), snd kv)) inputs) in *.
  set (env0 := update_env (<["PYTHONUNBUFFERED" := "1"]>
                             (update_env (os_environ h) some_values))
                          upper_inputs) in *.
  exists id, crew_dir, pkg_dir, cfg, env0.
  split; [exact Hn|]. split; [exact Hres|].
  cbv zeta. fold dotenv.
  assert (Hupper : forall K, (forall kv, kv ∈ inputs -> U (fst kv) <> K) ->
                     forall kv, kv ∈ upper_inputs -> fst kv <> K).
  { intros K Hno kv Hkv. subst upper_inputs.
    apply list_elem_of_In, in_map_iff in Hkv as (kv0 & <- & Hin).
    cbn [fst]. apply Hno. now apply list_elem_of_In. }
  split; [|split; [|split]].
  - intros pre k v suf Hin Hlast.
    subst env0 upper_inputs. rewrite Hin, map_app. cbn [map fst snd].
    apply update_env_last. intros kv Hkv.
    apply list_elem_of_In, in_map_iff in Hkv as (kv0 & <- & Hin0).
    cbn [fst]. apply Hlast. now apply list_elem_of_In.
  - intros K Hno. subst env0.
    rewrite update_env_other by (apply Hupper; exact Hno).
    split.
    + intros ->. apply lookup_insert_eq.
    + intros Hne. rewrite lookup_insert_ne by congruence. split.
      * intros pre v suf Hd Hlast. subst some_values. rewrite Hd.
        rewrite omap_app. cbn [omap list_omap snd fst].
        apply update_env_last. intros kv Hkv.
        apply list_elem_of_omap in Hkv as ([k0 [v0|]] & Hin0 & Hsome);
          [|discriminate].
        injection Hsome as <-. cbn [fst]. intros ->.
        specialize (Hlast _ Hin0 eq_refl). discriminate.
      * intros Hnone. apply update_env_other. intros kv Hkv.
        subst some_values.
        apply list_elem_of_omap in Hkv as ([k0 [v0|]] & Hin0 & Hsome);
          [|discriminate].
        injection Hsome as <-. cbn [fst]. intros ->.
        specialize (Hnone _ Hin0 eq_refl). discriminate.
  - intros [uv Huv]. now rewrite Henv, Huv.
  - intros Huv. rewrite Henv, Huv.
    now destruct (env0 !! "PYTHONPATH").
Qed.

(** *** The exit path *)

Lemma dict_get_set key v items :
  dict_get key (dict_set key v items) = Some v.
Proof.
  induction items as [|[k x] rest IH]; cbn [dict_set dict_get].
  - now rewrite String.eqb_refl.
  - destruct (String.eqb k key) eqn:E; cbn [dict_get]; now rewrite E.
Qed.

Lemma dict_get_set_other key key' v items :
  key' <> key ->
  dict_get key' (dict_set key v items) = dict_get key' items.
Proof.
  intros Hne. induction items as [|[k x] rest IH]; cbn [dict_set dict_get].
  - now destruct (String.eqb_spec key key') as [->|].
  - destruct (String.eqb_spec k key) as [->|Hk]; cbn [dict_get].
    + now destruct (String.eqb_spec key key') as [->|].
    + now rewrite IH.
Qed.

Section ExitLaws.
Variable h : host.
Variable load_crew : string -> gset string
                     -> raising (option (list (string * json))).

Lemma emit_crew_update_calls crew_id running c :
  c ∈ snd (_emit_crew_update h load_crew crew_id running) ->
  exists crew_payload id,
    c = EmitUpdated crew_payload
    /\ dict_get "id" crew_payload = Some id
    /\ ((exists s, id = JStr s /\ is_Some (running !! s)
                   /\ dict_get "status" crew_payload = Some (JStr "running"))
        \/ ((forall s, id = JStr s -> running !! s = None)
            /\ dict_get "status" crew_payload = Some (JStr "ready"))).
Proof.
  unfold _emit_crew_update.
  destruct (load_crew crew_id (dom running)) as [e|[info|]];
    [destruct e; now intros ?%elem_of_nil| |now intros ?%elem_of_nil].
  destruct info as [|item rest]; [now intros ?%elem_of_nil|].
  set (info := item :: rest).
  set (id := default (JStr crew_id) (dict_get "id" info)).
  destruct (is_running id running) as [e|r] eqn:Hr;
    [now intros ?%elem_of_nil|].
  cbn [snd]. intros ->%list_elem_of_singleton.
  eexists _, id. split; [reflexivity|].
  split; [rewrite dict_get_set_other by discriminate; apply dict_get_set|].
  rewrite dict_get_set.
  destruct id as [| | |s| |]; cbn [is_running] in Hr;
    try discriminate; injection Hr as <-;
    try (right; split; [intros s0; discriminate | reflexivity]).
  destruct (bool_decide (is_Some (running !! s))) eqn:Hb.
  - apply bool_decide_eq_true in Hb. left. exists s. now repeat split.
  - apply bool_decide_eq_false in Hb. right.
    split; [|reflexivity]. intros s0 [= <-].
    now apply eq_None_not_Some.
Qed.

(** X18. [_handle_process_exit] removes the crew's handle at once,
    whatever else happens, and that undoes a registration by
    [start_crew]: the map is then as it was before the start.  It emits
    [crew_stopped] once, after the activity record if there is a
    callback, with status [stopped] and with the process id of the
    payload, or of the handle when the payload has none.  That emit is
    awaited, and the map is read again only afterwards, as the rest of
    the event loop has left it: a [crew_updated] that follows has
    status [running] exactly when its [id] has a handle in the map
    then.  For the crew that exited it is [ready] unless the crew was
    registered again during the await. *)
Theorem process_exit_frees_the_crew p emit_update meanwhile running :
  let out := _handle_process_exit h load_crew p emit_update meanwhile running in
  let id := exit_crew_id p in
  let popped := delete id running in
  popped !! id = None
  /\ (forall other, other <> id -> popped !! other = running !! other)
  /\ (forall proc before,
         before !! id = None ->
         running = <[id := handle_of proc]> before ->
         popped = before)
  /\ fst out = meanwhile popped
  /\ (exists pid_ updates,
         let payload := {| stopped_crew_id := id;
                           stopped_process_id := pid_;
                           stopped_exit_code := exit_code p;
                           stopped_status := "stopped" |} in
         snd out = (if has_activity_callback h then [RecordStopped payload]
                    else [])
                   ++ [EmitStopped payload] ++ updates
         /\ (truthy (exit_process_id p) = true -> pid_ = exit_process_id p)
         /\ (forall hd, truthy (exit_process_id p) = false ->
                        running !! id = Some hd -> pid_ = process_id hd)
         /\ (emit_update = false -> updates = [])
         /\ forall c, c ∈ updates ->
              exists crew_payload crew,
                c = EmitUpdated crew_payload
                /\ dict_get "id" crew_payload = Some crew
                /\ ((exists s, crew = JStr s
                               /\ is_Some (meanwhile popped !! s)
                               /\ dict_get "status" crew_payload
                                  = Some (JStr "running"))
                    \/ ((forall s, crew = JStr s ->
                                   meanwhile popped !! s = None)
                        /\ dict_get "status" crew_payload
                           = Some (JStr "ready")))
                /\ (meanwhile popped !! id = None -> crew = JStr id ->
                    dict_get "status" crew_payload = Some (JStr "ready"))).
Proof.
  intros out id popped. subst out.
  unfold _handle_process_exit. fold id. fold popped.
  set (pid_ := match running !! id with
               | Some hd => if negb (truthy (exit_process_id p))
                            then process_id hd else exit_process_id p
               | None => exit_process_id p
               end).
  set (payload := {| stopped_crew_id := id; stopped_process_id := pid_;
                     stopped_exit_code := exit_code p;
                     stopped_status := "stopped" |}).
  set (updates := if emit_update
                  then snd (_emit_crew_update h load_crew id
                                              (meanwhile popped))
                  else []).
  assert (Hout : (if emit_update
                  then (meanwhile popped,
                        ((if has_activity_callback h
                          then [RecordStopped payload] else [])
                         ++ [EmitStopped payload])
                        ++ snd (_emit_crew_update h load_crew id
                                                  (meanwhile popped)))
                  else (meanwhile popped,
                        (if has_activity_callback h
                         then [RecordStopped payload] else [])
                        ++ [EmitStopped payload]))
                 = (meanwhile popped,
                    (if has_activity_callback h
                     then [RecordStopped payload] else [])
                    ++ [EmitStopped payload] ++ updates)).
  { subst updates.
    destruct emit_update; [now rewrite <- app_assoc | now rewrite app_nil_r]. }
  cbv zeta. rewrite Hout. cbn [fst snd].
  split; [apply lookup_delete_eq|].
  split; [intros other Hne; now apply lookup_delete_ne|].
  split; [intros proc before Hfree ->; now apply delete_insert_id|].
  split; [reflexivity|].
  exists pid_, updates. split; [reflexivity|].
  split; [intros Ht; subst pid_; rewrite Ht;
          now destruct (running !! id)|].
  split; [intros hd Ht Hk; subst pid_; now rewrite Hk, Ht|].
  split; [intros ->; reflexivity|].
  intros c Hc. subst updates. destruct emit_update;
    [|now apply elem_of_nil in Hc].
  destruct (emit_crew_update_calls id (meanwhile popped) c Hc)
    as (crew_payload & crew & -> & Hid & Hst).
  exists crew_payload, crew. split; [reflexivity|]. split; [exact Hid|].
  split; [exact Hst|].
  intros Hgone ->.
  destruct Hst as [(s & [= <-] & Hs & _)|[_ Hst]]; [|exact Hst].
  rewrite Hgone in Hs. now destruct Hs.
Qed.

End ExitLaws.

(** Two starts of one crew: the second runs to its registration while
    the first awaits its subprocess.  Both spawn, and the handle of the
    first replaces the one of the second. *)
Lemma start_crew_registers_or_leaves_witness :
  let rt := {| running_crews := ∅; effects := [] |} in
  let second := sample_process (Some None) (Some (OSError "gone")) None in
  let others := {| during_spawn := another_start "my_crew" second;
                   during_emit := fun rt => rt |} in
  let out := start_crew sample_host others "my-crew" [("topic", "ai")] rt in
  fst out = inr "4242"
  /\ running_crews (snd out) !! "my_crew"
     = Some (handle_of (sample_process (Some None) None (Some None)))
  /\ start_crew sample_host alone " my.crew " []
                (snd (stop_crew "my_crew" (snd out)))
     = (inl (Exception "Crew my_crew is already running"),
        snd (stop_crew "my_crew" (snd out))).
Proof.
  intros rt second others out.
  destruct (start_crew_registers_or_leaves sample_host others "my-crew"
              [("topic", "ai")] rt)
    as [(_ & [e He])|(id & cmd & cwd & env & Hn & _ & _ & Hrep)].
  - vm_compute in He. discriminate He.
  - split; [vm_compute; reflexivity|].
    split; [vm_compute; reflexivity|].
    vm_compute in Hn. injection Hn as <-.
    apply (Hrep alone " my.crew " [] "my_crew" (snd out)).
    + vm_compute. reflexivity.
    + vm_compute. eauto.
Defined.

Lemma process_exit_frees_the_crew_witness :
  let rt := {| running_crews := ∅; effects := [] |} in
  let started :=
    snd (start_crew sample_host alone "my-crew" [("topic", "ai")] rt) in
  delete "my_crew" (running_crews started) = running_crews rt
  /\ fst (_handle_process_exit sample_host sample_load_crew
            {| exit_crew_id := "my_crew"; exit_process_id := EmptyString;
               exit_code := Some 0 |} true (fun m => m)
            (running_crews started))
     = running_crews rt.
Proof.
  intros rt started.
  destruct (process_exit_frees_the_crew sample_host sample_load_crew
              {| exit_crew_id := "my_crew"; exit_process_id := EmptyString;
                 exit_code := Some 0 |} true (fun m => m)
              (running_crews started))
    as (_ & _ & Hround & Hout & _).
  cbv zeta in Hround, Hout. cbn [exit_crew_id] in Hround, Hout.
  assert (Hpop : delete "my_crew" (running_crews started) = running_crews rt).
  { apply (Hround (sample_process (Some None) None (Some None))).
    - apply lookup_empty.
    - vm_compute. reflexivity. }
  split; [exact Hpop|]. now rewrite Hout.
Defined.

(** The crew is started again while the emit of [crew_stopped] is
    awaited: the update that follows the exit of the old process
    reports the crew as running. *)
Lemma exit_during_restart_reports_running :
  let old := sample_process (Some (Some 0)) None (Some None) in
  let new := sample_process (Some None) None (Some None) in
  let restart := fun m : gmap string handle =>
                   <["my_crew" := handle_of new]> m in
  _handle_process_exit sample_host sample_load_crew
    {| exit_crew_id := "my_crew"; exit_process_id := "4242";
       exit_code := Some 0 |} true restart
    {[ "my_crew" := handle_of old ]}
  = ({[ "my_crew" := handle_of new ]},
     [ RecordStopped {| stopped_crew_id := "my_crew";
                        stopped_process_id := "4242";
                        stopped_exit_code := Some 0;
                        stopped_status := "stopped" |};
       EmitStopped {| stopped_crew_id := "my_crew";
                      stopped_process_id := "4242";
                      stopped_exit_code := Some 0;
                      stopped_status := "stopped" |};
       EmitUpdated [("id", JStr "my_crew"); ("name", JStr "A crew");
                    ("status", JStr "running")] ]).
Proof.
  intros old new restart. unfold _handle_process_exit.
  cbn [exit_crew_id exit_process_id exit_code PyStr.truthy negb].
  subst restart. cbv beta.
  rewrite delete_singleton_eq, insert_empty.
  vm_compute. reflexivity.
Qed.

Lemma start_crew_env_precedence_witness :
  match effects (snd (start_crew sample_host_env sample_busy "my-crew"
                        [("topic", "ai"); ("Topic", "ml")]
                        {| running_crews := ∅; effects := [] |})) !! 0%nat with
  | Some (Spawn _ _ env) =>
      env !! "TOPIC" = Some "ml"
      /\ env !! "MODEL" = Some "from-dotenv"
      /\ env !! "EMPTY" = Some "from-server"
      /\ env !! "PYTHONUNBUFFERED" = Some "1"
      /\ env !! "PYTHONPATH" = Some "/crews/my_crew/src:/opt/lib"
  | _ => False
  end.
Proof.
  destruct (effects (snd (start_crew sample_host_env sample_busy "my-crew"
                            [("topic", "ai"); ("Topic", "ml")]
                            {| running_crews := ∅; effects := [] |}))
              !! 0%nat) as [[cmd cwd env| | | | |]|] eqn:H;
    try (vm_compute in H; discriminate H).
  assert (Hadds : forall e, appends (perform e)).
  { intros e rt0. now exists [e]. }
  destruct (start_crew_env_precedence sample_host_env sample_busy "my-crew"
              [("topic", "ai"); ("Topic", "ml")]
              {| running_crews := ∅; effects := [] |} cmd cwd env
              (Hadds _) (Hadds _) H)
    as (id & crew_dir & pkg_dir & cfg & env0 & Hn & Hres & Hin & Hother
        & _ & Hpath).
  vm_compute in Hn. injection Hn as <-.
  assert (Hno : forall K, K <> "TOPIC" ->
            forall kv, kv ∈ [("topic", "ai"); ("Topic", "ml")] ->
                       str_upper sample_host_env (fst kv) <> K).
  { intros K HK kv Hkv. rewrite !elem_of_cons, elem_of_nil in Hkv.
    destruct Hkv as [->|[->|[]]]; intros E; apply HK; rewrite <- E;
      vm_compute; reflexivity. }
  injection Hres as <- _ _.
  assert (Hp0 : env0 !! "PYTHONPATH" = Some "/opt/lib").
  { destruct (Hother "PYTHONPATH") as [_ Hdot];
      [apply Hno; discriminate|].
    destruct Hdot as [_ Henv]; [discriminate|].
    rewrite Henv; [vm_compute; reflexivity|].
    intros kv Hkv. cbn in Hkv. rewrite !elem_of_cons, elem_of_nil in Hkv.
    destruct Hkv as [->|[->|[->|[]]]]; cbn; discriminate. }
  rewrite (Hpath eq_refl), Hp0.
  change (joinpath sample_host_env ("/crews/" ++ "my_crew") "src"
          ++ pathsep sample_host_env ++ "/opt/lib")%string
    with "/crews/my_crew/src:/opt/lib".
  split; [|split; [|split; [|split]]].
  - rewrite lookup_insert_ne by discriminate.
    apply (Hin [("topic", "ai")] "Topic" "ml" []).
    + reflexivity.
    + intros kv Hkv. now apply elem_of_nil in Hkv.
  - rewrite lookup_insert_ne by discriminate.
    destruct (Hother "MODEL") as [_ Hdot]; [apply Hno; discriminate|].
    destruct Hdot as [Hdot _]; [discriminate|].
    apply (Hdot [] "from-dotenv" [("EMPTY", None); ("TOPIC", Some "from-dotenv")]).
    + reflexivity.
    + intros kv Hkv. rewrite !elem_of_cons, elem_of_nil in Hkv.
      destruct Hkv as [->|[->|[]]]; cbn; [reflexivity | discriminate].
  - rewrite lookup_insert_ne by discriminate.
    destruct (Hother "EMPTY") as [_ Hdot]; [apply Hno; discriminate|].
    destruct Hdot as [_ Henv]; [discriminate|].
    rewrite Henv.
    + vm_compute. reflexivity.
    + intros kv Hkv. cbn in Hkv. rewrite !elem_of_cons, elem_of_nil in Hkv.
      destruct Hkv as [->|[->|[->|[]]]]; cbn; (reflexivity || discriminate).
  - rewrite lookup_insert_ne by discriminate.
    destruct (Hother "PYTHONUNBUFFERED") as [Hone _];
      [apply Hno; discriminate|].
    now apply Hone.
  - rewrite lookup_insert_eq. reflexivity.
Defined.

End CrewRuntimeLaws.
